(* ===== verification/_CoqProject ===== *)
-Q . S2P
Prelude.v
Text.v
RustStr.v
Json.v
Serde.v
Graph.v
Ontology.v
OntologyFacts.v
SliceFacts.v
Pipeline.v
PipelineFacts.v
ThreeWay.v
DiffMerge.v
MergeFacts.v
Authoring.v
AuthoringFacts.v
Composition.v
CompositionFacts.v
State.v
Store.v
Domain.v
AuthoringService.v
OntologyAuthoring.v
PluginOntology.v
StoreLogic.v
RegistryInv.v
DomainSafe.v
AuthoringSafe.v
RegistryFacts.v
HistoryFacts.v
DomainFacts.v
StateJson.v
PluginFacts.v
LakeFs.v
Services.v
LakeFsFacts.v
ErasureFacts.v
MemServices.v
Grpc.v
GrpcFacts.v
Proc.v
Template.v
TemplateFacts.v
JobQueue.v
JobQueueFacts.v
Compiler.v
CompilerFacts.v
CompilerDemo.v
Authorization.v
AuthorizationFacts.v
Pengolo.v
Agents.v
AgentsFacts.v
Activity.v
CompilerTools.v
Workspace.v
ActivityFacts.v
WorkspaceFacts.v
WorkspaceDemo.v
Database.v
RecordStore.v
TxLogic.v
RecordStoreInv.v
RecordStoreLog.v
RecordStoreFacts.v
RecordStoreVersions.v
RecordStoreDemo.v
Delegation.v
DelegationFacts.v
Linked.v
LinkedFacts.v
LinkedDemo.v
Backend.v
BackendFacts.v
BackendDemo.v
