(* ===== verification/Prelude.v ===== *)
(** * Galadril: a verification development

    Galadril is a platform of services.  Three of them are modelled, with the
    calls they make to each other:

    ** The Registry (src/platform/registry)

    keeps the pipelines and ontologies of every tenant as immutable revisions.
    Its parts, from the bottom up:

    - documents: pipeline and ontology definitions are [serde_json::Value]s.
      Json.v has the values with their insertion order, [==], accessors and
      printing, Serde.v what [#[derive(Deserialize)]] generates; Text.v and
      RustStr.v have Rust byte strings, their methods and every identity validator
      (storage.rs, domain.rs, semantics.rs, composition.rs, authoring.rs);
    - semantics.rs: ontology validation and slicing (Graph.v, Ontology.v), pipeline
      validation and topological order (Graph.v, Pipeline.v), semantic diff and
      three-way merge (ThreeWay.v, DiffMerge.v);
    - composition.rs: bounded expansion of pipeline transfers (Composition.v);
    - authoring.rs: drafts, normalization, block-aware merge, comparison,
      executability and diagnostics (Authoring.v);
    - plugin_ontology.rs: overlays over plugin packages (PluginOntology.v);
    - state.rs: the tenant artifact (State.v);
    - storage.rs: the trait [RevisionStore] as a contract on abstract worlds and a
      class of implementations (Store.v); the stored artifacts and their derived
      (de)serialization (StateJson.v); [LakeFsStore] and [S3TenantDirectory] as
      programs over the requests they send (LakeFs.v);
    - domain.rs, authoring_service.rs, ontology_authoring.rs: the methods of
      [Registry<S>] as programs over the store (Domain.v, AuthoringService.v,
      OntologyAuthoring.v);
    - grpc.rs: the handlers [rpc_*] that decode a request, run one of these methods
      and encode its reply or its error's status (Grpc.v).

    ** The document compiler (src/platform/document-compiler,
       src/services/document-compiler)

    typesets documents from templates in a sandbox, for a user who delegated the
    work.

    - domain.rs: templates, their validation, sealing, escaping and rendering, and
      what the sandboxed worker accepts (Template.v);
    - adapters/queue.rs: the table of jobs with its leases (JobQueue.v);
    - application.rs: the methods of [Compiler] and one turn of its worker, over the
      ports of ports.rs (Compiler.v, CompilerDemo.v);
    - tools.rs, archive.rs: operations and archives shared with the gateway
      (CompilerTools.v).

    ** The gateway (src/services/gateway)

    decides who may do what, and keeps the workspaces of users.

    - usecases/authorization.rs: [AuthService] over SpiceDB, Cedar and the cache of
      compiled policies (Authorization.v);
    - domain/pengolo.rs: records, requests and rules of a workspace (Pengolo.v);
      domain/capabilities.rs: specialists and their tools (Agents.v);
      domain/agent_activity.rs: what agents report and users answer (Activity.v);
    - usecases/pengolo.rs: [PengoloService] (Workspace.v, WorkspaceDemo.v);
    - usecases/pengolo/compiler.rs: the authority of the document compiler and the
      publication of its documents (Delegation.v);
    - adapters/outbound/database/connection.rs and pengolo.rs, with the migrations
      of their tables: Database.v has the tables, their checks and row-level
      security, and transactions of one tenant; RecordStore.v every method of
      [PgPengoloStore], statement by statement (RecordStoreDemo.v runs them);
    - the service and the store together, with any number of requests at once
      (Backend.v, BackendDemo.v);
    - the worker, the HTTP call to the gateway, the gateway's endpoint and its
      authorization service, composed into one program (Linked.v, LinkedDemo.v).

    ** Correspondence

    A Rust function is a Rocq function of the same name; an arm of a long [match]
    or a loop body has a name of its own.  [anyhow::Result] is [result] (below),
    with [?] as monadic bind and the messages of [ensure!], [bail!] and [context]
    as in the source; an error of another crate is [Foreign].  [String] is a
    [string] of UTF-8 bytes, [BTreeMap] a [gmap] iterated in key order
    ([btree_entries]), [Vec] a [list], [usize] a [nat], [u64] and [i64] a [Z].
    Records have the fields of the source under a prefix.  A method of
    [Registry<S>] is a [prog]: a tree of the store calls and clock reads it makes,
    that stops at the first error, as [?] does after every [await].
    [serde_json::to_vec] and SHA-256 are code of other crates: the class
    [Externals] (Authoring.v) is their interface, [demo_externals] an instance the
    examples compute with.  A method of [LakeFsStore] is an [io] program over HTTP,
    S3, cache and lock requests; the URL and JSON parsers are the class
    [StorageExternals], lakeFS and S3 the class [Services], whose law is their
    documented behaviour on a view of their state (Services.v), with in-memory
    instances (MemServices.v).  The decoders of tagged command documents are the
    class [GrpcExternals] (Grpc.v).

    A method of the document compiler or the gateway is a [proc] (Proc.v): a tree
    of the calls it makes to its ports, whose answers, errors included, it sees one
    by one.  Nothing is assumed of the answers: theorems speak of every run, that
    is, every list of calls with their answers.  [safe] is a logic for such
    statements, and [interp] answers the calls of one program with another.  Other
    crates are classes of operations: [Cedar], [CompilerExternals], [Uuids],
    [ActivityExternals], [WorkspaceExternals], [Digests], [Zip], [GrantFormat]; the
    laws some theorems need of them ([CompilerLaws], [UrlLaws], [GrantLaws]) say
    that derived formats round trip and what the origin of an address is, and each
    has an instance.

    A method of the record store is a [tx] (Database.v): a program on the tables
    that stops at the first error.  [transaction] runs it for a tenant and commits
    or rolls back; what it reads of the clock, random identifiers, failing
    statements, the order of an unordered scan, the answers of the object store and
    the outcome of the commit is its environment [env], of which the theorems
    assume only that a scan permutes the rows.  A transaction is one atomic step: its
    statements lock the rows they change.  PostgreSQL's JSONB, casts and collation
    are the class [Postgres]; [PostgresLaws] says that what is stored in a JSONB
    column comes back with the same members.  [step] (RecordStoreFacts.v) is everything
    that changes the tables: transactions of any tenant, a crash, the IAM
    administration and the indexer; a save of a generation through the general
    [save] is taken to edit the version it names and to keep its log fields.  That
    the service does so is proved in BackendFacts.v, where the programs of the
    service and the transactions of the store run together: tasks take turns call by
    call and transaction by transaction, and the idempotency key of a removed
    generation is not used again ([changes]); BackendDemo.v shows what happens when
    it is.

    ** What the theorems show

    - OntologyFacts.v, SliceFacts.v: [validate_ontology] accepts exactly the well
      formed graphs; a slice is the dependency closure of its selection.
    - PipelineFacts.v: [validate_pipeline_internal] accepts exactly the well formed
      definitions, and the order it returns is topological.
    - MergeFacts.v, AuthoringFacts.v: both merges follow the three-way contract of
      ThreeWay.v at every path, conflicts are reported exactly where the sides
      diverge; diffs list exactly what changed; conflict pointers and the
      normalized form are faithful; drafts are bounded.
    - CompositionFacts.v: compiled pipelines are flat, within the block and
      transfer limits, with fresh names, and the expansion terminates.
    - StoreLogic.v, RegistryInv.v, DomainSafe.v, AuthoringSafe.v, RegistryFacts.v:
      a program logic over the store contract, an invariant of stored states, the
      proof that every method preserves it, and the system theorems: for every
      interleaving of any number of requests, with store calls that fail or lose
      their acknowledgement, all stored states are well formed, histories are
      linear, production revisions passed the gates and have a stable runtime
      definition, and each mutating method is one atomic edit of the head.
    - LakeFsFacts.v: every history of calls on [LakeFsStore], with requests that fail
      or lose their acknowledgement inside a method and cache entries that expire,
      is a history of the contract; ErasureFacts.v: a deletion erases the tenant and
      nothing else and its loop ends, routes are unambiguous, and what truncated
      repository names distinguish; StateJson.v: stored states can be read back.
    - GrpcFacts.v: a pipeline written through the API is read back as it was
      written, and the status of a refused ontology depends on the names in it.
    - HistoryFacts.v, DomainFacts.v, PluginFacts.v: the history of an ontology can
      always be paged; the loop that loads dependencies ends; plugin overlays
      change only the mapped participants.
    - TemplateFacts.v: rendering is simultaneous substitution, values cannot become
      TeX commands or placeholders, what is rendered is accepted by the worker, and
      sealing is canonical.
    - JobQueueFacts.v: for every sequence of queue operations, jobs keep their
      identity, terminal states are final, and a worker whose lease was lost cannot
      finish a job.
    - CompilerFacts.v: requests stay in the tenant of their capability, the worker
      compiles only what was submitted and authorized, stored templates read back.
    - AuthorizationFacts.v: whoever is allowed was allowed by SpiceDB and by the
      policy of the tenant; the policy cache changes no decision and stays within
      its bounds; objects of different tenants have different names.
    - AgentsFacts.v, ActivityFacts.v: a specialist gets exactly the tools its Skills
      require; reported search sites pass the screening of reports.
    - WorkspaceFacts.v: every request of a user stays inside what this user may see
      and change; a conversation shows no answer whose sources were lost; moving a
      conversation discloses no document.
    - TxLogic.v, RecordStoreInv.v, RecordStoreLog.v, RecordStoreFacts.v: a logic for
      transactions, the invariant of the tables and the theorems of every reachable
      database: the output of a generation is a log without gaps that agrees with its
      record, is read back in order, records an event once and is closed by one
      terminal event; no capability outlives its generation; rows are well formed and
      expiring ones known to the sweeper; tenants do not see or touch each other's
      rows.
    - RecordStoreVersions.v: a revision names one content and a save against an old
      revision is refused; objects are deleted only past their deadline, which a read
      renews; the recursive queries compute the inheritance of roles; a generation
      that still reports is not expired.
    - BackendFacts.v: however requests, callbacks and sweeps interleave, the database
      stays one of those the store theorems speak of, with consistent logs, and a
      request changes no row of another tenant.
    - DelegationFacts.v: a grant to the compiler is re-checked at every use, and a
      document is published only under live authority.
    - LinkedFacts.v: in the composed system a project reaches the sandbox only after
      SpiceDB confirmed the user's permission on its template.

    ** Fuel

    A [while] loop takes fuel, and a theorem shows the fuel its caller passes is
    enough: the graph searches of Graph.v take the size of the graph; [append] of
    Composition.v takes [APPEND_FUEL] = 4, one more than the three transfers the
    code allows ([append_terminates]); merge and comparison of drafts take
    [MERGE_FUEL] = 33, the depths 0 to 32 the code allows; [load_definitions] takes
    [LOAD_FUEL] = 13 ([load_definitions_terminates]); [walk_history] recurses on
    the page limit; [substitute] of Template.v takes one more than the length of
    the text; the searches of Agents.v take [search_fuel], one for every
    requirement in the catalog ([agent_tools_exact]).  [compile_loop] takes [TICKS]
    = 151, the half-second ticks in the 75 seconds after which the caller drops the
    task; [project_pages] recurses on the ten pages the code reads; [close_roles]
    of RecordStore.v takes the number of parent edges ([close_roles_closed]).

    ** Not modelled

    Two calls of [LakeFsStore] interleaved inside each other (the code serializes
    the mutating calls of a tenant by a lock; reads are not locked), authentication
    headers and timeouts of its HTTP client, the server around the gRPC handlers
    (services/registry), code generated from protobuf, tracing.  Of the document
    compiler: the S3 and sandbox adapters, the gRPC handlers, the system calls of
    the sandbox, and the scheduling of the worker's tasks.  Of the gateway: the
    GraphQL schema, HTTP routes other than the delegation endpoint, the other database
    adapters (IAM, sign-on, audit, conversations, document index), notifications of
    library changes, document search and web search, and the other use cases
    (conversations, mail, pipelines, IAM administration).  Intake, telemetry
    and plugins. *)

From stdpp Require Export gmap strings list sorting pretty relations.
From Stdlib Require Export Wellfounded.Inclusion.

(** ** Errors

    Every fallible function of the Registry returns [anyhow::Result].  An error
    is either the message the code itself attaches ([ensure!], [bail!],
    [.context(..)]) or an error of a library the code calls, which the code
    forwards with [?]. *)
Inductive error : Type :=
  | Msg (message : string)
  | Foreign (origin : string).

Inductive result (A : Type) : Type :=
  | Ok (a : A)
  | Err (e : error).
Arguments Ok {_} _.
Arguments Err {_} _.

#[export] Instance error_eq_dec : EqDecision error.
Proof. solve_decision. Defined.
#[export] Instance result_eq_dec `{EqDecision A} : EqDecision (result A).
Proof. solve_decision. Defined.

#[export] Instance result_ret : MRet result := fun _ a => Ok a.
#[export] Instance result_bind : MBind result := fun _ _ f r =>
  match r with Ok a => f a | Err e => Err e end.
#[export] Instance result_fmap : FMap result := fun _ _ f r =>
  match r with Ok a => Ok (f a) | Err e => Err e end.

(** [ensure!(b, message)] and [option.context(message)]. *)
Definition ensure (b : bool) (message : string) : result unit :=
  if b then Ok tt else Err (Msg message).
Definition with_context {A} (message : string) (o : option A) : result A :=
  match o with Some a => Ok a | None => Err (Msg message) end.
Definition is_Ok {A} (r : result A) : bool :=
  match r with Ok _ => true | Err _ => false end.

(** [Option::filter], [is_none_or], [is_some_and] as boolean tests. *)
Definition option_filter {A} (p : A -> bool) (o : option A) : option A :=
  match o with Some a => if p a then Some a else None | None => None end.
Definition is_none_or {A} (p : A -> bool) (o : option A) : bool :=
  match o with Some a => p a | None => true end.
Definition is_some_and {A} (p : A -> bool) (o : option A) : bool :=
  match o with Some a => p a | None => false end.
Definition option_is_some {A} (o : option A) : bool :=
  match o with Some _ => true | None => false end.
Definition option_is_none {A} (o : option A) : bool := negb (option_is_some o).

(** A [for] loop over a slice whose body may return early with an error. *)
Fixpoint for_each {A} (f : A -> result unit) (l : list A) : result unit :=
  match l with
  | [] => Ok tt
  | x :: l => f x ;; for_each f l
  end.

(** ** Ordered maps and sets keyed by strings

    A [BTreeMap<String, V>] is a [gmap string V] and a [BTreeSet<&str>] a
    [gset string]; iteration is in ascending byte order of the keys. *)
Definition btree_elements (X : gset string) : list string :=
  merge_sort String.le (elements X).
Definition btree_keys {V} (m : gmap string V) : list string :=
  btree_elements (dom m).
Definition btree_entries {V} (m : gmap string V) : list (string * V) :=
  omap (fun k => pair k <$> m !! k) (btree_keys m).
Definition btree_values {V} (m : gmap string V) : list V :=
  (btree_entries m).*2.
(** [iter.collect::<BTreeMap<_, _>>()]: a later entry overwrites an earlier one. *)
Definition btree_collect {V} (l : list (string * V)) : gmap string V :=
  foldl (fun m kv => <[kv.1 := kv.2]> m) ∅ l.
(** [iter.collect::<BTreeSet<_>>()] *)
Definition btree_set (l : list string) : gset string := list_to_set l.

(** [issues.join("; ")] *)
Definition join_issues (issues : list string) : string :=
  match issues with
  | [] => ""
  | i :: rest => foldl (fun acc j => acc +:+ "; " +:+ j) i rest
  end.

(** ** Lemmas on results *)
Section results.
Context {A B : Type}.
Implicit Types (r : result A) (f : A -> result B).

Lemma bind_Ok_inv r f b : (r ≫= f) = Ok b -> exists a, r = Ok a /\ f a = Ok b.
Proof. destruct r as [a|e]; simpl; [eauto | done]. Qed.

Lemma bind_Ok_iff r f b : (r ≫= f) = Ok b <-> exists a, r = Ok a /\ f a = Ok b.
Proof. split; [apply bind_Ok_inv | intros (a & -> & H); exact H]. Qed.

Lemma fmap_Ok_inv r (g : A -> B) b : g <$> r = Ok b -> exists a, r = Ok a /\ b = g a.
Proof. destruct r as [a|e]; intros [=]; eauto. Qed.

Lemma context_Ok_inv m (o : option A) a : with_context m o = Ok a -> o = Some a.
Proof. destruct o; simpl; congruence. Qed.

Lemma context_Ok_iff m (o : option A) a : with_context m o = Ok a <-> o = Some a.
Proof. destruct o; simpl; split; congruence. Qed.
End results.

Lemma ensure_Ok_inv b m u : ensure b m = Ok u -> b = true.
Proof. destruct b; simpl; congruence. Qed.

Lemma ensure_Ok_iff b m : ensure b m = Ok tt <-> b = true.
Proof. destruct b; simpl; split; congruence. Qed.

Lemma option_filter_Some {A} (p : A -> bool) o a :
  option_filter p o = Some a <-> o = Some a /\ p a = true.
Proof.
  destruct o as [x|]; simpl; [|split; [done|by intros [??]]].
  destruct (p x) eqn:E; split; intros H; [by simplify_eq|by destruct H..|done|].
  destruct H; congruence.
Qed.

Lemma for_each_Ok {A} (f : A -> result unit) l :
  for_each f l = Ok tt <-> Forall (fun x => f x = Ok tt) l.
Proof.
  induction l as [|x l IH]; simpl; [split; [constructor|done]|].
  rewrite Forall_cons, <-IH. split.
  - intros (u & H1 & H2)%bind_Ok_inv. by destruct u.
  - intros [-> H]. exact H.
Qed.

Lemma mapM_Ok_Forall2 {A B} (f : A -> result B) l k :
  mapM f l = Ok k <-> Forall2 (fun x y => f x = Ok y) l k.
Proof.
  revert k. induction l as [|x l IH]; intros k; simpl.
  - split; [intros [= <-]; constructor | by intros H; inversion H].
  - split.
    + intros (y & Hy & (k' & Hk & [= <-])%bind_Ok_inv)%bind_Ok_inv.
      constructor; [done|]. by apply IH.
    + intros H; inversion H as [|? y ? k' Hy Hk]; subst. rewrite Hy. simpl.
      by rewrite (proj2 (IH k') Hk).
Qed.

Lemma list_filter_all {A} (P : A -> Prop) `{forall x, Decision (P x)} l :
  Forall P l -> filter P l = l.
Proof. induction 1; [done|]. rewrite filter_cons_True by done. by f_equal. Qed.

(** [List.filter] is the [Iterator::filter] of a boolean closure. *)
Lemma elem_of_bfilter {A} (p : A -> bool) l x :
  x ∈ List.filter p l <-> x ∈ l /\ p x = true.
Proof. rewrite !list_elem_of_In. apply filter_In. Qed.

Lemma omap_nil_iff {A B} (f : A -> option B) l :
  omap f l = [] <-> forall x, x ∈ l -> f x = None.
Proof.
  rewrite <-Forall_forall. induction l as [|x l IH]; simpl; [split; [constructor|done]|].
  rewrite Forall_cons. destruct (f x); [split; [done|by intros [? _]]|].
  rewrite <-IH. split; [by split|by intros [_ ?]].
Qed.

Lemma bind_nil_iff {A B} (f : A -> list B) l :
  (l ≫= f) = [] <-> forall x, x ∈ l -> f x = [].
Proof.
  rewrite <-Forall_forall. induction l as [|x l IH]; simpl; [split; [constructor|done]|].
  rewrite Forall_cons, <-IH. apply app_nil.
Qed.

Lemma concat_nil_iff {A} (l : list (list A)) : concat l = [] <-> Forall (.= []) l.
Proof.
  induction l as [|x l IH]; simpl; [split; [constructor|done]|].
  rewrite app_nil, Forall_cons, IH. done.
Qed.

Lemma tc_subrel {A} (R S : relation A) x y :
  (forall a b, R a b -> S a b) -> tc R x y -> tc S x y.
Proof. intros H. induction 1; [by apply tc_once, H|]. eapply tc_l; eauto. Qed.

(** Decomposes hypotheses [e = Ok a] built from the combinators above, down to
    the facts the code checked. *)
Ltac res_step :=
  match goal with
  | H : (_ ≫= _) = Ok _ |- _ =>
      let a := fresh "x" in let E := fresh "E" in
      apply bind_Ok_inv in H as (a & E & H)
  | H : _ <$> _ = Ok _ |- _ =>
      let a := fresh "x" in let E := fresh "E" in
      apply fmap_Ok_inv in H as (a & E & ?); subst
  | H : ensure _ _ = Ok _ |- _ => apply ensure_Ok_inv in H
  | H : with_context _ _ = Ok _ |- _ => apply context_Ok_inv in H
  | H : Ok _ = Ok _ |- _ => injection H as H; subst
  | H : Err _ = Ok _ |- _ => discriminate H
  | H : mret _ = Ok _ |- _ => unfold mret, result_ret in H
  | x : unit |- _ => destruct x
  end.
Ltac res_inv := repeat (res_step; simpl in *).

(** Splits boolean conjunctions and turns boolean tests into propositions. *)
Ltac bool_inv :=
  repeat match goal with
  | H : _ && _ = true |- _ => apply andb_prop in H as [? ?]
  | H : negb _ = true |- _ => apply negb_true_iff in H
  | H : bool_decide _ = true |- _ => apply bool_decide_eq_true in H
  | H : bool_decide _ = false |- _ => apply bool_decide_eq_false in H
  end.

Create HintDb registry.
#[export] Hint Resolve ensure_Ok_iff context_Ok_iff : registry.

(** ** Lemmas on ordered maps and sets *)
Lemma elem_of_btree_elements x X : x ∈ btree_elements X <-> x ∈ X.
Proof.
  unfold btree_elements. rewrite (merge_sort_Permutation String.le).
  apply elem_of_elements.
Qed.

Lemma NoDup_btree_elements X : NoDup (btree_elements X).
Proof.
  unfold btree_elements. rewrite (merge_sort_Permutation String.le).
  apply NoDup_elements.
Qed.

Lemma btree_elements_sorted X : StronglySorted String.le (btree_elements X).
Proof. apply (StronglySorted_merge_sort String.le). Qed.

Lemma length_btree_elements X : length (btree_elements X) = size X.
Proof. unfold btree_elements. by rewrite (merge_sort_Permutation String.le). Qed.

Lemma elem_of_btree_keys {V} (m : gmap string V) k :
  k ∈ btree_keys m <-> is_Some (m !! k).
Proof. unfold btree_keys. by rewrite elem_of_btree_elements, elem_of_dom. Qed.

Lemma elem_of_btree_entries {V} (m : gmap string V) k v :
  (k, v) ∈ btree_entries m <-> m !! k = Some v.
Proof.
  unfold btree_entries. rewrite list_elem_of_omap. split.
  - intros (k' & _ & H). destruct (m !! k') eqn:E; naive_solver.
  - intros H. exists k. split; [apply elem_of_btree_keys; eauto|]. by rewrite H.
Qed.

Lemma elem_of_btree_values {V} (m : gmap string V) v :
  v ∈ btree_values m <-> exists k, m !! k = Some v.
Proof.
  unfold btree_values. rewrite list_elem_of_fmap. split.
  - intros ([k w] & -> & H%elem_of_btree_entries). eauto.
  - intros [k H]. exists (k, v). by rewrite elem_of_btree_entries.
Qed.

Lemma btree_entries_fst {V} (m : gmap string V) :
  (btree_entries m).*1 = btree_keys m.
Proof.
  unfold btree_entries.
  assert (Forall (fun k => is_Some (m !! k)) (btree_keys m)) as H.
  { apply Forall_forall. intros k. apply elem_of_btree_keys. }
  induction H as [|k l [v Hv] _ IH]; simpl; [done|].
  rewrite Hv. simpl. f_equal. exact IH.
Qed.

Lemma NoDup_btree_entries_fst {V} (m : gmap string V) :
  NoDup (btree_entries m).*1.
Proof. rewrite btree_entries_fst. apply NoDup_btree_elements. Qed.

Lemma btree_collect_lookup {V} (l : list (string * V)) k :
  NoDup l.*1 -> forall v, btree_collect l !! k = Some v <-> (k, v) ∈ l.
Proof.
  unfold btree_collect. intros Hnd v.
  enough (forall m : gmap string V, foldl (fun m kv => <[kv.1 := kv.2]> m) m l !! k = Some v <->
    (k, v) ∈ l \/ (m !! k = Some v /\ k ∉ l.*1)) as H.
  { rewrite H, lookup_empty. naive_solver. }
  induction l as [|[k' v'] l IH]; intros m; simpl in *.
  - rewrite elem_of_nil. split; [intros; right; split; [done|apply not_elem_of_nil]|naive_solver].
  - apply NoDup_cons in Hnd as [Hk Hnd]. rewrite IH by done.
    rewrite elem_of_cons, not_elem_of_cons, lookup_insert. case_decide; subst.
    + split; [|intros [[?|?]|?]; naive_solver].
      intros [?|[[= ->] ?]]; auto.
    + split; [intros [?|[? ?]]; auto 10 | intros [[?|?]|[? [? ?]]]; naive_solver].
Qed.

#[export] Hint Rewrite @elem_of_btree_elements @elem_of_btree_keys
  @elem_of_btree_entries @elem_of_btree_values : btree.
