(* ===== verification/Text.v ===== *)
(** * Text: byte strings and the identity validators

    A Rust [String] is its sequence of UTF-8 bytes, here a [string] of 8-bit
    [ascii]: [len()] is [String.length], [bytes()] visits the characters in
    order and [==], [Ord] compare the bytes.  The validators of storage.rs,
    domain.rs, semantics.rs, composition.rs and authoring.rs are translated one
    by one; every identity the Registry accepts goes through one of them. *)

From S2P Require Import Prelude.
From Stdlib Require Import Ascii.

Definition code (c : ascii) : N := N_of_ascii c.
Definition byte_between (lo hi : N) (c : ascii) : bool :=
  (lo <=? code c)%N && (code c <=? hi)%N.
Definition is_ascii_lowercase (c : ascii) : bool := byte_between 97 122 c.
Definition is_ascii_uppercase (c : ascii) : bool := byte_between 65 90 c.
Definition is_ascii_digit (c : ascii) : bool := byte_between 48 57 c.
Definition is_ascii_alphanumeric (c : ascii) : bool :=
  is_ascii_lowercase c || is_ascii_uppercase c || is_ascii_digit c.
Definition is_ascii_hexdigit (c : ascii) : bool :=
  is_ascii_digit c || byte_between 97 102 c || byte_between 65 70 c.

(** [s.bytes().all(p)] *)
Fixpoint bytes_all (p : ascii -> bool) (s : string) : bool :=
  match s with
  | EmptyString => true
  | String c s => p c && bytes_all p s
  end.

(** [matches!(byte, b'..' | ..)]: membership in a literal list of bytes. *)
Fixpoint one_of (s : string) (c : ascii) : bool :=
  match s with
  | EmptyString => false
  | String d s => Ascii.eqb c d || one_of s c
  end.

Definition is_empty (s : string) : bool :=
  match s with EmptyString => true | _ => false end.
Definition len_le (s : string) (n : nat) : bool := String.length s <=? n.
Definition len_ge (s : string) (n : nat) : bool := n <=? String.length s.

Definition starts_with (p s : string) : bool := String.prefix p s.
(** [s.ends_with(c)] for one byte [c]. *)
Fixpoint ends_with_byte (c : ascii) (s : string) : bool :=
  match s with
  | EmptyString => false
  | String d EmptyString => Ascii.eqb c d
  | String _ s => ends_with_byte c s
  end.
(** [s.contains(p)] for a string pattern. *)
Fixpoint contains (p s : string) : bool :=
  String.prefix p s ||
  match s with EmptyString => false | String _ s => contains p s end.

(** [s.trim().is_empty()]: every character of [s] has the Unicode property
    White_Space, read off its UTF-8 encoding of one, two or three bytes. *)
Definition white1 (a : ascii) : bool := byte_between 9 13 a || (code a =? 32)%N.
Definition white2 (a b : ascii) : bool :=
  (code a =? 194)%N && ((code b =? 133)%N || (code b =? 160)%N).
Definition white3 (a b c : ascii) : bool :=
  ((code a =? 225)%N && (code b =? 154)%N && (code c =? 128)%N) ||
  ((code a =? 226)%N && (code b =? 128)%N &&
     (byte_between 128 138 c || (code c =? 168)%N || (code c =? 169)%N || (code c =? 175)%N)) ||
  ((code a =? 226)%N && (code b =? 129)%N && (code c =? 159)%N) ||
  ((code a =? 227)%N && (code b =? 128)%N && (code c =? 128)%N).
Fixpoint trim_is_empty (s : string) : bool :=
  match s with
  | EmptyString => true
  | String a s1 =>
      if white1 a then trim_is_empty s1 else
      match s1 with
      | EmptyString => false
      | String b s2 =>
          if white2 a b then trim_is_empty s2 else
          match s2 with
          | EmptyString => false
          | String c s3 => if white3 a b c then trim_is_empty s3 else false
          end
      end
  end.

(** [s.replace(c, r)] for one byte [c]. *)
Fixpoint replace_byte (c : ascii) (r s : string) : string :=
  match s with
  | EmptyString => EmptyString
  | String d s =>
      if Ascii.eqb d c then r +:+ replace_byte c r s else String d (replace_byte c r s)
  end.

(** ** The validators *)

(** storage.rs *)
Definition valid_tenant (value : string) : bool :=
  negb (is_empty value) && len_le value 64 &&
  bytes_all (fun byte => is_ascii_alphanumeric byte || one_of "_-" byte) value.
Definition valid_segment (value : string) : bool :=
  negb (is_empty value) && len_le value 63 &&
  bytes_all (fun byte => is_ascii_lowercase byte || is_ascii_digit byte || one_of "-" byte) value.
Definition valid_bucket (value : string) : bool :=
  len_ge value 3 && len_le value 63 &&
  bytes_all (fun byte => is_ascii_lowercase byte || is_ascii_digit byte || one_of ".-" byte) value &&
  negb (starts_with "." value) && negb (starts_with "-" value) &&
  negb (ends_with_byte "." value) && negb (ends_with_byte "-" value) &&
  negb (contains ".." value).
Definition valid_revision (value : string) : bool :=
  len_ge value 20 && len_le value 128 &&
  bytes_all (fun byte => is_ascii_alphanumeric byte || one_of "_-" byte) value.

(** domain.rs *)
Definition valid_identity (value : string) : bool :=
  negb (is_empty value) && len_le value 128 &&
  bytes_all (fun byte => is_ascii_alphanumeric byte || one_of "_-.:" byte) value.
Definition validate_identity (tenant_id resource_id : string) : result unit :=
  ensure (valid_tenant tenant_id) "invalid tenant ID" ;;
  ensure (valid_identity resource_id) "invalid resource ID".

(** semantics.rs *)
Definition valid_id (value : string) : bool :=
  negb (is_empty value) && len_le value 128 &&
  bytes_all (fun byte => is_ascii_alphanumeric byte || one_of "_-.:" byte) value.

(** composition.rs *)
Definition identity (value : string) : bool :=
  negb (is_empty value) && len_le value 128 &&
  bytes_all (fun c => is_ascii_alphanumeric c || one_of "_-" c) value.

(** authoring.rs *)
Definition valid_branch (branch : string) : bool :=
  negb (is_empty branch) && len_le branch 128 &&
  bytes_all (fun byte => is_ascii_alphanumeric byte || one_of "_-" byte) branch.
Definition valid_mailbox (value : string) : bool :=
  (String.length value =? 32) && bytes_all is_ascii_hexdigit value.

(** ** Lemmas *)
Lemma bytes_all_app p s t : bytes_all p (s +:+ t) = bytes_all p s && bytes_all p t.
Proof. induction s as [|c s IH]; simpl; [done|]. by rewrite <-andb_assoc, <-IH. Qed.

Lemma bytes_all_impl p q s :
  (forall c, p c = true -> q c = true) -> bytes_all p s = true -> bytes_all q s = true.
Proof.
  intros H. induction s as [|c s IH]; simpl; [done|].
  intros [Hc Hs]%andb_prop. by rewrite (H c Hc), IH.
Qed.

(** A separator byte that the left operand cannot contain splits a
    concatenation unambiguously. *)
Lemma split_at_separator p c s t s' t' :
  p c = false -> bytes_all p s = true -> bytes_all p s' = true ->
  s +:+ String c t = s' +:+ String c t' -> s = s' /\ t = t'.
Proof.
  intros Hc. revert s'. induction s as [|a s IH]; intros [|a' s']; simpl; intros Hs Hs' E.
  - by injection E.
  - injection E as -> _. by rewrite Hc in Hs'.
  - injection E as -> _. by rewrite Hc in Hs.
  - injection E as -> E. apply andb_prop in Hs as [_ Hs], Hs' as [_ Hs'].
    destruct (IH s' Hs Hs' E) as [-> ->]. done.
Qed.

Lemma string_app_nil_r s : s +:+ "" = s.
Proof.
  induction s as [|c s IH]; [done|]. change (String c (s +:+ "") = String c s). by rewrite IH.
Qed.

Lemma string_app_assoc s t u : (s +:+ t) +:+ u = s +:+ (t +:+ u).
Proof.
  induction s as [|c s IH]; [done|].
  change (String c ((s +:+ t) +:+ u) = String c (s +:+ (t +:+ u))). by rewrite IH.
Qed.
