(* ===== verification/RustStr.v ===== *)
(** * RustStr: the string functions of Rust's standard library

    The functions on [str] and byte slices that the document compiler, the
    gateway and the intake service use, on strings of UTF-8 bytes (Text.v). *)

From S2P Require Import Prelude Text.
From Stdlib Require Import Ascii.

(** [s.len()] as a machine word. *)
Definition byte_len (s : string) : N := N.of_nat (String.length s).

(** [s.get(n..)] for [n] at most [s.len()], else nothing is left. *)
Fixpoint skip (n : nat) (s : string) : string :=
  match n, s with
  | S n, String _ s => skip n s
  | _, _ => s
  end.
Fixpoint take_bytes (n : nat) (s : string) : string :=
  match n, s with
  | S n, String c s => String c (take_bytes n s)
  | _, _ => EmptyString
  end.

(** [s.strip_prefix(p)], [s.strip_suffix(p)], [s.ends_with(p)]. *)
Definition strip_prefix (p s : string) : option string :=
  if starts_with p s then Some (skip (String.length p) s) else None.
Fixpoint strip_suffix (p s : string) : option string :=
  if String.eqb p s then Some EmptyString else
  match s with
  | EmptyString => None
  | String c s => String c <$> strip_suffix p s
  end.
Definition ends_with (p s : string) : bool := option_is_some (strip_suffix p s).

(** [s.split_once(p)]: around the first occurrence of [p]. *)
Fixpoint split_once (p s : string) : option (string * string) :=
  if starts_with p s then Some (EmptyString, skip (String.length p) s) else
  match s with
  | EmptyString => None
  | String c s => (fun '(a, b) => (String c a, b)) <$> split_once p s
  end.
(** [s.rsplit_once(c)]: around the last occurrence of the byte [c]. *)
Fixpoint rsplit_once (c : ascii) (s : string) : option (string * string) :=
  match s with
  | EmptyString => None
  | String d s =>
      match rsplit_once c s with
      | Some (a, b) => Some (String d a, b)
      | None => if Ascii.eqb d c then Some (EmptyString, s) else None
      end
  end.
(** [s.trim_end_matches(c)] *)
Fixpoint trim_end_matches (c : ascii) (s : string) : string :=
  match s with
  | EmptyString => EmptyString
  | String d s =>
      match trim_end_matches c s with
      | EmptyString => if Ascii.eqb d c then EmptyString else String d EmptyString
      | s => String d s
      end
  end.
(** [s.split(c)] for one byte [c]: never empty. *)
Fixpoint split_byte (c : ascii) (s : string) : list string :=
  match s with
  | EmptyString => [EmptyString]
  | String d s =>
      if Ascii.eqb d c then EmptyString :: split_byte c s else
      match split_byte c s with
      | part :: parts => String d part :: parts
      | [] => []
      end
  end.

(** [std::str::from_utf8(bytes).is_ok()]: the well-formed byte sequences of
    RFC 3629. *)
Definition cont (c : ascii) : bool := byte_between 128 191 c.
Definition lead3 (a b : ascii) : bool :=
  ((code a =? 224)%N && byte_between 160 191 b) ||
  ((byte_between 225 236 a || byte_between 238 239 a) && cont b) ||
  ((code a =? 237)%N && byte_between 128 159 b).
Definition lead4 (a b : ascii) : bool :=
  ((code a =? 240)%N && byte_between 144 191 b) ||
  (byte_between 241 243 a && cont b) ||
  ((code a =? 244)%N && byte_between 128 143 b).
Fixpoint is_utf8 (s : string) : bool :=
  match s with
  | EmptyString => true
  | String a s1 =>
      if byte_between 0 127 a then is_utf8 s1 else
      match s1 with
      | EmptyString => false
      | String b s2 =>
          if byte_between 194 223 a then cont b && is_utf8 s2 else
          match s2 with
          | EmptyString => false
          | String c s3 =>
              if lead3 a b then cont c && is_utf8 s3 else
              match s3 with
              | EmptyString => false
              | String d s4 => lead4 a b && cont c && cont d && is_utf8 s4
              end
          end
      end
  end.

(** [s.get(..n)] and [s.get(n..)] exist when [n] does not split a character. *)
Definition is_char_boundary (n : nat) (s : string) : bool :=
  match skip n s with String c _ => negb (cont c) | EmptyString => n <=? String.length s end.

(** [char::is_control] on UTF-8: one byte, or 0xC2 followed by 0x80 to 0x9F. *)
Definition control1 (a : ascii) : bool := byte_between 0 31 a || (code a =? 127)%N.
Definition control2 (a b : ascii) : bool := (code a =? 194)%N && byte_between 128 159 b.
Fixpoint any_control (s : string) : bool :=
  match s with
  | EmptyString => false
  | String a s1 =>
      control1 a ||
      match s1 with String b _ => control2 a b | EmptyString => false end ||
      any_control s1
  end.

(** ** Lemmas *)
Lemma byte_len_app s t : byte_len (s +:+ t) = (byte_len s + byte_len t)%N.
Proof.
  unfold byte_len. rewrite <-Nat2N.inj_add. f_equal.
  induction s as [|c s IH]; [done|]. exact (f_equal S IH).
Qed.
Lemma starts_with_self p s : starts_with p (p +:+ s) = true.
Proof.
  unfold starts_with. induction p as [|c p IH]; simpl; [by destruct s|].
  destruct (ascii_dec c c); [exact IH|done].
Qed.
Lemma skip_app p s : skip (String.length p) (p +:+ s) = s.
Proof. induction p as [|c p IH]; [by destruct s|exact IH]. Qed.
Lemma starts_with_inv p s :
  starts_with p s = true -> s = p +:+ skip (String.length p) s.
Proof.
  unfold starts_with. revert s. induction p as [|c p IH]; intros [|d s]; simpl; try done.
  destruct (ascii_dec c d) as [->|]; [|done]. intros Hp. apply IH in Hp.
  change (String d s = String d (p +:+ skip (String.length p) s)). by rewrite <-Hp.
Qed.
Lemma strip_prefix_Some p s t : strip_prefix p s = Some t <-> s = p +:+ t.
Proof.
  unfold strip_prefix. split.
  - destruct (starts_with p s) eqn:E; [|done]. intros [= <-]. by apply starts_with_inv.
  - intros ->. by rewrite starts_with_self, skip_app.
Qed.

(** What [split_once] finds: the first occurrence. *)
Lemma split_once_Some p s a b : split_once p s = Some (a, b) -> s = a +:+ p +:+ b.
Proof.
  revert a. induction s as [|c s IH]; intros a; cbn [split_once].
  - destruct (starts_with p "") eqn:E; [|done]. intros [= <- <-]. exact (starts_with_inv _ _ E).
  - destruct (starts_with p (String c s)) eqn:E.
    + intros [= <- <-]. exact (starts_with_inv _ _ E).
    + destruct (split_once p s) as [[a' b']|]; simpl; [|done]. intros [= <- <-].
      change (String c s = String c (a' +:+ p +:+ b')). f_equal. by apply IH.
Qed.
Lemma split_once_None p s : split_once p s = None <-> contains p s = false.
Proof.
  unfold starts_with. induction s as [|c s IH]; cbn [split_once contains]; unfold starts_with.
  - by destruct p.
  - destruct (String.prefix p (String c s)); [split; discriminate|]. cbn [orb].
    rewrite <-IH. destruct (split_once p s) as [[??]|]; simpl; split; done.
Qed.
Lemma contains_true p s : contains p s = true <-> exists a b, s = a +:+ p +:+ b.
Proof.
  split.
  - intros H. destruct (split_once p s) as [[a b]|] eqn:E.
    + exists a, b. by apply split_once_Some.
    + apply split_once_None in E. congruence.
  - intros (a & b & ->). induction a as [|c a IH].
    + change ("" +:+ p +:+ b) with (p +:+ b).
      pose proof (starts_with_self p b) as Hs. unfold starts_with in Hs.
      destruct (p +:+ b); cbn [contains]; by rewrite Hs.
    + change (contains p (String c (a +:+ p +:+ b)) = true). cbn [contains]. rewrite IH.
      apply orb_true_r.
Qed.

(** [s = a +:+ p +:+ b] at the first occurrence of [p] in [s]. *)
Definition first_split (p s a b : string) : Prop :=
  s = a +:+ p +:+ b /\
  forall a' b', s = a' +:+ p +:+ b' -> String.length a <= String.length a'.
Lemma string_app_inv_len a b x y :
  String.length a = String.length b -> a +:+ x = b +:+ y -> a = b /\ x = y.
Proof.
  revert b. induction a as [|c a IH]; intros [|d b]; simpl; try done.
  intros [= Hl] E. change (String c (a +:+ x) = String d (b +:+ y)) in E.
  injection E as -> E. by destruct (IH b Hl E) as [-> ->].
Qed.
Lemma split_once_first p s a b :
  split_once p s = Some (a, b) -> forall a' b', s = a' +:+ p +:+ b' ->
  String.length a <= String.length a'.
Proof.
  revert a. induction s as [|c s IH]; intros a; cbn [split_once].
  - destruct (starts_with p ""); [|done]. intros [= <- <-] a' b' _. simpl. lia.
  - destruct (starts_with p (String c s)) eqn:E; [intros [= <- <-] a' b' _; simpl; lia|].
    destruct (split_once p s) as [[a1 b1]|] eqn:E1; simpl; [|done]. intros [= <- <-] [|d a'] b' Hs.
    + change (String c s = p +:+ b') in Hs. rewrite Hs in E. by rewrite starts_with_self in E.
    + change (String c s = String d (a' +:+ p +:+ b')) in Hs. injection Hs as _ Hs. simpl.
      specialize (IH a1 eq_refl a' b' Hs). lia.
Qed.
Lemma split_once_spec p s a b : split_once p s = Some (a, b) <-> first_split p s a b.
Proof.
  split.
  - intros E. split; [by apply split_once_Some|by eapply split_once_first].
  - intros [Hs Hmin]. destruct (split_once p s) as [[a1 b1]|] eqn:E.
    + pose proof (split_once_Some _ _ _ _ E) as Hs1.
      pose proof (split_once_first _ _ _ _ E a b Hs). specialize (Hmin a1 b1 Hs1).
      rewrite Hs in Hs1. apply string_app_inv_len in Hs1 as [-> Hb]; [|lia].
      by apply string_app_inv_len in Hb as [_ ->].
    + apply split_once_None in E.
      assert (contains p s = true) by (apply contains_true; eauto). congruence.
Qed.
Lemma length_string_app s t :
  String.length (s +:+ t) = String.length s + String.length t.
Proof. induction s as [|c s IH]; [done|]. exact (f_equal S IH). Qed.

(** [s.trim()]: without the white space at both ends. *)
Fixpoint trim_start (s : string) : string :=
  match s with
  | EmptyString => EmptyString
  | String a s1 =>
      if white1 a then trim_start s1 else
      match s1 with
      | EmptyString => s
      | String b s2 =>
          if white2 a b then trim_start s2 else
          match s2 with
          | EmptyString => s
          | String c s3 => if white3 a b c then trim_start s3 else s
          end
      end
  end.
Fixpoint trim_end (s : string) : string :=
  if trim_is_empty s then EmptyString else
  match s with
  | EmptyString => EmptyString
  | String c s => String c (trim_end s)
  end.
Definition trim (s : string) : string := trim_end (trim_start s).
