(* ===== verification/Json.v ===== *)
(** * Json: the [serde_json::Value] documents the Registry works on

    Ontologies and pipeline definitions are JSON documents.  The workspace is
    built with serde_json's [preserve_order] feature (MODULE.bazel.lock), so an
    object is an [IndexMap]: iteration follows insertion order, [insert] on a
    present key keeps its position, [remove] swaps the last entry into the hole,
    and [==] ignores the order.  [value_eqb] is that [PartialEq]; [≡] is the
    equivalence it decides on well-formed documents (no repeated key). *)

From S2P Require Import Prelude Text.

(** [Number]: an unsigned or negative 64-bit integer, or a finite double given
    by its bit pattern. *)
Inductive number : Type :=
  | PosInt (n : N)
  | NegInt (z : Z)
  | Float (bits : Z).

Inductive value : Type :=
  | JNull
  | JBool (b : bool)
  | JNumber (n : number)
  | JString (s : string)
  | JArray (items : list value)
  | JObject (members : list (string * value)).

(** ** Objects as insertion-ordered maps *)
Fixpoint jget (key : string) (m : list (string * value)) : option value :=
  match m with
  | [] => None
  | (k, v) :: m => if String.eqb k key then Some v else jget key m
  end.

Fixpoint jinsert (key : string) (v : value) (m : list (string * value))
    : list (string * value) :=
  match m with
  | [] => [(key, v)]
  | (k, w) :: m => if String.eqb k key then (k, v) :: m else (k, w) :: jinsert key v m
  end.

(** [swap_remove]: the last entry takes the place of the removed one. *)
Fixpoint jreplace (key : string) (e : string * value) (m : list (string * value))
    : list (string * value) :=
  match m with
  | [] => []
  | (k, w) :: m => if String.eqb k key then e :: m else (k, w) :: jreplace key e m
  end.
Definition jremove (key : string) (m : list (string * value)) : list (string * value) :=
  match jget key m, last m with
  | Some _, Some e =>
      if String.eqb e.1 key then removelast m else jreplace key e (removelast m)
  | _, _ => m
  end.

Definition jcontains (key : string) (m : list (string * value)) : bool :=
  option_is_some (jget key m).

(** ** Equality *)
Definition float_is_zero (bits : Z) : bool := (bits =? 0)%Z || (bits =? 2 ^ 63)%Z.
Definition number_eqb (a b : number) : bool :=
  match a, b with
  | PosInt x, PosInt y => (x =? y)%N
  | NegInt x, NegInt y => (x =? y)%Z
  | Float x, Float y => (x =? y)%Z || (float_is_zero x && float_is_zero y)
  | _, _ => false
  end.

Fixpoint value_eqb (v w : value) {struct v} : bool :=
  match v, w with
  | JNull, JNull => true
  | JBool a, JBool b => Bool.eqb a b
  | JNumber a, JNumber b => number_eqb a b
  | JString a, JString b => String.eqb a b
  | JArray l, JArray l' =>
      (fix go l l' := match l, l' with
        | [], [] => true
        | x :: l, y :: l' => value_eqb x y && go l l'
        | _, _ => false
        end) l l'
  | JObject m, JObject m' =>
      Nat.eqb (length m) (length m') &&
      (fix go m := match m with
        | [] => true
        | (k, x) :: m =>
            match jget k m' with Some y => value_eqb x y | None => false end && go m
        end) m
  | _, _ => false
  end.

(** [==] on [Option<&Value>]. *)
Definition opt_value_eqb (v w : option value) : bool :=
  match v, w with
  | Some a, Some b => value_eqb a b
  | None, None => true
  | _, _ => false
  end.

(** ** Accessors *)
Definition as_str (v : value) : option string :=
  match v with JString s => Some s | _ => None end.
Definition as_bool (v : value) : option bool :=
  match v with JBool b => Some b | _ => None end.
Definition as_i64 (v : value) : option Z :=
  match v with
  | JNumber (PosInt n) => if (Z.of_N n <? 2 ^ 63)%Z then Some (Z.of_N n) else None
  | JNumber (NegInt z) => Some z
  | _ => None
  end.
Definition as_array (v : value) : option (list value) :=
  match v with JArray l => Some l | _ => None end.
Definition as_object (v : value) : option (list (string * value)) :=
  match v with JObject m => Some m | _ => None end.
Definition is_null (v : value) : bool :=
  match v with JNull => true | _ => false end.
Definition is_object (v : value) : bool :=
  match v with JObject _ => true | _ => false end.

(** [v.get(key)] with a string key: [None] unless [v] is an object. *)
Definition get (v : value) (key : string) : option value :=
  match v with JObject m => jget key m | _ => None end.

(** [v.get(key).and_then(Value::as_str)] and its variants. *)
Definition get_str (v : value) (key : string) : option string := get v key ≫= as_str.
Definition get_bool (v : value) (key : string) : option bool := get v key ≫= as_bool.
Definition get_array (v : value) (key : string) : option (list value) := get v key ≫= as_array.
Definition get_object (v : value) (key : string) : option (list (string * value)) :=
  get v key ≫= as_object.

(** [v.pointer("/a/b")] for non-numeric tokens, which select through objects
    only. *)
Fixpoint pointer_get (tokens : list string) (v : value) : option value :=
  match tokens with
  | [] => Some v
  | t :: tokens => get v t ≫= pointer_get tokens
  end.
Definition pointer_str (tokens : list string) (v : value) : option string :=
  pointer_get tokens v ≫= as_str.

(** [o == Some("..")] on [Option<&str>]. *)
Definition opt_str_eqb (o : option string) (s : string) : bool :=
  match o with Some t => String.eqb t s | None => false end.
(** [matches!(o, Some("a" | "b" | ..))] *)
Definition opt_str_in (o : option string) (l : list string) : bool :=
  match o with Some t => existsb (String.eqb t) l | None => false end.
Definition str_in (s : string) (l : list string) : bool := existsb (String.eqb s) l.

(** [json!(..)] of a string and of a vector of strings. *)
Definition json_strings (l : list string) : value := JArray (JString <$> l).
Definition json_i64 (z : Z) : value :=
  JNumber (if (0 <=? z)%Z then PosInt (Z.to_N z) else NegInt z).

(** ** Well-formed documents: no object repeats a key *)
Definition nodup_keys {A} (m : list (string * A)) : bool := bool_decide (NoDup m.*1).
Fixpoint wf_value (v : value) : bool :=
  match v with
  | JArray l => forallb wf_value l
  | JObject m => nodup_keys m && forallb (fun kv => wf_value kv.2) m
  | _ => true
  end.
Definition wf_opt (o : option value) : bool :=
  match o with Some v => wf_value v | None => true end.

(** The equivalence of documents: objects agree key by key. *)
Inductive veq : value -> value -> Prop :=
  | veq_null : veq JNull JNull
  | veq_bool b : veq (JBool b) (JBool b)
  | veq_number a b : number_eqb a b = true -> veq (JNumber a) (JNumber b)
  | veq_string s : veq (JString s) (JString s)
  | veq_array l l' : Forall2 veq l l' -> veq (JArray l) (JArray l')
  | veq_object m m' :
      (forall k, option_Forall2 veq (jget k m) (jget k m')) -> veq (JObject m) (JObject m').

#[export] Instance value_equiv : Equiv value := veq.

(** ** Induction on documents *)
Lemma value_ind' (P : value -> Prop) :
  P JNull -> (forall b, P (JBool b)) -> (forall n, P (JNumber n)) -> (forall s, P (JString s)) ->
  (forall l, Forall P l -> P (JArray l)) ->
  (forall m, Forall (fun kv => P kv.2) m -> P (JObject m)) ->
  forall v, P v.
Proof.
  intros Hn Hb Hnum Hs Ha Ho. fix IH 1. intros [|b|n|s|l|m].
  - exact Hn.
  - apply Hb.
  - apply Hnum.
  - apply Hs.
  - apply Ha. induction l as [|x l IHl]; constructor; [apply IH | exact IHl].
  - apply Ho. induction m as [|[k x] m IHm]; constructor; [apply IH | exact IHm].
Qed.

(** ** Lemmas on objects *)
Section objects.
Implicit Types (m : list (string * value)) (k : string) (v : value).

Lemma jget_elem_of m k v : jget k m = Some v -> (k, v) ∈ m.
Proof.
  induction m as [|[k' w] m IH]; simpl; [done|].
  destruct (String.eqb_spec k' k) as [->|Hne]; [intros [= ->]; left | right; auto].
Qed.

Lemma jget_None m k : jget k m = None <-> k ∉ m.*1.
Proof.
  induction m as [|[k' w] m IH]; simpl; [split; [by intros _ ?%elem_of_nil|done]|].
  rewrite not_elem_of_cons, <-IH.
  destruct (String.eqb_spec k' k) as [->|Hne]; split; try done; [by intros [? ?]|by intros [? ?]].
Qed.

Lemma jget_is_Some m k : is_Some (jget k m) <-> k ∈ m.*1.
Proof.
  rewrite <-not_eq_None_Some, jget_None. split; [|tauto].
  intros H. destruct (decide (k ∈ m.*1)); [done|tauto].
Qed.

Lemma elem_of_jget m k v : NoDup m.*1 -> (k, v) ∈ m -> jget k m = Some v.
Proof.
  induction m as [|[k' w] m IH]; simpl; [by intros _ ?%elem_of_nil|].
  intros [Hk Hnd]%NoDup_cons [Heq|Hin]%elem_of_cons.
  - injection Heq as -> ->. by rewrite String.eqb_refl.
  - destruct (String.eqb_spec k' k) as [->|Hne]; [|auto].
    exfalso. apply Hk, list_elem_of_fmap. by exists (k, v).
Qed.

Lemma jget_iff m k v : NoDup m.*1 -> jget k m = Some v <-> (k, v) ∈ m.
Proof. intros H; split; [apply jget_elem_of | by apply elem_of_jget]. Qed.

Lemma jget_jinsert k k' v m :
  jget k' (jinsert k v m) = if decide (k = k') then Some v else jget k' m.
Proof.
  induction m as [|[a w] m IH]; simpl.
  - case_decide; subst; [by rewrite String.eqb_refl|].
    by destruct (String.eqb_spec k k').
  - destruct (String.eqb_spec a k) as [->|Hne]; simpl.
    + destruct (String.eqb_spec k k'); by case_decide.
    + rewrite IH. destruct (String.eqb_spec a k') as [->|?]; [|done].
      case_decide; [congruence|done].
Qed.

Lemma jinsert_keys k v m : forall k', k' ∈ (jinsert k v m).*1 <-> k' = k \/ k' ∈ m.*1.
Proof.
  intros k'. rewrite <-!jget_is_Some, jget_jinsert. case_decide; subst.
  - split; [auto|]. by eexists.
  - split; [auto|]. by intros [->|?].
Qed.

Lemma NoDup_jinsert k v m : NoDup m.*1 -> NoDup (jinsert k v m).*1.
Proof.
  induction m as [|[a w] m IH]; simpl.
  - intros _. apply NoDup_singleton.
  - intros [Ha Hnd]%NoDup_cons. destruct (String.eqb_spec a k) as [->|Hne]; simpl.
    + by apply NoDup_cons.
    + apply NoDup_cons. split; [|auto]. rewrite jinsert_keys. by intros [?|?].
Qed.

Lemma NoDup_keys_elem m k v w :
  NoDup m.*1 -> (k, v) ∈ m -> (k, w) ∈ m -> v = w.
Proof.
  intros Hnd Hv Hw. apply (elem_of_jget _ _ _ Hnd) in Hv, Hw. congruence.
Qed.

End objects.

Section removal.
Implicit Types (m : list (string * value)) (k : string) (e : string * value).

Lemma jget_app k m m' :
  jget k (m ++ m') = match jget k m with Some v => Some v | None => jget k m' end.
Proof. induction m as [|[a w] m IH]; simpl; [done|]. by destruct (String.eqb a k). Qed.

Lemma jreplace_keys k e m k' :
  k' ∈ (jreplace k e m).*1 -> k' = e.1 \/ k' ∈ m.*1.
Proof.
  induction m as [|[a w] m IH]; simpl; [by intros ?%elem_of_nil|].
  destruct (String.eqb a k); simpl; rewrite !elem_of_cons; naive_solver.
Qed.

Lemma jget_jreplace k e m k' :
  NoDup m.*1 -> e.1 ∉ m.*1 -> k ∈ m.*1 ->
  jget k' (jreplace k e m) =
    if decide (k' = k) then None else if decide (k' = e.1) then Some e.2 else jget k' m.
Proof.
  destruct e as [a v]. simpl.
  induction m as [|[b w] m IH]; simpl; [by intros _ _ ?%elem_of_nil|].
  intros [Hb Hnd]%NoDup_cons [Hab Hae]%not_elem_of_cons Hk.
  destruct (String.eqb_spec b k) as [->|Hne]; simpl.
  - destruct (String.eqb_spec a k') as [<-|Hak].
    + rewrite decide_False by done. by rewrite decide_True.
    + destruct (decide (k' = k)) as [->|?]; [by apply jget_None|].
      rewrite decide_False by done. by destruct (String.eqb_spec k k').
  - apply elem_of_cons in Hk as [->|Hk]; [done|].
    rewrite (IH Hnd Hae Hk). destruct (String.eqb_spec b k') as [<-|Hbk]; [|done].
    rewrite decide_False by done. by rewrite decide_False.
Qed.

Lemma NoDup_jreplace k e m :
  NoDup m.*1 -> e.1 ∉ m.*1 -> NoDup (jreplace k e m).*1.
Proof.
  induction m as [|[b w] m IH]; simpl; [intros; constructor|].
  intros [Hb Hnd]%NoDup_cons [Hab Hae]%not_elem_of_cons.
  destruct (String.eqb_spec b k) as [->|Hne]; simpl; apply NoDup_cons; [done|].
  split; [|auto]. by intros [?|?]%jreplace_keys.
Qed.

Lemma jremove_snoc k m e :
  jremove k (m ++ [e]) =
    match jget k (m ++ [e]) with
    | Some _ => if String.eqb e.1 k then m else jreplace k e m
    | None => m ++ [e]
    end.
Proof.
  unfold jremove. rewrite last_snoc, removelast_last. by destruct (jget k (m ++ [e])).
Qed.

Lemma NoDup_snoc_keys m e :
  NoDup (m ++ [e]).*1 <-> e.1 ∉ m.*1 /\ NoDup m.*1.
Proof.
  rewrite fmap_app, NoDup_app. simpl. split.
  - intros (? & H & _). split; [|done]. intros Hin. apply (H _ Hin). by left.
  - intros [H ?]. split_and!; [done| |apply NoDup_singleton].
    by intros x Hx ->%list_elem_of_singleton.
Qed.

(** [remove] deletes the key and leaves every other entry as it was. *)
Lemma jget_jremove k m k' :
  NoDup m.*1 -> jget k' (jremove k m) = if decide (k' = k) then None else jget k' m.
Proof.
  destruct m as [|e m _] using rev_ind; [by intros _; case_decide|].
  intros [He Hnd]%NoDup_snoc_keys. rewrite jremove_snoc.
  destruct (jget k (m ++ [e])) as [v|] eqn:Hk.
  - assert (Hs : k ∈ (m ++ [e]).*1) by (apply jget_is_Some; eauto).
    rewrite fmap_app, elem_of_app in Hs. destruct e as [a w]; simpl in *.
    rewrite list_elem_of_singleton in Hs. rewrite jget_app. simpl.
    destruct (String.eqb_spec a k) as [->|Hne].
    + destruct (decide (k' = k)) as [->|Hk'k]; [by apply jget_None|].
      destruct (String.eqb_spec k k'); [congruence|]. by destruct (jget k' m).
    + destruct Hs as [Hs|?]; [|congruence].
      rewrite jget_jreplace by done. simpl. destruct (decide (k' = k)); [done|].
      destruct (decide (k' = a)) as [->|Hka].
      * rewrite (proj2 (jget_None m a) He). by rewrite String.eqb_refl.
      * destruct (String.eqb_spec a k'); [congruence|]. by destruct (jget k' m).
  - case_decide; [by subst|done].
Qed.

Lemma NoDup_jremove k m : NoDup m.*1 -> NoDup (jremove k m).*1.
Proof.
  destruct m as [|e m _] using rev_ind; [done|].
  intros Hall. pose proof Hall as [He Hnd]%NoDup_snoc_keys. rewrite jremove_snoc.
  destruct (jget k (m ++ [e])); [|done]. destruct (String.eqb e.1 k); [done|].
  by apply NoDup_jreplace.
Qed.
End removal.

(** ** The equality of documents *)
Lemma number_eqb_refl n : number_eqb n n = true.
Proof. destruct n; simpl; [apply N.eqb_refl|apply Z.eqb_refl|by rewrite Z.eqb_refl]. Qed.

Lemma number_eqb_sym a b : number_eqb a b = number_eqb b a.
Proof.
  destruct a, b; simpl; try done; [apply N.eqb_sym|apply Z.eqb_sym|].
  by rewrite Z.eqb_sym, (andb_comm (float_is_zero _)).
Qed.

Lemma number_eqb_trans a b c :
  number_eqb a b = true -> number_eqb b c = true -> number_eqb a c = true.
Proof.
  destruct a, b, c; simpl; try done.
  - rewrite !N.eqb_eq. congruence.
  - rewrite !Z.eqb_eq. congruence.
  - rewrite !orb_true_iff, !andb_true_iff, !Z.eqb_eq.
    intros [->|[? ?]] [->|[? ?]]; tauto.
Qed.

Lemma Forall2_sym_local {A} (R : relation A) l l' :
  Forall (fun x => forall y, R x y -> R y x) l -> Forall2 R l l' -> Forall2 R l' l.
Proof.
  intros Hl H. induction H as [|x y l l' Hxy _ IH]; [constructor|].
  inversion Hl; subst. constructor; auto.
Qed.

Lemma Forall2_trans_local {A} (R : relation A) l l' l'' :
  Forall (fun x => forall y z, R x y -> R y z -> R x z) l ->
  Forall2 R l l' -> Forall2 R l' l'' -> Forall2 R l l''.
Proof.
  intros Hl H. revert l''. induction H as [|x y l l' Hxy _ IH]; intros l'' H'; [done|].
  inversion Hl; subst. inversion H'; subst. constructor; eauto.
Qed.

#[export] Instance veq_reflexive : Reflexive (≡@{value}).
Proof.
  intros v. induction v as [| | | |l IH|m IH] using value_ind'; constructor.
  - apply number_eqb_refl.
  - by apply Forall_Forall2_diag.
  - intros k. destruct (jget k m) as [v|] eqn:E; constructor.
    apply jget_elem_of in E. rewrite Forall_forall in IH. by apply (IH _ E).
Qed.

#[export] Instance veq_symmetric : Symmetric (≡@{value}).
Proof.
  intros v. induction v as [| |n| |l IH|m IH] using value_ind';
    intros w H; inversion H; subst; constructor.
  - by rewrite number_eqb_sym.
  - by apply Forall2_sym_local.
  - intros k. specialize (H1 k). destruct (jget k m) as [x|] eqn:E; inversion H1; constructor.
    rewrite Forall_forall in IH. by apply (IH _ (jget_elem_of _ _ _ E)).
Qed.

#[export] Instance veq_transitive : Transitive (≡@{value}).
Proof.
  intros v. induction v as [| |n| |l IH|m IH] using value_ind';
    intros w u H1 H2; inversion H1; subst; inversion H2; subst; constructor.
  - by eapply number_eqb_trans.
  - by eapply Forall2_trans_local.
  - match goal with
    | A : forall k, option_Forall2 _ (jget k m) _, B : forall k, option_Forall2 _ _ (jget k ?m2) |- _ =>
        intros k; specialize (A k); specialize (B k); revert A B
    end.
    destruct (jget k m) as [x|] eqn:E; intros A B; inversion A; subst;
      repeat match goal with H : _ = jget _ _ |- _ => rewrite <-H in B end;
      inversion B; constructor.
    rewrite Forall_forall in IH. by eapply (IH _ (jget_elem_of _ _ _ E)).
Qed.

#[export] Instance veq_equivalence : Equivalence (≡@{value}).
Proof. split; apply _. Qed.

(** ** [value_eqb] decides [≡] on well-formed documents *)
Lemma wf_array l : wf_value (JArray l) = true <-> Forall (fun v => wf_value v = true) l.
Proof. simpl. by rewrite forallb_forall, Forall_forall; setoid_rewrite list_elem_of_In. Qed.

Lemma wf_object m :
  wf_value (JObject m) = true <-> NoDup m.*1 /\ Forall (fun kv => wf_value kv.2 = true) m.
Proof.
  simpl. unfold nodup_keys. rewrite andb_true_iff, bool_decide_eq_true.
  rewrite forallb_forall, Forall_forall. by setoid_rewrite list_elem_of_In.
Qed.

Lemma wf_jget m k v :
  Forall (fun kv => wf_value kv.2 = true) m -> jget k m = Some v -> wf_value v = true.
Proof. intros H E%jget_elem_of. rewrite Forall_forall in H. apply (H _ E). Qed.

Lemma wf_get v k w : wf_value v = true -> get v k = Some w -> wf_value w = true.
Proof. destruct v; simpl; try done. intros [_ H]%wf_object. by apply wf_jget. Qed.

Lemma wf_opt_jget m k : wf_value (JObject m) = true -> wf_opt (jget k m) = true.
Proof.
  intros [_ H]%wf_object. destruct (jget k m) eqn:E; [|done]. by eapply wf_jget.
Qed.

Lemma array_eqb_unfold l l' :
  value_eqb (JArray l) (JArray l') = true <-> Forall2 (fun x y => value_eqb x y = true) l l'.
Proof.
  revert l'. induction l as [|x l IH]; intros [|y l']; simpl.
  - split; [constructor|done].
  - split; [done|by inversion 1].
  - split; [done|by inversion 1].
  - rewrite andb_true_iff. change ((fix go l l' := match l, l' with
        | [], [] => true | x :: l, y :: l' => value_eqb x y && go l l' | _, _ => false end) l l')
      with (value_eqb (JArray l) (JArray l')).
    rewrite IH. split; [intros []; by constructor|by inversion 1].
Qed.

Lemma object_eqb_unfold m m' :
  value_eqb (JObject m) (JObject m') = true <->
  length m = length m' /\
  Forall (fun kv => exists y, jget kv.1 m' = Some y /\ value_eqb kv.2 y = true) m.
Proof.
  simpl. rewrite andb_true_iff, Nat.eqb_eq. apply and_iff_compat_l.
  induction m as [|[k x] m IH]; simpl; [split; [constructor|done]|].
  rewrite andb_true_iff, IH, Forall_cons. apply and_iff_compat_r. simpl.
  destruct (jget k m') as [y|]; [|split; [done|by intros (? & ? & ?)]].
  split; [eauto|]. by intros (? & [= ->] & ?).
Qed.

Lemma object_keys_eq (m m' : list (string * value)) :
  NoDup m.*1 -> NoDup m'.*1 ->
  length m = length m' -> (forall k, k ∈ m.*1 -> k ∈ m'.*1) -> forall k, k ∈ m'.*1 -> k ∈ m.*1.
Proof.
  intros Hm Hm' Hlen Hsub k.
  assert (m.*1 ⊆+ m'.*1) as Hp by (apply NoDup_submseteq; auto).
  apply submseteq_length_Permutation in Hp as ->; [done|].
  rewrite !length_fmap. lia.
Qed.

Lemma value_eqb_veq v w :
  wf_value v = true -> wf_value w = true -> value_eqb v w = true <-> v ≡ w.
Proof.
  revert w. induction v as [|b|n|s|l IH|m IH] using value_ind'; intros w Hv Hw.
  - split; [destruct w; try done; constructor|by inversion 1].
  - split; [destruct w; try done; by intros ->%eqb_prop|inversion 1; apply eqb_reflx].
  - split; [destruct w; try done; by constructor|by inversion 1].
  - split; [destruct w; try done; by intros ->%String.eqb_eq|inversion 1; apply String.eqb_refl].
  - destruct w as [| | | |l'|]; try (split; [done|by inversion 1]).
    rewrite array_eqb_unfold. apply wf_array in Hv, Hw.
    transitivity (Forall2 veq l l'); [|split; [by constructor|by inversion 1]].
    clear -IH Hv Hw. revert l' Hw. induction l as [|x l IHl]; intros l' Hw.
    { split; inversion 1; constructor. }
    inversion IH; inversion Hv; subst.
    split; (inversion 1; subst; inversion Hw; subst; constructor; [by apply H1|by apply IHl]).
  - destruct w as [| | | | |m']; try (split; [done|by inversion 1]).
    rewrite object_eqb_unfold. apply wf_object in Hv as [Hnd Hm], Hw as [Hnd' Hm'].
    rewrite Forall_forall in IH. split.
    + intros [Hlen Hall]. rewrite Forall_forall in Hall. constructor. intros k.
      assert (Hsub : forall k, k ∈ m.*1 -> k ∈ m'.*1).
      { intros k1 ([k2 x] & -> & Hin)%list_elem_of_fmap.
        destruct (Hall _ Hin) as (y & Hy & _). apply jget_is_Some. eauto. }
      destruct (jget k m) as [x|] eqn:E.
      * pose proof (jget_elem_of _ _ _ E) as Hin.
        destruct (Hall _ Hin) as (y & Hy & Heq). simpl in *. rewrite Hy. constructor.
        by apply (IH _ Hin y (wf_jget m k x Hm E) (wf_jget m' k y Hm' Hy)).
      * rewrite (proj2 (jget_None m' k)); [constructor|]. apply jget_None in E.
        by intros ?%(object_keys_eq m m').
    + intros H. inversion H as [| | | | |? ? Heq]; subst. split.
      * rewrite <-(length_fmap fst m), <-(length_fmap fst m'). apply Permutation_length.
        apply NoDup_Permutation; [done..|]. intros k. specialize (Heq k).
        rewrite <-!jget_is_Some. by inversion Heq.
      * apply Forall_forall. intros [k x] Hin. simpl. specialize (Heq k).
        pose proof (elem_of_jget _ _ _ Hnd Hin) as E. rewrite E in Heq.
        destruct (jget k m') as [y|] eqn:E2; inversion Heq; subst. exists y. split; [done|].
        by apply (IH _ Hin y (wf_jget m k x Hm E) (wf_jget m' k y Hm' E2)).
Qed.

Lemma value_eqb_refl v : wf_value v = true -> value_eqb v v = true.
Proof. intros H. by apply value_eqb_veq. Qed.

#[export] Instance opt_value_equiv : Equiv (option value) := option_Forall2 veq.

#[export] Instance opt_value_equivalence : Equivalence (≡@{option value}).
Proof. apply option_Forall2_equiv. apply veq_equivalence. Qed.

Lemma opt_value_eqb_veq v w :
  wf_opt v = true -> wf_opt w = true -> opt_value_eqb v w = true <-> v ≡ w.
Proof.
  destruct v as [v|], w as [w|]; simpl; intros Hv Hw.
  - rewrite (value_eqb_veq v w Hv Hw). split; [by constructor|by inversion 1].
  - split; [done|inversion 1].
  - split; [done|inversion 1].
  - split; [constructor|done].
Qed.

#[export] Instance Some_veq_proper : Proper ((≡@{value}) ==> (≡@{option value})) Some.
Proof. intros v w H. by constructor. Qed.

#[export] Instance get_proper : Proper ((≡@{value}) ==> (=) ==> (≡@{option value})) get.
Proof.
  intros v w H k ? <-. destruct H; simpl; try constructor. apply H.
Qed.

#[export] Instance as_str_proper : Proper ((≡@{value}) ==> (=)) as_str.
Proof. intros v w H. by destruct H. Qed.

#[export] Instance get_str_proper : Proper ((≡@{value}) ==> (=) ==> (=)) get_str.
Proof.
  intros v w H k ? <-. unfold get_str.
  pose proof (get_proper _ _ H k k eq_refl) as Hg.
  inversion Hg as [x y Hxy|]; simpl; [by rewrite Hxy|done].
Qed.
