(* ===== verification/Serde.v ===== *)
(** * Serde: the derived [Deserialize] of Rust's structs

    Readers of the standard types and of structs, with the attributes
    [deny_unknown_fields] and [default], on JSON values.  A parsed text is a
    [value] that may still repeat a key, as the text may. *)

From S2P Require Import Prelude Text Json.

(** ** Deserialization of the standard types *)
Definition serde_error {A} : result A := Err (Foreign "serde_json").
Definition de_string (v : value) : result string :=
  match v with JString s => Ok s | _ => serde_error end.
Definition de_bool (v : value) : result bool :=
  match v with JBool b => Ok b | _ => serde_error end.
Definition de_int (lo hi : Z) (v : value) : result Z :=
  match v with
  | JNumber (PosInt n) => if (Z.of_N n <=? hi)%Z then Ok (Z.of_N n) else serde_error
  | JNumber (NegInt z) => if (lo <=? z)%Z && (z <=? hi)%Z then Ok z else serde_error
  | _ => serde_error
  end.
Definition I64_MIN : Z := - 2 ^ 63.
Definition I64_MAX : Z := 2 ^ 63 - 1.
Definition de_i64 : value -> result Z := de_int I64_MIN I64_MAX.
Definition de_u8 : value -> result Z := de_int 0 255.
Definition de_opt {A} (f : value -> result A) (v : value) : result (option A) :=
  match v with JNull => Ok None | _ => Some <$> f v end.
Definition de_vec {A} (f : value -> result A) (v : value) : result (list A) :=
  match v with JArray l => mapM f l | _ => serde_error end.
Definition de_map {A} (f : value -> result A) (v : value) : result (gmap string A) :=
  match v with
  | JObject m => entries ← mapM (fun kv => a ← f kv.2; Ok (kv.1, a)) m; Ok (btree_collect entries)
  | _ => serde_error
  end.
(** [Value]: a repeated key overwrites the earlier member. *)
Fixpoint de_value (v : value) : value :=
  match v with
  | JObject m =>
      JObject (foldl (fun acc kv => jinsert kv.1 kv.2 acc) []
        (List.map (fun kv => (kv.1, de_value kv.2)) m))
  | JArray items => JArray (List.map de_value items)
  | v => v
  end.
Definition de_json (v : value) : result value := Ok (de_value v).

(** ** Structs with [deny_unknown_fields]

    A field is listed with whether it has a [serde(default)].  An object must
    not repeat a field; an array gives the fields in order, and may only leave
    out a suffix of defaulted ones. *)
Definition struct_members (fields : list (string * bool)) (v : value)
    : result (list (string * value)) :=
  match v with
  | JObject m =>
      if nodup_keys m && forallb (fun kv => str_in kv.1 fields.*1) m then Ok m else serde_error
  | JArray l =>
      if Nat.leb (length l) (length fields) && forallb snd (drop (length l) fields)
      then Ok (zip fields.*1 l) else serde_error
  | _ => serde_error
  end.
Definition required {A} (f : value -> result A) (key : string) (m : list (string * value))
    : result A :=
  match jget key m with Some v => f v | None => serde_error end.
(** A missing [Option] is [None]. *)
Definition optional {A} (f : value -> result A) (key : string) (m : list (string * value))
    : result (option A) :=
  match jget key m with Some v => de_opt f v | None => Ok None end.
Definition defaulted {A} (f : value -> result A) (d : A) (key : string) (m : list (string * value))
    : result A :=
  match jget key m with Some v => f v | None => Ok d end.
Definition plain (key : string) : string * bool := (key, false).
Definition dflt (key : string) : string * bool := (key, true).
(** A struct without [deny_unknown_fields]. *)
Definition open_members (fields : list (string * bool)) (v : value) : result (list (string * value)) :=
  match v with
  | JObject m =>
      let known := List.filter (fun kv => str_in kv.1 fields.*1) m in
      if nodup_keys known then Ok known else serde_error
  | v => struct_members fields v
  end.
