(* ===== verification/Graph.v ===== *)
(** * Graph: the graph searches of semantics.rs

    Three loops of semantics.rs work on graphs whose nodes are resource or block
    identities: the depth-first cycle search of [find_cycle], the worklist of
    [ancestors] and [slice_ontology], and Kahn's algorithm in
    [topological_order].  Each is given here over an abstract successor function,
    with the loop state of the source; Rust's [Vec] stacks are lists whose head
    is the last element.  The [while] loops take fuel; each section proves that
    the fuel its callers pass is enough. *)

From S2P Require Import Prelude.

(** ** Depth-first cycle search *)
Module Dfs.
Section dfs.
(** [edge x i] is the [i]-th outgoing edge of [x]. *)
Variable edge : string -> nat -> option string.

(** The inner [while let Some((current, edge_index)) = pending.last_mut()]:
    [None] when the fuel runs out, otherwise the node closing a cycle, if any,
    and the visiting state (1: on the stack, 2: finished). *)
Fixpoint cycle_search (fuel : nat) (state : gmap string nat) (pending : list (string * nat))
    : option (option string * gmap string nat) :=
  match fuel with
  | 0 => None
  | S fuel =>
      match pending with
      | [] => Some (None, state)
      | (current_id, edge_index) :: rest =>
          match edge current_id edge_index with
          | None => cycle_search fuel (<[current_id := 2]> state) rest
          | Some next_id =>
              let pending := (current_id, S edge_index) :: rest in
              match state !! next_id with
              | Some 1 => Some (Some next_id, state)
              | Some 2 => cycle_search fuel state pending
              | _ => cycle_search fuel (<[next_id := 1]> state) ((next_id, 0) :: pending)
              end
          end
      end
  end.

(** The outer [for resource in resources]. *)
Fixpoint cycle_roots (fuel : nat) (roots : list string) (state : gmap string nat)
    : option (option string) :=
  match roots with
  | [] => Some None
  | id :: roots =>
      if bool_decide (state !! id = Some 2) then cycle_roots fuel roots state
      else
        match cycle_search fuel (<[id := 1]> state) [(id, 0)] with
        | None => None
        | Some (Some next_id, _) => Some (Some next_id)
        | Some (None, state) => cycle_roots fuel roots state
        end
  end.
End dfs.

(** Every iteration follows one edge or closes one node. *)
Definition node_cost (succ : string -> list string) (x : string) : nat := S (length (succ x)).
Definition universe (succ : string -> list string) (roots : list string) : list string :=
  remove_dups (roots ++ (roots ≫= succ)).
Definition fuel_for (succ : string -> list string) (roots : list string) : nat :=
  S (sum_list_with (node_cost succ) (universe succ roots)).

Section correctness.
Context (succ : string -> list string).
Notation edge := (fun x i => succ x !! i).
Notation R := (fun y x => y ∈ succ x).

(** [stack_ok st child stk]: below an entry lies the node it was reached from;
    all edges already followed lead to finished nodes, but for the last one of a
    lower entry, which leads to the entry above. *)
Fixpoint stack_ok (st : gmap string nat) (child : option string) (stk : list (string * nat))
    : Prop :=
  match stk with
  | [] => True
  | (n, i) :: rest =>
      i <= length (succ n) /\
      match child with
      | None => forall j m, j < i -> succ n !! j = Some m -> st !! m = Some 2
      | Some c => exists j, i = S j /\ succ n !! j = Some c /\
          forall j' m, j' < j -> succ n !! j' = Some m -> st !! m = Some 2
      end /\ stack_ok st (Some n) rest
  end.

Record inv (st : gmap string nat) (stk : list (string * nat)) : Prop := {
  inv_vals : forall x n, st !! x = Some n -> n = 1 \/ n = 2;
  inv_done : forall x, st !! x = Some 2 -> Acc R x;
  inv_open : forall x, st !! x = Some 1 -> x ∈ stk.*1;
  inv_stack : stack_ok st None stk;
}.

Definition unvisited_cost (U : list string) (st : gmap string nat) : nat :=
  sum_list_with (fun x => match st !! x with None => node_cost succ x | _ => 0 end) U.
Definition stack_cost (stk : list (string * nat)) : nat :=
  sum_list_with (fun e => S (length (succ e.1) - e.2)) stk.

Lemma stack_ok_mono st st' child stk :
  (forall m, st !! m = Some 2 -> st' !! m = Some 2) ->
  stack_ok st child stk -> stack_ok st' child stk.
Proof.
  intros Hm. revert child. induction stk as [|[n i] stk IH]; intros child; simpl; [done|].
  intros (Hi & Hc & Hr). split_and!; [done| |by apply IH].
  destruct child as [c|]; [|eauto].
  destruct Hc as (j & -> & Hj & Hlow). exists j. split_and!; eauto.
Qed.

Lemma stack_path st c stk n :
  stack_ok st (Some c) stk -> n ∈ stk.*1 -> tc (flip R) n c.
Proof.
  revert c. induction stk as [|[m i] stk IH]; intros c; simpl; [by intros _ ?%elem_of_nil|].
  intros (_ & (j & _ & Hj & _) & Hr) Hn.
  assert (tc (flip R) m c) as Hmc.
  { apply tc_once. apply list_elem_of_lookup. eauto. }
  apply elem_of_cons in Hn as [->|Hn]; [done|].
  by apply tc_transitive with m; [apply IH|].
Qed.

Lemma unvisited_cost_insert_open U st x v :
  NoDup U -> x ∈ U -> st !! x = None ->
  unvisited_cost U st = unvisited_cost U (<[x := v]> st) + node_cost succ x.
Proof.
  unfold unvisited_cost. induction U as [|y U IH]; [by intros _ ?%elem_of_nil|].
  intros [Hy Hnd]%NoDup_cons [->|Hx]%elem_of_cons Hst; simpl.
  - rewrite Hst, lookup_insert_eq.
    assert (sum_list_with (fun x => match st !! x with None => node_cost succ x | _ => 0 end) U =
      sum_list_with (fun z => match <[y:=v]> st !! z with None => node_cost succ z | _ => 0 end) U)
      as ->; [|lia].
    clear -Hy. induction U as [|z U IH]; simpl; [done|].
    apply not_elem_of_cons in Hy as [? ?]. by rewrite lookup_insert_ne, IH.
  - assert (x <> y) by congruence. rewrite lookup_insert_ne by done.
    rewrite (IH Hnd Hx Hst). lia.
Qed.

Lemma unvisited_cost_insert_le U st x v :
  unvisited_cost U (<[x := v]> st) <= unvisited_cost U st.
Proof.
  unfold unvisited_cost. induction U as [|y U IH]; simpl; [done|].
  destruct (decide (x = y)) as [->|?].
  - rewrite lookup_insert_eq. destruct (st !! y); lia.
  - rewrite lookup_insert_ne by done. lia.
Qed.

Section search.
Context (U : list string) (HU : NoDup U).
Context (Hclosed : forall x y, x ∈ U -> y ∈ succ x -> y ∈ U).

Lemma inv_pop st n i rest :
  inv st ((n, i) :: rest) -> succ n !! i = None -> inv (<[n := 2]> st) rest.
Proof.
  intros [Hv Hd Ho Hs] Hi. simpl in Hs. destruct Hs as (_ & Hlow & Hr).
  assert (Acc R n) as Hacc.
  { constructor. intros y [j Hj]%list_elem_of_lookup. apply Hd, (Hlow j y); [|done].
    apply lookup_lt_Some in Hj. apply lookup_ge_None in Hi. lia. }
  split.
  - intros x k. rewrite lookup_insert. case_decide; [intros [= <-]; auto|apply Hv].
  - intros x. rewrite lookup_insert. case_decide; [by subst|apply Hd].
  - intros x. rewrite lookup_insert. case_decide; [done|].
    intros [->|?]%Ho%elem_of_cons; done.
  - assert (stack_ok (<[n:=2]> st) (Some n) rest) as Hr'.
    { apply stack_ok_mono with st; [|done]. intros m Hm. rewrite lookup_insert. by case_decide. }
    clear -Hr'. destruct rest as [|[p j] rest]; simpl in *; [done|].
    destruct Hr' as (Hp & (j' & -> & Hj' & Hlow) & Hr). split_and!; [done| |done].
    intros k m Hk Hm. destruct (decide (k = j')) as [->|?].
    + rewrite Hj' in Hm. injection Hm as <-. by rewrite lookup_insert_eq.
    + apply (Hlow k); [lia|done].
Qed.

Lemma inv_skip st n i rest y :
  inv st ((n, i) :: rest) -> succ n !! i = Some y -> st !! y = Some 2 ->
  inv st ((n, S i) :: rest).
Proof.
  intros [Hv Hd Ho Hs] Hi Hy. split; [done..|]. simpl in *.
  destruct Hs as (_ & Hlow & Hr). split_and!; [by eapply lookup_lt_Some| |done].
  intros j m Hj Hm. destruct (decide (j = i)) as [->|?]; [congruence|].
  apply (Hlow j); [lia|done].
Qed.

Lemma inv_push st n i rest y :
  inv st ((n, i) :: rest) -> succ n !! i = Some y -> st !! y = None ->
  inv (<[y := 1]> st) ((y, 0) :: (n, S i) :: rest).
Proof.
  intros [Hv Hd Ho Hs] Hi Hy. simpl in Hs. destruct Hs as (_ & Hlow & Hr).
  assert (Hm : forall m, st !! m = Some 2 -> <[y := 1]> st !! m = Some 2).
  { intros m Hm. rewrite lookup_insert. case_decide; congruence. }
  split.
  - intros x k. rewrite lookup_insert. case_decide; [intros [= <-]; auto|apply Hv].
  - intros x. rewrite lookup_insert. case_decide; [done|apply Hd].
  - intros x. rewrite lookup_insert. simpl. case_decide; [subst; left|].
    intros ?%Ho. by right.
  - simpl. split_and!; [lia|intros j m Hj; lia|by eapply lookup_lt_Some| |].
    + exists i. split_and!; eauto.
    + by apply stack_ok_mono with st.
Qed.

Definition search_post (st : gmap string nat) (r : option (option string * gmap string nat))
    : Prop :=
  match r with
  | None => False
  | Some (Some x, _) => tc (flip R) x x
  | Some (None, st') => inv st' [] /\ unvisited_cost U st' <= unvisited_cost U st /\
      (forall x, is_Some (st !! x) -> is_Some (st' !! x))
  end.

Lemma search_post_insert st x v r : search_post (<[x := v]> st) r -> search_post st r.
Proof.
  destruct r as [[[y|] st']|]; simpl; [done| |done]. intros (? & ? & Hmono).
  pose proof (unvisited_cost_insert_le U st x v). split_and!; [done|lia|].
  intros y Hy. apply Hmono. rewrite lookup_insert. case_decide; [by eexists|done].
Qed.

Lemma search_closes_cycle st n i rest y :
  inv st ((n, i) :: rest) -> succ n !! i = Some y -> st !! y = Some 1 -> tc (flip R) y y.
Proof.
  intros Hinv Hi Hy.
  assert (tc (flip R) n y) as Hny by (apply tc_once, list_elem_of_lookup; eauto).
  pose proof (inv_stack _ _ Hinv) as Hs. simpl in Hs. destruct Hs as (_ & _ & Hr).
  apply (inv_open _ _ Hinv), elem_of_cons in Hy as [->|Hin]; [done|].
  by apply tc_transitive with n; [eapply stack_path|].
Qed.

Lemma cycle_search_spec fuel st stk :
  inv st stk -> (forall x, x ∈ stk.*1 -> x ∈ U) ->
  unvisited_cost U st + stack_cost stk < fuel ->
  search_post st (cycle_search edge fuel st stk).
Proof.
  revert st stk. induction fuel as [|fuel IH]; intros st stk Hinv HinU Hfuel; [lia|].
  simpl. destruct stk as [|[n i] rest]; [by split_and!|].
  unfold stack_cost in *. simpl in Hfuel.
  destruct (succ n !! i) as [y|] eqn:Hi.
  - assert (Hlt : i < length (succ n)) by (by eapply lookup_lt_Some).
    assert (y ∈ U) as HyU.
    { apply Hclosed with n; [apply HinU; by left|]. apply list_elem_of_lookup. eauto. }
    destruct (st !! y) as [v|] eqn:Hy.
    + destruct (inv_vals _ _ Hinv _ _ Hy) as [->| ->].
      * by eapply search_closes_cycle.
      * apply IH; [by eapply inv_skip|done|]. simpl. lia.
    + apply (search_post_insert st y 1), IH; [by eapply inv_push| |].
      * intros x' [->|Hx]%elem_of_cons; [done|by apply HinU].
      * rewrite (unvisited_cost_insert_open U st y 1) in Hfuel by done.
        unfold node_cost in *. simpl. lia.
  - apply (search_post_insert st n 2), IH; [by eapply inv_pop|intros; apply HinU; by right|].
    pose proof (unvisited_cost_insert_le U st n 2). simpl in *. lia.
Qed.

Lemma inv_start st x :
  inv st [] -> st !! x = None -> inv (<[x := 1]> st) [(x, 0)].
Proof.
  intros [Hv Hd Ho _] Hx. split.
  - intros y k. rewrite lookup_insert. case_decide; [intros [= <-]; auto|apply Hv].
  - intros y. rewrite lookup_insert. case_decide; [done|apply Hd].
  - intros y. rewrite lookup_insert. simpl. case_decide; [subst; left|].
    by intros ?%Ho%elem_of_nil.
  - simpl. split_and!; [lia|intros; lia|done].
Qed.

Lemma inv_empty_cases st x : inv st [] -> st !! x = None \/ st !! x = Some 2.
Proof.
  intros Hinv. destruct (st !! x) as [v|] eqn:E; [|auto].
  destruct (inv_vals _ _ Hinv _ _ E) as [->| ->]; [|auto].
  by apply (inv_open _ _ Hinv), elem_of_nil in E.
Qed.

Lemma cycle_search_root fuel st r :
  inv st [] -> st !! r = None -> r ∈ U -> unvisited_cost U st < fuel ->
  search_post (<[r := 1]> st) (cycle_search edge fuel (<[r := 1]> st) [(r, 0)]).
Proof.
  intros Hinv Hr HrU Hfuel. apply cycle_search_spec; [by apply inv_start| |].
  - by intros x ->%list_elem_of_singleton.
  - rewrite (unvisited_cost_insert_open U st r 1) in Hfuel by done.
    unfold stack_cost, node_cost in *. simpl. lia.
Qed.

Lemma cycle_roots_spec fuel roots st :
  inv st [] -> (forall x, x ∈ roots -> x ∈ U) -> unvisited_cost U st < fuel ->
  match cycle_roots edge fuel roots st with
  | None => False
  | Some (Some x) => tc (flip R) x x
  | Some None => forall x, x ∈ roots \/ is_Some (st !! x) -> Acc R x
  end.
Proof.
  revert st. induction roots as [|r roots IH]; intros st Hinv HinU Hfuel; simpl.
  { intros x [?%elem_of_nil|[v Hx]]; [done|].
    destruct (inv_empty_cases st x Hinv); [congruence|by apply (inv_done _ _ Hinv)]. }
  assert (HinU' : forall x, x ∈ roots -> x ∈ U) by (intros; apply HinU; by right).
  case_bool_decide as Hr.
  - specialize (IH st Hinv HinU' Hfuel). destruct (cycle_roots _ _ _ _) as [[x|]|]; [done| |done].
    intros x [[->|?]%elem_of_cons|?]; apply IH; auto.
  - destruct (inv_empty_cases st r Hinv) as [Hr0|]; [|done].
    pose proof (cycle_search_root fuel st r Hinv Hr0 ltac:(apply HinU; by left) Hfuel) as Hs.
    destruct (cycle_search _ _ _ _) as [[[x|] st']|]; simpl in Hs; [done| |done].
    destruct Hs as (Hinv' & Hle & Hmono).
    pose proof (unvisited_cost_insert_le U st r 1).
    specialize (IH st' Hinv' HinU' ltac:(lia)).
    destruct (cycle_roots _ _ _ _) as [[x|]|]; [done| |done].
    intros x Hx. apply IH. destruct Hx as [[->|?]%elem_of_cons|[v Hv]]; [|by left|].
    + right. apply Hmono. rewrite lookup_insert_eq. by eexists.
    + right. apply Hmono. rewrite lookup_insert. case_decide; by eexists.
Qed.
End search.

Lemma universe_closed roots :
  (forall x, succ x <> [] -> x ∈ roots) ->
  forall x y, x ∈ universe succ roots -> y ∈ succ x -> y ∈ universe succ roots.
Proof.
  intros Hsucc x y _ Hy. unfold universe. rewrite elem_of_remove_dups, elem_of_app.
  right. apply list_elem_of_bind. exists x. split; [done|]. apply Hsucc. intros E. rewrite E in Hy. by apply elem_of_nil in Hy.
Qed.

(** The search decides acyclicity: it always ends within its fuel; it reports
    nothing exactly when no node has an infinite path, and a node it reports
    lies on a cycle. *)
Lemma cycle_roots_correct roots :
  (forall x, succ x <> [] -> x ∈ roots) ->
  match cycle_roots edge (fuel_for succ roots) roots ∅ with
  | None => False
  | Some (Some x) => tc (flip R) x x
  | Some None => forall x, Acc R x
  end.
Proof.
  intros Hsucc.
  assert (inv ∅ []) as Hinv.
  { split; [intros x n H|intros x H|intros x H|done]; by rewrite lookup_empty in H. }
  assert (Hfuel : unvisited_cost (universe succ roots) ∅ < fuel_for succ roots).
  { unfold unvisited_cost, fuel_for. apply Nat.lt_succ_r.
    induction (universe succ roots) as [|a l IH]; simpl; [done|]. rewrite lookup_empty. by apply (Nat.add_le_mono_l _ _ (node_cost succ a)). }
  assert (Hroots : forall x, x ∈ roots -> x ∈ universe succ roots).
  { intros x Hx. unfold universe. rewrite elem_of_remove_dups, elem_of_app. auto. }
  pose proof (cycle_roots_spec (universe succ roots) (NoDup_remove_dups _)
    (universe_closed roots Hsucc) (fuel_for succ roots) roots ∅ Hinv Hroots Hfuel) as H.
  destruct (cycle_roots _ _ _ _) as [[x|]|]; [done| |done].
  intros x. constructor. intros y Hy. destruct (succ y) as [|z l] eqn:E.
  - constructor. intros z Hz. rewrite E in Hz. by apply elem_of_nil in Hz.
  - apply H. left. apply Hsucc. by rewrite E.
Qed.
End correctness.
End Dfs.

(** An accessible node lies on no cycle. *)
Lemma Acc_no_cycle {A} (R : relation A) x : Acc R x -> ~ tc (flip R) x x.
Proof.
  induction 1 as [x _ IH]. intros Hc. inversion Hc as [? ? Hxx|? z ? Hxz Hzx]; subst.
  - by apply (IH x).
  - apply (IH z); [done|]. by apply tc_r with x.
Qed.

(** ** Worklist closure *)
Module Worklist.

(** [if seen.insert(d) { pending.push(d) }] for each dependency [d]. *)
Fixpoint push_new (deps : list string) (seen : gset string) (pending : list string)
    : gset string * list string :=
  match deps with
  | [] => (seen, pending)
  | d :: deps =>
      if bool_decide (d ∈ seen) then push_new deps seen pending
      else push_new deps ({[d]} ∪ seen) (d :: pending)
  end.

(** [while let Some(id) = pending.pop()]; reading the dependencies of a node may
    fail.  [None] when the fuel runs out. *)
Fixpoint closure (succ : string -> result (list string)) (fuel : nat)
    (seen : gset string) (pending : list string) : option (result (gset string)) :=
  match fuel with
  | 0 => None
  | S fuel =>
      match pending with
      | [] => Some (Ok seen)
      | id :: pending =>
          match succ id with
          | Err e => Some (Err e)
          | Ok deps =>
              let '(seen, pending) := push_new deps seen pending in
              closure succ fuel seen pending
          end
      end
  end.

Lemma size_difference_insert (U seen : gset string) d :
  d ∈ U -> d ∉ seen -> size (U ∖ seen) = S (size (U ∖ ({[d]} ∪ seen))).
Proof.
  intros HdU Hd.
  replace (U ∖ seen) with ({[d]} ∪ (U ∖ ({[d]} ∪ seen))).
  - rewrite size_union by set_solver. by rewrite size_singleton.
  - apply set_eq. intros x. destruct (decide (x = d)) as [->|]; set_solver.
Qed.

Lemma push_new_spec (U : gset string) deps seen pending :
  (forall d, d ∈ deps -> d ∈ U) ->
  exists new, push_new deps seen pending = (list_to_set deps ∪ seen, new ++ pending) /\
    (forall d, d ∈ new <-> d ∈ deps /\ d ∉ seen) /\
    length new + size (U ∖ (list_to_set deps ∪ seen)) = size (U ∖ seen).
Proof.
  revert seen pending. induction deps as [|d deps IH]; intros seen pending HU; simpl.
  - exists []. rewrite (left_id_L ∅ (∪)). split_and!; [done|set_solver|done].
  - case_bool_decide as Hd.
    + destruct (IH seen pending ltac:(intros; apply HU; by right)) as (new & -> & Hnew & Hsz).
      exists new.
      assert ({[d]} ∪ list_to_set deps ∪ seen = list_to_set deps ∪ seen) as ->
        by (clear -Hd; set_solver).
      split_and!; [done| |done].
      intros x. rewrite Hnew, elem_of_cons. destruct (decide (x = d)) as [->|]; tauto.
    + destruct (IH ({[d]} ∪ seen) (d :: pending) ltac:(intros; apply HU; by right)) as (new & -> & Hnew & Hsz).
      exists (new ++ [d]). rewrite <-app_assoc. simpl.
      assert (list_to_set deps ∪ ({[d]} ∪ seen) = {[d]} ∪ list_to_set deps ∪ seen) as Heq
        by (clear; set_solver).
      rewrite Heq in *.
      split_and!; [done| |].
      * intros x. rewrite elem_of_app, Hnew, list_elem_of_singleton, elem_of_cons,
          not_elem_of_union, not_elem_of_singleton.
        destruct (decide (x = d)) as [->|]; tauto.
      * rewrite length_app. simpl.
        rewrite (size_difference_insert U seen d); [lia| |done]. apply HU. by left.
Qed.

Section closure.
Context (succ : string -> result (list string)) (U : gset string).
Context (HU : forall x l, succ x = Ok l -> forall d, d ∈ l -> d ∈ U).

Definition edge (x y : string) : Prop := exists l, succ x = Ok l /\ y ∈ l.

(** Enough fuel: one iteration per initial node and per node of the universe. *)
Lemma closure_terminates fuel seen pending :
  length pending + size (U ∖ seen) < fuel -> is_Some (closure succ fuel seen pending).
Proof.
  revert seen pending. induction fuel as [|fuel IH]; intros seen pending Hf; [lia|].
  destruct pending as [|x pending]; simpl; [by eexists|].
  destruct (succ x) as [l|e] eqn:E; [|by eexists].
  destruct (push_new_spec U l seen pending (HU x l E)) as (new & -> & _ & Hsz).
  apply IH. rewrite length_app. simpl in Hf. lia.
Qed.

Lemma closure_sound fuel seen pending S y :
  closure succ fuel seen pending = Some (Ok S) ->
  y ∈ S -> y ∈ seen \/ exists x, x ∈ pending /\ tc edge x y.
Proof.
  revert seen pending. induction fuel as [|fuel IH]; intros seen pending; [done|].
  destruct pending as [|x pending]; simpl; [intros [= ->]; by left|].
  destruct (succ x) as [l|e] eqn:E; [|done].
  destruct (push_new_spec U l seen pending (HU x l E)) as (new & -> & Hnew & _).
  intros Hc Hy. destruct (IH _ _ Hc Hy) as [Hs|(z & Hz & Hzy)].
  - apply elem_of_union in Hs as [Hl%elem_of_list_to_set|?]; [|by left].
    right. exists x. split; [by left|]. apply tc_once. by exists l.
  - right. apply elem_of_app in Hz as [[Hzl _]%Hnew|Hz].
    + exists x. split; [by left|]. apply tc_l with z; [by exists l|done].
    + exists z. split; [by right|done].
Qed.

(** Every node the loop has visited was read, and its dependencies are in the
    result. *)
Lemma closure_inv fuel seen pending S :
  closure succ fuel seen pending = Some (Ok S) ->
  seen ⊆ S /\ (forall x, x ∈ pending \/ (x ∈ S /\ x ∉ seen) ->
    exists l, succ x = Ok l /\ forall y, y ∈ l -> y ∈ S).
Proof.
  revert seen pending. induction fuel as [|fuel IH]; intros seen pending; [done|].
  destruct pending as [|x pending]; simpl.
  { intros [= ->]. split; [done|]. intros a [?%elem_of_nil|[? ?]]; done. }
  destruct (succ x) as [l|e] eqn:E; [|done].
  destruct (push_new_spec U l seen pending (HU x l E)) as (new & -> & Hnew & _).
  intros Hc. destruct (IH _ _ Hc) as [Hsub Hcl]. split; [set_solver|].
  intros a Ha. destruct (decide (a = x)) as [->|Hne]; [exists l; split; [done|set_solver]|].
  apply Hcl. rewrite elem_of_app.
  destruct Ha as [[?|?]%elem_of_cons|[HaS Has]]; [done|auto|].
  destruct (decide (a ∈ l)) as [Hal|Hal]; [left; left; by apply Hnew|].
  right. split; [done|]. set_solver.
Qed.

Lemma closure_defined fuel (seen : gset string) pending S x :
  (forall x, x ∈ seen -> x ∈ pending) ->
  closure succ fuel seen pending = Some (Ok S) ->
  x ∈ pending \/ x ∈ S -> exists l, succ x = Ok l /\ forall y, y ∈ l -> y ∈ S.
Proof.
  intros Hseen Hc Hx. destruct (closure_inv _ _ _ _ Hc) as [_ Hcl]. apply Hcl.
  destruct Hx as [?|HxS]; [by left|]. destruct (decide (x ∈ seen)); auto.
Qed.

(** The loop computes the nodes reachable from the initial worklist. *)
Lemma closure_correct fuel (seen : gset string) pending S :
  (forall x, x ∈ seen -> x ∈ pending) ->
  closure succ fuel seen pending = Some (Ok S) ->
  forall y, y ∈ S <-> y ∈ seen \/ exists x, x ∈ pending /\ tc edge x y.
Proof.
  intros Hseen Hc y. split; [by eapply closure_sound|].
  destruct (closure_inv _ _ _ _ Hc) as [Hsub _].
  intros [?|(x & Hx & Hxy)]; [set_solver|].
  assert (Hcl : forall a b, a ∈ pending \/ a ∈ S -> edge a b -> b ∈ S).
  { intros a b Ha (l & Hl & Hb).
    destruct (closure_defined _ _ _ _ a Hseen Hc Ha) as (l' & Hl' & Hin). rewrite Hl in Hl'. injection Hl' as <-. auto. }
  assert (forall a b, tc edge a b -> a ∈ pending \/ a ∈ S -> b ∈ S) as H; [|eauto].
  intros a b Hab. induction Hab as [a b Hab|a b c Hab _ IH]; intros Ha; [eauto|].
  apply IH. right. eauto.
Qed.
End closure.
End Worklist.

(** ** Kahn's algorithm *)
Module Kahn.

(** [downstream.entry(input).or_default().push(step)] and [*degree += 1] for
    every input of one step. *)
Fixpoint add_inputs (step : string) (inputs : list string)
    (acc : gmap string nat * gmap string (list string))
    : gmap string nat * gmap string (list string) :=
  match inputs with
  | [] => acc
  | input :: inputs =>
      add_inputs step inputs
        (alter S step acc.1, <[input := default [] (acc.2 !! input) ++ [step]]> acc.2)
  end.
Definition add_steps (dependencies : list (string * list string))
    (acc : gmap string nat * gmap string (list string)) :=
  foldl (fun acc e => add_inputs e.1 e.2 acc) acc dependencies.

(** [for child in children]: decrement, and queue a child that reaches zero. *)
Fixpoint relax (children : list string) (indegree : gmap string nat) (ready : list string)
    : gmap string nat * list string :=
  match children with
  | [] => (indegree, ready)
  | child :: children =>
      match indegree !! child with
      | Some degree =>
          let degree := degree - 1 in
          relax children (<[child := degree]> indegree)
            (if Nat.eqb degree 0 then ready ++ [child] else ready)
      | None => relax children indegree ready
      end
  end.

(** [while let Some(node) = ready.pop_front()]; [None] when the fuel runs out. *)
Fixpoint kahn (downstream : gmap string (list string)) (fuel : nat)
    (indegree : gmap string nat) (ready order : list string) : option (list string) :=
  match fuel with
  | 0 => None
  | S fuel =>
      match ready with
      | [] => Some order
      | node :: ready =>
          let '(indegree, ready) :=
            match downstream !! node with
            | Some children => relax children indegree ready
            | None => (indegree, ready)
            end in
          kahn downstream fuel indegree ready (order ++ [node])
      end
  end.

Definition topological_order (sources : gset string) (dependencies : gmap string (list string))
    : option (list string) :=
  let indegree := gset_to_gmap 0 (sources ∪ dom dependencies) in
  let '(indegree, downstream) := add_steps (btree_entries dependencies) (indegree, ∅) in
  let ready := filter (fun node => indegree !! node = Some 0) (btree_keys indegree) in
  match kahn downstream (S (size indegree)) indegree ready [] with
  | Some order => if Nat.eqb (length order) (size indegree) then Some order else None
  | None => None
  end.

(** Occurrences of [x] in [l]. *)
Definition occ (x : string) (l : list string) : nat := length (filter (x =.) l).

Lemma occ_nil x : occ x [] = 0.
Proof. done. Qed.
Lemma occ_cons x y l : occ x (y :: l) = (if decide (x = y) then 1 else 0) + occ x l.
Proof. unfold occ. rewrite filter_cons. by case_decide. Qed.
Lemma occ_app x l k : occ x (l ++ k) = occ x l + occ x k.
Proof. unfold occ. by rewrite filter_app, length_app. Qed.
Lemma occ_pos x l : 0 < occ x l <-> x ∈ l.
Proof.
  induction l as [|y l IH].
  - rewrite occ_nil. split; [lia|by intros ?%elem_of_nil].
  - rewrite occ_cons, elem_of_cons, <-IH. case_decide; split; [by left|lia|auto|].
    intros [?|?]; [done|lia].
Qed.

(** *** The two tables *)
Lemma add_inputs_spec step inputs deg down :
  let '(deg', down') := add_inputs step inputs (deg, down) in
  (forall n, deg' !! n = if decide (n = step) then (fun d => d + length inputs) <$> deg !! n else deg !! n) /\
  (forall x n, occ n (default [] (down' !! x)) =
     occ n (default [] (down !! x)) + if decide (n = step) then occ x inputs else 0).
Proof.
  revert deg down. induction inputs as [|i inputs IH]; intros deg down; simpl.
  - split.
    + intros n. case_decide; [|done]. destruct (deg !! n); simpl; [f_equal; lia|done].
    + intros x n. case_decide; rewrite ?occ_nil; lia.
  - specialize (IH (alter S step deg) (<[i := default [] (down !! i) ++ [step]]> down)).
    destruct (add_inputs _ _ _) as [deg' down']. destruct IH as [IH1 IH2]. split.
    + intros n. rewrite IH1, lookup_alter. case_decide; subst; [rewrite decide_True by done|].
      * destruct (deg !! step); simpl; [f_equal; lia|done].
      * by rewrite decide_False.
    + intros x n. rewrite IH2, lookup_insert, occ_cons.
      destruct (decide (i = x)) as [->|Hix]; simpl.
      * rewrite occ_app, occ_cons, occ_nil. destruct (decide (n = step)); [|lia].
        rewrite decide_True by done. lia.
      * rewrite (decide_False (P := x = i)) by done. simpl. done.
Qed.

Lemma add_steps_spec entries deg down :
  NoDup entries.*1 ->
  let '(deg', down') := add_steps entries (deg, down) in
  (forall n, deg' !! n =
     (fun d => d + length (default [] (list_to_map (M := gmap string _) entries !! n))) <$> deg !! n) /\
  (forall x n, occ n (default [] (down' !! x)) =
     occ n (default [] (down !! x)) +
     occ x (default [] (list_to_map (M := gmap string _) entries !! n))).
Proof.
  revert deg down. induction entries as [|[s i] entries IH]; intros deg down; simpl.
  - intros _. split.
    + intros n. rewrite lookup_empty. simpl. destruct (deg !! n); simpl; [f_equal; lia|done].
    + intros x n. rewrite lookup_empty. simpl. rewrite occ_nil. lia.
  - intros [Hs Hnd]%NoDup_cons. unfold add_steps in *. simpl.
    pose proof (add_inputs_spec s i deg down) as Hi.
    destruct (add_inputs s i (deg, down)) as [deg1 down1]. destruct Hi as [Hi1 Hi2].
    specialize (IH deg1 down1 Hnd). destruct (foldl _ _ _) as [deg' down'].
    destruct IH as [IH1 IH2].
    apply not_elem_of_list_to_map_1 in Hs. split.
    + intros n. rewrite IH1, Hi1, lookup_insert. destruct (decide (n = s)) as [->|Hne].
      * rewrite decide_True, Hs by done. simpl. destruct (deg !! s); simpl; [f_equal; lia|done].
      * by rewrite decide_False by done.
    + intros x n. rewrite IH2, Hi2, lookup_insert. destruct (decide (n = s)) as [->|Hne].
      * rewrite decide_True, Hs by done. simpl. rewrite occ_nil. lia.
      * rewrite decide_False by done. lia.
Qed.

Lemma list_to_map_btree_entries {V} (m : gmap string V) : list_to_map (btree_entries m) = m.
Proof.
  apply map_eq. intros k. apply option_eq. intros v.
  rewrite <-elem_of_list_to_map by apply NoDup_btree_entries_fst.
  apply elem_of_btree_entries.
Qed.

(** *** One round *)
Lemma relax_spec children deg ready :
  (forall n d, deg !! n = Some d -> occ n children <= d) ->
  let '(deg', ready') := relax children deg ready in
  (forall n, deg' !! n = (fun d => d - occ n children) <$> deg !! n) /\
  exists new, ready' = ready ++ new /\ NoDup new /\
    forall n, n ∈ new <-> n ∈ children /\ deg !! n = Some (occ n children).
Proof.
  revert deg ready. induction children as [|c children IH]; intros deg ready Hle; simpl.
  { split; [intros n; rewrite occ_nil; destruct (deg !! n); simpl; [f_equal; lia|done]|].
    exists []. rewrite app_nil_r. split_and!; [done|constructor|].
    intros n. split; [by intros ?%elem_of_nil|by intros [?%elem_of_nil _]]. }
  setoid_rewrite occ_cons in Hle.
  destruct (deg !! c) as [d|] eqn:Hc.
  - pose proof (Hle c d Hc) as Hd. rewrite decide_True in Hd by done.
    specialize (IH (<[c := d - 1]> deg) (if Nat.eqb (d - 1) 0 then ready ++ [c] else ready)).
    destruct (relax _ _ _) as [deg' ready'].
    destruct IH as [IH1 (new & -> & Hnd & Hnew)].
    { intros n d' Hn. rewrite lookup_insert in Hn. case_decide; subst.
      - injection Hn as <-. lia.
      - specialize (Hle n d' Hn). case_decide; [congruence|lia]. }
    split.
    { intros n. rewrite IH1, lookup_insert, occ_cons. case_decide; subst.
      - rewrite decide_True, Hc by done. simpl. f_equal. lia.
      - by rewrite decide_False by done. }
    assert (Hother : forall n, n <> c -> (n ∈ children /\ <[c := d - 1]> deg !! n = Some (occ n children)
        <-> n ∈ c :: children /\ deg !! n = Some (occ n (c :: children)))).
    { intros n Hn. rewrite lookup_insert_ne, occ_cons, elem_of_cons, decide_False by done. naive_solver. }
    destruct (Nat.eqb_spec (d - 1) 0) as [Hd0|Hd0].
    + assert (Hc0 : c ∉ children) by (rewrite <-occ_pos; lia).
      exists (c :: new). rewrite <-app_assoc. split_and!; [done| |].
      * apply NoDup_cons. split; [|done]. rewrite Hnew. tauto.
      * intros n. rewrite elem_of_cons. destruct (decide (n = c)) as [->|Hne].
        -- rewrite occ_cons, decide_True, Hc by done. split; [|by left].
           intros _. split; [by left|]. f_equal. lia.
        -- rewrite Hnew, (Hother n Hne). tauto.
    + exists new. split_and!; [done|done|]. intros n. rewrite Hnew.
      destruct (decide (n = c)) as [->|Hne]; [|by apply Hother].
      rewrite lookup_insert_eq, occ_cons, decide_True, Hc, elem_of_cons, <-occ_pos by done.
      split; [intros [_ [= ?]]; split; [by left|f_equal; lia]|].
      intros [_ [= ?]]. split; [lia|f_equal; lia].
  - specialize (IH deg ready). destruct (relax _ _ _) as [deg' ready'].
    destruct IH as [IH1 (new & -> & Hnd & Hnew)].
    { intros n d' Hn. specialize (Hle n d' Hn). lia. }
    split.
    { intros n. rewrite IH1, occ_cons. case_decide; subst; [by rewrite Hc|done]. }
    exists new. split_and!; [done|done|]. intros n. rewrite Hnew, occ_cons, elem_of_cons.
    case_decide as Hn; [subst; rewrite Hc; naive_solver|naive_solver].
Qed.

Lemma length_filter_not_in (order l : list string) x :
  x ∉ order ->
  length (filter (.∉ order) l) = length (filter (.∉ order ++ [x]) l) + occ x l.
Proof.
  intros Hx. induction l as [|y l IH]; [done|].
  rewrite occ_cons, !filter_cons.
  destruct (decide (x = y)) as [<-|Hne].
  - rewrite decide_True by done. rewrite decide_False; [simpl; lia|].
    intros H. apply H, elem_of_app. right. by apply list_elem_of_singleton.
  - destruct (decide (y ∉ order)) as [Hy|Hy].
    + rewrite decide_True; [simpl; lia|].
      rewrite elem_of_app, list_elem_of_singleton. naive_solver.
    + rewrite decide_False; [lia|]. intros H. apply Hy. intros Hin. apply H, elem_of_app. by left.
Qed.

(** *** The loop *)
Section loop.
Context (nodes : gset string) (inputs : string -> list string).
Context (downstream : gmap string (list string)).
Context (Hdown : forall x n, occ n (default [] (downstream !! x)) = occ x (inputs n)).
Context (Hin : forall n, inputs n <> [] -> n ∈ nodes).

Record kinv (deg : gmap string nat) (ready order : list string) : Prop := {
  kinv_deg : forall n, deg !! n =
    if decide (n ∈ nodes) then Some (length (filter (.∉ order) (inputs n))) else None;
  kinv_nodup : NoDup (order ++ ready);
  kinv_zero : forall n, n ∈ order ++ ready <-> deg !! n = Some 0;
  kinv_topo : forall i n x, order !! i = Some n -> x ∈ inputs n -> x ∈ take i order;
}.

Lemma kinv_inputs_done deg ready order n x :
  kinv deg ready order -> n ∈ order ++ ready -> x ∈ inputs n -> x ∈ order.
Proof.
  intros K Hn Hx. apply (kinv_zero _ _ _ K) in Hn. rewrite (kinv_deg _ _ _ K) in Hn.
  case_decide; [|done]. injection Hn as Hn%length_zero_iff_nil.
  destruct (decide (x ∈ order)) as [|Hno]; [done|].
  assert (x ∈ filter (.∉ order) (inputs n)) as Hf by (by apply list_elem_of_filter).
  rewrite Hn in Hf. by apply elem_of_nil in Hf.
Qed.

Lemma kinv_size deg ready order :
  kinv deg ready order -> length (order ++ ready) <= size nodes.
Proof.
  intros K. rewrite <-(size_list_to_set (C := gset string)) by apply (kinv_nodup _ _ _ K).
  apply subseteq_size. intros n. rewrite elem_of_list_to_set.
  intros Hn%(kinv_zero _ _ _ K). rewrite (kinv_deg _ _ _ K) in Hn. by case_decide.
Qed.

Lemma kinv_step deg node ready order :
  kinv deg (node :: ready) order ->
  let '(deg', ready') := match downstream !! node with
    | Some children => relax children deg ready | None => (deg, ready) end in
  kinv deg' ready' (order ++ [node]).
Proof.
  intros K. set (children := default [] (downstream !! node)).
  assert (match downstream !! node with Some children => relax children deg ready
    | None => (deg, ready) end = relax children deg ready) as ->.
  { unfold children. by destruct (downstream !! node). }
  assert (Hno : node ∉ order).
  { pose proof (kinv_nodup _ _ _ K) as (_ & Hd & _)%NoDup_app. intros Hn. apply (Hd _ Hn). by left. }
  assert (Hle : forall n d, deg !! n = Some d -> occ n children <= d).
  { intros n d. rewrite (kinv_deg _ _ _ K). case_decide; [|done]. intros [= <-].
    unfold children. rewrite Hdown, (length_filter_not_in order _ node Hno). lia. }
  pose proof (relax_spec children deg ready Hle) as Hr.
  destruct (relax children deg ready) as [deg' ready'].
  destruct Hr as [Hdeg (new & -> & Hnd & Hnew)].
  assert (Hfresh : forall n, n ∈ new -> n ∉ order ++ node :: ready).
  { intros n [Hc Hz]%Hnew. rewrite (kinv_zero _ _ _ K), Hz. apply occ_pos in Hc.
    intros [= ?]. lia. }
  split.
  - intros n. rewrite Hdeg, (kinv_deg _ _ _ K). case_decide; [|done]. simpl. f_equal.
    unfold children. rewrite Hdown, (length_filter_not_in order _ node Hno). lia.
  - rewrite <-app_assoc. simpl. rewrite app_comm_cons, app_assoc. apply NoDup_app.
    split_and!; [apply (kinv_nodup _ _ _ K)| |done]. intros n Hn Hnn. by apply (Hfresh n).
  - intros n. rewrite <-app_assoc. simpl. rewrite app_comm_cons, app_assoc, elem_of_app.
    rewrite (kinv_zero _ _ _ K), Hdeg, Hnew. destruct (deg !! n) as [d|] eqn:Hd; simpl; [|naive_solver].
    pose proof (Hle n d Hd). rewrite <-occ_pos. split.
    + intros [[= ->]|[_ [= ->]]]; f_equal; lia.
    + intros [= ?]. destruct (decide (d = 0)) as [->|]; [by left|right]. split; [lia|f_equal; lia].
  - intros i n x Hi Hx. destruct (decide (i < length order)) as [Hlt|Hge].
    + rewrite lookup_app_l in Hi by done. rewrite take_app_le by lia. by eapply (kinv_topo _ _ _ K).
    + rewrite lookup_app_r in Hi by lia. apply list_lookup_singleton_Some in Hi as [Hi0 <-].
      replace i with (length order) by lia. rewrite take_app_length.
      eapply kinv_inputs_done; [done| |done]. apply elem_of_app. right. by left.
Qed.

Lemma kahn_spec fuel deg ready order :
  kinv deg ready order -> size nodes < fuel + length order ->
  exists deg' order', kahn downstream fuel deg ready order = Some order' /\ kinv deg' [] order'.
Proof.
  revert deg ready order. induction fuel as [|fuel IH]; intros deg ready order K Hf.
  - pose proof (kinv_size _ _ _ K) as Hs. rewrite length_app in Hs. lia.
  - destruct ready as [|node ready]; simpl; [by exists deg, order|].
    pose proof (kinv_step _ _ _ _ K) as K'.
    destruct (match downstream !! node with Some _ => _ | None => _ end) as [deg' ready'].
    apply IH with (deg := deg'); [done|]. rewrite length_app. simpl. lia.
Qed.
End loop.

(** *** Correctness *)
Section correctness.
Context (sources : gset string) (dependencies : gmap string (list string)).
Notation nodes := (sources ∪ dom dependencies).
Definition inputs_of (n : string) : list string := default [] (dependencies !! n).

Lemma topological_order_run :
  exists deg' order', kinv nodes inputs_of deg' [] order' /\
    topological_order sources dependencies =
      if Nat.eqb (length order') (size nodes) then Some order' else None.
Proof.
  unfold topological_order.
  pose proof (add_steps_spec (btree_entries dependencies) (gset_to_gmap 0 nodes) ∅
    (NoDup_btree_entries_fst _)) as Hs.
  rewrite list_to_map_btree_entries in Hs.
  destruct (add_steps _ _) as [deg down]. destruct Hs as [Hdeg Hdown].
  assert (Hdeg' : forall n, deg !! n = if decide (n ∈ nodes) then Some (length (inputs_of n)) else None).
  { intros n. rewrite Hdeg, lookup_gset_to_gmap. unfold inputs_of.
    case_decide; [rewrite option_guard_True by done|rewrite option_guard_False by done]; done. }
  assert (Hdom : dom deg = nodes).
  { apply set_eq. intros n. rewrite elem_of_dom, Hdeg'. case_decide; split; try done; by eexists. }
  assert (K : kinv nodes inputs_of deg
    (filter (fun n => deg !! n = Some 0) (btree_keys deg)) []).
  { split; simpl.
    - intros n. rewrite Hdeg'. case_decide; [|done]. rewrite list_filter_all; [done|].
      apply Forall_forall. intros ? _ ?%elem_of_nil. done.
    - apply NoDup_filter, NoDup_btree_elements.
    - intros n. rewrite list_elem_of_filter, elem_of_btree_keys. split; [by intros [? _]|].
      intros H. split; [done|by eexists].
    - intros i n x Hi. by rewrite lookup_nil in Hi. }
  destruct (kahn_spec nodes inputs_of down (fun x n => eq_trans (Hdown x n) eq_refl)
    (S (size deg)) deg _ [] K) as (deg' & order' & Hk & K').
  { rewrite <-size_dom, Hdom. simpl. lia. }
  exists deg', order'. split; [done|].
  rewrite Hk, <-(size_dom deg), Hdom. done.
Qed.

(** A returned order lists every node once, each after all of its inputs. *)
Lemma topological_order_sound order :
  topological_order sources dependencies = Some order ->
  NoDup order /\ (forall n, n ∈ order <-> n ∈ nodes) /\
  (forall i n x, order !! i = Some n -> x ∈ inputs_of n -> x ∈ take i order).
Proof.
  destruct topological_order_run as (deg & order' & K & ->).
  destruct (Nat.eqb_spec (length order') (size nodes)) as [Hlen|]; [|done]. intros [= ->].
  pose proof (kinv_nodup _ _ _ _ _ K) as Hnd. rewrite app_nil_r in Hnd.
  split_and!; [done| |by apply (kinv_topo _ _ _ _ _ K)].
  assert (list_to_set order ⊆ nodes) as Hsub.
  { intros n. rewrite elem_of_list_to_set. intros Hn.
    assert (n ∈ order ++ []) as Hn' by (by rewrite app_nil_r).
    apply (kinv_zero _ _ _ _ _ K) in Hn'. rewrite (kinv_deg _ _ _ _ _ K) in Hn'.
    by case_decide. }
  assert (list_to_set order = nodes) as Heq.
  { apply set_eq, set_subseteq_size_equiv; [done|]. rewrite size_list_to_set by done. lia. }
  intros n. by rewrite <-Heq, elem_of_list_to_set.
Qed.

(** An acyclic graph without dangling inputs always has an order. *)
Lemma topological_order_complete :
  (forall n x, x ∈ inputs_of n -> x ∈ nodes) ->
  (forall n, Acc (fun x n => x ∈ inputs_of n) n) ->
  is_Some (topological_order sources dependencies).
Proof.
  intros Hdang Hacc. destruct topological_order_run as (deg & order & K & ->).
  enough (length order = size nodes) as -> by (rewrite Nat.eqb_refl; by eexists).
  pose proof (kinv_nodup _ _ _ _ _ K) as Hnd. rewrite app_nil_r in Hnd.
  assert (Hall : forall n, n ∈ nodes -> n ∈ order).
  { intros n. induction (Hacc n) as [n _ IH]. intros Hn.
    assert (n ∈ order ++ []) as Hn'; [|by rewrite app_nil_r in Hn'].
    apply (kinv_zero _ _ _ _ _ K). rewrite (kinv_deg _ _ _ _ _ K), decide_True by done.
    f_equal. apply length_zero_iff_nil.
    destruct (filter _ _) as [|x l] eqn:E; [done|]. exfalso.
    assert (x ∈ filter (.∉ order) (inputs_of n)) as [Hx Hxi]%list_elem_of_filter
      by (rewrite E; by left).
    apply Hx, IH; [done|]. by eapply Hdang. }
  pose proof (kinv_size _ _ _ _ _ K) as Hle. rewrite app_nil_r in Hle.
  apply Nat.le_antisymm; [done|].
  rewrite <-(size_list_to_set (C := gset string) order Hnd). apply subseteq_size.
  intros n Hn. rewrite elem_of_list_to_set. by apply Hall.
Qed.
End correctness.
End Kahn.
