(* ===== verification/Ontology.v ===== *)
(** * Ontology: parsing, validation and slicing of ontology graphs (semantics.rs)

    An ontology document lists resources (object and event types, properties,
    links, actions, functions) that own, reference and inherit from each other.
    [validate_ontology] accepts exactly the documents whose graph is well formed;
    [slice_ontology] cuts out the part a pipeline block is bound to. *)

From S2P Require Import Prelude Text Json Graph.

Definition SCALAR_TYPES : list string :=
  ["boolean"; "bytes"; "date"; "datetime"; "decimal"; "float"; "geopoint";
   "integer"; "json"; "string"; "uuid"].
Definition RESOURCE_KINDS : list string :=
  ["object_type"; "event_type"; "property"; "link_type"; "action"; "function"].

Record Resource : Type := {
  r_id : string;
  r_kind : string;
  r_display_name : string;
  r_owner : option string;
  r_value_type : option string;
  r_references : list string;
  r_parents : list string;
  r_attributes : list (string * value);
}.

Definition required_string (v : value) (field owner : string) : result string :=
  s ← with_context (owner +:+ " " +:+ field +:+ " missing") (get_str v field);
  ensure (negb (is_empty s)) (owner +:+ " " +:+ field +:+ " empty") ;;
  Ok s.

Definition string_array (v : option value) (field : string) : result (list string) :=
  match v with
  | None | Some JNull => Ok []
  | Some (JString item) => Ok [item]
  | Some (JArray items) =>
      mapM (fun item => with_context (field +:+ " must contain strings") (as_str item)) items
  | Some _ => Err (Msg (field +:+ " must be a string or array"))
  end.

(** ** Parsing *)
Definition parse_resource (v : value) (ids : gset string) : result Resource :=
  id ← required_string v "resource_id" "ontology resource";
  ensure (valid_id id) ("invalid_resource_id:" +:+ id) ;;
  ensure (bool_decide (id ∉ ids)) ("duplicate_resource_id:" +:+ id) ;;
  kind ← required_string v "kind" "ontology resource";
  ensure (str_in kind RESOURCE_KINDS) ("invalid_resource_kind:" +:+ id +:+ ":" +:+ kind) ;;
  display_name ← required_string v "display_name" "ontology resource";
  attributes ← with_context "ontology resource attributes missing" (get_object v "attributes");
  references ← string_array (get v "references") "references";
  extends ← string_array (jget "extends" attributes) "extends";
  interfaces ← string_array (jget "interfaces" attributes) "interfaces";
  Ok {| r_id := id; r_kind := kind; r_display_name := display_name;
        r_owner := get_str v "owner_id"; r_value_type := get_str v "value_type";
        r_references := references; r_parents := extends ++ interfaces;
        r_attributes := attributes |}.

Fixpoint parse_loop (values : list value) (ids : gset string) : result (list Resource) :=
  match values with
  | [] => Ok []
  | v :: values =>
      r ← parse_resource v ids;
      rs ← parse_loop values ({[r_id r]} ∪ ids);
      Ok (r :: rs)
  end.

Definition parse_resources (ontology : value) : result (list Resource) :=
  version ← with_context "ontology_version_missing" (get_str ontology "version");
  ensure (negb (is_empty version)) "ontology_version_empty" ;;
  values ← with_context "ontology_resources_missing" (get_array ontology "resources");
  parse_loop values ∅.

(** ** Validation *)
Definition by_id_of (resources : list Resource) : gmap string Resource :=
  btree_collect ((fun r => (r_id r, r)) <$> resources).

Definition type_kind (kind : string) : bool := str_in kind ["object_type"; "event_type"].

(** One check per part of the loop body of [validate_ontology]. *)
Definition owner_issues (by_id : gmap string Resource) (r : Resource) : list string :=
  match r_owner r with
  | None => []
  | Some owner =>
      match by_id !! owner with
      | None => ["dangling_owner:" +:+ r_id r +:+ ":" +:+ owner]
      | Some o => if type_kind (r_kind o) then []
                  else ["invalid_owner_kind:" +:+ r_id r +:+ ":" +:+ owner]
      end
  end.
Definition reference_issues (by_id : gmap string Resource) (r : Resource) : list string :=
  omap (fun reference =>
    match by_id !! reference with
    | Some _ => None
    | None => Some ("dangling_reference:" +:+ r_id r +:+ ":" +:+ reference)
    end) (r_references r).
Definition parent_issues (by_id : gmap string Resource) (r : Resource) : list string :=
  omap (fun parent =>
    match by_id !! parent with
    | None => Some ("dangling_inheritance:" +:+ r_id r +:+ ":" +:+ parent)
    | Some p => if type_kind (r_kind p) then None
                else Some ("invalid_inheritance_type:" +:+ r_id r +:+ ":" +:+ parent)
    end) (r_parents r).
Definition property_issues (by_id : gmap string Resource) (r : Resource) : list string :=
  if String.eqb (r_kind r) "property" then
    match r_value_type r with
    | None => ["missing_property_type:" +:+ r_id r]
    | Some value_type =>
        if is_empty value_type then ["missing_property_type:" +:+ r_id r]
        else if negb (str_in value_type SCALAR_TYPES) && option_is_none (by_id !! value_type)
        then ["invalid_value_type:" +:+ r_id r +:+ ":" +:+ value_type]
        else []
    end
  else [].
Definition validate_link_endpoint (by_id : gmap string Resource) (r : Resource) (field : string)
    : list string :=
  match (jget field (r_attributes r) ≫= as_str) ≫= (fun id => by_id !! id) with
  | None => ["dangling_link_" +:+ field +:+ ":" +:+ r_id r]
  | Some target => if type_kind (r_kind target) then []
                   else ["incompatible_link_" +:+ field +:+ ":" +:+ r_id r]
  end.
Definition link_issues (by_id : gmap string Resource) (r : Resource) : list string :=
  if String.eqb (r_kind r) "link_type" then
    validate_link_endpoint by_id r "source_type" ++ validate_link_endpoint by_id r "target_type"
  else [].
Definition resource_issues (by_id : gmap string Resource) (r : Resource) : list string :=
  owner_issues by_id r ++ reference_issues by_id r ++ parent_issues by_id r ++
  property_issues by_id r ++ link_issues by_id r.

(** The outgoing edges [find_cycle] follows: the owner, or the parents. *)
Definition cycle_edges (by_id : gmap string Resource) (owner_edges : bool) (x : string)
    : list string :=
  match by_id !! x with
  | Some r => if owner_edges then option_list (r_owner r) else r_parents r
  | None => []
  end.
Definition find_cycle (resources : list Resource) (by_id : gmap string Resource)
    (owner_edges : bool) : option string :=
  let succ := cycle_edges by_id owner_edges in
  let roots := r_id <$> resources in
  default None
    (Dfs.cycle_roots (fun x i => succ x !! i) (Dfs.fuel_for succ roots) roots ∅).
Definition detect_cycles (resources : list Resource) (by_id : gmap string Resource)
    : list string :=
  match find_cycle resources by_id false with
  | Some id => ["inheritance_cycle:" +:+ id] | None => [] end ++
  match find_cycle resources by_id true with
  | Some id => ["owner_cycle:" +:+ id] | None => [] end.

Definition parents_of (by_id : gmap string Resource) (x : string) : list string :=
  match by_id !! x with Some r => r_parents r | None => [] end.
Definition all_parents (by_id : gmap string Resource) : gset string :=
  list_to_set (btree_values by_id ≫= r_parents).
Definition ancestors (id : string) (by_id : gmap string Resource) : gset string :=
  match Worklist.closure (fun x => Ok (parents_of by_id x))
          (2 + size (all_parents by_id)) ∅ [id] with
  | Some (Ok seen) => seen
  | _ => ∅
  end.

(** [properties.entry(owner).or_default().push(resource)] *)
Definition push_entry {A} (m : gmap string (list A)) (key : string) (x : A)
    : gmap string (list A) := <[key := default [] (m !! key) ++ [x]]> m.
Definition properties_by_owner (resources : list Resource) : gmap string (list Resource) :=
  foldl (fun m r =>
    match String.eqb (r_kind r) "property", r_owner r with
    | true, Some owner => push_entry m owner r
    | _, _ => m
    end) ∅ resources.
Definition opt_string_eqb (a b : option string) : bool := bool_decide (a = b).
Definition inherited_issues (own_properties inherited : list Resource) : list string :=
  own ← own_properties;
  omap (fun parent =>
    if String.eqb (r_display_name own) (r_display_name parent) &&
       negb (opt_string_eqb (r_value_type own) (r_value_type parent))
    then Some ("incompatible_property_type:" +:+ r_id own +:+ ":" +:+ r_id parent)
    else None) inherited.
Definition validate_inherited_properties (resources : list Resource)
    (by_id : gmap string Resource) : list string :=
  let properties := properties_by_owner resources in
  resource ← resources;
  match properties !! r_id resource with
  | None => []
  | Some own_properties =>
      ancestor ← btree_elements (ancestors (r_id resource) by_id);
      match properties !! ancestor with
      | None => []
      | Some inherited => inherited_issues own_properties inherited
      end
  end.

Definition validate_ontology (ontology : value) : result unit :=
  resources ← parse_resources ontology;
  let by_id := by_id_of resources in
  let issues := (resources ≫= resource_issues by_id) ++
    detect_cycles resources by_id ++ validate_inherited_properties resources by_id in
  ensure (match issues with [] => true | _ => false end) (join_issues issues).

(** ** Selectors and slices *)
Definition resource_id_of (resource : value) : option string := get_str resource "resource_id".

Definition validate_selector (ontology : value) (resource_ids resource_kinds : list string)
    : result unit :=
  resources ← with_context "ontology resources missing" (get_array ontology "resources");
  let ids := btree_set (omap resource_id_of resources) in
  for_each (fun id => ensure (bool_decide (id ∈ ids)) "selector references missing resource")
    resource_ids ;;
  for_each (fun kind => ensure (str_in kind RESOURCE_KINDS) "selector has invalid resource kind")
    resource_kinds ;;
  ensure (match resource_ids, resource_kinds with [], [] => false | _, _ => true end)
    "ontology selector is empty".

Definition validate_ontology_selector (ontology : value)
    (resource_ids resource_kinds : list string) : result unit :=
  validate_ontology ontology ;;
  validate_selector ontology resource_ids resource_kinds.

Definition values_by_id (resources : list value) : gmap string value :=
  btree_collect (omap (fun r => (fun id => (id, r)) <$> resource_id_of r) resources).

Definition slice_properties (resources : list value) : gmap string (list string) :=
  foldl (fun m r =>
    match opt_str_eqb (get_str r "kind") "property", get_str r "owner_id", resource_id_of r with
    | true, Some owner, Some id => push_entry m owner id
    | _, _, _ => m
    end) ∅ resources.

Definition slice_selected (resource_ids resource_kinds : list string) (resource : value) : bool :=
  is_some_and (fun id => str_in id resource_ids) (resource_id_of resource) ||
  is_some_and (fun kind => str_in kind resource_kinds) (get_str resource "kind").

(** The dependencies of one resource: references, owner, the inheritance and
    link attributes, and the properties it owns. *)
Definition slice_dependencies (by_id : gmap string value) (owned : gmap string (list string))
    (id : string) : result (list string) :=
  match by_id !! id with
  | None => Ok []
  | Some resource =>
      references ← string_array (get resource "references") "references";
      attributes ←
        match get_object resource "attributes" with
        | None => Ok []
        | Some attributes =>
            mapM (fun field => string_array (jget field attributes) field)
              ["extends"; "interfaces"; "source_type"; "target_type"]
        end;
      Ok (references ++ option_list (get_str resource "owner_id") ++ concat attributes ++
          default [] (owned !! id))
  end.

Definition slice_closure (by_id : gmap string value) (owned : gmap string (list string))
    (selected : gset string) : result (gset string) :=
  match Worklist.closure
          (fun id => List.filter (fun d => option_is_some (by_id !! d)) <$>
             slice_dependencies by_id owned id)
          (S (size selected + size by_id)) selected (rev (btree_elements selected)) with
  | Some r => r
  | None => Ok selected
  end.

Definition slice_ontology (ontology : value) (resource_ids resource_kinds : list string)
    (include_dependencies : bool) : result value :=
  validate_ontology ontology ;;
  validate_selector ontology resource_ids resource_kinds ;;
  resources ← with_context "ontology resources missing" (get_array ontology "resources");
  let by_id := values_by_id resources in
  let owned := slice_properties resources in
  let selected := btree_set
    (omap resource_id_of (List.filter (slice_selected resource_ids resource_kinds) resources)) in
  selected ← (if include_dependencies then slice_closure by_id owned selected else Ok selected);
  let sliced := List.filter
    (fun r => is_some_and (fun id => bool_decide (id ∈ selected)) (resource_id_of r)) resources in
  version ← with_context "ontology version missing" (get ontology "version");
  let sliced_ontology := JObject [("version", version); ("resources", JArray sliced)] in
  validate_ontology sliced_ontology ;;
  Ok sliced_ontology.
