(* ===== verification/OntologyFacts.v ===== *)
(** * OntologyFacts: what ontology validation and slicing guarantee

    [well_formed] is the declarative reading of a valid ontology graph; the
    main theorem shows that [validate_ontology] decides it.  The second part is
    about [slice_ontology]: the selected part is closed under dependencies,
    minimal, and in document order. *)

From S2P Require Import Prelude Text Json Graph Ontology.

(** ** The specification *)
Definition is_type (by_id : gmap string Resource) (x : string) : Prop :=
  exists r, by_id !! x = Some r /\ type_kind (r_kind r) = true.
Definition parent_rel (by_id : gmap string Resource) : relation string :=
  fun y x => y ∈ parents_of by_id x.
Definition owner_rel (by_id : gmap string Resource) : relation string :=
  fun y x => exists r, by_id !! x = Some r /\ r_owner r = Some y.
Definition attribute_str (r : Resource) (field : string) : option string :=
  jget field (r_attributes r) ≫= as_str.

Record well_formed_resource (by_id : gmap string Resource) (r : Resource) : Prop := {
  wf_owner : forall o, r_owner r = Some o -> is_type by_id o;
  wf_references : forall x, x ∈ r_references r -> is_Some (by_id !! x);
  wf_parents : forall p, p ∈ r_parents r -> is_type by_id p;
  wf_property : r_kind r = "property" -> exists t, r_value_type r = Some t /\ t <> "" /\
    (t ∈ SCALAR_TYPES \/ is_Some (by_id !! t));
  wf_link : r_kind r = "link_type" -> forall f, f ∈ ["source_type"; "target_type"] ->
    exists e, attribute_str r f = Some e /\ is_type by_id e;
}.

Record well_formed (resources : list Resource) : Prop := {
  wf_each : forall r, r ∈ resources -> well_formed_resource (by_id_of resources) r;
  wf_inheritance : forall x, Acc (parent_rel (by_id_of resources)) x;
  wf_ownership : forall x, Acc (owner_rel (by_id_of resources)) x;
  wf_inherited : forall own inherited o a, own ∈ resources -> inherited ∈ resources ->
    r_kind own = "property" -> r_kind inherited = "property" ->
    r_owner own = Some o -> r_owner inherited = Some a ->
    tc (flip (parent_rel (by_id_of resources))) o a ->
    r_display_name own = r_display_name inherited -> r_value_type own = r_value_type inherited;
}.

(** ** Parsing *)
Lemma parse_resource_id v ids r :
  parse_resource v ids = Ok r ->
  get_str v "resource_id" = Some (r_id r) /\ valid_id (r_id r) = true /\ r_id r ∉ ids /\
  str_in (r_kind r) RESOURCE_KINDS = true.
Proof.
  unfold parse_resource, required_string. intros H. res_inv. bool_inv. done.
Qed.

Lemma parse_loop_ids values ids resources :
  parse_loop values ids = Ok resources ->
  NoDup (r_id <$> resources) /\ (forall x, x ∈ r_id <$> resources -> x ∉ ids).
Proof.
  revert ids resources. induction values as [|v values IH]; intros ids resources; simpl.
  - intros [= <-]. split; [constructor|]. by intros x ?%elem_of_nil.
  - intros H. res_inv. apply parse_resource_id in E as (_ & _ & Hid & _).
    apply IH in E0 as [Hnd Hnew]. simpl. split.
    + apply NoDup_cons. split; [|done]. intros Hin. apply (Hnew _ Hin). set_solver.
    + intros x' [->|Hx]%elem_of_cons; [done|]. apply Hnew in Hx. set_solver.
Qed.

Lemma parse_resources_nodup ontology resources :
  parse_resources ontology = Ok resources -> NoDup (r_id <$> resources).
Proof. unfold parse_resources. intros H. res_inv. by eapply parse_loop_ids. Qed.

Section graph.
Context (resources : list Resource) (Hnd : NoDup (r_id <$> resources)).
Notation by_id := (by_id_of resources).

Lemma by_id_lookup x r : by_id !! x = Some r <-> r ∈ resources /\ r_id r = x.
Proof.
  unfold by_id_of. rewrite btree_collect_lookup.
  - rewrite list_elem_of_fmap. split.
    + intros (r' & [= -> ->] & ?). done.
    + intros [? <-]. by exists r.
  - by rewrite <-list_fmap_compose.
Qed.

Lemma by_id_self r : r ∈ resources -> by_id !! r_id r = Some r.
Proof. intros H. by apply by_id_lookup. Qed.

Lemma is_type_dec_spec x :
  is_type by_id x <-> match by_id !! x with Some r => type_kind (r_kind r) = true | None => False end.
Proof.
  unfold is_type. destruct (by_id !! x); naive_solver.
Qed.

Lemma owner_issues_nil r :
  owner_issues by_id r = [] <-> forall o, r_owner r = Some o -> is_type by_id o.
Proof.
  unfold owner_issues. destruct (r_owner r) as [o|]; [|naive_solver].
  setoid_rewrite is_type_dec_spec. split.
  - intros H o' [= <-]. destruct (by_id !! o) as [ro|]; [|done].
    by destruct (type_kind (r_kind ro)).
  - intros H. specialize (H o eq_refl). destruct (by_id !! o) as [ro|]; [|done]. by rewrite H.
Qed.

Lemma reference_issues_nil r :
  reference_issues by_id r = [] <-> forall x, x ∈ r_references r -> is_Some (by_id !! x).
Proof.
  unfold reference_issues. rewrite omap_nil_iff. apply forall_proper. intros x.
  apply imp_iff_compat_l. destruct (by_id !! x); naive_solver.
Qed.

Lemma parent_issues_nil r :
  parent_issues by_id r = [] <-> forall p, p ∈ r_parents r -> is_type by_id p.
Proof.
  unfold parent_issues. rewrite omap_nil_iff. apply forall_proper. intros x.
  apply imp_iff_compat_l. rewrite is_type_dec_spec.
  destruct (by_id !! x) as [rx|]; [|done]. by destruct (type_kind (r_kind rx)).
Qed.

Lemma str_in_elem_of s l : str_in s l = true <-> s ∈ l.
Proof.
  unfold str_in. rewrite existsb_exists. setoid_rewrite <-list_elem_of_In. split.
  - intros (x & Hx & ->%String.eqb_eq). done.
  - intros H. exists s. split; [done|apply String.eqb_refl].
Qed.

Lemma is_empty_iff s : is_empty s = true <-> s = "".
Proof. by destruct s. Qed.

Lemma property_issues_nil r :
  property_issues by_id r = [] <->
  (r_kind r = "property" -> exists t, r_value_type r = Some t /\ t <> "" /\
     (t ∈ SCALAR_TYPES \/ is_Some (by_id !! t))).
Proof.
  unfold property_issues. destruct (String.eqb_spec (r_kind r) "property") as [Hk|Hk]; [|by split].
  destruct (r_value_type r) as [t|]; [|split; [done|]; intros H; by destruct (H Hk) as (? & ? & _)].
  destruct (is_empty t) eqn:Et.
  { apply is_empty_iff in Et as ->. split; [done|]. intros H. destruct (H Hk) as (? & [= <-] & ? & _). done. }
  assert (t <> "") by (intros ->; done).
  destruct (negb (str_in t SCALAR_TYPES) && option_is_none (by_id !! t)) eqn:Eb.
  - apply andb_prop in Eb as [Es%negb_true_iff Eo]. split; [done|]. intros H'.
    destruct (H' Hk) as (? & [= <-] & _ & [Hs%str_in_elem_of|[x Hx]]); [congruence|].
    by rewrite Hx in Eo.
  - split; [|done]. intros _ _. exists t. split_and!; [done..|].
    apply andb_false_iff in Eb as [Es%negb_false_iff|Eo]; [left; by apply str_in_elem_of|right].
    destruct (by_id !! t); [by eexists|done].
Qed.

Lemma validate_link_endpoint_nil r f :
  validate_link_endpoint by_id r f = [] <->
  exists e, attribute_str r f = Some e /\ is_type by_id e.
Proof.
  unfold validate_link_endpoint, attribute_str. setoid_rewrite is_type_dec_spec.
  destruct (jget f (r_attributes r) ≫= as_str) as [e|]; simpl; [|naive_solver].
  split.
  - intros H. exists e. split; [done|]. destruct (by_id !! e) as [t|]; [|done].
    by destruct (type_kind (r_kind t)).
  - intros (? & [= <-] & H). destruct (by_id !! e) as [t|]; [|done]. by rewrite H.
Qed.

Lemma link_issues_nil r :
  link_issues by_id r = [] <->
  (r_kind r = "link_type" -> forall f, f ∈ ["source_type"; "target_type"] ->
    exists e, attribute_str r f = Some e /\ is_type by_id e).
Proof.
  unfold link_issues. destruct (String.eqb_spec (r_kind r) "link_type") as [Hk|Hk]; [|by split].
  rewrite app_nil, !validate_link_endpoint_nil. split.
  - intros [H1 H2] _ f [->|[->|?%elem_of_nil]%elem_of_cons]%elem_of_cons; done.
  - intros H. split; apply (H Hk); set_solver.
Qed.

Lemma resource_issues_nil r :
  resource_issues by_id r = [] <-> well_formed_resource by_id r.
Proof.
  unfold resource_issues. rewrite !app_nil, owner_issues_nil, reference_issues_nil,
    parent_issues_nil, property_issues_nil, link_issues_nil.
  split; [intros (? & ? & ? & ? & ?); by constructor|by intros []].
Qed.

(** *** Cycles *)
Lemma find_cycle_None owner_edges :
  find_cycle resources by_id owner_edges = None <->
  forall x, Acc (fun y x => y ∈ cycle_edges by_id owner_edges x) x.
Proof.
  unfold find_cycle.
  assert (Hroots : forall x, cycle_edges by_id owner_edges x <> [] -> x ∈ r_id <$> resources).
  { intros y. unfold cycle_edges. destruct (by_id !! y) as [r|] eqn:E; [|done]. intros _.
    apply by_id_lookup in E as [? <-]. by apply list_elem_of_fmap_2. }
  pose proof (Dfs.cycle_roots_correct _ _ Hroots) as H.
  destruct (Dfs.cycle_roots _ _ _ _) as [[x|]|]; simpl; [|by split|done].
  split; [done|]. intros Hacc. exfalso. eapply Acc_no_cycle; [apply (Hacc x)|done].
Qed.

Lemma detect_cycles_nil :
  detect_cycles resources by_id = [] <->
  (forall x, Acc (parent_rel by_id) x) /\ (forall x, Acc (owner_rel by_id) x).
Proof.
  unfold detect_cycles. rewrite app_nil.
  assert (H1 : match find_cycle resources by_id false with Some id => ["inheritance_cycle:" +:+ id]
    | None => [] end = [] <-> find_cycle resources by_id false = None) by (destruct (find_cycle resources by_id false); by split).
  assert (H2 : match find_cycle resources by_id true with Some id => ["owner_cycle:" +:+ id]
    | None => [] end = [] <-> find_cycle resources by_id true = None) by (destruct (find_cycle resources by_id true); by split).
  rewrite H1, H2, !find_cycle_None. apply and_iff_compat_l. apply forall_proper. intros x.
  split; apply Acc_incl; intros a b.
  - intros (r & E & Ho). unfold cycle_edges. rewrite E, Ho. set_solver.
  - unfold cycle_edges. destruct (by_id !! b) as [r|] eqn:E; [|set_solver].
    destruct (r_owner r) as [o|] eqn:Eo; simpl; [|set_solver]. intros ->%list_elem_of_singleton. by exists r.
Qed.

(** *** Ancestors *)
Lemma ancestors_correct id y :
  y ∈ ancestors id by_id <-> tc (flip (parent_rel by_id)) id y.
Proof.
  unfold ancestors. set (succ := fun x => Ok (parents_of by_id x)).
  assert (HU : forall x l, succ x = Ok l -> forall d, d ∈ l -> d ∈ all_parents by_id).
  { intros x l [= <-] d. unfold parents_of. destruct (by_id !! x) as [r|] eqn:E; [|by intros ?%elem_of_nil].
    intros Hd. apply elem_of_list_to_set, list_elem_of_bind. exists r. split; [done|].
    apply elem_of_btree_values. eauto. }
  destruct (Worklist.closure_terminates succ (all_parents by_id) HU
    (2 + size (all_parents by_id)) ∅ [id]) as [res Hres].
  { rewrite difference_empty_L. simpl. lia. }
  rewrite Hres. destruct res as [seen|e].
  - rewrite (Worklist.closure_correct succ (all_parents by_id) HU _ ∅ [id] seen) by (done || set_solver).
    split.
    + intros [?|(x & ->%list_elem_of_singleton & Hxy)]; [set_solver|].
      revert Hxy. apply tc_subrel. intros a b (l & [= <-] & Hb). done.
    + intros Hxy. right. exists id. split; [by apply list_elem_of_singleton|].
      revert Hxy. apply tc_subrel. intros a b Hb. by exists (parents_of by_id a).
  - exfalso. clear HU. revert Hres. generalize (2 + size (all_parents by_id)), (∅ : gset string), [id].
    induction n as [|n IH]; intros seen pending; [done|]. simpl. destruct pending; [done|].
    destruct (Worklist.push_new _ _ _). apply IH.
Qed.
End graph.

(** *** Inherited properties *)
Definition property_of (o : string) (r : Resource) : bool :=
  String.eqb (r_kind r) "property" && opt_string_eqb (r_owner r) (Some o).

Lemma push_entry_default {A} (m : gmap string (list A)) k x k' :
  default [] (push_entry m k x !! k') =
  default [] (m !! k') ++ (if decide (k = k') then [x] else []).
Proof.
  unfold push_entry. rewrite lookup_insert. case_decide; subst; [done|]. by rewrite app_nil_r.
Qed.

Lemma properties_by_owner_default resources o :
  default [] (properties_by_owner resources !! o) = List.filter (property_of o) resources.
Proof.
  unfold properties_by_owner. induction resources as [|r resources IH] using rev_ind; [done|].
  rewrite foldl_app, List.filter_app. simpl. unfold property_of at 2, opt_string_eqb.
  destruct (String.eqb (r_kind r) "property"); simpl; [|by rewrite IH, app_nil_r].
  destruct (r_owner r) as [o'|]; [|by rewrite IH, app_nil_r].
  rewrite push_entry_default, IH. f_equal. case_decide; case_bool_decide; congruence.
Qed.

Lemma inherited_issues_nil own inherited :
  inherited_issues own inherited = [] <->
  forall x y, x ∈ own -> y ∈ inherited -> r_display_name x = r_display_name y ->
    r_value_type x = r_value_type y.
Proof.
  unfold inherited_issues. rewrite bind_nil_iff. setoid_rewrite omap_nil_iff.
  unfold opt_string_eqb. split.
  - intros H x y Hx Hy Hn. specialize (H x Hx y Hy).
    rewrite Hn, String.eqb_refl in H. simpl in H. by case_bool_decide.
  - intros H x Hx y Hy. destruct (String.eqb_spec (r_display_name x) (r_display_name y)); [|done].
    rewrite (bool_decide_eq_true_2 (r_value_type x = _)) by auto. done.
Qed.

Lemma property_of_iff o r :
  property_of o r = true <-> r_kind r = "property" /\ r_owner r = Some o.
Proof.
  unfold property_of, opt_string_eqb. by rewrite andb_true_iff, String.eqb_eq, bool_decide_eq_true.
Qed.

Lemma validate_inherited_nil resources :
  NoDup (r_id <$> resources) ->
  (forall r, r ∈ resources -> forall o, r_owner r = Some o -> is_Some (by_id_of resources !! o)) ->
  validate_inherited_properties resources (by_id_of resources) = [] <->
  forall own inherited o a, own ∈ resources -> inherited ∈ resources ->
    r_kind own = "property" -> r_kind inherited = "property" ->
    r_owner own = Some o -> r_owner inherited = Some a ->
    tc (flip (parent_rel (by_id_of resources))) o a ->
    r_display_name own = r_display_name inherited -> r_value_type own = r_value_type inherited.
Proof.
  intros Hnd Howner. unfold validate_inherited_properties. rewrite bind_nil_iff.
  pose proof (properties_by_owner_default resources) as Hprop.
  assert (Hin : forall o r, r ∈ default [] (properties_by_owner resources !! o) <->
      r ∈ resources /\ r_kind r = "property" /\ r_owner r = Some o).
  { intros o r. by rewrite Hprop, elem_of_bfilter, property_of_iff. }
  split.
  - intros H own inh o a Hown Hinh Hk1 Hk2 Ho Ha Htc.
    destruct (Howner own Hown o Ho) as [ro [Hro Hid]%(by_id_lookup resources Hnd)].
    specialize (H ro Hro). rewrite Hid in H.
    pose proof (proj2 (Hin o own) (conj Hown (conj Hk1 Ho))) as Hown'.
    pose proof (proj2 (Hin a inh) (conj Hinh (conj Hk2 Ha))) as Hinh'.
    destruct (properties_by_owner resources !! o) as [owns|]; [|by apply elem_of_nil in Hown'].
    rewrite bind_nil_iff in H. specialize (H a).
    destruct (properties_by_owner resources !! a) as [inhs|]; [|by apply elem_of_nil in Hinh'].
    apply (proj1 (inherited_issues_nil owns inhs)); [|done..].
    apply H. apply elem_of_btree_elements. by apply ancestors_correct.
  - intros H ro Hro. pose proof (Hin (r_id ro)) as Hin1.
    destruct (properties_by_owner resources !! r_id ro) as [owns|]; [|done].
    apply bind_nil_iff. intros a Ha%elem_of_btree_elements%ancestors_correct; [|done].
    pose proof (Hin a) as Hin2. destruct (properties_by_owner resources !! a) as [inhs|]; [|done].
    apply inherited_issues_nil. intros x y (Hx & Hkx & Hox)%Hin1 (Hy & Hky & Hoy)%Hin2.
    by apply (H x y (r_id ro) a).
Qed.

(** ** Validation decides well-formedness *)
Lemma wf_owners_present resources :
  (forall r, r ∈ resources -> well_formed_resource (by_id_of resources) r) ->
  forall r, r ∈ resources -> forall o, r_owner r = Some o -> is_Some (by_id_of resources !! o).
Proof. intros H r Hr o Ho. destruct (wf_owner _ _ (H r Hr) o Ho) as (t & Ht & _). eauto. Qed.

Lemma validate_ontology_spec ontology :
  validate_ontology ontology = Ok tt <->
  exists resources, parse_resources ontology = Ok resources /\ well_formed resources.
Proof.
  unfold validate_ontology. rewrite bind_Ok_iff. apply exist_proper. intros rs.
  rewrite ensure_Ok_iff. split.
  - intros [Hp He]. split; [done|].
    destruct (_ ++ _ ++ _) eqn:E in He; [|done].
    apply app_nil in E as [Hi [Hc Hinh]%app_nil].
    pose proof (parse_resources_nodup _ _ Hp) as Hnd.
    rewrite bind_nil_iff in Hi. setoid_rewrite (resource_issues_nil rs Hnd) in Hi.
    apply (detect_cycles_nil rs Hnd) in Hc as [? ?].
    pose proof (proj1 (validate_inherited_nil rs Hnd (wf_owners_present rs Hi)) Hinh).
    by constructor.
  - intros [Hp [Hi Hacc1 Hacc2 Hinh]]. split; [done|].
    pose proof (parse_resources_nodup _ _ Hp) as Hnd.
    assert (rs ≫= resource_issues (by_id_of rs) = []) as ->.
    { apply bind_nil_iff. intros r Hr. by apply resource_issues_nil, Hi. }
    rewrite (proj2 (detect_cycles_nil rs Hnd)) by done.
    by rewrite (proj2 (validate_inherited_nil rs Hnd (wf_owners_present rs Hi))).
Qed.

(** C32: [validate_ontology] accepts a document exactly when it parses into
    resources whose graph is well formed: owners, references, parents, value
    types and link endpoints exist and have a suitable kind, inheritance and
    ownership are well-founded, and a property that redeclares an inherited one
    keeps its value type. *)
Theorem validate_ontology_correct ontology :
  validate_ontology ontology = Ok tt <->
  exists resources, parse_resources ontology = Ok resources /\ well_formed resources.
Proof. apply validate_ontology_spec. Qed.

(** Parsing rejects duplicate ids: the accepted resources carry pairwise
    distinct, well-formed identifiers and known kinds, in document order. *)
Lemma parse_resources_unique ontology resources :
  parse_resources ontology = Ok resources ->
  NoDup (r_id <$> resources) /\
  Forall (fun r => valid_id (r_id r) = true /\ r_kind r ∈ RESOURCE_KINDS) resources /\
  get_array ontology "resources" ≫= mapM resource_id_of = Some (r_id <$> resources).
Proof.
  intros H. split; [by eapply parse_resources_nodup|].
  unfold parse_resources in H. res_inv. rewrite E1. clear E1. revert resources H.
  generalize (∅ : gset string) as ids. induction x1 as [|v values IH]; intros ids resources; simpl.
  - intros [= <-]. split; [constructor|done].
  - intros H. res_inv. apply parse_resource_id in E1 as (Hid & Hv & _ & Hk%str_in_elem_of).
    destruct (IH _ _ E2) as [HF Hm]. split; [by constructor|].
    fold (resource_id_of v) in Hid. rewrite Hid. simpl. by rewrite Hm.
Qed.
