(* ===== verification/SliceFacts.v ===== *)
(** * SliceFacts: what an ontology slice contains

    A slice keeps the selected resources and, on request, everything they
    depend on; it keeps the version and the document order, and is itself a
    valid ontology. *)

From S2P Require Import Prelude Text Json Graph Ontology OntologyFacts.

(** ** Specification *)

(** [v] is the string [y], or an array that contains it. *)
Definition lists_string (v : option value) (y : string) : Prop :=
  v = Some (JString y) \/ exists l, v = Some (JArray l) /\ JString y ∈ l.

(** The resource with id [x] depends on the id [y]. *)
Inductive depends (resources : list value) (x y : string) : Prop :=
  | dep_reference r : r ∈ resources -> resource_id_of r = Some x ->
      lists_string (get r "references") y -> depends resources x y
  | dep_owner r : r ∈ resources -> resource_id_of r = Some x ->
      get_str r "owner_id" = Some y -> depends resources x y
  | dep_attribute r field attributes : r ∈ resources -> resource_id_of r = Some x ->
      field ∈ ["extends"; "interfaces"; "source_type"; "target_type"] ->
      get_object r "attributes" = Some attributes ->
      lists_string (jget field attributes) y -> depends resources x y
  | dep_property r p : r ∈ resources -> resource_id_of r = Some x ->
      p ∈ resources -> get_str p "kind" = Some "property" ->
      get_str p "owner_id" = Some x -> resource_id_of p = Some y -> depends resources x y.

Definition has_resource (resources : list value) (y : string) : Prop :=
  exists r, r ∈ resources /\ resource_id_of r = Some y.

(** A resource the selector names, by id or by kind. *)
Definition slice_seed (resources : list value) (ids kinds : list string) (x : string) : Prop :=
  exists r, r ∈ resources /\ resource_id_of r = Some x /\
    (x ∈ ids \/ exists k, get_str r "kind" = Some k /\ k ∈ kinds).

Definition in_slice (resources : list value) (ids kinds : list string) (deps : bool)
    (y : string) : Prop :=
  exists x, slice_seed resources ids kinds x /\
    if deps then rtc (fun a b => depends resources a b /\ has_resource resources b) x y else x = y.

(** ** Lemmas *)
Lemma string_array_lists v field l :
  string_array v field = Ok l -> forall y, y ∈ l <-> lists_string v y.
Proof.
  unfold string_array, lists_string. intros H y.
  destruct v as [[| | |s|items|]|]; try discriminate H.
  - injection H as <-. rewrite elem_of_nil. naive_solver.
  - injection H as <-. rewrite list_elem_of_singleton. naive_solver.
  - apply mapM_Ok_Forall2 in H.
    assert (y ∈ l <-> JString y ∈ items) as ->; [|naive_solver].
    induction H as [|v s items l Hv _ IH]; [by rewrite !elem_of_nil|].
    rewrite !elem_of_cons, IH. apply context_Ok_inv in Hv. destruct v; naive_solver.
  - injection H as <-. rewrite elem_of_nil. naive_solver.
Qed.

Lemma parse_loop_resource_ids values ids resources :
  parse_loop values ids = Ok resources -> resource_id_of <$> values = Some <$> (r_id <$> resources).
Proof.
  revert ids resources. induction values as [|v values IH]; intros ids resources; simpl.
  - by intros [= <-].
  - intros H. res_inv. apply parse_resource_id in E as (Hid & _).
    apply IH in E0. simpl. f_equal; [exact Hid | exact E0].
Qed.

(** In a validated document every resource has an id of its own. *)
Lemma validated_resource_ids ontology resources :
  validate_ontology ontology = Ok tt -> get_array ontology "resources" = Some resources ->
  exists ids, resource_id_of <$> resources = Some <$> ids /\ NoDup ids.
Proof.
  intros (rs & Hp & _)%validate_ontology_spec Hres.
  pose proof (parse_resources_nodup _ _ Hp). unfold parse_resources in Hp. res_inv.
  simplify_eq. exists (r_id <$> rs). split; [|done]. by eapply parse_loop_resource_ids.
Qed.

Lemma exists_snoc {A} (l : list A) (a : A) (P : A -> Prop) :
  (exists x, x ∈ l ++ [a] /\ P x) <-> (exists x, x ∈ l /\ P x) \/ P a.
Proof.
  split.
  - intros (x & [?| ->%list_elem_of_singleton]%elem_of_app & ?); eauto.
  - intros [(x & ? & ?)|?]; [exists x|exists a]; rewrite elem_of_app, list_elem_of_singleton; auto.
Qed.

Lemma owned_properties resources x y :
  y ∈ default [] (slice_properties resources !! x) <->
  exists p, p ∈ resources /\ get_str p "kind" = Some "property" /\
    get_str p "owner_id" = Some x /\ resource_id_of p = Some y.
Proof.
  unfold slice_properties. induction resources as [|p resources IH] using rev_ind.
  - simpl. rewrite elem_of_nil. split; [done|by intros (? & ?%elem_of_nil & _)].
  - rewrite foldl_app, exists_snoc, <-IH. simpl.
    unfold opt_str_eqb. destruct (get_str p "kind") as [k|] eqn:Ek; [|naive_solver].
    destruct (String.eqb_spec k "property") as [->|?]; [|naive_solver].
    destruct (get_str p "owner_id") as [o|] eqn:Eo; [|naive_solver].
    destruct (resource_id_of p) as [i|] eqn:Ei; [|naive_solver].
    rewrite push_entry_default, elem_of_app.
    case_decide; [rewrite list_elem_of_singleton|rewrite elem_of_nil]; naive_solver.
Qed.

Section slice.
Context (resources : list value) (ids : list string).
Context (Hids : resource_id_of <$> resources = Some <$> ids) (Hnd : NoDup ids).
Notation by_id := (values_by_id resources).
Notation owned := (slice_properties resources).

Lemma values_by_id_lookup x r :
  by_id !! x = Some r <-> r ∈ resources /\ resource_id_of r = Some x.
Proof.
  unfold values_by_id. rewrite btree_collect_lookup.
  - rewrite list_elem_of_omap. split.
    + intros (r' & Hr & H). destruct (resource_id_of r') eqn:E; naive_solver.
    + intros [Hr E]. exists r. by rewrite E.
  - assert ((omap (fun r => (fun id => (id, r)) <$> resource_id_of r) resources).*1 = ids) as ->; [|done].
    clear Hnd. revert ids Hids. induction resources as [|v l IH]; intros [|i l0] H; try done.
    injection H as Hi Hl. simpl. rewrite Hi. simpl. f_equal. by apply IH.
Qed.

Lemma by_id_has_resource y : is_Some (by_id !! y) <-> has_resource resources y.
Proof. unfold is_Some, has_resource. by setoid_rewrite values_by_id_lookup. Qed.

Lemma resource_unique r r' x :
  r ∈ resources -> r' ∈ resources -> resource_id_of r = Some x -> resource_id_of r' = Some x -> r = r'.
Proof.
  intros H1 H2 E1 E2.
  pose proof (proj2 (values_by_id_lookup x r) (conj H1 E1)) as L1.
  pose proof (proj2 (values_by_id_lookup x r') (conj H2 E2)) as L2. congruence.
Qed.

(** The dependency lists of a resource, as a relation on ids. *)
Definition direct (r : value) (y : string) : Prop :=
  lists_string (get r "references") y \/ get_str r "owner_id" = Some y \/
  exists field attributes, field ∈ ["extends"; "interfaces"; "source_type"; "target_type"] /\
    get_object r "attributes" = Some attributes /\ lists_string (jget field attributes) y.

Lemma attribute_lists_spec attributes lists y :
  mapM (fun field => string_array (jget field attributes) field)
    ["extends"; "interfaces"; "source_type"; "target_type"] = Ok lists ->
  y ∈ concat lists <-> exists field, field ∈ ["extends"; "interfaces"; "source_type"; "target_type"] /\
    lists_string (jget field attributes) y.
Proof.
  generalize ["extends"; "interfaces"; "source_type"; "target_type"] as fields. intros fields.
  rewrite mapM_Ok_Forall2. induction 1 as [|f l fields lists Hf _ IH]; simpl; [set_solver|].
  rewrite elem_of_app, IH, (string_array_lists _ _ _ Hf). split.
  - intros [?|(g & ? & ?)]; [exists f|exists g]; (split; [set_solver|done]).
  - intros (g & [->|?]%elem_of_cons & ?); eauto.
Qed.

Lemma depends_iff x y :
  depends resources x y <-> exists r, by_id !! x = Some r /\
    (direct r y \/ y ∈ default [] (owned !! x)).
Proof.
  setoid_rewrite owned_properties. setoid_rewrite values_by_id_lookup. unfold direct. split.
  - destruct 1 as [r|r|r f a|r p]; exists r; (split; [done|]); [tauto|tauto|left|right; eauto].
    right. right. eauto.
  - intros (r & [Hr Hx] & [[?|[?|(f & a & ?)]]|(p & ?)]).
    + by eapply dep_reference.
    + by eapply dep_owner.
    + destruct_and!. by eapply (dep_attribute _ _ _ r f a).
    + destruct_and!. by eapply (dep_property _ _ _ r p).
Qed.

Lemma slice_dependencies_spec x deps :
  slice_dependencies by_id owned x = Ok deps ->
  forall y, y ∈ deps <-> depends resources x y.
Proof.
  unfold slice_dependencies. intros H y. rewrite depends_iff.
  destruct (by_id !! x) as [r|]; [|injection H as <-; rewrite elem_of_nil; naive_solver].
  res_inv. rewrite !elem_of_app, (string_array_lists _ _ _ E).
  assert (y ∈ option_list (get_str r "owner_id") <-> get_str r "owner_id" = Some y) as ->.
  { destruct (get_str r "owner_id"); simpl; set_solver. }
  assert (y ∈ concat x1 <-> exists field attributes,
    field ∈ ["extends"; "interfaces"; "source_type"; "target_type"] /\
    get_object r "attributes" = Some attributes /\ lists_string (jget field attributes) y) as ->.
  { destruct (get_object r "attributes") as [a|].
    - rewrite (attribute_lists_spec a x1 y E0). naive_solver.
    - injection E0 as <-. rewrite elem_of_nil. naive_solver. }
  unfold direct. naive_solver.
Qed.

Definition slice_succ (id : string) : result (list string) :=
  List.filter (fun d => option_is_some (by_id !! d)) <$> slice_dependencies by_id owned id.

Lemma slice_succ_spec x l :
  slice_succ x = Ok l -> forall y, y ∈ l <-> depends resources x y /\ has_resource resources y.
Proof.
  unfold slice_succ. intros (deps & Hd & ->)%fmap_Ok_inv y.
  rewrite elem_of_bfilter, (slice_dependencies_spec _ _ Hd), <-by_id_has_resource.
  apply and_iff_compat_l. destruct (by_id !! y); simpl; split; [eauto|done|done|by intros []].
Qed.

Lemma slice_closure_terminates (selected : gset string) :
  is_Some (Worklist.closure slice_succ (S (size selected + size by_id)) selected
    (rev (btree_elements selected))).
Proof.
  apply (Worklist.closure_terminates slice_succ (dom by_id)).
  - intros x l Hl d Hd. apply (slice_succ_spec _ _ Hl) in Hd as [_ Hd].
    by apply elem_of_dom, by_id_has_resource.
  - rewrite length_rev, length_btree_elements, <-size_dom.
    assert (size (dom by_id ∖ selected) <= size (dom by_id)) by (apply subseteq_size; set_solver).
    lia.
Qed.

Lemma slice_closure_spec selected closed :
  slice_closure by_id owned selected = Ok closed ->
  forall y, y ∈ closed <-> exists x, x ∈ selected /\
    rtc (fun a b => depends resources a b /\ has_resource resources b) x y.
Proof.
  unfold slice_closure. fold slice_succ.
  destruct (slice_closure_terminates selected) as [r Hr]. rewrite Hr. intros ->.
  assert (HU : forall x l, slice_succ x = Ok l -> forall d, d ∈ l -> d ∈ dom by_id).
  { intros x l Hl d Hd. apply (slice_succ_spec _ _ Hl) in Hd as [_ Hd].
    by apply elem_of_dom, by_id_has_resource. }
  assert (Hrev : forall x, x ∈ rev (btree_elements selected) <-> x ∈ selected).
  { intros x. by rewrite list_elem_of_In, <-in_rev, <-list_elem_of_In, elem_of_btree_elements. }
  pose proof (Worklist.closure_correct slice_succ _ HU _ _ _ _ (fun x => proj2 (Hrev x)) Hr) as Hin.
  intros y. split.
  - intros [?|(x & Hx%Hrev & Hxy)]%Hin; [by exists y|]. exists x. split; [done|].
    apply tc_rtc. revert Hxy. apply tc_subrel. intros a b (l & Hl & Hb).
    by apply (slice_succ_spec _ _ Hl).
  - intros (x & Hx & Hxy). assert (Hxc : x ∈ closed) by (apply Hin; by left).
    clear Hx. induction Hxy as [x|x z y Hxz _ IH]; [done|]. apply IH.
    destruct (Worklist.closure_defined slice_succ _ HU _ _ _ _ x (fun x => proj2 (Hrev x)) Hr
      (or_intror Hxc)) as (l & Hl & Hsub).
    apply Hsub. by apply (slice_succ_spec _ _ Hl).
Qed.
End slice.

Lemma slice_seed_iff resources ids kinds x :
  x ∈ btree_set (omap resource_id_of (List.filter (slice_selected ids kinds) resources)) <->
  slice_seed resources ids kinds x.
Proof.
  unfold btree_set, slice_seed. rewrite elem_of_list_to_set, list_elem_of_omap.
  apply exist_proper. intros r. rewrite elem_of_bfilter. unfold slice_selected.
  split.
  - intros [[Hr Hs%orb_true_iff] Hx]. rewrite Hx in Hs. split_and!; [done..|].
    destruct Hs as [Hs|Hs]; [left; by apply str_in_elem_of|right].
    destruct (get_str r "kind") as [k|]; [|done]. exists k. split; [done|by apply str_in_elem_of].
  - intros (Hr & Hx & Hs). rewrite Hx. split; [split; [done|]|done]. apply orb_true_iff.
    destruct Hs as [Hs|(k & Hk & Hs)]; [left|right; rewrite Hk]; by apply str_in_elem_of.
Qed.

(** The resources of the slice, in document order. *)
Definition slice_members (resources : list value) (selected : gset string) : list value :=
  List.filter
    (fun r => is_some_and (fun id => bool_decide (id ∈ selected)) (resource_id_of r)) resources.

Lemma slice_ontology_inv ontology ids kinds deps sliced :
  slice_ontology ontology ids kinds deps = Ok sliced ->
  exists version resources selected,
    validate_ontology ontology = Ok tt /\ validate_selector ontology ids kinds = Ok tt /\
    get_array ontology "resources" = Some resources /\
    get ontology "version" = Some version /\ validate_ontology sliced = Ok tt /\
    sliced = JObject [("version", version); ("resources", JArray (slice_members resources selected))] /\
    forall y, y ∈ selected <-> in_slice resources ids kinds deps y.
Proof.
  unfold slice_ontology. intros H. res_inv. exists x3, x1, x2. split_and!; try done.
  destruct (validated_resource_ids ontology x1 E E1) as (l & Hids & Hnd).
  intros y. unfold in_slice. setoid_rewrite <-slice_seed_iff. destruct deps; simplify_eq.
  - by rewrite (slice_closure_spec _ _ Hids Hnd _ _ E2).
  - split; [eauto|by intros (? & ? & <-)].
Qed.

(** ** Properties *)

(** A slice keeps the version of the ontology and, in document order, exactly
    the resources the selector names and (with [include_dependencies]) those
    reachable from them through references, owners, inheritance, link endpoints
    and owned properties; the result is itself a valid ontology. *)
Theorem slice_ontology_exact ontology ids kinds deps sliced resources :
  get_array ontology "resources" = Some resources ->
  slice_ontology ontology ids kinds deps = Ok sliced ->
  exists members,
    get_array sliced "resources" = Some members /\ members `sublist_of` resources /\
    get sliced "version" = get ontology "version" /\ validate_ontology sliced = Ok tt /\
    forall r, r ∈ members <-> r ∈ resources /\
      exists y, resource_id_of r = Some y /\ in_slice resources ids kinds deps y.
Proof.
  intros Hres (v & l & sel & _ & _ & Hl & Hv & Hvalid & -> & Hsel)%slice_ontology_inv.
  rewrite Hl in Hres. injection Hres as ->. exists (slice_members resources sel).
  split_and!; [done| |done..|].
  - unfold slice_members. clear. induction resources as [|r l IH]; simpl; [constructor|].
    case_match; by constructor.
  - intros r. unfold slice_members. rewrite elem_of_bfilter. apply and_iff_compat_l.
    setoid_rewrite <-Hsel. destruct (resource_id_of r) as [y|]; simpl.
    + rewrite bool_decide_eq_true. naive_solver.
    + naive_solver.
Qed.

Definition demo_resource (id kind : string) (more : list (string * value)) : value :=
  JObject ([("resource_id", JString id); ("kind", JString kind);
            ("display_name", JString id); ("attributes", JObject [])] ++ more).
Definition demo_ontology : value :=
  JObject [("version", JString "1"); ("resources", JArray
    [demo_resource "site" "object_type" [];
     demo_resource "vessel" "object_type" [];
     demo_resource "vessel.name" "property"
       [("owner_id", JString "vessel"); ("value_type", JString "string")];
     demo_resource "visit" "event_type" [("references", JArray [JString "site"])]])].

Lemma slice_ontology_exact_witness :
  exists members sliced,
    slice_ontology demo_ontology ["vessel.name"] [] true = Ok sliced /\
    get_array sliced "resources" = Some members /\ length members = 2 /\
    forall r, r ∈ members -> exists y, resource_id_of r = Some y.
Proof.
  destruct (get_array demo_ontology "resources") as [l|] eqn:Hl; [|discriminate Hl].
  destruct (slice_ontology demo_ontology ["vessel.name"] [] true) as [s|e] eqn:Hs;
    [|vm_compute in Hs; discriminate Hs].
  destruct (slice_ontology_exact demo_ontology ["vessel.name"] [] true s l Hl Hs)
    as (members & Hm & _ & _ & _ & Hin).
  exists members, s. split_and!; [done..| |].
  - vm_compute in Hs. injection Hs as <-. vm_compute in Hm. by injection Hm as <-.
  - intros r (_ & y & Hy & _)%Hin. by exists y.
Defined.

(** A property whose value type is another resource of the ontology. *)
Definition typed_ontology : value :=
  JObject [("version", JString "1"); ("resources", JArray
    [demo_resource "site" "object_type" [];
     demo_resource "vessel" "object_type" [];
     demo_resource "vessel.home" "property"
       [("owner_id", JString "vessel"); ("value_type", JString "site")]])].

(** Slicing with dependencies does not follow [value_type]: a valid ontology
    and a valid selector can be refused because the slice drops the resource
    that types one of its properties. *)
Theorem slice_drops_value_types :
  validate_ontology_selector typed_ontology ["vessel"] [] = Ok tt /\
  slice_ontology typed_ontology ["vessel"] [] true =
    Err (Msg "invalid_value_type:vessel.home:site").
Proof. split; vm_compute; reflexivity. Qed.
