(* ===== verification/Pipeline.v ===== *)
(** * Pipeline: validation of pipeline definitions (semantics.rs)

    A definition lists sources and steps; every step names its inputs.
    [validate_pipeline_internal] checks the declarations, the ontology bindings
    and the routing branches, and returns a topological order of the graph. *)

From S2P Require Import Prelude Text Json Graph Ontology OntologyFacts.

Record PipelineBinding : Type := {
  block_id : string;
  ontology_id : string;
}.

Definition STEP_KINDS : list string :=
  ["inference"; "resolve"; "sink"; "dbt"; "causal"; "algorithm"; "route"; "pipeline";
   "forward"; "filter"].

(** ** Declarations *)

(** What the loops over [sources] and [steps] accumulate. *)
Record scan : Type := {
  s_nodes : gset string;
  s_issues : list string;
  s_deps : gmap string (list string);
  s_required : gmap string string;
}.

Definition duplicate_issue (nodes : gset string) (id : string) : list string :=
  if bool_decide (id ∈ nodes) then ["duplicate_pipeline_node:" +:+ id] else [].

(** The first loop; [nodes] and [source_ids] hold the same ids. *)
Fixpoint scan_sources (sources : list value) (nodes : gset string) (issues : list string)
    : result (gset string * list string) :=
  match sources with
  | [] => Ok (nodes, issues)
  | source :: sources =>
      id ← required_string source "id" "source";
      scan_sources sources ({[id]} ∪ nodes) (issues ++ duplicate_issue nodes id)
  end.

(** What the body of the second loop reads from one step. *)
Record step_info : Type := {
  si_id : string;
  si_kind : string;
  si_issues : list string;
  si_deps : list string;
  si_ontology : option string;
}.

Definition kind_issues (step : value) (id kind : string) : list string :=
  (if str_in kind STEP_KINDS then [] else ["invalid_step_type:" +:+ id +:+ ":" +:+ kind]) ++
  (if String.eqb kind "inference" && option_is_none (get_str step "model") &&
      option_is_none (get_str step "capability_id")
   then ["missing_inference_model:" +:+ id] else []).

Definition read_step (step : value) : result step_info :=
  id ← required_string step "step" "pipeline step";
  kind ← required_string step "type" "pipeline step";
  inputs ← with_context "pipeline_input_from_missing" (get_array step "input_from");
  dependencies ← mapM (fun v => with_context "pipeline dependency must be a string" (as_str v)) inputs;
  Ok {| si_id := id; si_kind := kind; si_issues := kind_issues step id kind;
        si_deps := dependencies;
        si_ontology := (get_object step "params" ≫= jget "ontology_id") ≫= as_str |}.

Fixpoint scan_steps (steps : list value) (acc : scan) : result scan :=
  match steps with
  | [] => Ok acc
  | step :: steps =>
      info ← read_step step;
      scan_steps steps
        {| s_nodes := {[si_id info]} ∪ s_nodes acc;
           s_issues := s_issues acc ++ duplicate_issue (s_nodes acc) (si_id info) ++ si_issues info;
           s_deps := <[si_id info := si_deps info]> (s_deps acc);
           s_required :=
             match si_ontology info with
             | Some o => <[si_id info := o]> (s_required acc)
             | None => s_required acc
             end |}
  end.

Definition dangling_issues (nodes : gset string) (deps : gmap string (list string))
    : list string :=
  btree_entries deps ≫= fun e =>
    omap (fun dependency =>
      if bool_decide (dependency ∈ nodes) then None
      else Some ("dangling_pipeline_dependency:" +:+ e.1 +:+ ":" +:+ dependency)) e.2.

(** ** Ontology bindings *)
Definition bound_of (bindings : list PipelineBinding) : gmap string string :=
  btree_collect ((fun b => (block_id b, ontology_id b)) <$> bindings).

Definition ontology_required (step : value) : bool :=
  match get_bool step "ontology_required" with Some b => b | None => false end.

Fixpoint required_issues (bound : gmap string string) (steps : list value)
    : result (list string) :=
  match steps with
  | [] => Ok []
  | step :: steps =>
      issue ← (if ontology_required step then
                 id ← required_string step "step" "pipeline step";
                 Ok (if option_is_some (bound !! id) then []
                     else ["missing_ontology_binding:" +:+ id])
               else Ok []);
      rest ← required_issues bound steps;
      Ok (issue ++ rest)
  end.

Definition ontology_issues (require_bindings : bool) (bound required : gmap string string)
    : list string :=
  omap (fun e =>
    if require_bindings && negb (opt_string_eqb (bound !! e.1) (Some e.2))
    then Some ("missing_ontology_binding:" +:+ e.1 +:+ ":" +:+ e.2) else None)
    (btree_entries required).

(** ** Routing branches *)
Fixpoint unique_targets (targets : list value) (unique : gset string) : result (gset string) :=
  match targets with
  | [] => Ok unique
  | target :: targets =>
      t ← with_context "Invalid branch destination" (as_str target);
      ensure (bool_decide (t ∉ unique)) "Repeated branch destination" ;;
      unique_targets targets ({[t]} ∪ unique)
  end.

Definition branch_destinations (label : string) (values : value) : result (gset string) :=
  ensure (negb (trim_is_empty label) && len_le label 128) "Invalid branch label" ;;
  targets ← with_context "Invalid branch destinations" (as_array values);
  ensure (negb (Nat.eqb (length targets) 0)) "Empty branch destinations" ;;
  unique_targets targets ∅.

Fixpoint all_destinations (branches : list (string * value)) (destinations : gset string)
    : result (gset string) :=
  match branches with
  | [] => Ok destinations
  | (label, values) :: branches =>
      targets ← branch_destinations label values;
      all_destinations branches (targets ∪ destinations)
  end.

(** The steps a routing block hands its output to. *)
Definition consumes (id : string) (child : value) : bool :=
  negb (opt_str_in (pointer_str ["params"; "trigger"] child) ["cron"; "on_demand"]) &&
  is_some_and (existsb (fun input => opt_str_eqb (as_str input) id)) (get_array child "input_from").
Definition children_of (id : string) (steps : list value) : gset string :=
  btree_set (omap (fun child => get_str child "step") (List.filter (consumes id) steps)).

Definition validate_route (steps : list value) (step : value) : result unit :=
  id ← required_string step "step" "pipeline step";
  let branches := get_object step "branches" in
  if negb (opt_str_eqb (get_str step "type") "route") then
    ensure (is_none_or (fun b => Nat.eqb (length b) 0) branches) "Only routing blocks declare branches"
  else
    ensure (opt_str_in (get_str step "routing") ["regex"; "slm"; "metadata"])
      "Unknown native routing strategy" ;;
    ensure (is_none_or is_null (get step "capability_id")) "Routing cannot select plugin code" ;;
    branches ← with_context "Routing branches missing" branches;
    ensure (negb (Nat.eqb (length branches) 0) && Nat.leb (length branches) 32)
      "Invalid routing branches" ;;
    destinations ← all_destinations branches ∅;
    ensure (bool_decide (destinations = children_of id steps))
      "Branches must cover exactly their immediate consumers".

Definition validate_branch_routes (steps : list value) : result unit :=
  for_each (validate_route steps) steps.

(** ** The whole check *)
Definition validate_pipeline_internal (definition : value) (bindings : list PipelineBinding)
    (require_bindings : bool) : result (list string) :=
  object ← with_context "pipeline_definition_not_object" (as_object definition);
  sources ← with_context "pipeline_sources_missing" (jget "sources" object ≫= as_array);
  steps ← with_context "pipeline_steps_missing" (jget "pipeline" object ≫= as_array);
  '(source_ids, issues) ← scan_sources sources ∅ [];
  scanned ← scan_steps steps
    {| s_nodes := source_ids; s_issues := issues; s_deps := ∅; s_required := ∅ |};
  let bound := bound_of bindings in
  missing ← (if require_bindings then required_issues bound steps else Ok []);
  validate_branch_routes steps ;;
  let order := Kahn.topological_order source_ids (s_deps scanned) in
  let issues := s_issues scanned ++ dangling_issues (s_nodes scanned) (s_deps scanned) ++
    missing ++ ontology_issues require_bindings bound (s_required scanned) ++
    (if option_is_none order then ["pipeline_cycle"] else []) in
  ensure (match issues with [] => true | _ => false end) (join_issues issues) ;;
  with_context "pipeline_cycle" order.

Definition validate_pipeline (definition : value) (bindings : list PipelineBinding)
    : result (list string) := validate_pipeline_internal definition bindings true.
Definition validate_pipeline_structure (definition : value) : result (list string) :=
  validate_pipeline_internal definition [] false.
