(* ===== verification/PipelineFacts.v ===== *)
(** * PipelineFacts: what pipeline validation guarantees

    [validate_pipeline_internal] accepts exactly the well-formed definitions and
    then returns a topological order of all their nodes. *)

From S2P Require Import Prelude Text Json Graph Ontology OntologyFacts Pipeline.

(** ** Specification *)

(** [source] declares the node [id]. *)
Definition declares_source (source : value) (id : string) : Prop :=
  get_str source "id" = Some id /\ id <> "".

(** [step] declares the node, kind, inputs and ontology of [info]. *)
Definition declares_step (step : value) (info : step_info) : Prop := read_step step = Ok info.

Definition kind_ok (step : value) (kind : string) : Prop :=
  kind ∈ STEP_KINDS /\
  (kind = "inference" -> is_Some (get_str step "model") \/ is_Some (get_str step "capability_id")).

(** [x] is an input of the step [n]. *)
Definition feeds (infos : list step_info) (x n : string) : Prop :=
  exists info, info ∈ infos /\ si_id info = n /\ x ∈ si_deps info.

Definition bindings_ok (bound : gmap string string) (steps : list value)
    (infos : list step_info) : Prop :=
  (forall step info, (step, info) ∈ zip steps infos -> ontology_required step = true ->
     is_Some (bound !! si_id info)) /\
  (forall info o, info ∈ infos -> si_ontology info = Some o -> bound !! si_id info = Some o).

(** The branches of a routing block: labelled, non-empty lists of distinct
    targets. *)
Definition branch_ok (branch : string * value) : Prop :=
  trim_is_empty branch.1 = false /\ String.length branch.1 <= 128 /\
  exists targets, branch.2 = json_strings targets /\ targets <> [] /\ NoDup targets.
Definition branch_target (branches : list (string * value)) (t : string) : Prop :=
  exists label targets, (label, json_strings targets) ∈ branches /\ t ∈ targets.

(** A routing block uses a native strategy and its branches lead to exactly the
    steps that consume its output; no other step declares branches. *)
Definition route_ok (steps : list value) (step : value) : Prop :=
  exists id, get_str step "step" = Some id /\ id <> "" /\
  if decide (get_str step "type" = Some "route") then
    (exists r, get_str step "routing" = Some r /\ r ∈ ["regex"; "slm"; "metadata"]) /\
    (forall v, get step "capability_id" = Some v -> v = JNull) /\
    exists branches, get_object step "branches" = Some branches /\
      1 <= length branches <= 32 /\ Forall branch_ok branches /\
      forall t, branch_target branches t <->
        exists child, child ∈ steps /\ consumes id child = true /\ get_str child "step" = Some t
  else forall branches, get_object step "branches" = Some branches -> branches = [].

Record well_formed_graph (bound : gmap string string) (require_bindings : bool)
    (steps : list value) (source_ids : list string) (infos : list step_info) : Prop := {
  wg_nodup : NoDup (source_ids ++ (si_id <$> infos));
  wg_kinds : Forall2 (fun step info => kind_ok step (si_kind info)) steps infos;
  wg_inputs : forall x n, feeds infos x n -> x ∈ source_ids ++ (si_id <$> infos);
  wg_acyclic : forall n, Acc (feeds infos) n;
  wg_bindings : require_bindings = true -> bindings_ok bound steps infos;
  wg_routes : Forall (route_ok steps) steps;
}.

Definition well_formed_pipeline (definition : value) (bindings : list PipelineBinding)
    (require_bindings : bool) (source_ids : list string) (infos : list step_info) : Prop :=
  exists sources steps,
    get_array definition "sources" = Some sources /\
    get_array definition "pipeline" = Some steps /\
    Forall2 declares_source sources source_ids /\ Forall2 declares_step steps infos /\
    well_formed_graph (bound_of bindings) require_bindings steps source_ids infos.

(** [order] lists every node once, each after its inputs. *)
Record topological (infos : list step_info) (nodes order : list string) : Prop := {
  topo_nodes : order ≡ₚ nodes;
  topo_inputs : forall i n x, order !! i = Some n -> feeds infos x n -> x ∈ take i order;
}.

(** ** Scanning the declarations *)
Lemma required_string_Ok v field owner s :
  required_string v field owner = Ok s <-> get_str v field = Some s /\ s <> "".
Proof.
  unfold required_string. rewrite bind_Ok_iff. setoid_rewrite context_Ok_iff. split.
  - intros (a & Ha & H). res_inv. bool_inv. split; [done|]. by intros ->.
  - intros [-> Hne]. exists s. split; [done|]. by destruct s.
Qed.

Fixpoint fresh_in (nodes : gset string) (ids : list string) : Prop :=
  match ids with
  | [] => True
  | id :: ids => id ∉ nodes /\ fresh_in ({[id]} ∪ nodes) ids
  end.

Lemma fresh_in_iff nodes ids :
  fresh_in nodes ids <-> NoDup ids /\ forall x, x ∈ ids -> x ∉ nodes.
Proof.
  revert nodes. induction ids as [|id ids IH]; intros nodes; simpl.
  - split; [intros _; split; [constructor|by intros x ?%elem_of_nil]|done].
  - rewrite IH, NoDup_cons. setoid_rewrite elem_of_cons. setoid_rewrite not_elem_of_union.
    setoid_rewrite not_elem_of_singleton. split.
    + intros (H1 & H2 & H3). split_and!; [|done|].
      * intros Hin. by destruct (H3 id Hin).
      * intros x [->|Hx]; [done|by apply H3].
    + intros ((H1 & H2) & H3). split_and!; [auto|done|].
      intros x Hx. split; [by intros ->|auto].
Qed.

Lemma duplicate_issue_nil nodes id : duplicate_issue nodes id = [] <-> id ∉ nodes.
Proof. unfold duplicate_issue. case_bool_decide; split; done. Qed.

Lemma scan_sources_declares sources nodes issues r :
  scan_sources sources nodes issues = Ok r -> exists ids, Forall2 declares_source sources ids.
Proof.
  revert nodes issues. induction sources as [|s sources IH]; intros nodes issues; simpl.
  - intros _. exists []. constructor.
  - intros (id & Hid%required_string_Ok & [ids H]%IH)%bind_Ok_inv. exists (id :: ids). by constructor.
Qed.

Lemma scan_sources_spec sources ids nodes issues :
  Forall2 declares_source sources ids ->
  exists issues', scan_sources sources nodes issues = Ok (list_to_set ids ∪ nodes, issues') /\
    (issues' = [] <-> issues = [] /\ fresh_in nodes ids).
Proof.
  intros H. revert nodes issues.
  induction H as [|s id sources ids Hs _ IH]; intros nodes issues; simpl.
  - exists issues. rewrite (left_id_L ∅ (∪)). split; [done|tauto].
  - rewrite (proj2 (required_string_Ok _ _ _ _) Hs). simpl.
    destruct (IH ({[id]} ∪ nodes) (issues ++ duplicate_issue nodes id)) as (issues' & -> & Hi).
    exists issues'. split; [do 2 f_equal; set_solver|].
    rewrite Hi, app_nil, duplicate_issue_nil. tauto.
Qed.

Lemma scan_steps_declares steps acc r :
  scan_steps steps acc = Ok r -> exists infos, Forall2 declares_step steps infos.
Proof.
  revert acc. induction steps as [|s steps IH]; intros acc; simpl.
  - intros _. exists []. constructor.
  - intros (info & Hinfo & [infos H]%IH)%bind_Ok_inv. exists (info :: infos). by constructor.
Qed.

Definition deps_entries (infos : list step_info) : list (string * list string) :=
  (fun i => (si_id i, si_deps i)) <$> infos.
Definition required_entries (infos : list step_info) : list (string * string) :=
  omap (fun i => pair (si_id i) <$> si_ontology i) infos.
Definition insert_all {V} (l : list (string * V)) (m : gmap string V) : gmap string V :=
  foldl (fun m kv => <[kv.1 := kv.2]> m) m l.

Lemma scan_steps_spec steps infos acc :
  Forall2 declares_step steps infos ->
  exists issues', scan_steps steps acc = Ok
      {| s_nodes := list_to_set (si_id <$> infos) ∪ s_nodes acc; s_issues := issues';
         s_deps := insert_all (deps_entries infos) (s_deps acc);
         s_required := insert_all (required_entries infos) (s_required acc) |} /\
    (issues' = [] <-> s_issues acc = [] /\ fresh_in (s_nodes acc) (si_id <$> infos) /\
       Forall (fun i => si_issues i = []) infos).
Proof.
  intros H. revert acc. induction H as [|s info steps infos Hs _ IH]; intros acc; simpl.
  - exists (s_issues acc). rewrite (left_id_L ∅ (∪)). destruct acc. split; [done|].
    simpl. rewrite Forall_nil. tauto.
  - unfold declares_step in Hs. rewrite Hs. simpl.
    edestruct IH as (issues' & -> & Hi). simpl in *.
    exists issues'. split.
    + do 2 f_equal; [set_solver|]. by destruct (si_ontology info).
    + rewrite Hi, !app_nil, duplicate_issue_nil, Forall_cons. tauto.
Qed.

Lemma read_step_inv step info :
  declares_step step info ->
  get_str step "step" = Some (si_id info) /\ si_id info <> "" /\
  get_str step "type" = Some (si_kind info) /\
  si_issues info = kind_issues step (si_id info) (si_kind info).
Proof.
  unfold declares_step, read_step. intros H. res_inv.
  apply required_string_Ok in E as [? ?], E0 as [? ?]. done.
Qed.

Lemma kind_issues_nil step id kind : kind_issues step id kind = [] <-> kind_ok step kind.
Proof.
  unfold kind_issues, kind_ok. rewrite app_nil, <-str_in_elem_of.
  apply Morphisms_Prop.and_iff_morphism; [by destruct (str_in kind STEP_KINDS)|].
  destruct (String.eqb_spec kind "inference") as [->|?]; simpl; [|by split].
  destruct (get_str step "model"), (get_str step "capability_id"); simpl; split; try done;
    intros H; try (by eauto). by destruct (H eq_refl) as [[]|[]].
Qed.

Lemma step_issues_nil steps infos :
  Forall2 declares_step steps infos ->
  Forall (fun i => si_issues i = []) infos <->
  Forall2 (fun step info => kind_ok step (si_kind info)) steps infos.
Proof.
  induction 1 as [|s i steps infos Hs _ IH]; [split; constructor|].
  rewrite Forall_cons, Forall2_cons, IH.
  destruct (read_step_inv _ _ Hs) as (_ & _ & _ & ->). by rewrite kind_issues_nil.
Qed.

(** ** The dependency table *)
Section table.
Context (infos : list step_info) (Hnd : NoDup (si_id <$> infos)).
Notation deps := (insert_all (deps_entries infos) ∅).
Notation required := (insert_all (required_entries infos) ∅).

Lemma deps_lookup n l : deps !! n = Some l <-> exists info, info ∈ infos /\ si_id info = n /\ si_deps info = l.
Proof.
  unfold insert_all. fold (btree_collect (deps_entries infos)). rewrite btree_collect_lookup.
  - unfold deps_entries. rewrite list_elem_of_fmap. split.
    + intros (i & [= -> ->] & ?). by exists i.
    + intros (i & ? & <- & <-). by exists i.
  - unfold deps_entries. by rewrite <-list_fmap_compose.
Qed.

Lemma required_lookup n o :
  required !! n = Some o <-> exists info, info ∈ infos /\ si_id info = n /\ si_ontology info = Some o.
Proof.
  unfold insert_all. fold (btree_collect (required_entries infos)). rewrite btree_collect_lookup.
  - unfold required_entries. rewrite list_elem_of_omap. split.
    + intros (i & Hi & H). destruct (si_ontology i) eqn:E; [|done]. injection H as <- <-. by exists i.
    + intros (i & Hi & <- & E). exists i. by rewrite E.
  - unfold required_entries. revert Hnd. induction infos as [|i l IH]; simpl; [constructor|].
    intros [Hi Hl]%NoDup_cons. destruct (si_ontology i) as [o'|]; simpl; [|auto].
    apply NoDup_cons. split; [|auto]. contradict Hi.
    apply list_elem_of_fmap in Hi as ([a b] & -> & (j & Hj & E)%list_elem_of_omap).
    destruct (si_ontology j); [|done]. injection E as <- <-. simpl. by apply (list_elem_of_fmap_2 si_id).
Qed.

Lemma dom_deps : dom deps = list_to_set (si_id <$> infos).
Proof.
  apply set_eq. intros n. rewrite elem_of_dom, elem_of_list_to_set, list_elem_of_fmap. split.
  - intros [l (i & ? & <- & _)%deps_lookup]. by exists i.
  - intros (i & -> & ?). exists (si_deps i). apply deps_lookup. by exists i.
Qed.

Lemma inputs_of_deps n x : x ∈ Kahn.inputs_of deps n <-> feeds infos x n.
Proof.
  unfold Kahn.inputs_of, feeds. split.
  - destruct (deps !! n) as [l|] eqn:E; simpl; [|by intros ?%elem_of_nil].
    apply deps_lookup in E as (i & ? & <- & <-). by exists i.
  - intros (i & Hi & <- & Hx).
    rewrite (proj2 (deps_lookup (si_id i) (si_deps i))); [done|by exists i].
Qed.

Lemma dangling_issues_nil nodes :
  dangling_issues nodes deps = [] <-> forall x n, feeds infos x n -> x ∈ nodes.
Proof.
  unfold dangling_issues. rewrite bind_nil_iff. split.
  - intros H x n (i & Hi & <- & Hx).
    specialize (H (si_id i, si_deps i)). rewrite elem_of_btree_entries, deps_lookup, omap_nil_iff in H.
    specialize (H ltac:(by exists i) x Hx). simpl in H. by case_bool_decide.
  - intros H [n l] (i & Hi & <- & <-)%elem_of_btree_entries%deps_lookup.
    apply omap_nil_iff. intros x Hx. rewrite bool_decide_eq_true_2; [done|].
    apply (H x (si_id i)). by exists i.
Qed.

Lemma ontology_issues_nil req bound :
  ontology_issues req bound required = [] <->
  (req = true -> forall info o, info ∈ infos -> si_ontology info = Some o -> bound !! si_id info = Some o).
Proof.
  unfold ontology_issues. rewrite omap_nil_iff. destruct req; simpl; [|by split].
  unfold opt_string_eqb. split.
  - intros H _ i o Hi Ho. specialize (H (si_id i, o)).
    rewrite elem_of_btree_entries, required_lookup in H.
    specialize (H ltac:(by exists i)). simpl in H. by case_bool_decide.
  - intros H [n o] (i & Hi & <- & Ho)%elem_of_btree_entries%required_lookup. simpl.
    by rewrite bool_decide_eq_true_2 by auto.
Qed.
End table.

Lemma required_issues_spec bound steps infos :
  Forall2 declares_step steps infos ->
  exists issues, required_issues bound steps = Ok issues /\
    (issues = [] <-> forall step info, (step, info) ∈ zip steps infos ->
       ontology_required step = true -> is_Some (bound !! si_id info)).
Proof.
  induction 1 as [|s i steps infos Hs _ (rest & Hr & IH)]; simpl.
  - exists []. split; [done|]. split; [|done]. by intros _ ?? ?%elem_of_nil.
  - destruct (read_step_inv _ _ Hs) as (Hid & Hne & _).
    rewrite (proj2 (required_string_Ok s "step" "pipeline step" _) (conj Hid Hne)), Hr. simpl.
    destruct (ontology_required s) eqn:Er; simpl; eexists; (split; [reflexivity|]);
      setoid_rewrite elem_of_cons.
    + rewrite app_nil, IH. split.
      * intros [H1 H2] a b [[= -> ->]|Hab]; [|by eauto]. intros _.
        by destruct (bound !! si_id i); [eexists|].
      * intros H. split; [|by eauto]. destruct (H s i (or_introl eq_refl) Er) as [o ->]. done.
    + rewrite IH. split; [|by eauto]. intros H a b [[= -> ->]|Hab]; [congruence|eauto].
Qed.

(** ** Routes *)
Lemma unique_targets_Ok targets unique u :
  unique_targets targets unique = Ok u <->
  exists l, targets = JString <$> l /\ fresh_in unique l /\ u = list_to_set l ∪ unique.
Proof.
  revert unique. induction targets as [|t targets IH]; intros unique; simpl.
  - split.
    + intros [= <-]. exists []. split_and!; [done..|]. simpl. by rewrite (left_id_L ∅ (∪)).
    + intros ([|? ?] & [=] & _ & ->). simpl. by rewrite (left_id_L ∅ (∪)).
  - split.
    + intros H. res_inv. bool_inv. apply IH in H as (l & -> & Hf & ->).
      destruct t; simplify_eq/=. exists (x :: l). split_and!; [done..|]. simpl. set_solver.
    + intros ([|x l] & [= -> ->] & [Hx Hf] & ->). simpl.
      rewrite bool_decide_eq_true_2 by done. simpl. apply IH. exists l. split_and!; [done..|]. set_solver.
Qed.

Lemma json_strings_inj (l l' : list string) : JString <$> l = JString <$> l' -> l = l'.
Proof. apply (list_fmap_eq_inj JString). by intros ?? [=]. Qed.

Lemma branch_target_singleton label targets t :
  branch_target [(label, json_strings targets)] t <-> t ∈ targets.
Proof.
  unfold branch_target. split.
  - intros (? & l & [= -> ->%json_strings_inj]%list_elem_of_singleton & ?). done.
  - intros Ht. exists label, targets. by rewrite list_elem_of_singleton.
Qed.

Lemma branch_destinations_Ok label values u :
  branch_destinations label values = Ok u <->
  branch_ok (label, values) /\ forall t, t ∈ u <-> branch_target [(label, values)] t.
Proof.
  unfold branch_destinations, branch_ok, len_le. simpl. split.
  - intros H. res_inv. bool_inv. destruct values; simplify_eq/=.
    apply unique_targets_Ok in H as (l & -> & [Hnd _]%fresh_in_iff & ->).
    rewrite length_fmap in E1. split.
    + split_and!; [done|by apply Nat.leb_le|]. exists l. split_and!; [done|by intros ->|done].
    + intros t. fold (json_strings l). rewrite branch_target_singleton. set_solver.
  - intros [(Hl & Hlen & l & -> & Hne & Hnd) Hu]. rewrite Hl, (proj2 (Nat.leb_le _ _) Hlen). simpl.
    rewrite length_fmap. destruct l as [|t l]; [done|]. simpl negb. simpl ensure.
    apply unique_targets_Ok. exists (t :: l). split_and!; [done|apply fresh_in_iff; split; [done|set_solver]|].
    apply set_eq. intros x. rewrite Hu, branch_target_singleton. set_solver.
Qed.

Lemma branch_target_cons b branches t :
  branch_target (b :: branches) t <-> branch_target [b] t \/ branch_target branches t.
Proof.
  unfold branch_target. split.
  - intros (l & ts & [?|?]%elem_of_cons & ?); [left|right]; exists l, ts; [|done].
    by rewrite list_elem_of_singleton.
  - intros [(l & ts & ?%list_elem_of_singleton & ?)|(l & ts & ? & ?)]; exists l, ts;
      rewrite elem_of_cons; auto.
Qed.

Lemma all_destinations_Ok branches acc u :
  all_destinations branches acc = Ok u <->
  Forall branch_ok branches /\ forall t, t ∈ u <-> t ∈ acc \/ branch_target branches t.
Proof.
  revert acc. induction branches as [|[label values] branches IH]; intros acc; simpl.
  - split.
    + intros [= <-]. split; [constructor|]. intros t. split; [auto|].
      intros [?|(? & ? & ?%elem_of_nil & _)]; done.
    + intros [_ Hu]. f_equal. apply set_eq. intros t. rewrite Hu. split; [auto|].
      intros [?|(? & ? & ?%elem_of_nil & _)]; done.
  - rewrite bind_Ok_iff. setoid_rewrite IH. setoid_rewrite branch_destinations_Ok.
    rewrite Forall_cons. setoid_rewrite elem_of_union.
    setoid_rewrite (branch_target_cons (label, values) branches). split.
    + intros (u' & [Hb Hu'] & HF & Hu). split; [done|]. intros t. rewrite Hu, Hu'. tauto.
    + intros ((Hb & HF) & Hu). pose proof Hb as (_ & _ & targets & Hv & _). simpl in Hv. subst values.
      exists (list_to_set targets). setoid_rewrite branch_target_singleton.
      setoid_rewrite branch_target_singleton in Hu. setoid_rewrite elem_of_list_to_set.
      split_and!; [done..|]. intros t. rewrite Hu. tauto.
Qed.

Lemma children_of_iff id steps t :
  t ∈ children_of id steps <->
  exists child, child ∈ steps /\ consumes id child = true /\ get_str child "step" = Some t.
Proof.
  unfold children_of, btree_set. rewrite elem_of_list_to_set, list_elem_of_omap.
  setoid_rewrite elem_of_bfilter. naive_solver.
Qed.

Lemma validate_route_Ok steps step :
  validate_route steps step = Ok tt <-> route_ok steps step.
Proof.
  unfold validate_route, route_ok. rewrite bind_Ok_iff. setoid_rewrite required_string_Ok.
  apply exist_proper. intros id. rewrite <-(assoc and).
  apply and_iff_compat_l, and_iff_compat_l. unfold opt_str_eqb.
  assert (Htype : negb match get_str step "type" with Some t => String.eqb t "route" | None => false end =
    negb (bool_decide (get_str step "type" = Some "route"))).
  { destruct (get_str step "type") as [t|]; [|done]. destruct (String.eqb_spec t "route");
      case_bool_decide; congruence. }
  rewrite Htype. clear Htype. case_decide as Ht; [rewrite bool_decide_eq_true_2 by done|rewrite bool_decide_eq_false_2 by done]; simpl.
  - split.
    + intros H. res_inv. bool_inv. apply all_destinations_Ok in E3 as [HF Hd]. split_and!.
      * unfold opt_str_in in E. destruct (get_str step "routing") as [r|]; [|done].
        exists r. split; [done|by apply str_in_elem_of].
      * intros v Hv. rewrite Hv in E0. by destruct v.
      * exists x1. split_and!; [done| |by apply Nat.leb_le|done|].
        { destruct x1; [done|simpl; lia]. }
        subst.
        intros t. rewrite <-children_of_iff, Hd. set_solver.
    + intros ((r & Hr & Hin) & Hcap & branches & Hb & [Hlo Hhi] & HF & Ht').
      assert (opt_str_in (get_str step "routing") ["regex"; "slm"; "metadata"] = true) as ->.
      { rewrite Hr. exact (proj2 (str_in_elem_of r _) Hin). }
      assert (is_none_or is_null (get step "capability_id") = true) as ->.
      { destruct (get step "capability_id") as [v|]; [|done]. by rewrite (Hcap v eq_refl). }
      rewrite Hb. cbn [ensure with_context mbind result_bind]. rewrite (proj2 (Nat.leb_le _ _) Hhi).
      destruct branches as [|b l]; [simpl in Hlo; lia|].
      assert (all_destinations (b :: l) ∅ = Ok (children_of id steps)) as Hall.
      { apply all_destinations_Ok. split; [done|]. intros t. rewrite children_of_iff, <-Ht'. set_solver. }
      change (all_destinations (b :: l) ∅ ≫= (fun d => ensure (bool_decide (d = children_of id steps))
        "Branches must cover exactly their immediate consumers") = Ok tt).
      rewrite Hall. simpl. by rewrite bool_decide_eq_true_2.
  - rewrite ensure_Ok_iff. destruct (get_object step "branches") as [[|b l]|]; simpl; naive_solver.
Qed.

Lemma validate_branch_routes_Ok steps :
  validate_branch_routes steps = Ok tt <-> Forall (route_ok steps) steps.
Proof.
  unfold validate_branch_routes. rewrite for_each_Ok.
  rewrite !Forall_forall. by setoid_rewrite validate_route_Ok.
Qed.

(** ** The whole check *)
Definition pipeline_order (source_ids : list string) (infos : list step_info)
    : option (list string) :=
  Kahn.topological_order (list_to_set source_ids) (insert_all (deps_entries infos) ∅).

Lemma fresh_in_nodup source_ids ids :
  fresh_in ∅ source_ids /\ fresh_in (list_to_set source_ids) ids <-> NoDup (source_ids ++ ids).
Proof.
  rewrite !fresh_in_iff, NoDup_app. setoid_rewrite elem_of_list_to_set.
  split; [naive_solver|]. intros (? & H & ?). split_and!; [done|set_solver|done|].
  intros x Hx Hin. by apply (H x).
Qed.

Section graph.
Context (source_ids : list string) (infos : list step_info).
Context (Hnd : NoDup (source_ids ++ (si_id <$> infos))).
Notation nodes := (list_to_set source_ids ∪ dom (insert_all (deps_entries infos) ∅)) (only parsing).

Lemma infos_nodup : NoDup (si_id <$> infos).
Proof. by apply NoDup_app in Hnd as (_ & _ & ?). Qed.

Lemma graph_nodes n : n ∈@{gset string} nodes <-> n ∈ source_ids ++ (si_id <$> infos).
Proof. rewrite dom_deps by apply infos_nodup. set_solver. Qed.

Lemma pipeline_order_topological order :
  pipeline_order source_ids infos = Some order ->
  topological infos (source_ids ++ (si_id <$> infos)) order /\ forall n, Acc (feeds infos) n.
Proof.
  intros Ho. destruct (Kahn.topological_order_sound _ _ _ Ho) as (Hond & Hnodes & Hin).
  setoid_rewrite (inputs_of_deps infos infos_nodup) in Hin.
  setoid_rewrite graph_nodes in Hnodes. split.
  - constructor; [|done]. by apply NoDup_Permutation.
  - assert (Hacc : forall k i n, i < k -> order !! i = Some n -> Acc (feeds infos) n).
    { induction k as [|k IH]; intros i n Hi Hn; [lia|]. constructor. intros x Hx.
      apply (Hin i n x Hn) in Hx. apply list_elem_of_lookup in Hx as [j [Hj Hlt]%lookup_take_Some].
      apply (IH j); [lia|done]. }
    intros n. constructor. intros x (i & Hi & <- & Hx).
    assert (Hn : si_id i ∈ order) by (apply Hnodes, elem_of_app; right; by apply list_elem_of_fmap_2).
    apply list_elem_of_lookup in Hn as [j Hj]. apply (Hacc (S j) j) in Hj; [|lia].
    apply (Acc_inv Hj). by exists i.
Qed.

Lemma pipeline_order_complete :
  (forall x n, feeds infos x n -> x ∈ source_ids ++ (si_id <$> infos)) ->
  (forall n, Acc (feeds infos) n) -> is_Some (pipeline_order source_ids infos).
Proof.
  intros Hin Hacc. apply Kahn.topological_order_complete.
  - intros n x Hx%inputs_of_deps; [|apply infos_nodup]. apply graph_nodes. eauto.
  - intros n. eapply Acc_incl; [|apply (Hacc n)]. intros a b. by apply inputs_of_deps, infos_nodup.
Qed.
End graph.

Lemma issues_nil_iff {A} (l : list A) :
  (match l with [] => true | _ => false end = true) <-> l = [].
Proof. by destruct l. Qed.

Lemma get_array_object definition key l :
  get_array definition key = Some l <->
  exists object, as_object definition = Some object /\ jget key object ≫= as_array = Some l.
Proof. destruct definition; naive_solver. Qed.

Section check.
Context (bound : gmap string string) (req : bool) (steps : list value).
Context (source_ids : list string) (infos : list step_info).
Context (Hsteps : Forall2 declares_step steps infos).
Context (issues scanned missing : list string).
Context (Hsrc : issues = [] <-> fresh_in ∅ source_ids).
Context (Hscan : scanned = [] <-> issues = [] /\
  fresh_in (list_to_set source_ids) (si_id <$> infos) /\ Forall (fun i => si_issues i = []) infos).
Context (Hmissing : missing = [] <-> (req = true -> forall step info, (step, info) ∈ zip steps infos ->
  ontology_required step = true -> is_Some (bound !! si_id info))).
Notation deps := (insert_all (deps_entries infos) ∅).

(** No issue is reported exactly when the graph is well formed. *)
Lemma issues_well_formed :
  Forall (route_ok steps) steps ->
  scanned ++ dangling_issues (list_to_set (source_ids ++ (si_id <$> infos))) deps ++ missing ++
    ontology_issues req bound (insert_all (required_entries infos) ∅) ++
    (if option_is_none (pipeline_order source_ids infos) then ["pipeline_cycle"] else []) = [] <->
  well_formed_graph bound req steps source_ids infos.
Proof.
  intros Hroutes. rewrite !app_nil, Hscan, Hsrc, Hmissing, (step_issues_nil steps infos Hsteps).
  assert (Hord : (if option_is_none (pipeline_order source_ids infos) then ["pipeline_cycle"] else []) = []
    <-> is_Some (pipeline_order source_ids infos)).
  { destruct (pipeline_order source_ids infos); simpl; split; [by eexists|done|done|by intros []]. }
  rewrite Hord. clear Hord. split.
  - intros ((Hf1 & Hf2 & Hk) & Hd & Hm & Ho & [order Hord]).
    pose proof (proj1 (fresh_in_nodup _ _) (conj Hf1 Hf2)) as Hnd.
    rewrite dangling_issues_nil in Hd by by eapply infos_nodup.
    rewrite ontology_issues_nil in Ho by by eapply infos_nodup.
    constructor; try assumption.
    + intros x n Hx. pose proof (Hd x n Hx) as Hin. by apply elem_of_list_to_set in Hin.
    + by apply (pipeline_order_topological source_ids infos Hnd order).
    + intros Hr. split; [by apply Hm|by apply Ho].
  - intros [Hnd Hk Hd Hacc Hb _].
    pose proof (proj2 (fresh_in_nodup _ _) Hnd) as [Hf1 Hf2].
    rewrite dangling_issues_nil, ontology_issues_nil by by eapply infos_nodup.
    split_and!; try assumption.
    + intros x n Hx. by apply elem_of_list_to_set, (Hd x n).
    + intros Hr. by apply Hb.
    + intros Hr. by apply Hb.
    + by apply pipeline_order_complete.
Qed.
End check.

Section run.
Context (definition : value) (bindings : list PipelineBinding) (req : bool) (order : list string).
Notation bound := (bound_of bindings).

Lemma missing_issues_spec steps infos :
  Forall2 declares_step steps infos ->
  exists missing, (if req then required_issues bound steps else Ok []) = Ok missing /\
    (missing = [] <-> (req = true -> forall step info, (step, info) ∈ zip steps infos ->
      ontology_required step = true -> is_Some (bound !! si_id info))).
Proof.
  intros H. destruct (required_issues_spec bound _ _ H) as (missing & Hm & Hmiss).
  destruct req; [exists missing|exists []]; split; try done. rewrite Hmiss. naive_solver.
Qed.

Lemma validate_pipeline_internal_run sources steps source_ids infos :
  get_array definition "sources" = Some sources -> get_array definition "pipeline" = Some steps ->
  Forall2 declares_source sources source_ids -> Forall2 declares_step steps infos ->
  validate_pipeline_internal definition bindings req = Ok order <->
  well_formed_graph bound req steps source_ids infos /\
    pipeline_order source_ids infos = Some order.
Proof.
  intros (object & Ho & Hs)%get_array_object (object' & Ho' & Hp)%get_array_object HFs HFp.
  rewrite Ho in Ho'. injection Ho' as <-.
  unfold validate_pipeline_internal. rewrite Ho. simpl. rewrite Hs. simpl. rewrite Hp. simpl.
  destruct (scan_sources_spec _ _ ∅ [] HFs) as (issues & -> & Hi). simpl.
  rewrite (right_id_L ∅ (∪)).
  edestruct (scan_steps_spec _ _ {| s_nodes := list_to_set source_ids; s_issues := issues;
    s_deps := ∅; s_required := ∅ |} HFp) as (scanned & -> & Hsc). simpl in *.
  destruct (missing_issues_spec _ _ HFp) as (missing & -> & Hm). simpl.
  rewrite (union_comm_L (list_to_set _)), <-list_to_set_app_L. fold (pipeline_order source_ids infos).
  destruct (validate_branch_routes steps) as [[]|e] eqn:Er; simpl.
  - pose proof (issues_well_formed bound req steps source_ids infos HFp issues scanned missing
      ltac:(rewrite Hi; tauto) Hsc Hm (proj1 (validate_branch_routes_Ok steps) Er)) as Hwf.
    rewrite <-Hwf. destruct (scanned ++ _); simpl; [|by split; [|intros [? _]]].
    rewrite context_Ok_iff. tauto.
  - split; [done|]. intros [Hwf _]. pose proof (proj2 (validate_branch_routes_Ok steps) (wg_routes _ _ _ _ _ Hwf)). congruence.
Qed.

Lemma validate_pipeline_internal_iff :
  validate_pipeline_internal definition bindings req = Ok order <->
  exists source_ids infos,
    well_formed_pipeline definition bindings req source_ids infos /\
    pipeline_order source_ids infos = Some order.
Proof.
  split.
  - intros H. pose proof H as H'. unfold validate_pipeline_internal in H'.
    apply bind_Ok_inv in H' as (object & Ho%context_Ok_inv & H').
    apply bind_Ok_inv in H' as (sources & Hs%context_Ok_inv & H').
    apply bind_Ok_inv in H' as (steps & Hp%context_Ok_inv & H').
    apply bind_Ok_inv in H' as ([ids issues] & [sids HFs]%scan_sources_declares & H').
    apply bind_Ok_inv in H' as (scanned & [infos HFp]%scan_steps_declares & _).
    assert (Hs' : get_array definition "sources" = Some sources) by (apply get_array_object; eauto).
    assert (Hp' : get_array definition "pipeline" = Some steps) by (apply get_array_object; eauto).
    apply (validate_pipeline_internal_run _ _ _ _ Hs' Hp' HFs HFp) in H as [Hwf Hord].
    exists sids, infos. split; [|done]. by exists sources, steps.
  - intros (sids & infos & (sources & steps & Hs & Hp & HFs & HFp & Hwf) & Hord).
    by apply (validate_pipeline_internal_run _ _ _ _ Hs Hp HFs HFp).
Qed.
End run.

(** ** Properties *)

(** C33: pipeline validation accepts exactly the well-formed definitions (distinct
    node names, known step kinds, resolved inputs, an acyclic graph, the
    required ontology bindings, consistent routes). *)
Theorem validate_pipeline_decides definition bindings req :
  (exists order, validate_pipeline_internal definition bindings req = Ok order) <->
  (exists source_ids infos, well_formed_pipeline definition bindings req source_ids infos).
Proof.
  setoid_rewrite validate_pipeline_internal_iff. split; [naive_solver|].
  intros (sids & infos & Hwf). pose proof Hwf as (sources & steps & _ & _ & _ & _ & Hg).
  destruct (pipeline_order_complete sids infos) as [order Ho]; [apply Hg..|]. by exists order, sids, infos.
Qed.

(** The order an accepted pipeline is given is a topological order of its
    declared nodes: every source and every step occurs once, after all of its
    inputs. *)
Theorem validate_pipeline_order definition bindings req order :
  validate_pipeline_internal definition bindings req = Ok order ->
  exists source_ids infos,
    well_formed_pipeline definition bindings req source_ids infos /\
    topological infos (source_ids ++ (si_id <$> infos)) order.
Proof.
  intros (sids & infos & Hwf & Ho)%validate_pipeline_internal_iff. exists sids, infos.
  split; [done|]. destruct Hwf as (? & ? & _ & _ & _ & _ & Hg).
  by apply (pipeline_order_topological sids infos (wg_nodup _ _ _ _ _ Hg)).
Qed.

Definition demo_step (id kind : string) (inputs : list string) (more : list (string * value)) : value :=
  JObject ([("step", JString id); ("type", JString kind); ("input_from", json_strings inputs)] ++ more).
Definition demo_pipeline : value :=
  JObject [("sources", JArray [JObject [("id", JString "intake")]]);
           ("pipeline", JArray
             [demo_step "store" "sink" ["clean"] [];
              demo_step "clean" "filter" ["intake"] []])].

Lemma validate_pipeline_order_witness :
  validate_pipeline demo_pipeline [] = Ok ["intake"; "clean"; "store"] /\
  exists source_ids infos, topological infos (source_ids ++ (si_id <$> infos)) ["intake"; "clean"; "store"].
Proof.
  assert (H : validate_pipeline demo_pipeline [] = Ok ["intake"; "clean"; "store"])
    by (vm_compute; reflexivity).
  split; [exact H|].
  destruct (validate_pipeline_order demo_pipeline [] true _ H) as (sids & infos & _ & Ht).
  by exists sids, infos.
Defined.
