(* ===== verification/ThreeWay.v ===== *)
(** * ThreeWay: what a three-way merge of documents has to deliver

    Both three-way merges of the Registry (ontology resources in semantics.rs,
    pipeline definitions in authoring.rs) walk three documents in parallel.  This
    file states their common contract path by path, and proves it for every
    function that follows the merge rules [three_way]. *)

From S2P Require Import Prelude Text Json.

(** ** Paths into documents *)
Definition oget (v : option value) (key : string) : option value :=
  match v with Some v => get v key | None => None end.
Fixpoint path_get (v : option value) (path : list string) : option value :=
  match path with
  | [] => v
  | key :: path => path_get (oget v key) path
  end.

Definition opt_object (v : option value) : bool :=
  match v with Some (JObject _) => true | _ => false end.

#[export] Instance oget_proper : Proper ((≡@{option value}) ==> (=) ==> (≡@{option value})) oget.
Proof. intros v w [a b H|] k _ <-; simpl; [by apply get_proper|constructor]. Qed.

#[export] Instance path_get_proper :
  Proper ((≡@{option value}) ==> (=) ==> (≡@{option value})) path_get.
Proof.
  intros v w H q _ <-. revert v w H.
  induction q as [|k q IH]; intros v w H; simpl; [done|]. apply IH. by rewrite H.
Qed.

#[export] Instance opt_object_proper : Proper ((≡@{option value}) ==> (=)) opt_object.
Proof. intros v w [a b []|]; done. Qed.

Lemma path_get_app v p q : path_get v (p ++ q) = path_get (path_get v p) q.
Proof. revert v. induction p as [|k p IH]; intros v; simpl; [done|apply IH]. Qed.

Lemma path_get_None q : path_get None q = None.
Proof. by induction q. Qed.

Lemma oget_object m k : oget (Some (JObject m)) k = jget k m.
Proof. done. Qed.

Lemma wf_oget v k : wf_opt v = true -> wf_opt (oget v k) = true.
Proof.
  destruct v as [v|]; simpl; [|done]. destruct v; simpl; try done. by apply wf_opt_jget.
Qed.

Lemma oget_not_object v k : opt_object v = false -> oget v k = None.
Proof. destruct v as [[]|]; done. Qed.

(** ** The merge rules *)
Section rules.
(** [descend b l r]: the merge goes on key by key. *)
Context (descend : option value -> option value -> option value -> bool).
(** The paths at which both sides changed and one side was chosen. *)
Context (conflict : list string -> Prop).

Inductive three_way : list string -> option value -> option value -> option value ->
    option value -> Prop :=
  | tw_same p b l r : l ≡ r -> three_way p b l r l
  | tw_left p b l r : r ≡ b -> three_way p b l r l
  | tw_right p b l r : l ≡ b -> three_way p b l r r
  | tw_conflict p b l r m : conflict p -> m = l \/ m = r -> three_way p b l r m
  | tw_object p b l r m :
      descend b (Some (JObject l)) (Some (JObject r)) = true ->
      ~ Some (JObject l) ≡ b -> ~ Some (JObject r) ≡ b -> ~ Some (JObject l) ≡ Some (JObject r) ->
      (forall k, three_way (p ++ [k]) (oget b k) (oget (Some (JObject l)) k)
         (oget (Some (JObject r)) k) (oget (Some (JObject m)) k)) ->
      three_way p b (Some (JObject l)) (Some (JObject r)) (Some (JObject m)).

(** Both sides changed a value, differently, and the merge cannot go on below. *)
Definition diverge (b l r : option value) : Prop :=
  ~ l ≡ b /\ ~ r ≡ b /\ ~ l ≡ r /\ descend b l r = false.

(** The contract: outside of conflicts, a value only one side changed is taken
    from that side, and a change both sides made is kept. *)
Definition merge_contract (b l r m : option value) : Prop :=
  (l ≡ b -> m ≡ r) /\ (r ≡ b -> m ≡ l) /\ (l ≡ r -> m ≡ l).

Lemma merge_contract_weaken b l r m q :
  l ≡ r \/ r ≡ b -> m ≡ l ->
  merge_contract (path_get b q) (path_get l q) (path_get r q) (path_get m q).
Proof.
  intros H Hm. unfold merge_contract. rewrite Hm. split_and!; [|done..].
  intros E. destruct H as [-> | ->]; [done|]. exact E.
Qed.

Lemma three_way_contract p b l r m q :
  three_way p b l r m -> (forall q1 q2, q = q1 ++ q2 -> ~ conflict (p ++ q1)) ->
  merge_contract (path_get b q) (path_get l q) (path_get r q) (path_get m q).
Proof.
  intros H. revert q. induction H as [p b l r H|p b l r H|p b l r H|p b l r m H|p b l r m Hd H1 H2 H3 _ IH];
    intros q Hq.
  - apply merge_contract_weaken; [by left|done].
  - apply merge_contract_weaken; [by right|done].
  - destruct (merge_contract_weaken b r l r q) as (H1 & H2 & H3); [by right|done|].
    split_and!; [done|done|]. intros E. by symmetry.
  - destruct (Hq [] q eq_refl). by rewrite app_nil_r.
  - destruct q as [|k q]; [|].
    + split_and!; done.
    + apply (IH k q). intros q1 q2 ->. rewrite <-app_assoc. by apply (Hq (k :: q1) q2).
Qed.

(** Without conflicts, no path of the three documents diverges. *)
Lemma three_way_no_diverge p b l r m q :
  three_way p b l r m -> (forall q, ~ conflict (p ++ q)) ->
  ~ diverge (path_get b q) (path_get l q) (path_get r q).
Proof.
  intros H. revert q. induction H as [p b l r H|p b l r H|p b l r H|p b l r m H|p b l r m Hd H1 H2 H3 _ IH];
    intros q Hq (D1 & D2 & D3 & D4).
  - apply D3. by rewrite H.
  - apply D2. by rewrite H.
  - apply D1. by rewrite H.
  - destruct (Hq []). by rewrite app_nil_r.
  - destruct q as [|k q]; [simpl in D4; congruence|].
    apply (IH k q); [|done]. intros q'. rewrite <-app_assoc. apply (Hq (k :: q')).
Qed.

(** The chosen values come from the two sides: the result has nothing new. *)
Lemma three_way_source p b l r m q :
  three_way p b l r m -> opt_object (path_get m q) = false -> is_Some (path_get m q) ->
  path_get m q = path_get l q \/ path_get m q = path_get r q.
Proof.
  intros H. revert q. induction H as [p b l r H|p b l r H|p b l r H|p b l r m H Hm|p b l r m Hd H1 H2 H3 _ IH];
    intros q Hq Hs; [by left|by left|by right|destruct Hm as [-> | ->]; auto|].
  destruct q as [|k q]; [done|]. by apply (IH k q).
Qed.
End rules.

Lemma three_way_mono descend (C D : list string -> Prop) p b l r m :
  (forall q, C q -> D q) -> three_way descend C p b l r m -> three_way descend D p b l r m.
Proof.
  intros H. induction 1; [by constructor|by apply tw_left|by apply tw_right|
    apply tw_conflict; auto|by apply tw_object].
Qed.


Section agreement.
Context (descend : option value -> option value -> option value -> bool).
Context (conflict : list string -> Prop).

(** Where both sides agree, the result agrees with them, conflicts or not. *)
Lemma three_way_agree p b l r m q :
  three_way descend conflict p b l r m ->
  path_get l q ≡ path_get r q -> path_get m q ≡ path_get l q.
Proof.
  intros H. revert q. induction H as [p b l r H|p b l r H|p b l r H|p b l r m H Hm|p b l r m Hd H1 H2 H3 _ IH];
    intros q Hq; [done|done|done|destruct Hm as [-> | ->]; done|].
  destruct q as [|k q]; [done|]. by apply (IH k q).
Qed.

(** Where the merge does not descend, the result is one of the two sides. *)
Lemma three_way_side p b l r m q :
  three_way descend conflict p b l r m ->
  opt_object (path_get l q) && opt_object (path_get r q) = false ->
  path_get m q = path_get l q \/ path_get m q = path_get r q.
Proof.
  intros H. revert q. induction H as [p b l r H|p b l r H|p b l r H|p b l r m H Hm|p b l r m Hd H1 H2 H3 _ IH];
    intros q Hq; [by left|by left|by right|destruct Hm as [-> | ->]; auto|].
  destruct q as [|k q]; [done|]. by apply (IH k q).
Qed.
End agreement.
