(* ===== verification/DiffMerge.v ===== *)
(** * DiffMerge: semantic diff and three-way merge of ontologies (semantics.rs)

    The recursions descend into the [before] (resp. [base]) document; a key that
    is absent there ends the recursion. *)

From S2P Require Import Prelude Text Json Ontology ThreeWay.

Record SemanticChange : Type := {
  sc_resource_id : string;
  sc_operation : string;
  sc_path : list string;
  sc_before : option value;
  sc_after : option value;
}.
Record MergeConflict : Type := {
  mc_resource_id : string;
  mc_path : list string;
  mc_base : option value;
  mc_left : option value;
  mc_right : option value;
}.
Record MergeResult : Type := {
  mr_ontology : option value;
  mr_conflicts : list MergeConflict;
}.

(** ** The documents compared *)
Definition root_metadata (ontology : value) : result value :=
  object ← with_context "ontology object missing" (as_object ontology);
  Ok (JObject (List.filter (fun kv => negb (String.eqb kv.1 "resources")) object)).

Definition resource_values (ontology : value) : result (gmap string value) :=
  validate_ontology ontology ;;
  resources ← with_context "ontology_resources_missing" (get_array ontology "resources");
  entries ← mapM (fun resource =>
    id ← required_string resource "resource_id" "ontology resource"; Ok (id, resource)) resources;
  Ok (btree_collect entries).

(** ** Diff *)
Definition object_keys (objects : list (list (string * value))) : list string :=
  btree_elements (btree_set (concat ((fun m => m.*1) <$> objects))).

Definition field_change (resource_id : string) (path : list string)
    (before after : option value) : SemanticChange :=
  {| sc_resource_id := resource_id;
     sc_operation := if option_is_some after then "set_field" else "remove_field";
     sc_path := path; sc_before := before; sc_after := after |}.

(** The body of [diff_value]; [child key path after] is the recursive call on
    the value [before] has at [key]. *)
Definition diff_step (resource_id : string)
    (child : string -> list string -> value -> list SemanticChange)
    (path : list string) (before after : value) : list SemanticChange :=
  if value_eqb before after then []
  else match as_object before, as_object after with
  | Some before_object, Some after_object =>
      object_keys [before_object; after_object] ≫= fun key =>
        if match path with [] => true | _ => false end && String.eqb key "resource_id" then []
        else match jget key before_object, jget key after_object with
             | Some _, Some r => child key (path ++ [key]) r
             | l, r => [field_change resource_id (path ++ [key]) l r]
             end
  | _, _ => [{| sc_resource_id := resource_id; sc_operation := "set_field"; sc_path := path;
                sc_before := Some before; sc_after := Some after |}]
  end.

Fixpoint diff_value (resource_id : string) (before : value) (path : list string) (after : value)
    {struct before} : list SemanticChange :=
  diff_step resource_id
    (fun key path after =>
       match before with
       | JObject m =>
           (fix at_key m := match m with
             | [] => []
             | (k, v) :: m => if String.eqb k key then diff_value resource_id v path after else at_key m
             end) m
       | _ => []
       end) path before after.

Definition resource_changes (base target : gmap string value) (id : string)
    : list SemanticChange :=
  match base !! id, target !! id with
  | None, Some after =>
      [{| sc_resource_id := id; sc_operation := "add_resource"; sc_path := [];
          sc_before := None; sc_after := Some after |}]
  | Some before, None =>
      [{| sc_resource_id := id; sc_operation := "remove_resource"; sc_path := [];
          sc_before := Some before; sc_after := None |}]
  | Some before, Some after => diff_value id before [] after
  | None, None => []
  end.

Definition semantic_diff (base target : value) : result (list SemanticChange) :=
  base_resources ← resource_values base;
  target_resources ← resource_values target;
  let ids := btree_elements (dom base_resources ∪ dom target_resources) in
  let changes := ids ≫= resource_changes base_resources target_resources in
  base_metadata ← root_metadata base;
  target_metadata ← root_metadata target;
  Ok (changes ++ diff_value "$ontology" base_metadata [] target_metadata).

(** ** Merge *)
Definition merge_child : Type :=
  string -> list string -> option value -> option value -> list MergeConflict ->
  option value * list MergeConflict.

(** The loop over the union of the keys. *)
Fixpoint merge_keys (child : merge_child) (path : list string)
    (left_object right_object : list (string * value)) (keys : list string)
    (merged : list (string * value)) (conflicts : list MergeConflict)
    : list (string * value) * list MergeConflict :=
  match keys with
  | [] => (merged, conflicts)
  | key :: keys =>
      let '(v, conflicts) := child key (path ++ [key]) (jget key left_object)
        (jget key right_object) conflicts in
      merge_keys child path left_object right_object keys
        match v with Some v => jinsert key v merged | None => merged end conflicts
  end.

(** The body of [merge_value]; [child key] is the recursive call on the value
    [base] has at [key]. *)
Definition merge_step (resource_id : string) (child : merge_child) (path : list string)
    (base left right : option value) (conflicts : list MergeConflict)
    : option value * list MergeConflict :=
  if opt_value_eqb left right then (left, conflicts)
  else if opt_value_eqb left base then (right, conflicts)
  else if opt_value_eqb right base then (left, conflicts)
  else match base ≫= as_object, left ≫= as_object, right ≫= as_object with
  | Some base_object, Some left_object, Some right_object =>
      let '(merged, conflicts) := merge_keys child path left_object right_object
        (object_keys [base_object; left_object; right_object]) [] conflicts in
      (Some (JObject merged), conflicts)
  | _, _, _ =>
      (left, conflicts ++ [{| mc_resource_id := resource_id; mc_path := path;
                              mc_base := base; mc_left := left; mc_right := right |}])
  end.

(** With no base value the body makes no recursive call. *)
Definition merge_absent (resource_id : string) (path : list string) (left right : option value)
    (conflicts : list MergeConflict) : option value * list MergeConflict :=
  merge_step resource_id (fun _ _ _ _ conflicts => (None, conflicts)) path None left right conflicts.

Fixpoint merge_present (resource_id : string) (base : value) (path : list string)
    (left right : option value) (conflicts : list MergeConflict) {struct base}
    : option value * list MergeConflict :=
  merge_step resource_id
    (fun key path left right conflicts =>
       match base with
       | JObject m =>
           (fix at_key m := match m with
             | [] => merge_absent resource_id path left right conflicts
             | (k, v) :: m =>
                 if String.eqb k key then merge_present resource_id v path left right conflicts
                 else at_key m
             end) m
       | _ => merge_absent resource_id path left right conflicts
       end) path (Some base) left right conflicts.

Definition merge_value (resource_id : string) (path : list string)
    (base left right : option value) (conflicts : list MergeConflict)
    : option value * list MergeConflict :=
  match base with
  | Some base => merge_present resource_id base path left right conflicts
  | None => merge_absent resource_id path left right conflicts
  end.

(** The loop over the resource ids. *)
Fixpoint merge_resources (base left right : gmap string value) (ids : list string)
    (merged : list value) (conflicts : list MergeConflict) : list value * list MergeConflict :=
  match ids with
  | [] => (merged, conflicts)
  | id :: ids =>
      let '(v, conflicts) := merge_value id [] (base !! id) (left !! id) (right !! id) conflicts in
      merge_resources base left right ids
        match v with Some v => merged ++ [v] | None => merged end conflicts
  end.

Definition merge_ontology (base left right : value) : result MergeResult :=
  validate_ontology base ;;
  validate_ontology left ;;
  validate_ontology right ;;
  base_resources ← resource_values base;
  left_resources ← resource_values left;
  right_resources ← resource_values right;
  let ids := btree_elements (dom base_resources ∪ dom left_resources ∪ dom right_resources) in
  let '(merged_resources, conflicts) :=
    merge_resources base_resources left_resources right_resources ids [] [] in
  base_metadata ← root_metadata base;
  left_metadata ← root_metadata left;
  right_metadata ← root_metadata right;
  let '(metadata, conflicts) := merge_value "$ontology" [] (Some base_metadata)
    (Some left_metadata) (Some right_metadata) conflicts in
  match conflicts with
  | _ :: _ => Ok {| mr_ontology := None; mr_conflicts := conflicts |}
  | [] =>
      ontology ← with_context "ontology merge metadata missing" metadata;
      object ← with_context "ontology merge metadata invalid" (as_object ontology);
      let ontology := JObject (jinsert "resources" (JArray merged_resources) object) in
      validate_ontology ontology ;;
      Ok {| mr_ontology := Some ontology; mr_conflicts := [] |}
  end.
