(* ===== verification/MergeFacts.v ===== *)
(** * MergeFacts: correctness of the semantic merge and diff of ontologies

    The merge follows the rules of [three_way]; its conflicts are exactly the
    paths at which the two sides diverge.  The diff lists exactly the fields in
    which two documents differ. *)

From S2P Require Import Prelude Text Json Ontology OntologyFacts ThreeWay DiffMerge.

(** ** Unfolding the recursions *)
Lemma merge_keys_ext child child' path l r keys merged conflicts :
  (forall k p x y c, child k p x y c = child' k p x y c) ->
  merge_keys child path l r keys merged conflicts = merge_keys child' path l r keys merged conflicts.
Proof.
  intros H. revert merged conflicts. induction keys as [|k keys IH]; intros merged conflicts; simpl; [done|].
  rewrite H. destruct (child' _ _ _ _ _). apply IH.
Qed.

Lemma merge_step_ext rid child child' path b l r c :
  (forall k p x y c, child k p x y c = child' k p x y c) ->
  merge_step rid child path b l r c = merge_step rid child' path b l r c.
Proof.
  intros H. unfold merge_step. repeat case_match; try done.
  all: erewrite merge_keys_ext in * by done; congruence.
Qed.

(** [merge_value] is its body applied to itself. *)
Lemma merge_value_eq rid path b l r c :
  merge_value rid path b l r c =
  merge_step rid (fun k p x y c => merge_value rid p (oget b k) x y c) path b l r c.
Proof.
  destruct b as [b|]; [|done]. unfold merge_value at 1.
  destruct b as [| | | | |m]; simpl; apply merge_step_ext; intros k p x y c'; try done.
  simpl. induction m as [|[k' v] m IH]; simpl; [done|]. by destruct (String.eqb k' k).
Qed.

Lemma diff_value_eq rid before path after :
  diff_value rid before path after =
  diff_step rid (fun k p a => match get before k with Some b => diff_value rid b p a | None => [] end)
    path before after.
Proof.
  destruct before as [| | | | |m]; try done. simpl. unfold diff_step.
  destruct (value_eqb _ _); [done|]. destruct (as_object after) as [ao|]; [|done]. simpl.
  apply list_bind_ext; [|done]. intros k. case_match; [done|].
  destruct (jget k m) as [v|] eqn:E; [|done]. destruct (jget k ao) as [w|]; [|done].
  clear -E. induction m as [|[k' v'] m IH]; simpl in *; [done|].
  destruct (String.eqb k' k); [congruence|auto].
Qed.

(** ** Merge *)
Definition all_objects (b l r : option value) : bool := opt_object b && opt_object l && opt_object r.

Lemma elem_of_object_keys objects k :
  k ∈ object_keys objects <-> exists m, m ∈ objects /\ is_Some (jget k m).
Proof.
  unfold object_keys, btree_set. rewrite elem_of_btree_elements, elem_of_list_to_set.
  setoid_rewrite jget_is_Some. induction objects as [|m objects IH]; simpl.
  - rewrite elem_of_nil. split; [done|by intros (? & ?%elem_of_nil & _)].
  - rewrite elem_of_app, IH. setoid_rewrite elem_of_cons. naive_solver.
Qed.

(** The loop over the keys sets each key to the value its call returned. *)
Lemma merge_keys_spec child path l r keys (Q : string -> option value -> list MergeConflict -> Prop)
    merged conflicts merged' conflicts' :
  NoDup keys -> NoDup merged.*1 -> (forall k, k ∈ keys -> jget k merged = None) ->
  (forall k c v c', k ∈ keys -> child k (path ++ [k]) (jget k l) (jget k r) c = (v, c') ->
     exists new, c' = c ++ new /\ Q k v new) ->
  merge_keys child path l r keys merged conflicts = (merged', conflicts') ->
  NoDup merged'.*1 /\ exists new, conflicts' = conflicts ++ new /\
    (forall k, k ∉ keys -> jget k merged' = jget k merged) /\
    (forall k, k ∈ keys -> exists sub, (forall x, x ∈ sub -> x ∈ new) /\ Q k (jget k merged') sub) /\
    (forall x, x ∈ new -> exists k v sub, k ∈ keys /\ x ∈ sub /\ Q k v sub).
Proof.
  intros Hnd. revert merged conflicts.
  induction Hnd as [|k keys Hk Hnd IH]; intros merged conflicts Hm Hfresh Hchild; simpl.
  { intros [= <- <-]. split; [done|]. exists []. rewrite app_nil_r.
    split_and!; [done|done|by intros ? ?%elem_of_nil|by intros ? ?%elem_of_nil]. }
  destruct (child k _ _ _ conflicts) as [v c1] eqn:Ec.
  destruct (Hchild k conflicts v c1 ltac:(by left) Ec) as (new1 & -> & HQ).
  set (merged1 := match v with Some v => jinsert k v merged | None => merged end).
  assert (Hget : forall k', jget k' merged1 = if decide (k = k') then v else jget k' merged).
  { intros k'. subst merged1. destruct v as [v|]; [apply jget_jinsert|].
    case_decide; [subst; apply Hfresh; by left|done]. }
  intros Hrun. apply IH in Hrun as (Hm' & new2 & -> & Hout & Hin & Hsrc).
  - split; [done|]. exists (new1 ++ new2). rewrite (assoc_L (++)). split_and!; [done|..].
    + intros k' [Hne Hk']%not_elem_of_cons. rewrite Hout, Hget by done. by rewrite decide_False.
    + intros k' [->|Hk']%elem_of_cons.
      * exists new1. rewrite Hout, Hget, decide_True by done. split; [set_solver|done].
      * destruct (Hin k' Hk') as (sub & Hsub & HQ'). exists sub. split; [set_solver|done].
    + intros x [Hx|Hx]%elem_of_app; [exists k, v, new1; split_and!; [by left|done..]|].
      destruct (Hsrc x Hx) as (k' & v' & sub & ? & ? & ?). exists k', v', sub. split_and!; [by right|done..].
  - subst merged1. destruct v; [by apply NoDup_jinsert|done].
  - intros k' Hk'. rewrite Hget, decide_False by (by intros ->). apply Hfresh. by right.
  - intros k' c v' c' Hk'. apply Hchild. by right.
Qed.

Definition conflict_at (rid : string) (path : list string) (b l r : option value)
    (x : MergeConflict) : Prop :=
  exists q, x = {| mc_resource_id := rid; mc_path := path ++ q; mc_base := path_get b q;
                   mc_left := path_get l q; mc_right := path_get r q |} /\
    diverge all_objects (path_get b q) (path_get l q) (path_get r q).

Definition paths_of (conflicts : list MergeConflict) (p : list string) : Prop :=
  exists x, x ∈ conflicts /\ mc_path x = p.

(** What one call of [merge_value] guarantees, given the conflicts it adds. *)
Record merged (rid : string) (path : list string) (b l r v : option value)
    (new : list MergeConflict) : Prop := {
  merged_wf : wf_opt v = true;
  merged_rules : three_way all_objects (paths_of new) path b l r v;
  merged_conflicts : forall x, x ∈ new -> conflict_at rid path b l r x;
}.

Lemma merged_plain rid path b l r v :
  wf_opt v = true -> three_way all_objects (paths_of []) path b l r v -> merged rid path b l r v [].
Proof. intros. by split; [..|intros x ?%elem_of_nil]. Qed.

Lemma not_veq v w :
  wf_opt v = true -> wf_opt w = true -> opt_value_eqb v w = false -> ~ v ≡ w.
Proof. intros Hv Hw H E%opt_value_eqb_veq; [congruence|done..]. Qed.

Lemma opt_as_object v m : v ≫= as_object = Some m -> v = Some (JObject m).
Proof. destruct v as [[]|]; by intros [= ->]. Qed.

Lemma not_all_objects b l r :
  b ≫= as_object = None \/ l ≫= as_object = None \/ r ≫= as_object = None ->
  all_objects b l r = false.
Proof.
  unfold all_objects. intros [H|[H|H]]; apply andb_false_iff.
  - left. apply andb_false_iff. left. by destruct b as [[]|].
  - left. apply andb_false_iff. right. by destruct l as [[]|].
  - right. by destruct r as [[]|].
Qed.

Section step.
Context (rid : string) (child : merge_child) (path : list string) (b : option value).
Context (Hb : wf_opt b = true).
Context (Hchild : forall k p x y c v c', opt_object b = true -> wf_opt x = true -> wf_opt y = true ->
  child k p x y c = (v, c') -> exists new, c' = c ++ new /\ merged rid p (oget b k) x y v new).

Lemma merge_object_spec bo lo ro c merged' c' :
  b = Some (JObject bo) -> wf_value (JObject lo) = true -> wf_value (JObject ro) = true ->
  diverge (fun _ _ _ => false) b (Some (JObject lo)) (Some (JObject ro)) ->
  merge_keys child path lo ro (object_keys [bo; lo; ro]) [] c = (merged', c') ->
  exists new, c' = c ++ new /\
    merged rid path b (Some (JObject lo)) (Some (JObject ro)) (Some (JObject merged')) new.
Proof.
  intros Hbo Hl Hr (D1 & D2 & D3 & _) Hrun.
  apply (merge_keys_spec _ _ _ _ _ (fun k v new => merged rid (path ++ [k]) (oget b k)
    (jget k lo) (jget k ro) v new)) in Hrun as (Hnd & new & -> & Hout & Hin & Hsrc).
  - exists new. split; [done|].
    assert (Hkey : forall k, three_way all_objects (paths_of new) (path ++ [k]) (oget b k)
      (jget k lo) (jget k ro) (jget k merged') /\ wf_opt (jget k merged') = true).
    { intros k. destruct (decide (k ∈ object_keys [bo; lo; ro])) as [Hk|Hk].
      - destruct (Hin k Hk) as (sub & Hsub & [Hwf Hrules _]). split; [|done].
        revert Hrules. apply three_way_mono. intros p (x & Hx & ?). exists x. auto.
      - rewrite (Hout k Hk). simpl. split; [|done].
        assert (Hn : forall m, m ∈ [bo; lo; ro] -> jget k m = None).
        { intros m Hm. destruct (jget k m) eqn:E; [|done]. destruct Hk.
          apply elem_of_object_keys. exists m. eauto. }
        rewrite (Hn lo), (Hn ro) by set_solver. by apply tw_same. }
    split.
    + apply wf_object. split; [done|]. apply Forall_forall. intros [k v] Hkv.
      apply elem_of_jget in Hkv; [|done]. destruct (Hkey k) as [_ Hwf]. by rewrite Hkv in Hwf.
    + apply tw_object; [by rewrite Hbo|done..|]. intros k. apply Hkey.
    + intros x Hx. destruct (Hsrc x Hx) as (k & v & sub & Hk & Hxs & [_ _ Hc]).
      destruct (Hc x Hxs) as (q & -> & Hd). exists (k :: q). by rewrite <-app_assoc.
  - apply NoDup_btree_elements.
  - constructor.
  - done.
  - intros k c0 v c0' Hk Hc. apply (Hchild k) in Hc; [done|by rewrite Hbo|by apply wf_opt_jget..].
Qed.

Lemma merge_step_spec l r c v c' :
  wf_opt l = true -> wf_opt r = true ->
  merge_step rid child path b l r c = (v, c') ->
  exists new, c' = c ++ new /\ merged rid path b l r v new.
Proof.
  intros Hl Hr. unfold merge_step.
  destruct (opt_value_eqb l r) eqn:E1.
  { intros [= <- <-]. exists []. rewrite app_nil_r. split; [done|]. apply merged_plain; [done|].
    apply tw_same. by apply opt_value_eqb_veq. }
  destruct (opt_value_eqb l b) eqn:E2.
  { intros [= <- <-]. exists []. rewrite app_nil_r. split; [done|]. apply merged_plain; [done|].
    apply tw_right. by apply opt_value_eqb_veq. }
  destruct (opt_value_eqb r b) eqn:E3.
  { intros [= <- <-]. exists []. rewrite app_nil_r. split; [done|]. apply merged_plain; [done|].
    apply tw_left. by apply opt_value_eqb_veq. }
  apply not_veq in E1, E2, E3; [|done..].
  set (x := {| mc_resource_id := rid; mc_path := path; mc_base := b; mc_left := l; mc_right := r |}).
  assert (Hconf : all_objects b l r = false -> merged rid path b l r l [x]).
  { intros Ho. split; [done| |].
    - apply tw_conflict; [|by left]. exists x. by rewrite list_elem_of_singleton.
    - intros y ->%list_elem_of_singleton. exists []. by rewrite app_nil_r. }
  destruct (b ≫= as_object) as [bo|] eqn:Ob, (l ≫= as_object) as [lo|] eqn:Ol,
    (r ≫= as_object) as [ro|] eqn:Or;
    try (intros [= <- <-]; exists [x]; split; [done|]; apply Hconf, not_all_objects; tauto).
  destruct (merge_keys _ _ _ _ _ _ _) as [mg c1] eqn:Ek. intros [= <- <-].
  apply opt_as_object in Ob, Ol, Or. subst l r. by apply (merge_object_spec bo lo ro c mg c1).
Qed.
End step.

Lemma merge_value_spec rid path b l r c v c' :
  wf_opt b = true -> wf_opt l = true -> wf_opt r = true ->
  merge_value rid path b l r c = (v, c') ->
  exists new, c' = c ++ new /\ merged rid path b l r v new.
Proof.
  assert (Hnone : forall path l r c v c', wf_opt l = true -> wf_opt r = true ->
    merge_value rid path None l r c = (v, c') ->
    exists new, c' = c ++ new /\ merged rid path None l r v new).
  { intros. rewrite merge_value_eq in *. by eapply merge_step_spec. }
  destruct b as [b|]; [|by intros _; apply Hnone].
  revert path l r c v c'. induction b as [|b|n|s|items _|m IH] using value_ind';
    intros path l r c w c' Hb Hl Hr; rewrite merge_value_eq;
    apply (merge_step_spec rid _ path (Some _) Hb); try done.
  intros k p x y c0 v0 c0' _ Hx Hy. simpl. destruct (jget k m) as [vb|] eqn:E.
  - rewrite Forall_forall in IH. apply (IH _ (jget_elem_of _ _ _ E)); try done.
    apply wf_object in Hb as [_ HF]. by apply (wf_jget m k).
  - by apply Hnone.
Qed.

(** *** The resources of an ontology *)
Definition resources_wf (m : gmap string value) : Prop :=
  forall id v, m !! id = Some v -> wf_value v = true /\ get_str v "resource_id" = Some id.

Lemma resource_values_inv ontology m :
  resource_values ontology = Ok m ->
  exists resources, validate_ontology ontology = Ok tt /\
    get_array ontology "resources" = Some resources /\
    forall id v, m !! id = Some v <-> v ∈ resources /\ get_str v "resource_id" = Some id.
Proof.
  unfold resource_values. intros H. res_inv. exists x0. split_and!; [done..|].
  pose proof E as (rs & Hp & _)%validate_ontology_spec.
  pose proof (parse_resources_nodup _ _ Hp) as Hnd.
  assert (Hids : x1 = zip (r_id <$> rs) x0 /\ length rs = length x0 /\
    Forall2 (fun r v => get_str v "resource_id" = Some (r_id r)) rs x0).
  { unfold parse_resources in Hp. res_inv. simplify_eq. apply mapM_Ok_Forall2 in E1.
    clear -E1 Hp. revert Hp. generalize (∅ : gset string). revert rs.
    induction E1 as [|v e vs es Hv _ IH]; intros rs ids; simpl.
    - intros [= <-]. by split_and!.
    - intros H. res_inv. apply parse_resource_id in E as (Hid & _).
      destruct (IH _ _ E0) as (-> & Hlen & HF). unfold required_string in *. res_inv. simplify_eq.
      simpl. split_and!; [done|by rewrite Hlen|by constructor]. }
  destruct Hids as (-> & Hlen & HF). intros id v. rewrite btree_collect_lookup.
  2: { rewrite fst_zip by (rewrite length_fmap; lia). done. }
  split.
  - intros Hin. rewrite elem_of_lookup_zip_with in Hin. destruct Hin as (i & a & b & [= -> ->] & Ha & Hb).
    rewrite list_lookup_fmap in Ha. destruct (rs !! i) as [r|] eqn:Er; simplify_eq/=.
    split; [by eapply list_elem_of_lookup_2|]. by apply (Forall2_lookup_lr _ _ _ _ _ _ HF Er Hb).
  - intros [[i Hi]%list_elem_of_lookup Hid]. apply elem_of_lookup_zip_with.
    destruct (Forall2_lookup_r _ _ _ _ _ HF Hi) as (r & Hr & Hrid).
    exists i, id, v. rewrite list_lookup_fmap, Hr. simpl. split_and!; [done| |done]. congruence.
Qed.

Lemma resource_values_wf ontology m :
  wf_value ontology = true -> resource_values ontology = Ok m -> resources_wf m.
Proof.
  intros Hwf (rs & _ & Hrs & Hm)%resource_values_inv id v [Hv Hid]%Hm. split; [|done].
  unfold get_array in Hrs. destruct (get ontology "resources") as [a|] eqn:E; [|done].
  destruct a; simplify_eq/=. apply (wf_get _ _ _ Hwf), wf_array in E.
  rewrite Forall_forall in E. auto.
Qed.

Section ontology.
Context (rb rl rr : gmap string value).
Context (Hwb : resources_wf rb) (Hwl : resources_wf rl) (Hwr : resources_wf rr).

Lemma resources_wf_opt (m : gmap string value) id : resources_wf m -> wf_opt (m !! id) = true.
Proof. intros H. destruct (m !! id) as [v|] eqn:E; [|done]. by apply (H id). Qed.

(** Each id contributes the value its three versions merge to. *)
Lemma merge_resources_spec ids acc c merged' c' :
  merge_resources rb rl rr ids acc c = (merged', c') ->
  exists vs new, c' = c ++ new /\ merged' = acc ++ omap id vs /\
    Forall2 (fun id v => exists sub, (forall x, x ∈ sub -> x ∈ new) /\
      merged id [] (rb !! id) (rl !! id) (rr !! id) v sub) ids vs /\
    (forall x, x ∈ new -> exists id, conflict_at id [] (rb !! id) (rl !! id) (rr !! id) x).
Proof.
  revert acc c. induction ids as [|i ids IH]; intros acc c; simpl.
  - intros [= <- <-]. exists [], []. rewrite !app_nil_r. split_and!; [done..|constructor|].
    by intros x ?%elem_of_nil.
  - destruct (merge_value i [] (rb !! i) (rl !! i) (rr !! i) c) as [v c1] eqn:Ev.
    apply merge_value_spec in Ev as (new1 & -> & Hm); [|by apply resources_wf_opt..].
    intros (vs & new2 & -> & -> & HF & Hc)%IH. exists (v :: vs), (new1 ++ new2).
    rewrite (assoc_L (++)). split_and!; [done| | |].
    + destruct v; simpl; [|done]. by rewrite <-(assoc_L (++)).
    + constructor; [exists new1; split; [set_solver|done]|].
      eapply Forall2_impl; [exact HF|]. intros x y (sub & Hs & ?). exists sub. split; [set_solver|done].
    + intros x [Hx|Hx]%elem_of_app; [|auto]. exists i. by apply (merged_conflicts _ _ _ _ _ _ _ Hm).
Qed.

(** A resource merged without conflicts keeps its identity. *)
Lemma merged_identity i v :
  three_way all_objects (fun _ => False) [] (rb !! i) (rl !! i) (rr !! i) (Some v) ->
  get_str v "resource_id" = Some i.
Proof.
  intros H. inversion H as [? ? ? ? ? E1 E2 E3 E4|? ? ? ? ? E1 E2 E3 E4|? ? ? ? ? E1 E2 E3 E4|
    ? ? ? ? ? []|? ? l r m Hd N1 N2 N3 Hk E1 E2 El Er Em]; subst.
  - by apply (Hwl i).
  - by apply (Hwl i).
  - by apply (Hwr i).
  - symmetry in El, Er. apply (Hwl i) in El as [_ El]. apply (Hwr i) in Er as [_ Er].
    destruct (three_way_contract _ _ _ _ _ _ _ [] (Hk "resource_id") ltac:(intros; tauto)) as (_ & _ & Hc).
    unfold get_str in *. simpl in *.
    destruct (jget "resource_id" l) as [[| | |sl| |]|]; simplify_eq/=.
    destruct (jget "resource_id" r) as [[| | |sr| |]|]; simplify_eq/=.
    specialize (Hc ltac:(done)). inversion Hc as [a ? Ha E|]; subst. inversion Ha; subst. done.
Qed.
End ontology.

Lemma jget_filter (f : string -> bool) m k :
  jget k (List.filter (fun kv => f kv.1) m) = if f k then jget k m else None.
Proof.
  induction m as [|[k' v] m IH]; simpl; [by destruct (f k)|].
  destruct (f k') eqn:E; simpl; destruct (String.eqb_spec k' k) as [->|?]; rewrite ?IH; try done.
  - by rewrite E.
  - by rewrite E.
Qed.

Lemma root_metadata_spec ontology metadata :
  root_metadata ontology = Ok metadata ->
  (exists m, metadata = JObject m) /\ (wf_value ontology = true -> wf_value metadata = true) /\
  forall k, get metadata k = if decide (k = "resources") then None else get ontology k.
Proof.
  unfold root_metadata. intros H. res_inv. destruct ontology as [| | | | |m]; simplify_eq/=. rename x into m.
  split_and!; [by eexists| |].
  - rewrite !andb_true_iff. unfold nodup_keys. rewrite !bool_decide_eq_true, !forallb_forall.
    intros [Hnd HF]. split.
    + clear HF. induction m as [|[k v] m IH]; simpl in *; [constructor|].
      apply NoDup_cons in Hnd as [Hk Hnd]. destruct (negb _); simpl; [|auto].
      apply NoDup_cons. split; [|auto]. contradict Hk.
      apply list_elem_of_fmap in Hk as ([k' v'] & -> & [? _]%elem_of_bfilter). by apply (list_elem_of_fmap_2 fst).
    + intros kv [? _]%filter_In. auto.
  - intros k. rewrite (jget_filter (fun k => negb (String.eqb k "resources"))).
    destruct (String.eqb_spec k "resources"); by case_decide.
Qed.

(** What a run of [merge_ontology] computes. *)
Record merge_run (base left right : value) (res : MergeResult)
    (rb rl rr : gmap string value) (mb ml mr : value) (vs : list (option value))
    (metadata : option value) : Prop := {
  run_base : resource_values base = Ok rb;
  run_left : resource_values left = Ok rl;
  run_right : resource_values right = Ok rr;
  run_mb : root_metadata base = Ok mb;
  run_ml : root_metadata left = Ok ml;
  run_mr : root_metadata right = Ok mr;
  run_resources : Forall2 (fun id v => exists sub, (forall x, x ∈ sub -> x ∈ mr_conflicts res) /\
    merged id [] (rb !! id) (rl !! id) (rr !! id) v sub)
    (btree_elements (dom rb ∪ dom rl ∪ dom rr)) vs;
  run_metadata : exists sub, (forall x, x ∈ sub -> x ∈ mr_conflicts res) /\
    merged "$ontology" [] (Some mb) (Some ml) (Some mr) metadata sub;
  run_conflicts : forall x, x ∈ mr_conflicts res ->
    (exists id, conflict_at id [] (rb !! id) (rl !! id) (rr !! id) x) \/
    conflict_at "$ontology" [] (Some mb) (Some ml) (Some mr) x;
  run_result : match mr_ontology res with
    | None => mr_conflicts res <> []
    | Some ontology => mr_conflicts res = [] /\ validate_ontology ontology = Ok tt /\
        exists object, metadata = Some (JObject object) /\
          ontology = JObject (jinsert "resources" (JArray (omap id vs)) object)
    end;
}.

#[local] Arguments merge_value : simpl never.

Lemma merge_ontology_run base left right res :
  wf_value base = true -> wf_value left = true -> wf_value right = true ->
  merge_ontology base left right = Ok res ->
  exists rb rl rr mb ml mr vs metadata, merge_run base left right res rb rl rr mb ml mr vs metadata.
Proof.
  intros Hwb Hwl Hwr H. unfold merge_ontology in H.
  apply bind_Ok_inv in H as (_ & _ & H). apply bind_Ok_inv in H as (_ & _ & H).
  apply bind_Ok_inv in H as (_ & _ & H).
  apply bind_Ok_inv in H as (rb & Hrb & H). apply bind_Ok_inv in H as (rl & Hrl & H).
  apply bind_Ok_inv in H as (rr & Hrr & H).
  pose proof (resource_values_wf _ _ Hwb Hrb) as Wb. pose proof (resource_values_wf _ _ Hwl Hrl) as Wl.
  pose proof (resource_values_wf _ _ Hwr Hrr) as Wr.
  destruct (merge_resources _ _ _ _ _ _) as [mg c] eqn:Em.
  apply (merge_resources_spec rb rl rr Wb Wl Wr) in Em as (vs & new & -> & -> & HF & Hc).
  simpl in *.
  apply bind_Ok_inv in H as (mb & Hmb & H). apply bind_Ok_inv in H as (ml & Hml & H).
  apply bind_Ok_inv in H as (mr & Hmr & H).
  destruct (merge_value "$ontology" _ _ _ _ _) as [md c2] eqn:Ev.
  apply merge_value_spec in Ev as (new2 & -> & Hm);
    [|by eapply root_metadata_spec..].
  exists rb, rl, rr, mb, ml, mr, vs, md.
  assert (Hres : mr_conflicts res = new ++ new2 /\ match mr_ontology res with
    | None => mr_conflicts res <> []
    | Some ontology => mr_conflicts res = [] /\ validate_ontology ontology = Ok tt /\
        exists object, md = Some (JObject object) /\
          ontology = JObject (jinsert "resources" (JArray (omap id vs)) object)
    end).
  { destruct (new ++ new2) as [|y ys]; [|by injection H as <-].
    res_inv. destruct x; simplify_eq/=. split_and!; [done..|]. eexists. by split. }
  destruct Hres as [Hcs Hres]. split; try done; rewrite ?Hcs.
  - eapply Forall2_impl; [exact HF|]. intros i v (sub & ? & ?). exists sub. split; [set_solver|done].
  - exists new2. split; [set_solver|done].
  - intros x [Hx|Hx]%elem_of_app; [left; auto|right]. by apply (merged_conflicts _ _ _ _ _ _ _ Hm).
Qed.

Lemma resource_values_total ontology :
  validate_ontology ontology = Ok tt -> exists m, resource_values ontology = Ok m.
Proof.
  intros H. unfold resource_values. rewrite H. simpl.
  apply validate_ontology_spec in H as (rs & Hp & _). unfold parse_resources in Hp. res_inv.
  rewrite E1. simpl. clear -Hp.
  assert (exists entries, mapM (fun resource =>
    id ← required_string resource "resource_id" "ontology resource"; Ok (id, resource)) x1 = Ok entries)
    as [entries ->]; [|by eexists].
  revert rs Hp. generalize (∅ : gset string). induction x1 as [|v vs IH]; intros ids rs; simpl; [by eexists|].
  intros H. res_inv. destruct (IH _ _ E0) as [entries He]. unfold parse_resource in E. res_inv.
  match goal with H : required_string v "resource_id" _ = Ok _ |- _ => rewrite H end.
  simpl. setoid_rewrite He. by eexists.
Qed.

Lemma list_subset_nil {A} (l : list A) : (forall x, x ∈ l -> x ∈ []) -> l = [].
Proof.
  destruct l as [|x l]; intros H; [done|]. by destruct (proj1 (elem_of_nil x) (H x ltac:(by left))).
Qed.

Lemma merged_no_conflict i p b l r v sub :
  merged i p b l r v sub -> sub = [] -> three_way all_objects (fun _ => False) p b l r v.
Proof.
  intros [_ H _] ->. revert H. apply three_way_mono. by intros q (x & ?%elem_of_nil & _).
Qed.

(** The resources of the merged ontology follow the merge rules, id by id. *)
Lemma merged_resources_rules base left right res rb rl rr mb ml mr vs md ontology rm :
  wf_value base = true -> wf_value left = true -> wf_value right = true ->
  merge_run base left right res rb rl rr mb ml mr vs md ->
  mr_ontology res = Some ontology -> resource_values ontology = Ok rm ->
  forall id, three_way all_objects (fun _ => False) [] (rb !! id) (rl !! id) (rr !! id) (rm !! id).
Proof.
  intros Hwb Hwl Hwr [Hrb Hrl Hrr _ _ _ HF _ _ Hres] Ho Hrm. rewrite Ho in Hres.
  destruct Hres as (Hc & Hvalid & object & -> & ->). rewrite Hc in HF.
  pose proof (resource_values_wf _ _ Hwb Hrb) as Wb. pose proof (resource_values_wf _ _ Hwl Hrl) as Wl.
  pose proof (resource_values_wf _ _ Hwr Hrr) as Wr.
  set (ids := btree_elements (dom rb ∪ dom rl ∪ dom rr)) in *.
  assert (Hrules : Forall2 (fun i v => three_way all_objects (fun _ => False) []
    (rb !! i) (rl !! i) (rr !! i) v) ids vs).
  { eapply Forall2_impl; [exact HF|]. intros i v (sub & Hsub & Hm).
    by apply (merged_no_conflict _ _ _ _ _ _ _ Hm), list_subset_nil. }
  clear HF. destruct (resource_values_inv _ _ Hrm) as (members & _ & Hmem & Hlook).
  unfold get_array in Hmem. simpl in Hmem. rewrite jget_jinsert, decide_True in Hmem by done.
  injection Hmem as <-.
  assert (Hin : forall i w, rm !! i = Some w <-> exists n, ids !! n = Some i /\ vs !! n = Some (Some w)).
  { intros i w. rewrite Hlook, list_elem_of_omap. split.
    - intros [(x & [n Hn]%list_elem_of_lookup & Hx) Hid]. simpl in Hx. subst x.
      destruct (Forall2_lookup_r _ _ _ _ _ Hrules Hn) as (j & Hj & Hjr).
      exists n. split; [|done]. apply (merged_identity rb rl rr Wl Wr) in Hjr. congruence.
    - intros (n & Hi & Hn). pose proof (Forall2_lookup_lr _ _ _ _ _ _ Hrules Hi Hn) as Hir.
      split; [exists (Some w); split; [by eapply list_elem_of_lookup_2|done]|].
      by apply (merged_identity rb rl rr Wl Wr) in Hir. }
  intros i. destruct (decide (i ∈ ids)) as [[n Hn]%list_elem_of_lookup|Hni].
  - destruct (Forall2_lookup_l _ _ _ _ _ Hrules Hn) as (v & Hv & Hiv).
    assert (rm !! i = v) as ->; [|done]. destruct v as [w|]; [apply Hin; eauto|].
    destruct (rm !! i) as [w|] eqn:E; [|done]. apply Hin in E as (n' & Hn' & Hv').
    pose proof (NoDup_btree_elements (dom rb ∪ dom rl ∪ dom rr)) as Hnd. fold ids in Hnd.
    rewrite (NoDup_lookup _ _ _ _ Hnd Hn Hn') in Hv. congruence.
  - assert (rm !! i = None) as ->.
    { destruct (rm !! i) as [w|] eqn:E; [|done]. apply Hin in E as (n & Hn & _).
      by apply list_elem_of_lookup_2 in Hn. }
    unfold ids in Hni. rewrite elem_of_btree_elements, !not_elem_of_union, !not_elem_of_dom in Hni.
    destruct Hni as [[-> ->] ->]. by apply tw_same.
Qed.

(** ** Properties of the merge *)

(** C34: a merged ontology is valid and honours the three-way contract at every
    path of every resource and of the root metadata: a field only one branch
    changed carries that branch's value, an unchanged or identically changed
    field carries the common value. *)
Theorem merge_ontology_contract base left right res ontology :
  wf_value base = true -> wf_value left = true -> wf_value right = true ->
  merge_ontology base left right = Ok res -> mr_ontology res = Some ontology ->
  validate_ontology ontology = Ok tt /\ mr_conflicts res = [] /\
  (exists rb rl rr rm, resource_values base = Ok rb /\ resource_values left = Ok rl /\
     resource_values right = Ok rr /\ resource_values ontology = Ok rm /\
     forall id q, merge_contract (path_get (rb !! id) q) (path_get (rl !! id) q)
       (path_get (rr !! id) q) (path_get (rm !! id) q)) /\
  (forall key q, key <> "resources" ->
     merge_contract (path_get (get base key) q) (path_get (get left key) q)
       (path_get (get right key) q) (path_get (get ontology key) q)).
Proof.
  intros Hwb Hwl Hwr (rb & rl & rr & mb & ml & mr & vs & md & Hrun)%merge_ontology_run Ho; [|done..].
  pose proof (run_result _ _ _ _ _ _ _ _ _ _ _ _ Hrun) as Hres. rewrite Ho in Hres.
  destruct Hres as (Hc & Hvalid & object & Hmd & Hont).
  destruct (resource_values_total _ Hvalid) as [rm Hrm].
  pose proof (merged_resources_rules _ _ _ _ _ _ _ _ _ _ _ _ _ _ Hwb Hwl Hwr Hrun Ho Hrm) as Hrules.
  split_and!; [done..| |].
  - exists rb, rl, rr, rm. split_and!; [apply Hrun..|done|]. intros i q.
    eapply three_way_contract; [apply Hrules|]. intros; tauto.
  - intros key q Hkey. destruct (run_metadata _ _ _ _ _ _ _ _ _ _ _ _ Hrun) as (sub & Hsub & Hm).
    rewrite Hc in Hsub. apply merged_no_conflict in Hm; [|by apply list_subset_nil].
    pose proof (three_way_contract _ _ _ _ _ _ _ (key :: q) Hm ltac:(intros; tauto)) as Hcon.
    pose proof (run_mb _ _ _ _ _ _ _ _ _ _ _ _ Hrun) as Hmb%root_metadata_spec.
    pose proof (run_ml _ _ _ _ _ _ _ _ _ _ _ _ Hrun) as Hml%root_metadata_spec.
    pose proof (run_mr _ _ _ _ _ _ _ _ _ _ _ _ Hrun) as Hmr%root_metadata_spec.
    destruct Hmb as (_ & _ & Hmb), Hml as (_ & _ & Hml), Hmr as (_ & _ & Hmr).
    subst md ontology. simpl in Hcon. rewrite Hmb, Hml, Hmr, !decide_False in Hcon by done.
    simpl. rewrite jget_jinsert, decide_False by done. exact Hcon.
Qed.

(** The reported conflicts are exactly the divergences: every conflict
    carries the three values at a path where both branches changed the ancestor
    in different ways, and a merge without conflicts has no such path. *)
Theorem merge_ontology_conflicts base left right res :
  wf_value base = true -> wf_value left = true -> wf_value right = true ->
  merge_ontology base left right = Ok res ->
  exists rb rl rr mb ml mr,
    resource_values base = Ok rb /\ resource_values left = Ok rl /\ resource_values right = Ok rr /\
    root_metadata base = Ok mb /\ root_metadata left = Ok ml /\ root_metadata right = Ok mr /\
    (forall x, x ∈ mr_conflicts res ->
      (exists id, conflict_at id [] (rb !! id) (rl !! id) (rr !! id) x) \/
      conflict_at "$ontology" [] (Some mb) (Some ml) (Some mr) x) /\
    (mr_conflicts res = [] <->
      (forall id q, ~ diverge all_objects (path_get (rb !! id) q) (path_get (rl !! id) q)
                      (path_get (rr !! id) q)) /\
      (forall q, ~ diverge all_objects (path_get (Some mb) q) (path_get (Some ml) q)
                   (path_get (Some mr) q))) /\
    (mr_ontology res = None <-> mr_conflicts res <> []).
Proof.
  intros Hwb Hwl Hwr (rb & rl & rr & mb & ml & mr & vs & md & Hrun)%merge_ontology_run; [|done..].
  exists rb, rl, rr, mb, ml, mr. split_and!; try apply Hrun; [split|].
  - intros Hc. destruct Hrun as [_ _ _ _ _ _ HF (sub & Hsub & Hm) _ _]. rewrite Hc in HF, Hsub.
    split.
    + intros i q. destruct (decide (i ∈ btree_elements (dom rb ∪ dom rl ∪ dom rr)))
        as [[n Hn]%list_elem_of_lookup|Hni].
      * destruct (Forall2_lookup_l _ _ _ _ _ HF Hn) as (v & _ & sub' & Hs' & Hm').
        eapply three_way_no_diverge; [eapply merged_no_conflict; [exact Hm'|by apply list_subset_nil]|]. tauto.
      * rewrite elem_of_btree_elements, !not_elem_of_union, !not_elem_of_dom in Hni.
        destruct Hni as [[-> ->] ->]. intros (H & _). done.
    + intros q. eapply three_way_no_diverge; [eapply merged_no_conflict; [exact Hm|by apply list_subset_nil]|]. tauto.
  - intros [H1 H2]. destruct (mr_conflicts res) as [|x xs] eqn:E; [done|].
    destruct (run_conflicts _ _ _ _ _ _ _ _ _ _ _ _ Hrun x) as [(i & q & -> & Hd)|(q & -> & Hd)].
    + rewrite E. by left.
    + by destruct (H1 i q).
    + by destruct (H2 q).
  - pose proof (run_result _ _ _ _ _ _ _ _ _ _ _ _ Hrun) as Hres.
    destruct (mr_ontology res); [|done]. destruct Hres as (-> & _). done.
Qed.

(** ** Diff *)
Definition both_objects (b a : option value) : bool := opt_object b && opt_object a.

(** The documents differ at the path [q], and not further below it. *)
Inductive leaf_difference : option value -> option value -> list string -> Prop :=
  | ld_here b a : ~ b ≡ a -> both_objects b a = false -> leaf_difference b a []
  | ld_key b a k q : both_objects b a = true -> leaf_difference (oget b k) (oget a k) q ->
      leaf_difference b a (k :: q).

Lemma leaf_difference_neq b a q :
  leaf_difference b a q -> ~ path_get b q ≡ path_get a q.
Proof. by induction 1. Qed.

Lemma leaf_difference_not_veq b a q : leaf_difference b a q -> ~ b ≡ a.
Proof. intros H%leaf_difference_neq E. apply H. by rewrite E. Qed.

Lemma Some_veq_inv (v w : value) : Some v ≡ Some w -> v ≡ w.
Proof. by inversion 1. Qed.

(** Documents that differ have a leaf difference. *)
Lemma leaf_difference_exists b a :
  wf_value b = true -> wf_value a = true -> ~ b ≡ a -> exists q, leaf_difference (Some b) (Some a) q.
Proof.
  revert a. induction b as [|b|n|s|items _|m IH] using value_ind'; intros a Hb Ha Hne;
    try (exists []; apply ld_here; [by intros ?%Some_veq_inv|done]).
  destruct a as [| | | | |m']; try (exists []; apply ld_here; [by intros ?%Some_veq_inv|done]).
  assert (Hk : ~ forall k, jget k m ≡ jget k m') by (intros H; apply Hne; by constructor).
  destruct (decide (Forall (fun k => opt_value_eqb (jget k m) (jget k m') = true)
    (m.*1 ++ m'.*1))) as [HF|HF].
  - destruct Hk. intros k. rewrite Forall_forall in HF.
    destruct (decide (k ∈ m.*1 ++ m'.*1)) as [Hin|Hout].
    + apply opt_value_eqb_veq; [by apply wf_opt_jget..|auto].
    + rewrite elem_of_app in Hout. rewrite !(proj2 (jget_None _ _)) by tauto. done.
  - apply not_Forall_Exists in HF; [|intros x; apply _]. apply Exists_exists in HF as (k & _ & Hneq).
    assert (Hkn : ~ jget k m ≡ jget k m').
    { intros E%opt_value_eqb_veq; [done|by apply wf_opt_jget..]. }
    destruct (jget k m) as [v|] eqn:E1, (jget k m') as [v'|] eqn:E2.
    + rewrite Forall_forall in IH. apply wf_object in Hb as [_ Hb], Ha as [_ Ha].
      destruct (IH _ (jget_elem_of _ _ _ E1) v') as [q Hq]; [exact (wf_jget m k v Hb E1)|exact (wf_jget m' k v' Ha E2)| |].
      { intros E. apply Hkn. by constructor. }
      exists (k :: q). apply ld_key; [done|]. simpl. by rewrite E1, E2.
    + exists [k]. apply ld_key; [done|]. simpl. rewrite E1, E2. apply ld_here; [done|apply andb_false_r].
    + exists [k]. apply ld_key; [done|]. simpl. rewrite E1, E2. by apply ld_here.
    + by destruct Hkn.
Qed.

Definition reported (path q : list string) : Prop := path = [] -> head q <> Some "resource_id".

Lemma leaf_difference_scalar b a q :
  both_objects b a = false -> leaf_difference b a q <-> q = [] /\ ~ b ≡ a.
Proof.
  intros Ho. split; [|intros [-> ?]; by apply ld_here].
  destruct 1 as [|b a k q Ho']; [done|congruence].
Qed.

Lemma leaf_difference_object m m' q :
  leaf_difference (Some (JObject m)) (Some (JObject m')) q <->
  exists k q', q = k :: q' /\ leaf_difference (jget k m) (jget k m') q'.
Proof.
  split.
  - intros H. inversion H as [? ? ? Ho|? ? k q' _ Hk]; [done|]. by exists k, q'.
  - intros (k & q' & -> & H). by apply ld_key.
Qed.

Lemma reported_cons path k q :
  reported path (k :: q) <->
  match path with [] => true | _ => false end && String.eqb k "resource_id" = false.
Proof.
  unfold reported. simpl. destruct path; simpl; [|done].
  destruct (String.eqb_spec k "resource_id") as [->|Hne]; split; try done.
  - intros H. by destruct (H eq_refl).
  - intros _ _ [= ?]. done.
Qed.

(** One key of the loop: the recursive call, or a field set or removed. *)
Lemma diff_key_spec rid m m' path k c :
  (forall v w, jget k m = Some v -> jget k m' = Some w -> c ∈ diff_value rid v (path ++ [k]) w <->
    exists q, leaf_difference (Some v) (Some w) q /\ reported (path ++ [k]) q /\
      c = field_change rid ((path ++ [k]) ++ q) (path_get (Some v) q) (path_get (Some w) q)) ->
  is_Some (jget k m) \/ is_Some (jget k m') ->
  c ∈ match jget k m, jget k m' with
      | Some _, Some r => match jget k m with Some b => diff_value rid b (path ++ [k]) r | None => [] end
      | l, r => [field_change rid (path ++ [k]) l r]
      end <->
  exists q, leaf_difference (jget k m) (jget k m') q /\
    c = field_change rid (path ++ k :: q) (path_get (jget k m) q) (path_get (jget k m') q).
Proof.
  intros IH Hsome.
  assert (Hone : forall b a, both_objects b a = false -> ~ b ≡ a ->
    c ∈ [field_change rid (path ++ [k]) b a] <->
    exists q, leaf_difference b a q /\ c = field_change rid (path ++ k :: q) (path_get b q) (path_get a q)).
  { intros b a Ho Hne. rewrite list_elem_of_singleton. setoid_rewrite (leaf_difference_scalar b a _ Ho).
    split; [intros ->; by exists []|by intros (q & [-> _] & ->)]. }
  destruct (jget k m) as [v|], (jget k m') as [w|].
  - rewrite (IH v w eq_refl eq_refl). apply exist_proper. intros q. rewrite <-app_assoc. simpl.
    assert (reported (path ++ [k]) q) by (intros ?; by destruct path). tauto.
  - apply Hone; [apply andb_false_r|by inversion 1].
  - apply Hone; [done|by inversion 1].
  - by destruct Hsome as [[]|[]].
Qed.

(** The changes [diff_value] is to report below [path]. *)
Definition diff_post (rid : string) (path : list string) (before after : value)
    (c : SemanticChange) : Prop :=
  exists q, leaf_difference (Some before) (Some after) q /\ reported path q /\
    c = field_change rid (path ++ q) (path_get (Some before) q) (path_get (Some after) q).

Lemma diff_scalar_spec rid path before after c :
  both_objects (Some before) (Some after) = false -> ~ Some before ≡ Some after ->
  c = field_change rid path (Some before) (Some after) <-> diff_post rid path before after c.
Proof.
  intros Ho Hne. unfold diff_post. setoid_rewrite (leaf_difference_scalar _ _ _ Ho). split.
  - intros ->. exists []. by rewrite app_nil_r.
  - intros (q & [-> _] & _ & ->). by rewrite app_nil_r.
Qed.

Lemma diff_value_step rid path before after c :
  wf_value before = true -> wf_value after = true ->
  (forall m k v w, before = JObject m -> jget k m = Some v -> wf_value w = true ->
    c ∈ diff_value rid v (path ++ [k]) w <-> diff_post rid (path ++ [k]) v w c) ->
  c ∈ diff_value rid before path after <-> diff_post rid path before after c.
Proof.
  intros Hb Ha IH. rewrite diff_value_eq. unfold diff_step.
  destruct (value_eqb before after) eqn:Eq.
  { split; [by intros ?%elem_of_nil|]. intros (q & Hq%leaf_difference_not_veq & _).
    destruct Hq. constructor. by apply value_eqb_veq. }
  assert (Hne : ~ Some before ≡ Some after) by (by apply not_veq).
  destruct (as_object before) as [m|] eqn:Eb, (as_object after) as [m'|] eqn:Ea.
  2-4: rewrite list_elem_of_singleton; apply diff_scalar_spec; [|done];
       destruct before, after; done.
  destruct before as [| | | | |?], after as [| | | | |?]; simplify_eq/=.
  unfold diff_post. setoid_rewrite leaf_difference_object. rewrite list_elem_of_bind. split.
  - intros (k & Hc & (mk & Hmk & Hk)%elem_of_object_keys).
    destruct (match path with [] => true | _ => false end && String.eqb k "resource_id") eqn:Er;
      [by apply elem_of_nil in Hc|].
    apply diff_key_spec in Hc as (q & Hq & ->);
      [|intros v w Hv Hw; apply (IH m k v w eq_refl Hv); apply wf_object in Ha as [_ Ha]; by eapply wf_jget|
       set_solver].
    exists (k :: q). split_and!; [by exists k, q|by apply reported_cons|done].
  - intros (? & (k & q & -> & Hq) & Hrep%reported_cons & ->). exists k.
    assert (Hk : is_Some (jget k m) \/ is_Some (jget k m')).
    { destruct (jget k m); [by left; eexists|]. destruct (jget k m'); [by right; eexists|].
      by apply leaf_difference_not_veq in Hq. }
    rewrite Hrep. split.
    + apply diff_key_spec; [|done|by exists q].
      intros v w Hv Hw. apply (IH m k v w eq_refl Hv). apply wf_object in Ha as [_ Ha]. by eapply wf_jget.
    + apply elem_of_object_keys. destruct Hk; [exists m|exists m']; split; [set_solver|done|set_solver|done].
Qed.

Lemma diff_value_spec rid before path after c :
  wf_value before = true -> wf_value after = true ->
  c ∈ diff_value rid before path after <-> diff_post rid path before after c.
Proof.
  revert path after. induction before as [|b|n|s|items _|m IH] using value_ind';
    intros path after Hb Ha; apply diff_value_step; try done.
  intros m0 k v w [= <-] Hv Hw. rewrite Forall_forall in IH.
  apply (IH _ (jget_elem_of _ _ _ Hv)); [|done]. apply wf_object in Hb as [_ Hb]. exact (wf_jget m k v Hb Hv).
Qed.

(** ** Properties of the diff *)

(** The semantic diff lists exactly the differences of two ontologies: an
    added or removed resource once, and for a resource present in both (and for
    the root metadata) every minimal path at which the documents differ, with
    its values before and after; only the field [resource_id] at the root of a
    document is left out. *)
Theorem semantic_diff_exact base target changes :
  wf_value base = true -> wf_value target = true ->
  semantic_diff base target = Ok changes ->
  exists rb rt mb mt,
    resource_values base = Ok rb /\ resource_values target = Ok rt /\
    root_metadata base = Ok mb /\ root_metadata target = Ok mt /\
    forall c, c ∈ changes <->
      (exists id after, rb !! id = None /\ rt !! id = Some after /\
         c = {| sc_resource_id := id; sc_operation := "add_resource"; sc_path := [];
                sc_before := None; sc_after := Some after |}) \/
      (exists id before, rb !! id = Some before /\ rt !! id = None /\
         c = {| sc_resource_id := id; sc_operation := "remove_resource"; sc_path := [];
                sc_before := Some before; sc_after := None |}) \/
      (exists id before after, rb !! id = Some before /\ rt !! id = Some after /\
         diff_post id [] before after c) \/
      diff_post "$ontology" [] mb mt c.
Proof.
  intros Hwb Hwt H. unfold semantic_diff in H.
  apply bind_Ok_inv in H as (rb & Hrb & H). apply bind_Ok_inv in H as (rt & Hrt & H).
  apply bind_Ok_inv in H as (mb & Hmb & H). apply bind_Ok_inv in H as (mt & Hmt & H).
  injection H as <-. exists rb, rt, mb, mt. split_and!; [done..|].
  pose proof (resource_values_wf _ _ Hwb Hrb) as Wb. pose proof (resource_values_wf _ _ Hwt Hrt) as Wt.
  intros c. rewrite elem_of_app, diff_value_spec, list_elem_of_bind;
    [|by apply (proj2 (root_metadata_spec _ _ Hmb))|by apply (proj2 (root_metadata_spec _ _ Hmt))].
  rewrite !(assoc or). apply or_iff_compat_r. unfold resource_changes. split.
  - intros (i & Hc & Hi).
    destruct (rb !! i) as [b|] eqn:Eb, (rt !! i) as [a|] eqn:Et.
    + right. exists i, b, a. split_and!; [done..|].
      apply diff_value_spec; [by apply (Wb i)|by apply (Wt i)|done].
    + left. right. exists i, b. by apply list_elem_of_singleton in Hc.
    + left. left. exists i, a. by apply list_elem_of_singleton in Hc.
    + by apply elem_of_nil in Hc.
  - assert (Hdom : forall i, is_Some (rb !! i) \/ is_Some (rt !! i) ->
      i ∈ btree_elements (dom rb ∪ dom rt)).
    { intros i. by rewrite elem_of_btree_elements, elem_of_union, !elem_of_dom. }
    intros [[(i & a & Eb & Et & ->)|(i & b & Eb & Et & ->)]|(i & b & a & Eb & Et & Hc)];
      exists i; rewrite Eb, Et; (split; [|by apply Hdom; eauto]).
    + by apply list_elem_of_singleton.
    + by apply list_elem_of_singleton.
    + apply diff_value_spec; [by apply (Wb i)|by apply (Wt i)|done].
Qed.

Definition demo_type (id name : string) (attributes : list (string * value)) : value :=
  JObject [("resource_id", JString id); ("kind", JString "object_type");
           ("display_name", JString name); ("attributes", JObject attributes)].
Definition demo_version (version : string) (resources : list value) : value :=
  JObject [("version", JString version); ("resources", JArray resources)].
Definition demo_base : value := demo_version "1" [demo_type "ship" "Ship" [("note", JString "a")]].
Definition demo_left : value := demo_version "1" [demo_type "ship" "Vessel" [("note", JString "a")]].
Definition demo_right : value :=
  demo_version "2" [demo_type "ship" "Ship" [("note", JString "b")]; demo_type "port" "Port" []].

Lemma semantic_diff_exact_witness :
  exists changes, semantic_diff demo_base demo_left = Ok changes /\ length changes = 1 /\
  exists rb rt mb mt, resource_values demo_base = Ok rb /\ resource_values demo_left = Ok rt /\
    root_metadata demo_base = Ok mb /\ root_metadata demo_left = Ok mt.
Proof.
  destruct (semantic_diff demo_base demo_left) as [changes|e] eqn:E;
    [|vm_compute in E; discriminate E].
  exists changes. split; [reflexivity|].
  split; [vm_compute in E; by injection E as <-|].
  destruct (semantic_diff_exact demo_base demo_left changes eq_refl eq_refl E)
    as (rb & rt & mb & mt & H1 & H2 & H3 & H4 & _).
  exists rb, rt, mb, mt. repeat split; assumption.
Defined.

Lemma merge_ontology_contract_witness :
  exists res ontology, merge_ontology demo_base demo_left demo_right = Ok res /\
    mr_ontology res = Some ontology /\ validate_ontology ontology = Ok tt /\
    get ontology "version" = Some (JString "2").
Proof.
  destruct (merge_ontology demo_base demo_left demo_right) as [res|e] eqn:E;
    [|vm_compute in E; discriminate E].
  destruct (mr_ontology res) as [o|] eqn:Eo;
    [|vm_compute in E; injection E as <-; discriminate Eo].
  destruct (merge_ontology_contract demo_base demo_left demo_right res o eq_refl eq_refl eq_refl E Eo)
    as (Hv & _).
  exists res, o. split_and!; [reflexivity|exact Eo|exact Hv|].
  vm_compute in E. injection E as <-. by injection Eo as <-.
Defined.

Definition demo_rename : value := demo_version "1" [demo_type "ship" "Boat" []].

Lemma merge_ontology_conflicts_witness :
  exists res, merge_ontology demo_base demo_left demo_rename = Ok res /\
    mc_path <$> mr_conflicts res = [["display_name"]] /\ mr_ontology res = None.
Proof.
  destruct (merge_ontology demo_base demo_left demo_rename) as [res|e] eqn:E;
    [|vm_compute in E; discriminate E].
  destruct (merge_ontology_conflicts demo_base demo_left demo_rename res eq_refl eq_refl eq_refl E)
    as (rb & rl & rr & mb & ml & mr & _ & _ & _ & _ & _ & _ & _ & _ & Hnone).
  exists res. split; [reflexivity|].
  assert (Hp : mc_path <$> mr_conflicts res = [["display_name"]])
    by (vm_compute in E; by injection E as <-).
  split; [exact Hp|]. apply Hnone. intros Hc. by rewrite Hc in Hp.
Defined.

(** A root metadata field named [resource_id] is invisible to the diff,
    although the documents differ and the merge does propagate it. *)
Theorem diff_skips_root_resource_id :
  exists base target, semantic_diff base target = Ok [] /\ ~ base ≡ target.
Proof.
  exists (JObject [("version", JString "1"); ("resource_id", JString "a"); ("resources", JArray [])]).
  exists (JObject [("version", JString "1"); ("resource_id", JString "b"); ("resources", JArray [])]).
  split; [vm_compute; reflexivity|]. intros H. apply value_eqb_veq in H; done.
Qed.
