(* ===== verification/Authoring.v ===== *)
(** * Authoring: drafts, block-aware merges and executability (authoring.rs)

    Pipeline definitions are edited as drafts on branches.  A merge works on the
    normalized document, in which the blocks of [sources] and [pipeline] are
    keyed by their identity. *)

From S2P Require Import Prelude Text Json Ontology Pipeline.
From Stdlib Require Import Ascii.

(** ** Code of other crates

    [serde_json::to_vec] and the SHA-256 digest (in hexadecimal). *)
Class Externals := {
  json_to_vec : value -> result string;
  sha256_hex : string -> string;
}.

(** ** Commands and state *)
Inductive MergeChoice : Type := Target | Source.

Inductive AuthoringCommand : Type :=
  | DeleteBranch (branch : string)
  | SaveDraft (branch : string)
  | BindOntology (block_id ontology_id : string)
  | CreateBranch (branch from_branch : string)
  | ProposeMerge (source_branch : string)
  | Merge (proposal_id : string) (resolutions : gmap string MergeChoice)
  | Approve
  | Publish
  | Deploy.

Record Branch : Type := {
  br_parent_branch : option string;
  br_definition : value;
  br_base_definition : value;
  br_base_revision_id : string;
  br_author_id : string;
  br_updated_at_ms : Z;
}.
Record MergeProposal : Type := {
  mp_source_branch : string;
  mp_source_hash : string;
  mp_target_hash : string;
  mp_author_id : string;
  mp_created_at_ms : Z;
}.
Record ContentReview : Type := {
  cr_definition_hash : string;
  cr_author_id : string;
  cr_reviewed_at_ms : Z;
}.
Record PipelineRelease : Type := {
  pr_revision_id : string;
  pr_definition_hash : string;
  pr_author_id : string;
  pr_published_at_ms : Z;
}.
Record AuthoringState : Type := {
  a_enabled : bool;
  a_branches : gmap string Branch;
  a_proposals : gmap string MergeProposal;
  a_approval : option ContentReview;
  a_release : option PipelineRelease;
}.
Definition default_authoring : AuthoringState :=
  {| a_enabled := false; a_branches := ∅; a_proposals := ∅; a_approval := None; a_release := None |}.

Record MergeConflict : Type := {
  mc_path : string;
  mc_base : option value;
  mc_target : option value;
  mc_source : option value;
}.
Record MergePreview : Type := {
  pv_definition : value;
  pv_conflicts : list MergeConflict;
}.
Record DefinitionChange : Type := {
  dc_path : string;
  dc_before : option value;
  dc_after : option value;
}.
Record PipelineDiagnostic : Type := {
  pd_code : string;
  pd_node_id : option string;
  pd_field : option string;
}.

Section authoring.
Context `{Externals}.

Definition definition_hash (definition : value) : result string :=
  bytes ← json_to_vec definition;
  Ok (sha256_hex bytes).

(** ** Drafts *)
Definition DRAFT_KEYS : list string := ["name"; "version"; "sources"; "pipeline"; "editor"].
Definition MAX_DEFINITION_BYTES : N := 1048576.

(** [value.is_some_and(|v| !v.trim().is_empty() && v.len() <= n)] *)
Definition text_within (n : nat) (v : option string) : bool :=
  is_some_and (fun s => negb (trim_is_empty s) && len_le s n) v.
Definition text_present (v : option string) : bool :=
  is_some_and (fun s => negb (trim_is_empty s)) v.

Fixpoint check_nodes (nodes : list value) (key : string) (ids : gset string)
    : result (gset string) :=
  match nodes with
  | [] => Ok ids
  | node :: nodes =>
      id ← with_context "pipeline block identity missing" (get_str node key);
      ensure (valid_branch id && negb (starts_with "__linked_" id) && bool_decide (id ∉ ids))
        "pipeline block identity invalid or duplicate" ;;
      ensure (option_is_none (get node "origin")) "reserved pipeline compiler field" ;;
      check_nodes nodes key ({[id]} ∪ ids)
  end.

Definition validate_draft (definition : value) : result unit :=
  object ← with_context "pipeline draft not object" (as_object definition);
  ensure (forallb (fun kv => str_in kv.1 DRAFT_KEYS) object) "pipeline service settings forbidden" ;;
  ensure (text_within 256 (jget "name" object ≫= as_str)) "pipeline name required" ;;
  sources ← with_context "pipeline sources missing" (jget "sources" object ≫= as_array);
  steps ← with_context "pipeline steps missing" (jget "pipeline" object ≫= as_array);
  ensure (Nat.leb (length sources + length steps) 256) "pipeline block limit exceeded" ;;
  bytes ← json_to_vec definition;
  ensure (N.of_nat (String.length bytes) <=? MAX_DEFINITION_BYTES)%N
    "pipeline document limit exceeded" ;;
  ids ← check_nodes sources "id" ∅;
  check_nodes steps "step" ids ;;
  Ok tt.

(** ** Normalization: blocks keyed by identity *)
Fixpoint index_nodes (nodes : list value) (key : string) (indexed : list (string * value))
    : result (list (string * value)) :=
  match nodes with
  | [] => Ok indexed
  | node :: nodes =>
      id ← with_context "pipeline block identity missing" (get_str node key);
      ensure (negb (jcontains id indexed)) "duplicate pipeline block" ;;
      index_nodes nodes key (jinsert id node indexed)
  end.

Definition normalize_collection (object : list (string * value)) (collection key : string)
    : result (list (string * value)) :=
  nodes ← with_context "pipeline collection missing" (jget collection object ≫= as_array);
  indexed ← index_nodes nodes key [];
  Ok (jinsert collection (JObject indexed) object).

Definition normalize (definition : value) : result value :=
  object ← with_context "pipeline definition not object" (as_object definition);
  object ← normalize_collection object "sources" "id";
  object ← normalize_collection object "pipeline" "step";
  Ok (JObject object).

(** A JSON pointer token: [~] and [/] are escaped. *)
Definition escape (key : string) : string :=
  replace_byte "/"%char "~1" (replace_byte "~"%char "~0" key).
Definition pointer (path key : string) : string := path +:+ "/" +:+ escape key.

(** ** Three-way merge *)
Definition union_keys (objects : list (list (string * value))) : list string :=
  btree_elements (btree_set (concat ((fun m => m.*1) <$> objects))).

(** The loop over the keys; [child key] is the recursive call. *)
Fixpoint merge_keys
    (child : string -> list MergeConflict -> result (option value * list MergeConflict))
    (keys : list string) (merged : list (string * value)) (conflicts : list MergeConflict)
    : result (list (string * value) * list MergeConflict) :=
  match keys with
  | [] => Ok (merged, conflicts)
  | key :: keys =>
      '(v, conflicts) ← child key conflicts;
      merge_keys child keys
        match v with Some v => jinsert key v merged | None => merged end conflicts
  end.

(** The depth of the recursion is bounded: [fuel] is [33 - depth], and the
    check [depth <= 32] fails when it reaches zero. *)
Fixpoint merge_value (fuel : nat) (path : string) (base target source : option value)
    (resolutions : gmap string MergeChoice) (conflicts : list MergeConflict)
    : result (option value * list MergeConflict) :=
  match fuel with
  | 0 => Err (Msg "pipeline merge depth exceeded")
  | S fuel =>
      if opt_value_eqb target source || opt_value_eqb source base then Ok (target, conflicts)
      else if opt_value_eqb target base then Ok (source, conflicts)
      else match target, source, is_none_or is_object base with
      | Some (JObject l), Some (JObject r), true =>
          let ancestor := base ≫= as_object in
          '(merged, conflicts) ← merge_keys (fun key conflicts =>
              merge_value fuel (pointer path key) (ancestor ≫= jget key) (jget key l) (jget key r)
                resolutions conflicts)
            (union_keys (l :: r :: option_list ancestor)) [] conflicts;
          Ok (Some (JObject merged), conflicts)
      | _, _, _ =>
          match resolutions !! path with
          | Some Target => Ok (target, conflicts)
          | Some Source => Ok (source, conflicts)
          | None =>
              Ok (target, conflicts ++ [{| mc_path := path; mc_base := base; mc_target := target;
                                           mc_source := source |}])
          end
      end
  end.
Definition MERGE_FUEL : nat := 33.

Definition list_collection (object : list (string * value)) (key : string)
    : result (list (string * value)) :=
  indexed ← with_context "pipeline merge collection missing" (jget key object ≫= as_object);
  Ok (jinsert key (JArray indexed.*2) object).

Definition merge_definitions (base target source : value)
    (resolutions : gmap string MergeChoice) : result MergePreview :=
  base ← normalize base;
  target ← normalize target;
  source ← normalize source;
  ensure (Nat.leb (size resolutions) 256) "pipeline resolution limit exceeded" ;;
  '(merged, conflicts) ←
    merge_value MERGE_FUEL "" (Some base) (Some target) (Some source) resolutions [];
  definition ← with_context "pipeline merge removed definition" merged;
  object ← with_context "pipeline merge not object" (as_object definition);
  object ← list_collection object "sources";
  object ← list_collection object "pipeline";
  Ok {| pv_definition := JObject object; pv_conflicts := conflicts |}.

(** ** Executable definitions *)
Definition scheduled (step : value) : bool :=
  opt_str_in (pointer_str ["params"; "trigger"] step) ["cron"; "on_demand"].

Definition SOURCE_FIELDS : list string := ["topic"; "match_pattern"; "schema_path"].

Definition check_source (source : value) : result unit :=
  ensure (negb (opt_str_eqb (get_str source "capability_id") "utils.input.email") ||
          is_some_and valid_mailbox (get_str source "account_id"))
    "email receiving account required" ;;
  for_each (fun field => ensure (text_present (get_str source field))
    ("pipeline source field missing: " +:+ field)) SOURCE_FIELDS.

Definition check_reply (step : value) : result unit :=
  if opt_str_eqb (get_str step "capability_id") "utils.output.reply" then
    ensure (is_some_and (fun v => String.eqb v "source" || valid_mailbox v)
      (pointer_str ["params"; "sender_account_id"] step)) "email sending account required" ;;
    ensure (opt_str_in (pointer_str ["params"; "delivery_mode"] step)
      ["automatic"; "approval"; "draft"]) "email delivery mode required"
  else Ok tt.

Definition check_condition (condition : value) : result unit :=
  ensure (opt_str_in (get_str condition "field")
    ["sender"; "recipient"; "subject"; "body"; "account"]) "pipeline condition field invalid" ;;
  ensure (opt_str_in (get_str condition "operator")
    ["equals"; "contains"; "starts_with"; "not_equals"]) "pipeline condition operator invalid" ;;
  ensure (text_within 2048 (get_str condition "value")) "pipeline condition value invalid".

Definition uses_conditions (kind : string) (step : value) : bool :=
  String.eqb kind "filter" || opt_str_eqb (get_str step "routing") "conditions".
Definition is_union (kind : string) (step : value) : bool :=
  String.eqb kind "forward" && opt_str_eqb (pointer_str ["params"; "merge"] step) "union".

Definition check_step (step : value) : result unit :=
  check_reply step ;;
  kind ← with_context "pipeline type missing" (get_str step "type");
  inputs ← with_context "pipeline input missing" (get_array step "input_from");
  ensure (negb (opt_str_eqb (pointer_str ["params"; "trigger"] step) "cron") ||
          text_present (pointer_str ["params"; "cron"] step))
    "scheduled pipeline requires a cron expression" ;;
  ensure (if scheduled step then Nat.eqb (length inputs) 0
          else negb (Nat.eqb (length inputs) 0) &&
               (Nat.eqb (length inputs) 1 || is_union kind step))
    "pipeline input cardinality invalid" ;;
  if uses_conditions kind step then
    conditions ← with_context "pipeline conditions missing"
      (pointer_get ["params"; "conditions"] step ≫= as_array);
    ensure (negb (Nat.eqb (length conditions) 0) && Nat.leb (length conditions) 16)
      "pipeline condition count invalid" ;;
    for_each check_condition conditions
  else Ok tt.

Definition validate_executable (definition : value) : result unit :=
  validate_draft definition ;;
  validate_pipeline_structure definition ;;
  sources ← with_context "pipeline sources missing" (get_array definition "sources");
  for_each check_source sources ;;
  steps ← with_context "pipeline steps missing" (get_array definition "pipeline");
  ensure (negb (Nat.eqb (length sources) 0) || existsb scheduled steps)
    "pipeline source or schedule required" ;;
  for_each check_step steps.

(** ** Comparison *)
Fixpoint collect_keys (child : string -> list DefinitionChange -> result (list DefinitionChange))
    (keys : list string) (changes : list DefinitionChange) : result (list DefinitionChange) :=
  match keys with
  | [] => Ok changes
  | key :: keys => changes ← child key changes; collect_keys child keys changes
  end.

Fixpoint collect_changes (fuel : nat) (path : string) (before after : option value)
    (changes : list DefinitionChange) : result (list DefinitionChange) :=
  match fuel with
  | 0 => Err (Msg "pipeline comparison depth exceeded")
  | S fuel =>
      if opt_value_eqb before after then Ok changes
      else match before, after with
      | Some (JObject l), Some (JObject r) =>
          collect_keys (fun key => collect_changes fuel (pointer path key) (jget key l) (jget key r))
            (union_keys [l; r]) changes
      | _, _ => Ok (changes ++ [{| dc_path := path; dc_before := before; dc_after := after |}])
      end
  end.

Definition compare_definitions (before after : value) : result (list DefinitionChange) :=
  before ← normalize before;
  after ← normalize after;
  collect_changes MERGE_FUEL "" (Some before) (Some after) [].

(** ** Diagnostics *)
Definition diagnostic (code : string) (node field : option string) : PipelineDiagnostic :=
  {| pd_code := code; pd_node_id := node; pd_field := field |}.
Definition add_if (b : bool) (code : string) (node field : option string)
    : list PipelineDiagnostic := if b then [diagnostic code node field] else [].

Definition diagnose_source (source : value) : list PipelineDiagnostic :=
  SOURCE_FIELDS ≫= fun field =>
    add_if (negb (text_present (get_str source field))) "field" (get_str source "id") (Some field).

Definition known_nodes (sources steps : list value) : gset string :=
  btree_set (omap (fun s => get_str s "id") sources ++ omap (fun s => get_str s "step") steps).

Definition null_or_absent (v : option value) : bool := is_none_or is_null v.

Definition diagnose_step (known : gset string) (step : value) : list PipelineDiagnostic :=
  let id := get_str step "step" in
  let kind := default EmptyString (get_str step "type") in
  let inputs := get_array step "input_from" in
  add_if (negb (scheduled step) && is_none_or (fun l => Nat.eqb (length l) 0) inputs)
    "input" id (Some "input_from") ++
  add_if (scheduled step && is_some_and (fun l => negb (Nat.eqb (length l) 0)) inputs)
    "connection" id (Some "input_from") ++
  add_if (opt_str_eqb (pointer_str ["params"; "trigger"] step) "cron" &&
          is_none_or trim_is_empty (pointer_str ["params"; "cron"] step)) "field" id (Some "cron") ++
  add_if (is_some_and (existsb (fun input =>
            is_none_or (fun i => negb (bool_decide (i ∈ known))) (as_str input))) inputs)
    "connection" id (Some "input_from") ++
  add_if (is_some_and (fun l => Nat.ltb 1 (length l)) inputs && negb (is_union kind step))
    "join" id (Some "input_from") ++
  add_if (String.eqb kind "inference" && null_or_absent (get step "model") &&
          null_or_absent (get step "capability_id")) "model" id (Some "model") ++
  add_if (String.eqb kind "pipeline" && null_or_absent (get step "pipeline_ref"))
    "reference" id (Some "pipeline_ref") ++
  add_if (uses_conditions kind step &&
          negb (is_some_and (fun rules => negb (Nat.eqb (length rules) 0) &&
                  forallb (fun rule => text_present (get_str rule "value")) rules)
                (pointer_get ["params"; "conditions"] step ≫= as_array)))
    "field" id (Some "conditions").

Definition diagnose_definition (definition : value) : result (list PipelineDiagnostic) :=
  validate_draft definition ;;
  sources ← with_context "pipeline sources missing" (get_array definition "sources");
  steps ← with_context "pipeline steps missing" (get_array definition "pipeline");
  Ok (add_if (Nat.eqb (length sources) 0 && negb (existsb scheduled steps)) "source" None None ++
      (sources ≫= diagnose_source) ++ (steps ≫= diagnose_step (known_nodes sources steps))).
End authoring.
