(* ===== verification/AuthoringFacts.v ===== *)
(** * AuthoringFacts: correctness of drafts, merges and comparisons

    Conflict paths are JSON pointers; they identify paths of keys.  The merge
    honours the three-way contract away from conflicts and explicit choices. *)

From S2P Require Import Prelude Text Json Graph Ontology OntologyFacts ThreeWay MergeFacts.
From S2P Require Import Pipeline PipelineFacts Authoring.
From Stdlib Require Import Ascii.

(** ** JSON pointers identify key paths *)
Definition pointer_path (path : string) (keys : list string) : string := foldl pointer path keys.

(** The inverse of [escape]. *)
Fixpoint unescape (s : string) : string :=
  match s with
  | EmptyString => EmptyString
  | String c s =>
      match s with
      | String d s' =>
          if Ascii.eqb c "~"%char then
            String (if Ascii.eqb d "0"%char then "~"%char else "/"%char) (unescape s')
          else String c (unescape s)
      | EmptyString => String c EmptyString
      end
  end.

Definition escape_byte (c : ascii) : string :=
  if Ascii.eqb c "~"%char then "~0" else if Ascii.eqb c "/"%char then "~1" else String c "".

Lemma escape_cons c s : escape (String c s) = escape_byte c +:+ escape s.
Proof.
  unfold escape, escape_byte. simpl.
  destruct (Ascii.eqb_spec c "~"%char) as [->|Ht]; [done|]. simpl.
  by destruct (Ascii.eqb_spec c "/"%char).
Qed.

Lemma unescape_escape s : unescape (escape s) = s.
Proof.
  induction s as [|c s IH]; [done|]. rewrite escape_cons. unfold escape_byte.
  destruct (Ascii.eqb_spec c "~"%char) as [->|Ht].
  { transitivity (String "~" (unescape (escape s))); [done|by rewrite IH]. }
  destruct (Ascii.eqb_spec c "/"%char) as [->|Hs].
  { transitivity (String "/" (unescape (escape s))); [done|by rewrite IH]. }
  transitivity (String c (unescape (escape s))); [|by rewrite IH].
  change (String c "" +:+ escape s) with (String c (escape s)).
  generalize (escape s) as e. intros [|d e]; [done|]. simpl.
  by destruct (Ascii.eqb_spec c "~"%char).
Qed.

Lemma escape_no_slash s : bytes_all (fun c => negb (Ascii.eqb c "/"%char)) (escape s) = true.
Proof.
  induction s as [|c s IH]; [done|]. rewrite escape_cons, bytes_all_app, IH, andb_true_r.
  unfold escape_byte. destruct (Ascii.eqb_spec c "~"%char); [done|].
  destruct (Ascii.eqb_spec c "/"%char); [done|]. simpl. by destruct (Ascii.eqb_spec c "/"%char).
Qed.

Lemma escape_inj s t : escape s = escape t -> s = t.
Proof. intros E. by rewrite <-(unescape_escape s), E, unescape_escape. Qed.

Fixpoint pointer_tail (keys : list string) : string :=
  match keys with
  | [] => ""
  | key :: keys => String "/" (escape key +:+ pointer_tail keys)
  end.

Lemma pointer_path_tail path keys : pointer_path path keys = path +:+ pointer_tail keys.
Proof.
  unfold pointer_path. revert path. induction keys as [|k keys IH]; intros path; simpl.
  - by rewrite string_app_nil_r.
  - rewrite IH. unfold pointer. by rewrite !string_app_assoc.
Qed.

Lemma pointer_tail_inj keys keys' : pointer_tail keys = pointer_tail keys' -> keys = keys'.
Proof.
  revert keys'. induction keys as [|k keys IH]; intros [|k' keys']; simpl; try done.
  intros [= E]. pose proof (escape_no_slash k) as Hk. pose proof (escape_no_slash k') as Hk'.
  destruct keys as [|k2 keys], keys' as [|k2' keys']; simpl in E.
  - rewrite !string_app_nil_r in E. by apply escape_inj in E as ->.
  - rewrite string_app_nil_r in E. rewrite E, bytes_all_app in Hk. simpl in Hk.
    by rewrite andb_false_r in Hk.
  - rewrite string_app_nil_r in E. rewrite <-E, bytes_all_app in Hk'. simpl in Hk'.
    by rewrite andb_false_r in Hk'.
  - apply (split_at_separator (fun c => negb (Ascii.eqb c "/"%char))) in E as [->%escape_inj E]; [|done..].
    f_equal. apply IH. simpl. by rewrite E.
Qed.

Lemma pointer_path_inj path keys keys' :
  pointer_path path keys = pointer_path path keys' -> keys = keys'.
Proof. rewrite !pointer_path_tail. intros E%(inj (String.append path)). by apply pointer_tail_inj. Qed.

(** The JSON pointers under which merges and comparisons report differences
    identify the path of keys: distinct key paths have distinct pointers, also
    when keys contain [~] or [/], and unescaping a token recovers the key. *)
Theorem pointer_faithful keys keys' path key :
  (pointer_path path keys = pointer_path path keys' -> keys = keys') /\
  unescape (escape key) = key.
Proof. split; [apply pointer_path_inj|apply unescape_escape]. Qed.

(** ** The merge of normalized definitions *)
Lemma pointer_snoc p k : pointer (pointer_path "" p) k = pointer_path "" (p ++ [k]).
Proof. unfold pointer_path. by rewrite foldl_app. Qed.

Lemma elem_of_union_keys objects k :
  k ∈ union_keys objects <-> exists m, m ∈ objects /\ is_Some (jget k m).
Proof. apply elem_of_object_keys. Qed.

Definition block_objects (b l r : option value) : bool :=
  is_none_or is_object b && opt_object l && opt_object r.

(** The paths at which a side was chosen: reported or resolved conflicts. *)
Definition decided (resolutions : gmap string MergeChoice) (new : list MergeConflict)
    (q : list string) : Prop :=
  is_Some (resolutions !! pointer_path "" q) \/
  exists x, x ∈ new /\ mc_path x = pointer_path "" q.

(** A reported conflict: an unresolved divergence below [p]. *)
Definition unresolved (resolutions : gmap string MergeChoice) (p : list string)
    (b l r : option value) (x : MergeConflict) : Prop :=
  exists q, x = {| mc_path := pointer_path "" (p ++ q); mc_base := path_get b q;
                   mc_target := path_get l q; mc_source := path_get r q |} /\
    resolutions !! pointer_path "" (p ++ q) = None /\
    diverge block_objects (path_get b q) (path_get l q) (path_get r q).

Record block_merged (resolutions : gmap string MergeChoice) (p : list string)
    (b l r v : option value) (new : list MergeConflict) : Prop := {
  bm_wf : wf_opt v = true;
  bm_rules : three_way block_objects (decided resolutions new) p b l r v;
  bm_conflicts : forall x, x ∈ new -> unresolved resolutions p b l r x;
}.

Lemma merge_keys_Ok child keys (Q : string -> option value -> list MergeConflict -> Prop)
    merged conflicts merged' conflicts' :
  NoDup keys -> NoDup merged.*1 -> (forall k, k ∈ keys -> jget k merged = None) ->
  (forall k c v c', k ∈ keys -> child k c = Ok (v, c') -> exists new, c' = c ++ new /\ Q k v new) ->
  merge_keys child keys merged conflicts = Ok (merged', conflicts') ->
  NoDup merged'.*1 /\ exists new, conflicts' = conflicts ++ new /\
    (forall k, k ∉ keys -> jget k merged' = jget k merged) /\
    (forall k, k ∈ keys -> exists sub, (forall x, x ∈ sub -> x ∈ new) /\ Q k (jget k merged') sub) /\
    (forall x, x ∈ new -> exists k v sub, k ∈ keys /\ x ∈ sub /\ Q k v sub).
Proof.
  intros Hnd. revert merged conflicts.
  induction Hnd as [|k keys Hk Hnd IH]; intros merged conflicts Hm Hfresh Hchild; simpl.
  { intros [= <- <-]. split; [done|]. exists []. rewrite app_nil_r.
    split_and!; [done|done|by intros ? ?%elem_of_nil|by intros ? ?%elem_of_nil]. }
  intros ([v c1] & Ec & Hrun)%bind_Ok_inv.
  destruct (Hchild k conflicts v c1 ltac:(by left) Ec) as (new1 & -> & HQ).
  assert (Hget : forall k', jget k' match v with Some v => jinsert k v merged | None => merged end =
    if decide (k = k') then v else jget k' merged).
  { intros k'. destruct v as [v|]; [apply jget_jinsert|].
    case_decide; [subst; apply Hfresh; by left|done]. }
  apply IH in Hrun as (Hm' & new2 & -> & Hout & Hin & Hsrc).
  - split; [done|]. exists (new1 ++ new2). rewrite (assoc_L (++)). split_and!; [done|..].
    + intros k' [Hne Hk']%not_elem_of_cons. rewrite Hout, Hget by done. by rewrite decide_False.
    + intros k' [->|Hk']%elem_of_cons.
      * exists new1. rewrite Hout, Hget, decide_True by done. split; [set_solver|done].
      * destruct (Hin k' Hk') as (sub & Hsub & HQ'). exists sub. split; [set_solver|done].
    + intros x [Hx|Hx]%elem_of_app; [exists k, v, new1; split_and!; [by left|done..]|].
      destruct (Hsrc x Hx) as (k' & v' & sub & ? & ? & ?). exists k', v', sub. split_and!; [by right|done..].
  - destruct v; [by apply NoDup_jinsert|done].
  - intros k' Hk'. rewrite Hget, decide_False by (by intros ->). apply Hfresh. by right.
  - intros k' c v' c' Hk'. apply Hchild. by right.
Qed.

Section merge.
Context (resolutions : gmap string MergeChoice).

Lemma decided_mono new new' q :
  (forall x, x ∈ new -> x ∈ new') -> decided resolutions new q -> decided resolutions new' q.
Proof. intros H [?|(x & ? & ?)]; [by left|right; eauto]. Qed.

Lemma block_objects_spec fuel p b lo ro c merged' c' :
  wf_opt b = true -> wf_value (JObject lo) = true -> wf_value (JObject ro) = true ->
  is_none_or is_object b = true ->
  diverge (fun _ _ _ => false) b (Some (JObject lo)) (Some (JObject ro)) ->
  (forall k b l r c v c', wf_opt b = true -> wf_opt l = true -> wf_opt r = true ->
    merge_value fuel (pointer_path "" (p ++ [k])) b l r resolutions c = Ok (v, c') ->
    exists new, c' = c ++ new /\ block_merged resolutions (p ++ [k]) b l r v new) ->
  merge_keys (fun key conflicts => merge_value fuel (pointer (pointer_path "" p) key)
      ((b ≫= as_object) ≫= jget key) (jget key lo) (jget key ro) resolutions conflicts)
    (union_keys (lo :: ro :: option_list (b ≫= as_object))) [] c = Ok (merged', c') ->
  exists new, c' = c ++ new /\ block_merged resolutions p b (Some (JObject lo)) (Some (JObject ro))
    (Some (JObject merged')) new.
Proof.
  intros Hb Hl Hr Hob (D1 & D2 & D3 & _) IH Hrun.
  assert (Hanc : forall k, (b ≫= as_object) ≫= jget k = oget b k) by (by destruct b as [[]|]).
  apply (merge_keys_Ok _ _ (fun k v new => block_merged resolutions (p ++ [k]) (oget b k)
    (jget k lo) (jget k ro) v new)) in Hrun as (Hnd & new & -> & Hout & Hin & Hsrc).
  - exists new. split; [done|].
    assert (Hkey : forall k, three_way block_objects (decided resolutions new) (p ++ [k]) (oget b k)
      (jget k lo) (jget k ro) (jget k merged') /\ wf_opt (jget k merged') = true).
    { intros k. destruct (decide (k ∈ union_keys (lo :: ro :: option_list (b ≫= as_object)))) as [Hk|Hk].
      - destruct (Hin k Hk) as (sub & Hsub & [Hwf Hrules _]). split; [|done].
        revert Hrules. apply three_way_mono. intros q. by apply decided_mono.
      - rewrite (Hout k Hk). simpl. split; [|done].
        assert (Hn : forall m, m ∈ lo :: ro :: option_list (b ≫= as_object) -> jget k m = None).
        { intros m Hm. destruct (jget k m) eqn:E; [|done]. destruct Hk.
          apply elem_of_union_keys. exists m. eauto. }
        rewrite (Hn lo), (Hn ro) by set_solver. by apply tw_same. }
    split.
    + apply wf_object. split; [done|]. apply Forall_forall. intros [k v] Hkv.
      apply elem_of_jget in Hkv; [|done]. destruct (Hkey k) as [_ Hwf]. by rewrite Hkv in Hwf.
    + apply tw_object; [unfold block_objects; by rewrite Hob|done..|]. intros k. apply Hkey.
    + intros x Hx. destruct (Hsrc x Hx) as (k & v & sub & Hk & Hxs & [_ _ Hc]).
      destruct (Hc x Hxs) as (q & -> & Hd). exists (k :: q). by rewrite <-app_assoc in *.
  - apply NoDup_btree_elements.
  - constructor.
  - done.
  - intros k c0 v c0' Hk. rewrite Hanc, pointer_snoc. apply IH; [by apply wf_oget|by apply wf_opt_jget..].
Qed.

Lemma block_plain p b l r v :
  wf_opt v = true -> three_way block_objects (decided resolutions []) p b l r v ->
  block_merged resolutions p b l r v [].
Proof. intros. by split; [..|intros x ?%elem_of_nil]. Qed.

(** A divergence is settled by a recorded choice, or reported. *)
Lemma block_choice p b l r c v c' :
  wf_opt l = true -> wf_opt r = true -> diverge block_objects b l r ->
  match resolutions !! pointer_path "" p with
  | Some Target => Ok (l, c)
  | Some Source => Ok (r, c)
  | None => Ok (l, c ++ [{| mc_path := pointer_path "" p; mc_base := b; mc_target := l; mc_source := r |}])
  end = Ok (v, c') ->
  exists new, c' = c ++ new /\ block_merged resolutions p b l r v new.
Proof.
  intros Hl Hr Hd. destruct (resolutions !! pointer_path "" p) as [[|]|] eqn:E; intros [= <- <-].
  - exists []. rewrite app_nil_r. split; [done|]. apply block_plain; [done|].
    apply tw_conflict; [left; by eexists|by left].
  - exists []. rewrite app_nil_r. split; [done|]. apply block_plain; [done|].
    apply tw_conflict; [left; by eexists|by right].
  - eexists. split; [reflexivity|]. split; [done| |].
    + apply tw_conflict; [|by left]. right. eexists. by rewrite list_elem_of_singleton.
    + intros x ->%list_elem_of_singleton. exists []. by rewrite app_nil_r.
Qed.

Lemma merge_value_Ok fuel p b l r c v c' :
  wf_opt b = true -> wf_opt l = true -> wf_opt r = true ->
  merge_value fuel (pointer_path "" p) b l r resolutions c = Ok (v, c') ->
  exists new, c' = c ++ new /\ block_merged resolutions p b l r v new.
Proof.
  revert p b l r c v c'. induction fuel as [|fuel IH]; intros p b l r c v c' Hb Hl Hr; [done|]. simpl.
  destruct (opt_value_eqb l r) eqn:E1; simpl.
  { intros [= <- <-]. exists []. rewrite app_nil_r. split; [done|]. apply block_plain; [done|].
    apply tw_same. by apply opt_value_eqb_veq. }
  destruct (opt_value_eqb r b) eqn:E2.
  { intros [= <- <-]. exists []. rewrite app_nil_r. split; [done|]. apply block_plain; [done|].
    apply tw_left. by apply opt_value_eqb_veq. }
  destruct (opt_value_eqb l b) eqn:E3.
  { intros [= <- <-]. exists []. rewrite app_nil_r. split; [done|]. apply block_plain; [done|].
    apply tw_right. by apply opt_value_eqb_veq. }
  apply not_veq in E1, E2, E3; [|done..].
  destruct (block_objects b l r) eqn:Eo.
  - unfold block_objects in Eo. apply andb_true_iff in Eo as [[Hob Hol]%andb_true_iff Hor].
    destruct l as [[| | | | |lo]|], r as [[| | | | |ro]|]; try done. rewrite Hob.
    intros ([mg c1] & Hrun & [= <- <-])%bind_Ok_inv.
    apply (block_objects_spec fuel p b lo ro c mg c1); try done. intros k. apply IH.
  - assert (Hd : diverge block_objects b l r) by done. unfold block_objects in Eo.
    destruct l as [[| | | | |lo]|], r as [[| | | | |ro]|];
      try (by apply block_choice). simpl in Eo. rewrite !andb_true_r in Eo. rewrite Eo.
    by apply block_choice.
Qed.
End merge.

(** ** Normalization *)
Lemma jinsert_fresh k v m : jget k m = None -> jinsert k v m = m ++ [(k, v)].
Proof.
  induction m as [|[k' w] m IH]; simpl; [done|]. destruct (String.eqb k' k); [done|].
  intros E. by rewrite IH.
Qed.

Lemma jinsert_same k v m : jget k m = Some v -> jinsert k v m = m.
Proof.
  induction m as [|[k' w] m IH]; simpl; [done|]. destruct (String.eqb_spec k' k) as [->|?].
  - by intros [= ->].
  - intros E. by rewrite IH.
Qed.

Lemma jinsert_twice k v w m : jinsert k v (jinsert k w m) = jinsert k v m.
Proof.
  induction m as [|[k' x] m IH]; simpl; [by rewrite String.eqb_refl|].
  destruct (String.eqb k' k) eqn:E; simpl; rewrite E; [done|]. by rewrite IH.
Qed.

Lemma jinsert_comm a x b y m :
  a <> b -> is_Some (jget a m) -> jinsert a x (jinsert b y m) = jinsert b y (jinsert a x m).
Proof.
  intros Hne. induction m as [|[k w] m IH]; simpl; [by intros []|].
  destruct (String.eqb_spec k a) as [Ha|Ha], (String.eqb_spec k b) as [Hb|Hb]; simpl;
    [congruence|..]; intros H; destruct (String.eqb_spec k a), (String.eqb_spec k b); try done.
  by rewrite IH.
Qed.

(** Blocks stored under their own identity. *)
Definition keyed (key : string) (m : list (string * value)) : Prop :=
  Forall (fun e => get_str e.2 key = Some e.1) m.

Lemma index_nodes_spec nodes key acc idx :
  NoDup acc.*1 -> index_nodes nodes key acc = Ok idx ->
  exists entries, idx = acc ++ entries /\ entries.*2 = nodes /\ keyed key entries /\ NoDup idx.*1.
Proof.
  revert acc. induction nodes as [|node nodes IH]; intros acc Hacc; simpl.
  - intros [= <-]. exists []. rewrite app_nil_r. split_and!; [done..|constructor|done].
  - intros H. res_inv. bool_inv. unfold jcontains in *.
    destruct (jget x acc) eqn:Ex; [done|]. rewrite jinsert_fresh in H by done.
    apply IH in H as (entries & -> & <- & Hk & Hnd).
    + exists ((x, node) :: entries). rewrite <-(assoc_L (++)) in *. split_and!; [done..|by constructor|done].
    + rewrite fmap_app. apply NoDup_app. simpl. split_and!; [done| |apply NoDup_singleton].
      intros k Hk ->%list_elem_of_singleton. by apply jget_None in Ex.
Qed.

Lemma index_nodes_keyed key m acc :
  keyed key m -> NoDup (acc ++ m).*1 -> index_nodes m.*2 key acc = Ok (acc ++ m).
Proof.
  revert acc. induction m as [|[k v] m IH]; intros acc Hk Hnd; simpl; [by rewrite app_nil_r|].
  apply Forall_cons in Hk as [Hid Hk]. simpl in Hid. rewrite Hid. simpl.
  assert (Hfresh : jget k acc = None).
  { apply jget_None. rewrite fmap_app in Hnd. apply NoDup_app in Hnd as (_ & Hd & _).
    intros Hin. apply (Hd k Hin). by left. }
  unfold jcontains. rewrite Hfresh. simpl. rewrite jinsert_fresh by done.
  rewrite IH; [by rewrite <-(assoc_L (++))|done|by rewrite <-(assoc_L (++))].
Qed.

Lemma normalize_collection_Ok object collection key object' :
  normalize_collection object collection key = Ok object' <->
  exists blocks, jget collection object = Some (JArray blocks.*2) /\ keyed key blocks /\
    NoDup blocks.*1 /\ object' = jinsert collection (JObject blocks) object.
Proof.
  unfold normalize_collection. split.
  - intros (nodes & Hn%context_Ok_inv & (idx & Hidx & [= <-])%bind_Ok_inv)%bind_Ok_inv.
    apply index_nodes_spec in Hidx as (blocks & -> & <- & Hk & Hnd); [|constructor].
    exists blocks. split_and!; try done. destruct (jget collection object) as [[]|]; by simplify_eq/=.
  - intros (blocks & -> & Hk & Hnd & ->). simpl. by rewrite index_nodes_keyed.
Qed.

(** A normalized document: the original with its two collections indexed. *)
Definition normal_form (object sources steps : list (string * value)) : list (string * value) :=
  jinsert "pipeline" (JObject steps) (jinsert "sources" (JObject sources) object).

Lemma normalize_Ok definition n :
  normalize definition = Ok n <->
  exists object sources steps, definition = JObject object /\
    jget "sources" object = Some (JArray sources.*2) /\ jget "pipeline" object = Some (JArray steps.*2) /\
    keyed "id" sources /\ keyed "step" steps /\ NoDup sources.*1 /\ NoDup steps.*1 /\
    n = JObject (normal_form object sources steps).
Proof.
  unfold normalize, normal_form. split.
  - intros (object & Ho%context_Ok_inv & (o1 & H1 & (o2 & H2 & [= <-])%bind_Ok_inv)%bind_Ok_inv)%bind_Ok_inv.
    destruct definition; simplify_eq/=.
    apply normalize_collection_Ok in H1 as (sources & ? & ? & ? & ->).
    apply normalize_collection_Ok in H2 as (steps & Hs & ? & ? & ->).
    rewrite jget_jinsert, decide_False in Hs by done. by exists object, sources, steps.
  - intros (object & sources & steps & -> & Hs & Hp & Hk1 & Hk2 & Hn1 & Hn2 & ->). simpl.
    rewrite (proj2 (normalize_collection_Ok object "sources" "id"
      (jinsert "sources" (JObject sources) object))) by (by exists sources). simpl.
    rewrite (proj2 (normalize_collection_Ok (jinsert "sources" (JObject sources) object) "pipeline" "step"
      (jinsert "pipeline" (JObject steps) (jinsert "sources" (JObject sources) object)))); [done|].
    exists steps. rewrite jget_jinsert, decide_False by done. done.
Qed.

Definition list_collections (object : list (string * value)) : result value :=
  object ← list_collection object "sources";
  object ← list_collection object "pipeline";
  Ok (JObject object).

(** Listing the blocks again undoes the normalization. *)
Lemma list_collections_normal object sources steps :
  jget "sources" object = Some (JArray sources.*2) -> jget "pipeline" object = Some (JArray steps.*2) ->
  list_collections (normal_form object sources steps) = Ok (JObject object).
Proof.
  intros Hs Hp. unfold list_collections, list_collection, normal_form.
  rewrite jget_jinsert, decide_False, jget_jinsert, decide_True by done. simpl.
  rewrite jget_jinsert, decide_False, jget_jinsert, decide_True by done. simpl.
  rewrite (jinsert_comm "sources"), jinsert_twice; [|done|rewrite jget_jinsert, decide_True by done; by eexists].
  rewrite jinsert_twice, (jinsert_same "sources"), (jinsert_same "pipeline"); done.
Qed.

(** Indexing the listed blocks of a keyed document undoes the listing. *)
Lemma normalize_listed object d sources steps :
  jget "sources" object = Some (JObject sources) -> jget "pipeline" object = Some (JObject steps) ->
  keyed "id" sources -> keyed "step" steps -> NoDup sources.*1 -> NoDup steps.*1 ->
  list_collections object = Ok d -> normalize d = Ok (JObject object).
Proof.
  intros Hs Hp Hk1 Hk2 Hn1 Hn2. unfold list_collections, list_collection. rewrite Hs. simpl.
  rewrite jget_jinsert, decide_False by done. rewrite Hp. simpl. intros [= <-].
  apply normalize_Ok. eexists _, sources, steps. split; [reflexivity|].
  rewrite !jget_jinsert. split_and!; try done. unfold normal_form.
  rewrite (jinsert_comm "pipeline" (JArray steps.*2)), jinsert_twice;
    [|done|rewrite Hp; by eexists].
  rewrite (jinsert_comm "sources"), jinsert_twice by (done || (rewrite Hs; by eexists)).
  rewrite (jinsert_same "sources"), (jinsert_same "pipeline"); rewrite ?jget_jinsert; done.
Qed.

(** Normalization is lossless: listing the indexed blocks of a normalized
    definition again gives back the definition it was computed from. *)
Theorem normalize_round_trip definition n :
  normalize definition = Ok n ->
  exists object, n = JObject object /\ list_collections object = Ok definition.
Proof.
  intros (object & sources & steps & -> & Hs & Hp & _ & _ & _ & _ & ->)%normalize_Ok.
  eexists. split; [reflexivity|]. by apply list_collections_normal.
Qed.

Lemma normalize_round_trip_witness :
  exists n object, normalize demo_pipeline = Ok n /\ n = JObject object /\
    list_collections object = Ok demo_pipeline.
Proof.
  destruct (normalize demo_pipeline) as [n|e] eqn:E; [|vm_compute in E; discriminate E].
  destruct (normalize_round_trip demo_pipeline n E) as (object & Hn & Hl).
  exists n, object. split; [reflexivity|]. split; [exact Hn|exact Hl].
Defined.

Lemma wf_jinsert k v m :
  wf_value (JObject m) = true -> wf_value v = true -> wf_value (JObject (jinsert k v m)) = true.
Proof.
  rewrite !wf_object. intros [Hnd HF] Hv. split; [by apply NoDup_jinsert|].
  rewrite Forall_forall in *. intros [k' w] Hin. apply elem_of_jget in Hin; [|by apply NoDup_jinsert].
  rewrite jget_jinsert in Hin. case_decide; [by simplify_eq|]. by apply (HF (k', w)), jget_elem_of.
Qed.

Lemma wf_blocks blocks : NoDup blocks.*1 -> wf_value (JArray blocks.*2) = true -> wf_value (JObject blocks) = true.
Proof.
  intros Hnd HF%wf_array. apply wf_object. split; [done|]. by apply Forall_fmap in HF.
Qed.

Lemma normalize_wf definition n :
  wf_value definition = true -> normalize definition = Ok n -> wf_value n = true.
Proof.
  intros Hwf (object & sources & steps & -> & Hs & Hp & _ & _ & Hn1 & Hn2 & ->)%normalize_Ok.
  pose proof Hwf as [_ HF]%wf_object.
  apply wf_jinsert; [apply wf_jinsert; [done|]|]; apply wf_blocks; try done; by eapply wf_jget.
Qed.

(** The blocks of a normalized definition are stored under their identity. *)
Lemma normalize_keyed definition n collection key k v :
  normalize definition = Ok n -> (collection, key) ∈ [("sources", "id"); ("pipeline", "step")] ->
  path_get (Some n) [collection; k] = Some v -> get_str v key = Some k.
Proof.
  intros (object & sources & steps & -> & Hs & Hp & Hk1 & Hk2 & Hn1 & Hn2 & ->)%normalize_Ok.
  unfold keyed in *. rewrite Forall_forall in Hk1, Hk2.
  intros [[= -> ->]|[[= -> ->]|?%elem_of_nil]%elem_of_cons]%elem_of_cons; [| |done]; simpl;
    unfold normal_form; rewrite !jget_jinsert; simpl; intros E%jget_elem_of.
  - by apply (Hk1 (k, v)).
  - by apply (Hk2 (k, v)).
Qed.

Lemma veq_string_inv o s : o ≡ Some (JString s) -> o = Some (JString s).
Proof. inversion 1 as [? ? E|]; subst. by inversion E; subst. Qed.

(** Merged blocks keep their identity, conflicts or not. *)
Lemma merged_keyed conflict nb nt ns nm collection key k v :
  three_way block_objects conflict [] nb nt ns nm ->
  (forall k v, path_get nt [collection; k] = Some v -> get_str v key = Some k) ->
  (forall k v, path_get ns [collection; k] = Some v -> get_str v key = Some k) ->
  path_get nm [collection; k] = Some v -> get_str v key = Some k.
Proof.
  intros H Ht Hs Hv.
  destruct (opt_object (path_get nt [collection; k]) && opt_object (path_get ns [collection; k])) eqn:Eo.
  - apply andb_true_iff in Eo as [Ot Os].
    assert (Hid : forall n v, path_get n [collection; k] = Some v -> get_str v key = Some k ->
      path_get n [collection; k; key] = Some (JString k)).
    { intros n w Hw Hk. change [collection; k; key] with ([collection; k] ++ [key]).
      rewrite path_get_app, Hw. simpl. unfold get_str in Hk. by destruct (get w key) as [[]|]; simplify_eq/=. }
    destruct (path_get nt [collection; k]) as [vt|] eqn:Et; [|done].
    destruct (path_get ns [collection; k]) as [vs|] eqn:Es; [|done].
    pose proof (Hid _ _ Et (Ht _ _ Et)) as It. pose proof (Hid _ _ Es (Hs _ _ Es)) as Is.
    pose proof (three_way_agree _ _ _ _ _ _ _ [collection; k; key] H) as Hag.
    rewrite It, Is in Hag. specialize (Hag ltac:(done)). apply veq_string_inv in Hag.
    change [collection; k; key] with ([collection; k] ++ [key]) in Hag.
    rewrite path_get_app, Hv in Hag. simpl in Hag. unfold get_str. by rewrite Hag.
  - destruct (three_way_side _ _ _ _ _ _ _ _ H Eo) as [E|E]; rewrite Hv in E; symmetry in E; eauto.
Qed.

(** Merging two definitions works block by block: the merged definition,
    again keyed by block identity, honours the three-way contract at every path
    that has no conflict or explicit choice at or above it, and every reported
    conflict is an unresolved divergence with its three values. *)
Theorem merge_definitions_contract base target source resolutions preview :
  wf_value base = true -> wf_value target = true -> wf_value source = true ->
  merge_definitions base target source resolutions = Ok preview ->
  exists nb nt ns nm,
    normalize base = Ok nb /\ normalize target = Ok nt /\ normalize source = Ok ns /\
    normalize (pv_definition preview) = Ok nm /\
    (forall q, (forall q1 q2, q = q1 ++ q2 -> ~ decided resolutions (pv_conflicts preview) q1) ->
       merge_contract (path_get (Some nb) q) (path_get (Some nt) q) (path_get (Some ns) q)
         (path_get (Some nm) q)) /\
    (forall x, x ∈ pv_conflicts preview -> unresolved resolutions [] (Some nb) (Some nt) (Some ns) x).
Proof.
  intros Wb Wt Ws H. unfold merge_definitions in H.
  apply bind_Ok_inv in H as (nb & Hnb & H). apply bind_Ok_inv in H as (nt & Hnt & H).
  apply bind_Ok_inv in H as (ns & Hns & H). apply bind_Ok_inv in H as (_ & _ & H).
  apply bind_Ok_inv in H as ([m conflicts] & Hm & H).
  apply (merge_value_Ok _ _ []) in Hm as (new & -> & Hbm);
    [|exact (normalize_wf _ _ Wb Hnb)|exact (normalize_wf _ _ Wt Hnt)|exact (normalize_wf _ _ Ws Hns)].
  apply bind_Ok_inv in H as (d & ->%context_Ok_inv & H).
  apply bind_Ok_inv in H as (object & Hobj%context_Ok_inv & H).
  destruct d as [| | | | |d]; simplify_eq/=.
  assert (Hlist : list_collections object = Ok (pv_definition preview) /\ pv_conflicts preview = new).
  { apply bind_Ok_inv in H as (o1 & H1 & (o2 & H2 & [= <-])%bind_Ok_inv).
    unfold list_collections. rewrite H1. simpl. by rewrite H2. }
  destruct Hlist as [Hlist ->].
  destruct (jget "sources" object ≫= as_object) as [so|] eqn:Eso;
    [|by unfold list_collections, list_collection in Hlist; rewrite Eso in Hlist].
  destruct (jget "pipeline" object ≫= as_object) as [po|] eqn:Epo.
  2: { unfold list_collections, list_collection in Hlist. rewrite Eso in Hlist. simpl in Hlist.
       by rewrite jget_jinsert, decide_False, Epo in Hlist. }
  apply opt_as_object in Eso, Epo.
  pose proof (bm_wf _ _ _ _ _ _ _ Hbm) as [Hnd HF]%wf_object.
  pose proof (bm_rules _ _ _ _ _ _ _ Hbm) as Hrules.
  assert (Hkey : forall collection key blocks, (collection, key) ∈ [("sources", "id"); ("pipeline", "step")] ->
    jget collection object = Some (JObject blocks) -> keyed key blocks /\ NoDup blocks.*1).
  { intros collection key blocks Hc Hb. pose proof (wf_jget _ _ _ HF Hb) as [Hbn _]%wf_object.
    split; [|done]. apply Forall_forall. intros [k v] Hkv. simpl.
    apply (merged_keyed _ _ _ _ _ collection key k v Hrules).
    - intros k' v'. by apply (normalize_keyed target).
    - intros k' v'. by apply (normalize_keyed source).
    - simpl. rewrite Hb. simpl. by apply elem_of_jget. }
  exists nb, nt, ns, (JObject object). split_and!; try done.
  - destruct (Hkey "sources" "id" so) as [? ?]; [by left|done|].
    destruct (Hkey "pipeline" "step" po) as [? ?]; [by right; left|done|].
    by apply (normalize_listed object _ so po).
  - intros q Hq. by apply (three_way_contract _ _ _ _ _ _ _ _ Hrules).
  - apply Hbm.
Qed.

(** ** Comparison *)
Definition change_at (p : list string) (b a : option value) (c : DefinitionChange) : Prop :=
  exists q, leaf_difference b a q /\
    c = {| dc_path := pointer_path "" (p ++ q); dc_before := path_get b q; dc_after := path_get a q |}.

Lemma collect_keys_Ok child keys (Q : string -> DefinitionChange -> Prop) changes out :
  (forall k c out, k ∈ keys -> child k c = Ok out ->
     exists new, out = c ++ new /\ forall x, x ∈ new <-> Q k x) ->
  collect_keys child keys changes = Ok out ->
  exists new, out = changes ++ new /\ forall x, x ∈ new <-> exists k, k ∈ keys /\ Q k x.
Proof.
  revert changes. induction keys as [|k keys IH]; intros changes Hchild; simpl.
  - intros [= <-]. exists []. rewrite app_nil_r. split; [done|]. intros x.
    split; [by intros ?%elem_of_nil|by intros (? & ?%elem_of_nil & _)].
  - intros (c1 & Hc & Hrun)%bind_Ok_inv.
    destruct (Hchild k changes c1 ltac:(by left) Hc) as (new1 & -> & H1).
    apply IH in Hrun as (new2 & -> & H2); [|intros; apply Hchild; [by right|done]].
    exists (new1 ++ new2). rewrite (assoc_L (++)). split; [done|]. intros x.
    rewrite elem_of_app, H1, H2. split.
    + intros [?|(k' & ? & ?)]; [exists k|exists k']; rewrite elem_of_cons; auto.
    + intros (k' & [->|?]%elem_of_cons & ?); eauto.
Qed.

Lemma leaf_difference_keys l r q :
  leaf_difference (Some (JObject l)) (Some (JObject r)) q <->
  exists k q', q = k :: q' /\ k ∈ union_keys [l; r] /\ leaf_difference (jget k l) (jget k r) q'.
Proof.
  rewrite leaf_difference_object. split; [|by intros (k & q' & ? & _ & ?); exists k, q'].
  intros (k & q' & -> & H). exists k, q'. split_and!; [done| |done].
  apply elem_of_union_keys. pose proof (leaf_difference_not_veq _ _ _ H) as Hne.
  destruct (jget k l) eqn:E1; [exists l; split; [set_solver|by eexists]|].
  destruct (jget k r) eqn:E2; [exists r; split; [set_solver|by eexists]|]. done.
Qed.

Lemma collect_changes_Ok fuel p b a changes out :
  wf_opt b = true -> wf_opt a = true ->
  collect_changes fuel (pointer_path "" p) b a changes = Ok out ->
  exists new, out = changes ++ new /\ forall c, c ∈ new <-> change_at p b a c.
Proof.
  revert p b a changes out. induction fuel as [|fuel IH]; intros p b a changes out Hb Ha; [done|]. simpl.
  destruct (opt_value_eqb b a) eqn:E.
  { intros [= <-]. exists []. rewrite app_nil_r. split; [done|]. intros c.
    split; [by intros ?%elem_of_nil|]. intros (q & Hq%leaf_difference_not_veq & _).
    by apply opt_value_eqb_veq in E. }
  apply not_veq in E; [|done..].
  assert (Hscalar : both_objects b a = false ->
    Ok (changes ++ [{| dc_path := pointer_path "" p; dc_before := b; dc_after := a |}]) = Ok out ->
    exists new, out = changes ++ new /\ forall c, c ∈ new <-> change_at p b a c).
  { intros Ho [= <-]. eexists. split; [reflexivity|]. intros c. unfold change_at.
    rewrite list_elem_of_singleton. setoid_rewrite (leaf_difference_scalar b a _ Ho). split.
    - intros ->. exists []. by rewrite app_nil_r.
    - intros (q & [-> _] & ->). by rewrite app_nil_r. }
  destruct b as [[| | | | |l]|]; try (by apply Hscalar).
  destruct a as [[| | | | |r]|]; try (by apply Hscalar).
  intros Hrun. apply (collect_keys_Ok _ _ (fun k => change_at (p ++ [k]) (jget k l) (jget k r)))
    in Hrun as (new & -> & Hnew).
  - exists new. split; [done|]. intros c. rewrite Hnew. unfold change_at.
    setoid_rewrite leaf_difference_keys. split.
    + intros (k & Hk & q & Hq & ->). exists (k :: q). split; [by exists k, q|]. by rewrite <-app_assoc.
    + intros (? & (k & q & -> & Hk & Hq) & ->). exists k. split; [done|]. exists q. by rewrite <-app_assoc.
  - intros k c out' _. rewrite pointer_snoc. apply IH; by apply wf_opt_jget.
Qed.

(** Comparing two definitions reports exactly the minimal paths (as JSON
    pointers into the documents keyed by block identity) at which they differ,
    each with the values before and after. *)
Theorem compare_definitions_exact before after changes :
  wf_value before = true -> wf_value after = true ->
  compare_definitions before after = Ok changes ->
  exists nb na, normalize before = Ok nb /\ normalize after = Ok na /\
    forall c, c ∈ changes <-> change_at [] (Some nb) (Some na) c.
Proof.
  intros Wb Wa H. unfold compare_definitions in H.
  apply bind_Ok_inv in H as (nb & Hnb & H). apply bind_Ok_inv in H as (na & Hna & H).
  apply (collect_changes_Ok _ []) in H as (new & -> & Hc);
    [|exact (normalize_wf _ _ Wb Hnb)|exact (normalize_wf _ _ Wa Hna)].
  by exists nb, na.
Qed.

(** ** Drafts *)
Lemma check_nodes_Ok nodes key ids out :
  check_nodes nodes key ids = Ok out ->
  exists names, mapM (fun node => get_str node key) nodes = Some names /\ NoDup names /\
    (forall x, x ∈ names -> x ∉ ids) /\ out = list_to_set names ∪ ids /\
    Forall (fun x => valid_branch x = true /\ starts_with "__linked_" x = false) names /\
    Forall (fun node => get node "origin" = None) nodes.
Proof.
  revert ids. induction nodes as [|node nodes IH]; intros ids; simpl.
  - intros [= <-]. exists []. split_and!; try constructor; [by intros x ?%elem_of_nil|set_solver].
  - intros H. res_inv. bool_inv. apply IH in H as (names & Hn & Hnd & Hfresh & -> & HF & Ho).
    exists (x :: names). rewrite E, Hn. split_and!; [done| | | | |].
    + apply NoDup_cons. split; [|done]. intros Hin. apply (Hfresh x Hin). set_solver.
    + intros y [->|Hy]%elem_of_cons; [done|]. specialize (Hfresh y Hy). set_solver.
    + simpl. set_solver.
    + by constructor.
    + constructor; [|done]. by destruct (get node "origin").
Qed.

Section drafts.
Context `{Externals}.

(** An accepted draft has only the authored top-level fields, at most 256
    blocks and a bounded serialization; its block names are pairwise distinct,
    path-safe and outside the compiler's [__linked_] name space. *)
Theorem validate_draft_bounds definition :
  validate_draft definition = Ok tt ->
  exists object sources steps source_ids step_ids bytes,
    definition = JObject object /\ (forall k, k ∈ object.*1 -> k ∈ DRAFT_KEYS) /\
    get_array definition "sources" = Some sources /\ get_array definition "pipeline" = Some steps /\
    length sources + length steps <= 256 /\
    json_to_vec definition = Ok bytes /\ (N.of_nat (String.length bytes) <= 1048576)%N /\
    mapM (fun s => get_str s "id") sources = Some source_ids /\
    mapM (fun s => get_str s "step") steps = Some step_ids /\
    NoDup (source_ids ++ step_ids) /\
    Forall (fun x => valid_branch x = true /\ starts_with "__linked_" x = false) (source_ids ++ step_ids).
Proof.
  unfold validate_draft. intros Hd.
  apply bind_Ok_inv in Hd as (object & Ho%context_Ok_inv & Hd).
  apply bind_Ok_inv in Hd as ([] & Hkeys%ensure_Ok_inv & Hd). apply bind_Ok_inv in Hd as ([] & _ & Hd).
  apply bind_Ok_inv in Hd as (sources & Hs%context_Ok_inv & Hd).
  apply bind_Ok_inv in Hd as (steps & Hp%context_Ok_inv & Hd).
  apply bind_Ok_inv in Hd as ([] & Hlen%ensure_Ok_inv%Nat.leb_le & Hd).
  apply bind_Ok_inv in Hd as (bytes & Hb & Hd).
  apply bind_Ok_inv in Hd as ([] & Hbytes%ensure_Ok_inv%N.leb_le & Hd).
  apply bind_Ok_inv in Hd as (ids & Hi & Hd). apply bind_Ok_inv in Hd as (ids' & Hi' & _).
  apply check_nodes_Ok in Hi as (n1 & Hm1 & Hn1 & _ & -> & HF1 & _).
  apply check_nodes_Ok in Hi' as (n2 & Hm2 & Hn2 & Hfresh & _ & HF2 & _).
  destruct definition as [| | | | |o]; simplify_eq/=.
  exists object, sources, steps, n1, n2, bytes. split_and!; try done.
  - intros k (kv & -> & Hin)%list_elem_of_fmap. apply str_in_elem_of.
    rewrite forallb_forall in Hkeys. apply Hkeys. by apply list_elem_of_In.
  - apply NoDup_app. split_and!; [done| |done]. intros x Hx Hx2. apply (Hfresh x Hx2). set_solver.
  - by apply Forall_app.
Qed.
End drafts.

(** ** Diagnostics *)
Lemma elem_of_add_if b code node field i :
  i ∈ add_if b code node field <-> b = true /\ i = diagnostic code node field.
Proof.
  unfold add_if. destruct b; [rewrite list_elem_of_singleton|rewrite elem_of_nil]; naive_solver.
Qed.

Lemma text_present_not_blank v : text_present v = true -> is_none_or trim_is_empty v = false.
Proof. destruct v as [s|]; simpl; [by intros ?%negb_true_iff|done]. Qed.

Lemma get_str_present v k s : get_str v k = Some s -> null_or_absent (get v k) = false.
Proof. unfold get_str. by destruct (get v k) as [[]|]. Qed.

Lemma conditions_present rules :
  for_each check_condition rules = Ok tt -> forallb (fun rule => text_present (get_str rule "value")) rules = true.
Proof.
  rewrite for_each_Ok, forallb_forall, Forall_forall. intros HF rule Hin.
  apply list_elem_of_In, HF in Hin. unfold check_condition in Hin.
  apply bind_Ok_inv in Hin as (_ & _ & Hin). apply bind_Ok_inv in Hin as (_ & _ & Hin%ensure_Ok_inv).
  unfold text_within, text_present in *. destruct (get_str rule "value"); [|done]. simpl in *. by apply andb_prop in Hin as [? _].
Qed.

(** What the executability check of a step establishes. *)
Lemma check_step_inv step :
  check_step step = Ok tt ->
  exists kind inputs, get_str step "type" = Some kind /\ get_array step "input_from" = Some inputs /\
    (opt_str_eqb (pointer_str ["params"; "trigger"] step) "cron" = true ->
       text_present (pointer_str ["params"; "cron"] step) = true) /\
    (if scheduled step then inputs = []
     else inputs <> [] /\ (length inputs = 1 \/ is_union kind step = true)) /\
    (uses_conditions kind step = true -> exists rules,
       pointer_get ["params"; "conditions"] step ≫= as_array = Some rules /\
       rules <> [] /\ forallb (fun rule => text_present (get_str rule "value")) rules = true).
Proof.
  unfold check_step. intros H. apply bind_Ok_inv in H as (_ & _ & H).
  apply bind_Ok_inv in H as (kind & Hk%context_Ok_inv & H).
  apply bind_Ok_inv in H as (inputs & Hi%context_Ok_inv & H).
  apply bind_Ok_inv in H as (_ & Hc%ensure_Ok_inv & H).
  apply bind_Ok_inv in H as (_ & Hn%ensure_Ok_inv & H).
  exists kind, inputs. split_and!; try done.
  - intros Ht. by rewrite Ht in Hc.
  - destruct (scheduled step); [by destruct inputs|]. bool_inv.
    apply orb_true_iff in H1. split; [by destruct inputs|].
    destruct H1; [left; by apply Nat.eqb_eq|by right].
  - intros Hu. rewrite Hu in H. apply bind_Ok_inv in H as (rules & Hr%context_Ok_inv & H).
    apply bind_Ok_inv in H as (_ & Hl%ensure_Ok_inv & H). exists rules.
    split_and!; [done| |by apply conditions_present]. bool_inv. by destruct rules.
Qed.

Lemma check_step_diagnose known step kind inputs :
  check_step step = Ok tt -> get_str step "type" = Some kind ->
  get_array step "input_from" = Some inputs ->
  (forall input, input ∈ inputs -> exists x, as_str input = Some x /\ x ∈ known) ->
  kind_ok step kind ->
  forall i, i ∈ diagnose_step known step ->
    i = diagnostic "reference" (get_str step "step") (Some "pipeline_ref") /\
    kind = "pipeline" /\ null_or_absent (get step "pipeline_ref") = true.
Proof.
  intros (kind' & inputs' & Hk & Hi & Hcron & Hcard & Hcond)%check_step_inv Hk' Hi' Hknown [_ Hinf] i.
  rewrite Hk in Hk'. rewrite Hi in Hi'. injection Hk' as ->. injection Hi' as ->.
  unfold diagnose_step. rewrite Hk, Hi. simpl default. rewrite !elem_of_app, !elem_of_add_if. simpl.
  intros [[H _]|[[H _]|[[H _]|[[H _]|[[H _]|[[H _]|[[H ->]|[H _]]]]]]]]; bool_inv.
  - destruct (scheduled step); [done|]. destruct Hcard as [Hne _]. by destruct inputs.
  - destruct (scheduled step); [by subst inputs|done].
  - apply Hcron, text_present_not_blank in H. simpl in *. congruence.
  - apply existsb_exists in H as (input & Hin%list_elem_of_In & Hb).
    destruct (Hknown input Hin) as (x & Hx & Hxk). rewrite Hx in Hb. simpl in Hb.
    by rewrite bool_decide_eq_true_2 in Hb.
  - destruct (scheduled step); [by subst inputs|].
    destruct Hcard as [_ [Hl|Hu]]; [rewrite Hl in H; done|congruence].
  - apply String.eqb_eq in H as ->. destruct (Hinf eq_refl) as [[s Hs]|[s Hs]];
      apply get_str_present in Hs; congruence.
  - apply String.eqb_eq in H as ->. done.
  - destruct (Hcond H) as (rules & Hr & Hne & Hall). simpl in Hr. rewrite Hr in H0. simpl in H0.
    rewrite Hall in H0. by destruct rules.
Qed.

Lemma declares_step_inputs step info inputs :
  declares_step step info -> get_array step "input_from" = Some inputs ->
  forall input, input ∈ inputs -> exists x, as_str input = Some x /\ x ∈ si_deps info.
Proof.
  unfold declares_step, read_step. intros H Hi.
  apply bind_Ok_inv in H as (id & _ & H). apply bind_Ok_inv in H as (kind & _ & H).
  rewrite Hi in H. simpl in H. apply bind_Ok_inv in H as (deps & Hd%mapM_Ok_Forall2 & [= <-]). simpl.
  intros input [n Hn]%list_elem_of_lookup.
  destruct (Forall2_lookup_l _ _ _ _ _ Hd Hn) as (x & Hx & E%context_Ok_inv).
  exists x. split; [done|]. by eapply list_elem_of_lookup_2.
Qed.

Lemma known_nodes_iff sources steps source_ids infos x :
  Forall2 declares_source sources source_ids -> Forall2 declares_step steps infos ->
  x ∈ source_ids ++ (si_id <$> infos) -> x ∈ known_nodes sources steps.
Proof.
  intros Hs Hp. unfold known_nodes, btree_set. rewrite elem_of_list_to_set, !elem_of_app, !list_elem_of_omap.
  intros [[n Hn]%list_elem_of_lookup|[n Hn]%list_elem_of_lookup]; [left|right].
  - destruct (Forall2_lookup_r _ _ _ _ _ Hs Hn) as (v & Hv & [E _]).
    exists v. split; [by eapply list_elem_of_lookup_2|done].
  - rewrite list_lookup_fmap in Hn. destruct (infos !! n) as [info|] eqn:En; simplify_eq/=.
    destruct (Forall2_lookup_r _ _ _ _ _ Hp En) as (v & Hv & E%read_step_inv).
    exists v. split; [by eapply list_elem_of_lookup_2|]. by destruct E as (-> & _).
Qed.

Section diagnostics.
Context `{Externals}.

Lemma validate_executable_inv definition :
  validate_executable definition = Ok tt ->
  validate_draft definition = Ok tt /\
  exists sources steps source_ids infos order,
    get_array definition "sources" = Some sources /\ get_array definition "pipeline" = Some steps /\
    Forall2 declares_source sources source_ids /\ Forall2 declares_step steps infos /\
    well_formed_graph (bound_of []) false steps source_ids infos /\
    validate_pipeline_structure definition = Ok order /\
    for_each check_source sources = Ok tt /\
    negb (Nat.eqb (length sources) 0) || existsb scheduled steps = true /\
    for_each check_step steps = Ok tt.
Proof.
  unfold validate_executable. intros Hx.
  apply bind_Ok_inv in Hx as ([] & Hd & Hx). apply bind_Ok_inv in Hx as (order & Hv & Hx).
  apply bind_Ok_inv in Hx as (sources & Hs%context_Ok_inv & Hx).
  apply bind_Ok_inv in Hx as ([] & Hcs & Hx).
  apply bind_Ok_inv in Hx as (steps & Hp%context_Ok_inv & Hx).
  apply bind_Ok_inv in Hx as ([] & Hn%ensure_Ok_inv & Hx).
  pose proof Hv as (source_ids & infos & (sources' & steps' & Hs' & Hp' & HFs & HFp & Hg) & _)
    %validate_pipeline_internal_iff.
  rewrite Hs in Hs'. rewrite Hp in Hp'. injection Hs' as <-. injection Hp' as <-.
  split; [done|]. exists sources, steps, source_ids, infos, order. by split_and!.
Qed.

Lemma check_source_diagnose source : check_source source = Ok tt -> diagnose_source source = [].
Proof.
  unfold check_source, diagnose_source. intros (_ & _ & HF%for_each_Ok)%bind_Ok_inv.
  apply bind_nil_iff. intros field Hf. rewrite Forall_forall in HF.
  apply HF, ensure_Ok_iff in Hf. by rewrite Hf.
Qed.

(** The diagnostics agree with the executability check: on an executable
    definition the only issue left to report is a pipeline block that has no
    reference yet, which composition checks separately. *)
Theorem executable_diagnostics definition :
  validate_executable definition = Ok tt ->
  exists issues steps, diagnose_definition definition = Ok issues /\
    get_array definition "pipeline" = Some steps /\
    forall i, i ∈ issues -> exists step, step ∈ steps /\
      i = diagnostic "reference" (get_str step "step") (Some "pipeline_ref") /\
      get_str step "type" = Some "pipeline" /\ null_or_absent (get step "pipeline_ref") = true.
Proof.
  intros (Hd & sources & steps & sids & infos & order & Hs & Hp & HFs & HFp & Hg & _ & Hcs & Hn & Hsteps)
    %validate_executable_inv.
  unfold diagnose_definition. rewrite Hd, Hs, Hp. simpl. eexists _, steps. split; [reflexivity|].
  split; [done|]. intros i.
  assert (add_if (Nat.eqb (length sources) 0 && negb (existsb scheduled steps)) "source" None None = []) as ->.
  { destruct (Nat.eqb (length sources) 0), (existsb scheduled steps); done. }
  assert (sources ≫= diagnose_source = []) as ->.
  { apply bind_nil_iff. intros s Hin. rewrite for_each_Ok, Forall_forall in Hcs.
    by apply check_source_diagnose, Hcs. }
  rewrite !app_nil_l, list_elem_of_bind. intros (step & Hi & Hin). exists step. split; [done|].
  rewrite for_each_Ok, Forall_forall in Hsteps. pose proof (Hsteps step Hin) as Hck.
  apply list_elem_of_lookup in Hin as [n Hn'].
  destruct (Forall2_lookup_l _ _ _ _ _ HFp Hn') as (info & Hinfo & Hdecl).
  pose proof (read_step_inv _ _ Hdecl) as (_ & _ & Hkind & _).
  pose proof (Forall2_lookup_lr _ _ _ _ _ _ (wg_kinds _ _ _ _ _ Hg) Hn' Hinfo) as Hok.
  destruct (check_step_inv step Hck) as (kind & inputs & Hk' & Hinputs & _).
  destruct (check_step_diagnose (known_nodes sources steps) step (si_kind info) inputs Hck Hkind Hinputs)
    with (i := i) as (-> & Hpk & Hnull); [|done|done|by rewrite Hpk in Hkind].
  intros input (x & Hx & Hxd)%(declares_step_inputs step info inputs Hdecl Hinputs).
  exists x. split; [done|]. apply (known_nodes_iff sources steps sids infos); [done..|].
  apply (wg_inputs _ _ _ _ _ Hg x (si_id info)). exists info.
  split_and!; [by eapply list_elem_of_lookup_2|done..].
Qed.
End diagnostics.

(** ** Witnesses *)
Definition demo_externals : Externals :=
  {| json_to_vec _ := Ok "{}"; sha256_hex s := s |}.

Definition demo_draft (name : string) (steps : list value) : value :=
  JObject [("name", JString name);
           ("sources", JArray [JObject [("id", JString "intake"); ("topic", JString "t");
              ("match_pattern", JString "*"); ("schema_path", JString "s")]]);
           ("pipeline", JArray steps)].
Definition demo_executable : value :=
  demo_draft "demo" [demo_step "store" "sink" ["intake"] []; demo_step "sub" "pipeline" ["store"] []].

Lemma validate_draft_bounds_witness :
  exists sources steps, get_array demo_executable "sources" = Some sources /\
    get_array demo_executable "pipeline" = Some steps /\ length sources + length steps <= 256.
Proof.
  assert (Hd : @validate_draft demo_externals demo_executable = Ok tt) by (vm_compute; reflexivity).
  destruct (@validate_draft_bounds demo_externals demo_executable Hd)
    as (object & sources & steps & source_ids & step_ids & bytes & _ & _ & Hs & Hp & Hlen & _).
  exists sources, steps. split; [exact Hs|]. split; [exact Hp|exact Hlen].
Defined.

Lemma executable_diagnostics_witness :
  exists issues, @diagnose_definition demo_externals demo_executable = Ok issues /\ length issues = 1.
Proof.
  assert (Hd : @validate_executable demo_externals demo_executable = Ok tt) by (vm_compute; reflexivity).
  destruct (@executable_diagnostics demo_externals demo_executable Hd) as (issues & steps & Hi & _).
  exists issues. split; [exact Hi|]. vm_compute in Hi. by injection Hi as <-.
Defined.

Definition demo_main : value := demo_draft "main" [demo_step "store" "sink" ["intake"] []].
Definition demo_branch : value :=
  demo_draft "demo" [demo_step "store" "sink" ["intake"] [("model", JString "m")]].
Definition demo_ancestor : value := demo_draft "demo" [demo_step "store" "sink" ["intake"] []].

Lemma merge_definitions_contract_witness :
  exists preview nm, merge_definitions demo_ancestor demo_main demo_branch ∅ = Ok preview /\
    normalize (pv_definition preview) = Ok nm /\
    path_get (Some nm) ["pipeline"; "store"; "model"] = Some (JString "m") /\
    path_get (Some nm) ["name"] = Some (JString "main").
Proof.
  destruct (merge_definitions demo_ancestor demo_main demo_branch ∅) as [preview|e] eqn:E;
    [|vm_compute in E; discriminate E].
  destruct (merge_definitions_contract demo_ancestor demo_main demo_branch ∅ preview
    eq_refl eq_refl eq_refl E) as (nb & nt & ns & nm & _ & _ & _ & Hnm & _).
  exists preview, nm. split; [reflexivity|]. split; [exact Hnm|].
  vm_compute in E. injection E as <-. vm_compute in Hnm. injection Hnm as <-. by split.
Defined.

Lemma compare_definitions_exact_witness :
  exists changes, compare_definitions demo_ancestor demo_branch = Ok changes /\
    dc_path <$> changes = ["/pipeline/store/model"].
Proof.
  destruct (compare_definitions demo_ancestor demo_branch) as [changes|e] eqn:E;
    [|vm_compute in E; discriminate E].
  destruct (compare_definitions_exact demo_ancestor demo_branch changes eq_refl eq_refl E) as (nb & na & _).
  exists changes. split; [reflexivity|]. vm_compute in E. by injection E as <-.
Defined.
