(* ===== verification/Composition.v ===== *)
(** * Composition: bounded expansion of pipeline transfers (composition.rs)

    A step of type [pipeline] transfers to an immutable revision of another
    pipeline.  [compile_with_stats] replaces it by a [forward] step followed by
    the renamed steps of the referenced pipeline that its input reaches. *)

From S2P Require Import Prelude Text Json Graph Ontology Pipeline.

Definition MAX_BLOCKS : nat := 256.
Definition MAX_TRANSFERS : nat := 3.

Record PipelineReference : Type := {
  ref_pipeline_id : string;
  ref_revision_id : string;
  ref_input_source : string;
}.

(** [serde_json::from_value::<PipelineReference>]: the three string fields, no
    other field; a derived [Deserialize] also accepts them as a sequence. *)
Definition REFERENCE_FIELDS : list string := ["pipeline_id"; "revision_id"; "input_source"].
Definition parse_reference (v : value) : result PipelineReference :=
  match v with
  | JObject m =>
      if forallb (fun kv => str_in kv.1 REFERENCE_FIELDS) m then
        match get_str v "pipeline_id", get_str v "revision_id", get_str v "input_source" with
        | Some p, Some r, Some s =>
            Ok {| ref_pipeline_id := p; ref_revision_id := r; ref_input_source := s |}
        | _, _, _ => Err (Foreign "serde_json")
        end
      else Err (Foreign "serde_json")
  | JArray [JString p; JString r; JString s] =>
      Ok {| ref_pipeline_id := p; ref_revision_id := r; ref_input_source := s |}
  | _ => Err (Foreign "serde_json")
  end.

(** ** References of a definition *)
Definition node_id (node : value) : option string :=
  match get node "step" with
  | Some v => as_str v
  | None => get node "id" ≫= as_str
  end.
Definition null_or_none (v : option value) : bool := is_none_or is_null v.
Definition is_transfer (node : value) : bool := opt_str_eqb (get_str node "type") "pipeline".

(** Some step of [steps] takes [id] as an input. *)
Definition has_consumer (steps : list value) (id : string) : bool :=
  existsb (fun step => is_some_and (existsb (fun input => opt_str_eqb (as_str input) id))
    (get_array step "input_from")) steps.

Definition check_transfer (steps : list value) (id : string) (node : value)
    : result PipelineReference :=
  ensure (null_or_none (get node "capability_id") && null_or_none (get node "model"))
    "Native transfers cannot select plugin code or a model" ;;
  v ← with_context "Pipeline reference missing" (get node "pipeline_ref");
  reference ← parse_reference v;
  ensure (identity (ref_pipeline_id reference) && valid_revision (ref_revision_id reference) &&
          identity (ref_input_source reference)) "Invalid pipeline reference" ;;
  ensure (is_none_or (fun p => is_none_or (fun v => opt_str_eqb (as_str v) "manual") (get p "trigger"))
            (get node "params")) "Pipeline transfers must be event driven" ;;
  ensure (negb (has_consumer steps id))
    "Pipeline transfers are terminal; continuations require explicit return semantics" ;;
  Ok reference.

Definition check_plain (node : value) : result unit :=
  ensure (null_or_none (get node "pipeline_ref") &&
          (negb (opt_str_eqb (get_str node "type") "forward") ||
           opt_str_eqb (pointer_str ["params"; "merge"] node) "union"))
    "Pipeline references require a transfer block".

Fixpoint collect_references (steps nodes : list value) (acc : list PipelineReference)
    : result (list PipelineReference) :=
  match nodes with
  | [] => Ok acc
  | node :: nodes =>
      id ← with_context "Pipeline block identifier missing" (node_id node);
      ensure (negb (starts_with "__linked_" id) && null_or_none (get node "origin"))
        "Reserved compiled pipeline field" ;;
      if is_transfer node then
        reference ← check_transfer steps id node;
        let acc := acc ++ [reference] in
        ensure (Nat.leb (length acc) MAX_TRANSFERS) "Composition exceeds three pipeline transfers" ;;
        collect_references steps nodes acc
      else
        check_plain node ;;
        collect_references steps nodes acc
  end.

Definition references (definition : value) : result (list PipelineReference) :=
  sources ← with_context "Pipeline sources missing" (get_array definition "sources");
  steps ← with_context "Pipeline steps missing" (get_array definition "pipeline");
  ensure (Nat.leb (length sources + length steps) MAX_BLOCKS) "Pipeline exceeds 256 blocks" ;;
  collect_references steps (sources ++ steps) [].

(** ** Expansion *)
Definition definitions_map : Type := gmap (string * string) value.

Record Expansion : Type := {
  e_active : gset string;
  e_steps : list value;
  e_blocks : nat;
  e_transfers : nat;
  e_next_id : nat;
}.

Definition detached (step : value) : bool :=
  opt_str_in (pointer_str ["params"; "trigger"] step) ["cron"; "on_demand"].

(** The steps the selected input reaches, in topological order. *)
Fixpoint reach (steps : list value) (order : list string) (reachable : gset string)
    : result (gset string) :=
  match order with
  | [] => Ok reachable
  | id :: order =>
      match List.find (fun step => opt_str_eqb (get_str step "step") id) steps with
      | Some step =>
          if detached step then reach steps order reachable
          else
            inputs ← with_context "Step inputs missing" (get_array step "input_from");
            if existsb (fun input => is_some_and (fun i => bool_decide (i ∈ reachable)) (as_str input)) inputs
            then ensure (Nat.eqb (length inputs) 1) "Linked inputs cannot create an implicit stateful join" ;;
                 reach steps order ({[id]} ∪ reachable)
            else reach steps order reachable
      | None => reach steps order reachable
      end
  end.

Definition entry_reachable (sources steps : list value) (order : list string)
    (entry : option (string * string)) : result (gset string) :=
  match entry with
  | Some (selected, _) =>
      ensure (existsb (fun source => opt_str_eqb (get_str source "id") selected) sources)
        "Selected pipeline input is unavailable" ;;
      reach steps order {[selected]}
  | None => Ok ∅
  end.

(** The names of the expanded nodes. *)
Fixpoint name_sources (sources : list value) (entry : option (string * string))
    (names : gmap string string) : result (gmap string string) :=
  match sources with
  | [] => Ok names
  | source :: sources =>
      id ← with_context "Source identifier missing" (get_str source "id");
      match entry with
      | Some (input_source, transfer) =>
          if negb (String.eqb id input_source) then name_sources sources entry names
          else name_sources sources entry (<[id := transfer]> names)
      | None => name_sources sources entry (<[id := id]> names)
      end
  end.

Definition skipped (entry : option (string * string)) (reachable : gset string) (id : string) : bool :=
  option_is_some entry && negb (bool_decide (id ∈ reachable)).

Definition linked_name (n : nat) : string := "__linked_" +:+ pretty n.

Fixpoint name_steps (steps : list value) (entry : option (string * string))
    (reachable : gset string) (next_id : nat) (names : gmap string string)
    : result (nat * gmap string string) :=
  match steps with
  | [] => Ok (next_id, names)
  | step :: steps =>
      id ← with_context "Step identifier missing" (get_str step "step");
      if skipped entry reachable id then name_steps steps entry reachable next_id names
      else if option_is_some entry then
        name_steps steps entry reachable (S next_id) (<[id := linked_name (S next_id)]> names)
      else name_steps steps entry reachable next_id (<[id := id]> names)
  end.

Definition rename (names : gmap string string) (message : string) (v : value) : result string :=
  with_context message (as_str v ≫= fun id => names !! id).

(** [for targets in branches.values_mut()] *)
Fixpoint rename_branches (names : gmap string string) (branches : list (string * value))
    : result (list (string * value)) :=
  match branches with
  | [] => Ok []
  | (label, targets) :: branches =>
      targets ← with_context "Invalid branch destinations" (as_array targets);
      renamed ← mapM (rename names "Unknown branch destination") targets;
      rest ← rename_branches names branches;
      Ok ((label, json_strings renamed) :: rest)
  end.

(** The clone of a step with its names replaced, before a transfer is resolved. *)
Definition expand_step (pipeline_id revision_id : string) (entry : option (string * string))
    (names : gmap string string) (id mapped : string) (step : value)
    : result (list (string * value)) :=
  inputs ← with_context "Step inputs missing" (get_array step "input_from");
  mapped_inputs ← mapM (rename names "Unknown dependency") inputs;
  object ← with_context "Invalid step" (as_object step);
  let object := jinsert "step" (JString mapped) object in
  let object := jinsert "input_from" (json_strings mapped_inputs) object in
  let object :=
    if option_is_some entry then
      jinsert "origin" (JObject [("pipeline_id", JString pipeline_id);
        ("revision_id", JString revision_id); ("block_id", JString id)]) object
    else object in
  match jget "branches" object ≫= as_object with
  | Some branches =>
      renamed ← rename_branches names branches;
      Ok (jinsert "branches" (JObject renamed) object)
  | None => Ok object
  end.

Definition push_step (e : Expansion) (step : value) : Expansion :=
  {| e_active := e_active e; e_steps := e_steps e ++ [step]; e_blocks := e_blocks e;
     e_transfers := e_transfers e; e_next_id := e_next_id e |}.
Definition enter (e : Expansion) (pipeline_id : string) : Expansion :=
  {| e_active := {[pipeline_id]} ∪ e_active e; e_steps := e_steps e; e_blocks := e_blocks e;
     e_transfers := e_transfers e; e_next_id := e_next_id e |}.
Definition leave (e : Expansion) (pipeline_id : string) : Expansion :=
  {| e_active := e_active e ∖ {[pipeline_id]}; e_steps := e_steps e; e_blocks := e_blocks e;
     e_transfers := e_transfers e; e_next_id := e_next_id e |}.
Definition charge_transfers (e : Expansion) (n : nat) : Expansion :=
  {| e_active := e_active e; e_steps := e_steps e; e_blocks := e_blocks e;
     e_transfers := e_transfers e + n; e_next_id := e_next_id e |}.
Definition charge_blocks (e : Expansion) (n : nat) : Expansion :=
  {| e_active := e_active e; e_steps := e_steps e; e_blocks := e_blocks e + n;
     e_transfers := e_transfers e; e_next_id := e_next_id e |}.
Definition set_next_id (e : Expansion) (n : nat) : Expansion :=
  {| e_active := e_active e; e_steps := e_steps e; e_blocks := e_blocks e;
     e_transfers := e_transfers e; e_next_id := n |}.

(** The last loop of [append]; [child] is the recursive call on a referenced
    definition. *)
Fixpoint emit_steps
    (child : Expansion -> string -> string -> value -> string * string -> result Expansion)
    (definitions : definitions_map) (pipeline_id revision_id : string)
    (entry : option (string * string)) (reachable : gset string) (names : gmap string string)
    (steps : list value) (e : Expansion) : result Expansion :=
  match steps with
  | [] => Ok e
  | step :: steps =>
      id ← with_context "Step identifier missing" (get_str step "step");
      if skipped entry reachable id then
        emit_steps child definitions pipeline_id revision_id entry reachable names steps e
      else
        mapped ← with_context "Unknown step" (names !! id);
        object ← expand_step pipeline_id revision_id entry names id mapped step;
        e ← (if is_transfer step then
               v ← with_context "Reference missing" (jget "pipeline_ref" object);
               reference ← parse_reference v;
               let object := jinsert "type" (JString "forward") (jremove "pipeline_ref" object) in
               let e := push_step e (JObject object) in
               definition ← with_context "Referenced pipeline revision unavailable"
                 (definitions !! (ref_pipeline_id reference, ref_revision_id reference));
               child e (ref_pipeline_id reference) (ref_revision_id reference) definition
                 (ref_input_source reference, mapped)
             else Ok (push_step e (JObject object)));
        emit_steps child definitions pipeline_id revision_id entry reachable names steps e
  end.

(** The body of [Expansion::append]. *)
Definition append_body
    (child : Expansion -> string -> string -> value -> string * string -> result Expansion)
    (definitions : definitions_map) (e : Expansion) (pipeline_id revision_id : string)
    (definition : value) (entry : option (string * string)) : result Expansion :=
  ensure (bool_decide (pipeline_id ∉ e_active e)) "Cross-pipeline cycle detected" ;;
  let e := enter e pipeline_id in
  refs ← references definition;
  let e := charge_transfers e (length refs) in
  ensure (Nat.leb (e_transfers e) MAX_TRANSFERS) "Composition exceeds three pipeline transfers" ;;
  order ← validate_pipeline_structure definition;
  sources ← with_context "Pipeline sources missing" (get_array definition "sources");
  steps ← with_context "Pipeline steps missing" (get_array definition "pipeline");
  let e := charge_blocks e (length sources + length steps) in
  ensure (Nat.leb (e_blocks e) MAX_BLOCKS) "Expanded composition exceeds 256 blocks" ;;
  reachable ← entry_reachable sources steps order entry;
  names ← name_sources sources entry ∅;
  '(next_id, names) ← name_steps steps entry reachable (e_next_id e) names;
  let e := set_next_id e next_id in
  e ← emit_steps child definitions pipeline_id revision_id entry reachable names steps e;
  Ok (leave e pipeline_id).

(** [Expansion::append].  A nested call is made for a transfer that has been
    charged before, so that four nested calls exhaust the transfer limit. *)
Fixpoint append (fuel : nat) (definitions : definitions_map) (e : Expansion)
    (pipeline_id revision_id : string) (definition : value) (entry : option (string * string))
    : result Expansion :=
  match fuel with
  | 0 => Err (Foreign "recursion limit")
  | S fuel =>
      append_body (fun e p r d en => append fuel definitions e p r d (Some en))
        definitions e pipeline_id revision_id definition entry
  end.
Definition APPEND_FUEL : nat := 4.

Record CompiledPipeline : Type := {
  cp_definition : value;
  cp_blocks : nat;
  cp_transfers : nat;
}.

Definition initial_expansion : Expansion :=
  {| e_active := ∅; e_steps := []; e_blocks := 0; e_transfers := 0; e_next_id := 0 |}.

Definition compile_with_stats (pipeline_id revision_id : string) (definition : value)
    (definitions : definitions_map) : result CompiledPipeline :=
  e ← append APPEND_FUEL definitions initial_expansion pipeline_id revision_id definition None;
  object ← with_context "Invalid pipeline" (as_object definition);
  Ok {| cp_definition := JObject (jinsert "pipeline" (JArray (e_steps e)) object);
        cp_blocks := e_blocks e; cp_transfers := e_transfers e |}.

Definition compile (pipeline_id revision_id : string) (definition : value)
    (definitions : definitions_map) : result value :=
  cp_definition <$> compile_with_stats pipeline_id revision_id definition definitions.
