(* ===== verification/CompositionFacts.v ===== *)
(** * CompositionFacts: compiled pipelines are flat, bounded and well formed

    Every occurrence of a linked pipeline is emitted under fresh names; the
    result of a compilation is again a well-formed definition, without
    transfers and within the block and transfer limits. *)

From S2P Require Import Prelude Text Json Graph Ontology OntologyFacts Pipeline PipelineFacts.
From S2P Require Import Composition.

(** ** Fresh names *)
Lemma linked_name_inj a b : linked_name a = linked_name b -> a = b.
Proof. unfold linked_name. intros E%(inj (String.append "__linked_")). by apply (inj pretty) in E. Qed.

Lemma linked_name_prefix n : starts_with "__linked_" (linked_name n) = true.
Proof. unfold linked_name. generalize (pretty n) as s. intros s. by destruct s. Qed.

(** [x] is a generated name with a number in [(lo, hi]]. *)
Definition between (lo hi : nat) (x : string) : Prop := exists k, lo < k <= hi /\ x = linked_name k.
(** [x] is not a generated name above [n]. *)
Definition settled (n : nat) (x : string) : Prop := forall k, n < k -> x <> linked_name k.

Lemma settled_mono n n' x : n <= n' -> settled n x -> settled n' x.
Proof. intros Hle H k Hk. apply H. lia. Qed.

Lemma between_settled lo hi x : between lo hi x -> settled hi x.
Proof. intros (k & Hk & ->) k' Hk' E%linked_name_inj. lia. Qed.

Lemma between_not_settled lo hi x : between lo hi x -> settled lo x -> False.
Proof. intros (k & Hk & ->) H. by apply (H k); [lia|]. Qed.

Lemma between_mono lo hi lo' hi' x : lo' <= lo -> hi <= hi' -> between lo hi x -> between lo' hi' x.
Proof. intros ? ? (k & ? & ->). exists k. split; [lia|done]. Qed.

(** ** Names and inputs of emitted steps *)
Definition name_of (s : value) : string := default EmptyString (get_str s "step").
Definition deps_of (s : value) : list string := default [] (get_array s "input_from" ≫= mapM as_str).

Lemma read_step_names s info :
  read_step s = Ok info -> si_id info = name_of s /\ si_deps info = deps_of s.
Proof.
  unfold read_step. intros H.
  apply bind_Ok_inv in H as (id & [Hid _]%required_string_Ok & H). apply bind_Ok_inv in H as (kind & _ & H).
  apply bind_Ok_inv in H as (inputs & Hi%context_Ok_inv & H).
  apply bind_Ok_inv in H as (deps & Hd & [= <-]). simpl. unfold name_of, deps_of. rewrite Hid, Hi. simpl.
  split; [done|]. apply mapM_Ok_Forall2 in Hd.
  assert (mapM as_str inputs = Some deps) as ->; [|done].
  clear Hi. induction Hd as [|v x inputs deps Hv _ IH]; [done|]. apply context_Ok_inv in Hv.
  simpl. rewrite Hv. simpl. setoid_rewrite IH. done.
Qed.

Lemma deps_of_strings s l : get s "input_from" = Some (json_strings l) -> deps_of s = l.
Proof.
  intros H. unfold deps_of, get_array. rewrite H. simpl.
  assert (mapM as_str (JString <$> l) = Some l) as ->; [|done].
  clear H. induction l as [|x l IH]; [done|]. simpl. setoid_rewrite IH. done.
Qed.

(** ** One step *)
Definition renames (names : gmap string string) (x y : string) : Prop := names !! x = Some y.
Definition branch_renamed (names : gmap string string) (b b' : string * value) : Prop :=
  b.1 = b'.1 /\ exists ts ts', b.2 = JArray ts /\ b'.2 = json_strings ts' /\
    Forall2 (fun v y => exists x, v = JString x /\ names !! x = Some y) ts ts'.

Definition TOUCHED : list string := ["step"; "input_from"; "origin"; "branches"; "type"; "pipeline_ref"].

(** [out] is [step] under its new name. *)
Record emitted (names : gmap string string) (mapped : string) (step out : value) : Prop := {
  em_name : get_str out "step" = Some mapped;
  em_inputs : exists ins outs, get_array step "input_from" = Some ins /\
    Forall2 (fun v y => exists x, v = JString x /\ names !! x = Some y) ins outs /\
    get out "input_from" = Some (json_strings outs);
  em_type : get_str out "type" = if is_transfer step then Some "forward" else get_str step "type";
  em_branches : match get_object step "branches" with
    | None => get_object out "branches" = None
    | Some b => exists b', get_object out "branches" = Some b' /\ Forall2 (branch_renamed names) b b'
    end;
  em_kept : forall key, key ∉ TOUCHED -> get out key = get step key;
}.

Lemma rename_Ok names message vs ys :
  mapM (rename names message) vs = Ok ys ->
  Forall2 (fun v y => exists x, v = JString x /\ names !! x = Some y) vs ys.
Proof.
  intros H%mapM_Ok_Forall2. eapply Forall2_impl; [exact H|]. intros v y E%context_Ok_inv.
  destruct v; try discriminate E. by eexists.
Qed.

Lemma rename_branches_Ok names b b' :
  rename_branches names b = Ok b' -> Forall2 (branch_renamed names) b b'.
Proof.
  revert b'. induction b as [|[label targets] b IH]; intros b'; simpl; [intros [= <-]; constructor|].
  intros (ts & Ht%context_Ok_inv & H)%bind_Ok_inv. apply bind_Ok_inv in H as (ys & Hy%rename_Ok & H).
  apply bind_Ok_inv in H as (rest & Hr & [= <-]). constructor; [|by apply IH].
  split; [done|]. destruct targets; simplify_eq/=. by eexists _, ys.
Qed.

Lemma expand_step_Ok pid rid entry names id mapped step object :
  expand_step pid rid entry names id mapped step = Ok object ->
  jget "step" object = Some (JString mapped) /\
  (exists ins outs, get_array step "input_from" = Some ins /\
    Forall2 (fun v y => exists x, v = JString x /\ names !! x = Some y) ins outs /\
    jget "input_from" object = Some (json_strings outs)) /\
  match get_object step "branches" with
  | None => jget "branches" object ≫= as_object = None
  | Some b => exists b', jget "branches" object = Some (JObject b') /\ Forall2 (branch_renamed names) b b'
  end /\
  (forall key, key ∉ ["step"; "input_from"; "origin"; "branches"] -> jget key object = get step key) /\
  (wf_value step = true -> NoDup object.*1).
Proof.
  unfold expand_step. intros H.
  apply bind_Ok_inv in H as (ins & Hi%context_Ok_inv & H). apply bind_Ok_inv in H as (outs & Ho%rename_Ok & H).
  apply bind_Ok_inv in H as (o & Hobj%context_Ok_inv & H). destruct step as [| | | | |m]; simplify_eq/=.
  set (o1 := jinsert "input_from" _ _) in H.
  set (o2 := if option_is_some entry then _ else o1) in H.
  assert (Hget : forall key, jget key o2 =
    if decide (key = "origin") then (if option_is_some entry then jget "origin" o2 else jget key o1)
    else jget key o1).
  { intros key. subst o2. destruct entry; simpl; case_decide; subst; try done.
    rewrite jget_jinsert. by rewrite decide_False. }
  assert (Hget1 : forall key, jget key o1 = if decide (key = "input_from") then Some (json_strings outs)
    else if decide (key = "step") then Some (JString mapped) else jget key o).
  { intros key. subst o1. rewrite !jget_jinsert. repeat case_decide; congruence. }
  assert (Hwf : wf_value (JObject o) = true -> NoDup o2.*1).
  { intros [Hnd _]%wf_object. subst o2 o1. destruct entry; simpl; repeat apply NoDup_jinsert; done. }
  unfold get_object. simpl.
  rewrite (Hget "branches"), decide_False, (Hget1 "branches"), !decide_False in H by done.
  destruct (jget "branches" o ≫= as_object) as [b|] eqn:Eb; simpl in H.
  - apply bind_Ok_inv in H as (b' & Hb'%rename_branches_Ok & [= <-]). split_and!.
    + rewrite jget_jinsert, decide_False, Hget, decide_False, Hget1 by done. done.
    + exists ins, outs. split_and!; [done..|].
      rewrite jget_jinsert, decide_False, Hget, decide_False, Hget1 by done. done.
    + exists b'. rewrite jget_jinsert, decide_True by done. done.
    + intros key Hk. rewrite jget_jinsert, decide_False, Hget, decide_False, Hget1, !decide_False by set_solver. done.
    + intros Hw. apply NoDup_jinsert. by apply Hwf.
  - injection H as <-. split_and!.
    + rewrite Hget, decide_False, Hget1 by done. done.
    + exists ins, outs. split_and!; [done..|]. rewrite Hget, decide_False, Hget1 by done. done.
    + rewrite Hget, decide_False, Hget1, !decide_False by done. done.
    + intros key Hk. rewrite Hget, decide_False, Hget1, !decide_False by set_solver. done.
    + exact Hwf.
Qed.

Lemma emitted_plain pid rid entry names id mapped step object :
  expand_step pid rid entry names id mapped step = Ok object -> is_transfer step = false ->
  emitted names mapped step (JObject object).
Proof.
  intros (Hn & Hi & Hb & Hk & _)%expand_step_Ok Ht. split.
  - unfold get_str. simpl. by rewrite Hn.
  - exact Hi.
  - rewrite Ht. unfold get_str. simpl. by rewrite (Hk "type") by set_solver.
  - unfold get_object at 2 3. simpl. destruct (get_object step "branches"); [|done].
    destruct Hb as (b' & -> & HF). by exists b'.
  - intros key Hkey. apply Hk. unfold TOUCHED in Hkey. set_solver.
Qed.

Lemma emitted_transfer pid rid entry names id mapped step object :
  wf_value step = true ->
  expand_step pid rid entry names id mapped step = Ok object -> is_transfer step = true ->
  emitted names mapped step
    (JObject (jinsert "type" (JString "forward") (jremove "pipeline_ref" object))) /\
  jget "pipeline_ref" object = get step "pipeline_ref".
Proof.
  intros Hwf (Hn & Hi & Hb & Hk & Hnd)%expand_step_Ok Ht. specialize (Hnd Hwf).
  assert (Hget : forall key, key <> "type" -> key <> "pipeline_ref" ->
    jget key (jinsert "type" (JString "forward") (jremove "pipeline_ref" object)) = jget key object).
  { intros key H1 H2. rewrite jget_jinsert, decide_False, jget_jremove, decide_False by done. done. }
  split; [|by apply Hk; set_solver]. split.
  - unfold get_str. simpl. by rewrite Hget, Hn.
  - destruct Hi as (ins & outs & ? & ? & ?). exists ins, outs. simpl. by rewrite Hget.
  - rewrite Ht. unfold get_str. simpl. by rewrite jget_jinsert, decide_True.
  - unfold get_object at 2 3. simpl. rewrite Hget by done. destruct (get_object step "branches"); [|done].
    destruct Hb as (b' & -> & HF). by exists b'.
  - intros key Hkey. unfold TOUCHED in Hkey. simpl. rewrite Hget by set_solver. apply Hk. set_solver.
Qed.

(** ** The names of an occurrence *)
Lemma name_sources_Ok sources entry names0 names ids :
  Forall2 declares_source sources ids -> NoDup ids -> (forall x, x ∈ ids -> names0 !! x = None) ->
  name_sources sources entry names0 = Ok names ->
  forall x y, names !! x = Some y <-> names0 !! x = Some y \/
    (x ∈ ids /\ match entry with Some (sel, t) => x = sel /\ y = t | None => y = x end).
Proof.
  intros HF. revert names0. induction HF as [|s i sources ids [Hid _] _ IH];
    intros names0 Hnd Hfresh; simpl.
  - intros [= <-] x y. split; [by left|]. intros [?|[?%elem_of_nil _]]; done.
  - apply NoDup_cons in Hnd as [Hi Hnd]. rewrite Hid. simpl.
    assert (Hf0 : forall x, x ∈ ids -> names0 !! x = None) by (intros; apply Hfresh; by right).
    assert (Hfn : forall y x, x ∈ ids -> <[i := y]> names0 !! x = None).
    { intros y x Hx. rewrite lookup_insert_ne; [auto|]. by intros ->. }
    assert (Hcons : forall x, x ∈ i :: ids <-> x = i \/ x ∈ ids) by (intros; apply elem_of_cons).
    assert (Hi0 : names0 !! i = None) by (apply Hfresh; by left).
    destruct entry as [[sel t]|].
    + destruct (String.eqb_spec i sel) as [->|Hne]; simpl; intros H x y.
      * rewrite (IH _ Hnd (Hfn t) H), lookup_insert, Hcons. case_decide; [subst; naive_solver|naive_solver].
      * rewrite (IH _ Hnd Hf0 H), Hcons. naive_solver.
    + intros H x y. rewrite (IH _ Hnd (Hfn i) H), lookup_insert, Hcons. case_decide; [subst; naive_solver|naive_solver].
Qed.

(** The ids of the steps an occurrence keeps. *)
Definition kept_ids (entry : option (string * string)) (reachable : gset string) (steps : list value)
    : list string :=
  List.filter (fun i => negb (skipped entry reachable i)) (omap (fun s => get_str s "step") steps).

Record step_names (entry : option (string * string)) (n n' : nat) (names0 names : gmap string string)
    (kept : list string) : Prop := {
  sn_le : n <= n';
  sn_old : forall x, x ∉ kept -> names !! x = names0 !! x;
  sn_new : forall x, x ∈ kept -> exists y, names !! x = Some y /\
    if option_is_some entry then between n n' y else y = x;
  sn_inj : forall x x' y, x ∈ kept -> x' ∈ kept -> names !! x = Some y -> names !! x' = Some y -> x = x';
}.

Lemma name_steps_Ok steps entry reachable n n' names0 names :
  NoDup (omap (fun s => get_str s "step") steps) ->
  name_steps steps entry reachable n names0 = Ok (n', names) ->
  step_names entry n n' names0 names (kept_ids entry reachable steps).
Proof.
  unfold kept_ids. revert n names0. induction steps as [|s steps IH]; intros n names0; simpl.
  - intros _ [= <- <-]. split; [lia|done| |]; intros x; [by intros ?%elem_of_nil|].
    by intros ? ? ?%elem_of_nil.
  - destruct (get_str s "step") as [i|]; simpl; [|done]. intros [Hi Hnd]%NoDup_cons.
    assert (Hout : forall x, x ∈ List.filter (fun i => negb (skipped entry reachable i))
      (omap (fun s => get_str s "step") steps) -> x <> i).
    { intros x [Hx _]%elem_of_bfilter ->. done. }
    destruct (skipped entry reachable i) eqn:Es; simpl; [by apply IH|].
    destruct (option_is_some entry) eqn:Ee; intros [Hle Hold Hnew Hinj]%IH; try done.
    + split; [lia| | |].
      * intros x [Hxi Hx]%not_elem_of_cons. rewrite Hold, lookup_insert_ne by done. done.
      * intros x [->|Hx]%elem_of_cons.
        -- exists (linked_name (S n)). rewrite Hold, lookup_insert_eq by (by intros ?%Hout).
           split; [done|]. rewrite Ee. exists (S n). split; [lia|done].
        -- destruct (Hnew x Hx) as (y & Hy & Hb). exists y. split; [done|]. rewrite Ee in *.
           revert Hb. apply between_mono; lia.
      * assert (Hi' : forall x y, x ∈ List.filter (fun i => negb (skipped entry reachable i))
          (omap (fun s => get_str s "step") steps) -> names !! i = Some y -> names !! x = Some y -> False).
        { intros x y Hx. rewrite Hold, lookup_insert_eq by (by intros ?%Hout). intros [= <-] Hy.
          destruct (Hnew x Hx) as (y & Hy' & Hb). rewrite Ee in Hb. rewrite Hy in Hy'. injection Hy' as <-.
          destruct Hb as (k & Hk & E%linked_name_inj). lia. }
        intros x x' y [->|Hx]%elem_of_cons [->|Hx']%elem_of_cons; [done| | |by apply Hinj].
        -- intros H1 H2. by destruct (Hi' x' y).
        -- intros H1 H2. by destruct (Hi' x y).
    + split; [lia| | |].
      * intros x [Hxi Hx]%not_elem_of_cons. rewrite Hold, lookup_insert_ne by done. done.
      * intros x [->|Hx]%elem_of_cons.
        -- exists i. rewrite Hold, lookup_insert_eq by (by intros ?%Hout). by rewrite Ee.
        -- destruct (Hnew x Hx) as (y & Hy & Hb). exists y. by rewrite Ee in *.
      * assert (Hid : forall x, x ∈ i :: List.filter (fun i => negb (skipped entry reachable i))
          (omap (fun s => get_str s "step") steps) -> names !! x = Some x).
        { intros x [->|Hx]%elem_of_cons.
          - by rewrite Hold, lookup_insert_eq by (by intros ?%Hout).
          - destruct (Hnew x Hx) as (y & Hy & Hb). rewrite Ee in Hb. by subst y. }
        intros x x' y Hx Hx'. rewrite (Hid x Hx), (Hid x' Hx'). congruence.
Qed.

(** ** What an expansion appends *)

(** A compiled step: readable, of a known kind, and not a transfer. *)
Definition compiled_step (s : value) : Prop :=
  exists info, read_step s = Ok info /\ kind_ok s (si_kind info) /\ si_kind info <> "pipeline".

(** [outer]: the nodes the appended steps may take input from; [own]: the names
    that were not generated. *)
Record appended (outer own : string -> Prop) (n n' : nat) (new : list value) : Prop := {
  ap_le : n <= n';
  ap_steps : forall s, s ∈ new -> compiled_step s;
  ap_range : forall s, s ∈ new -> own (name_of s) \/ between n n' (name_of s);
  ap_nodup : NoDup (name_of <$> new);
  ap_inputs : forall s x, s ∈ new -> x ∈ deps_of s -> outer x \/ x ∈ name_of <$> new;
  ap_acc : forall R : relation string,
    (forall s x, s ∈ new -> R x (name_of s) -> x ∈ deps_of s) ->
    (forall x, outer x -> Acc R x) -> forall s, s ∈ new -> Acc R (name_of s);
  ap_routes : Forall (route_ok new) new;
}.

Definition linked (t : string) : nat -> nat -> list value -> Prop :=
  appended (fun x => x = t) (fun _ => False).

Lemma emitted_name names N step out : emitted names N step out -> name_of out = N.
Proof. intros [H _ _ _ _]. unfold name_of. by rewrite H. Qed.

Lemma emitted_deps names N step out x :
  emitted names N step out -> x ∈ deps_of out ->
  exists i, names !! i = Some x /\ exists ins, get_array step "input_from" = Some ins /\ JString i ∈ ins.
Proof.
  intros [_ (ins & outs & Hi & HF & Ho) _ _ _]. rewrite (deps_of_strings _ _ Ho).
  intros [k Hk]%list_elem_of_lookup. destruct (Forall2_lookup_r _ _ _ _ _ HF Hk) as (v & Hv & i & -> & Hx).
  exists i. split; [done|]. exists ins. split; [done|]. by eapply list_elem_of_lookup_2.
Qed.

Lemma emitted_deps_rev names N step out ins i :
  emitted names N step out -> get_array step "input_from" = Some ins -> JString i ∈ ins ->
  exists x, names !! i = Some x /\ x ∈ deps_of out.
Proof.
  intros [_ (ins' & outs & Hi & HF & Ho) _ _ _] Hi'. rewrite Hi in Hi'. injection Hi' as ->.
  rewrite (deps_of_strings _ _ Ho). intros [k Hk]%list_elem_of_lookup.
  destruct (Forall2_lookup_l _ _ _ _ _ HF Hk) as (x & Hx & j & [= <-] & Hj).
  exists x. split; [done|]. by eapply list_elem_of_lookup_2.
Qed.

Lemma is_transfer_iff step : is_transfer step = true <-> get_str step "type" = Some "pipeline".
Proof.
  unfold is_transfer, opt_str_eqb. destruct (get_str step "type") as [t|]; [|by split].
  rewrite String.eqb_eq. split; [by intros ->|by intros [= ->]].
Qed.

Lemma emitted_compiled names N step out info :
  declares_step step info -> kind_ok step (si_kind info) -> emitted names N step out -> N <> "" ->
  compiled_step out.
Proof.
  intros Hd [Hk Hm] [Hn (ins & outs & Hi & HF & Ho) Ht _ Hkept] HN.
  pose proof (read_step_inv _ _ Hd) as (_ & _ & Htype & _).
  set (kind := if is_transfer step then "forward" else si_kind info).
  assert (Hkind : get_str out "type" = Some kind) by (subst kind; rewrite Ht; by case_match).
  assert (Hsome : kind <> "").
  { subst kind. destruct (is_transfer step); [done|]. intros E. rewrite E in Hk.
    apply str_in_elem_of in Hk. done. }
  eexists. split.
  - unfold read_step. rewrite (proj2 (required_string_Ok out "step" _ N)) by done. simpl.
    rewrite (proj2 (required_string_Ok out "type" _ kind)) by done. simpl.
    unfold get_array. rewrite Ho. simpl.
    assert (mapM (fun v => with_context "pipeline dependency must be a string" (as_str v)) (JString <$> outs) = Ok outs)
      as ->; [|reflexivity].
    apply mapM_Ok_Forall2. clear. induction outs; constructor; done.
  - simpl. subst kind. split.
    + split; [destruct (is_transfer step); [apply str_in_elem_of; done|done]|].
      unfold get_str. rewrite !Hkept by (unfold TOUCHED; set_solver). destruct (is_transfer step); [done|exact Hm].
    + destruct (is_transfer step) eqn:E; [done|]. intros Ep.
      assert (is_transfer step = true) by (apply is_transfer_iff; by rewrite Htype, Ep). congruence.
Qed.

(** ** The emission loop, step by step *)
Record seg : Type := Seg {
  sg_step : value;
  sg_id : string;
  sg_name : string;
  sg_out : value;
  sg_child : list value;
  sg_lo : nat;
  sg_hi : nat;
}.
Definition flat (segs : list seg) : list value := segs ≫= fun sg => sg_out sg :: sg_child sg.

Section emission.
Context (names : gmap string string) (entry : option (string * string)) (reachable : gset string).

(** The steps one kept step of the definition turns into. *)
Record seg_ok (sg : seg) : Prop := {
  so_id : get_str (sg_step sg) "step" = Some (sg_id sg);
  so_kept : skipped entry reachable (sg_id sg) = false;
  so_name : names !! sg_id sg = Some (sg_name sg);
  so_out : emitted names (sg_name sg) (sg_step sg) (sg_out sg);
  so_le : sg_lo sg <= sg_hi sg;
  so_child : if is_transfer (sg_step sg) then linked (sg_name sg) (sg_lo sg) (sg_hi sg) (sg_child sg)
             else sg_child sg = [];
}.

Inductive emits : nat -> list value -> nat -> list seg -> Prop :=
  | emits_nil n : emits n [] n []
  | emits_skip n n' s steps segs id : get_str s "step" = Some id -> skipped entry reachable id = true ->
      emits n steps n' segs -> emits n (s :: steps) n' segs
  | emits_seg n' steps segs sg : seg_ok sg ->
      emits (sg_hi sg) steps n' segs -> emits (sg_lo sg) (sg_step sg :: steps) n' (sg :: segs).

Lemma emits_le n steps n' segs : emits n steps n' segs -> n <= n'.
Proof. induction 1 as [|?????????|n' steps segs sg H _ IH]; [lia|lia|]. pose proof (so_le _ H). lia. Qed.

Lemma emits_elem n steps n' segs sg :
  emits n steps n' segs -> sg ∈ segs ->
  seg_ok sg /\ sg_step sg ∈ steps /\ n <= sg_lo sg /\ sg_hi sg <= n'.
Proof.
  induction 1 as [|?????????|n' steps segs sg' H Hem IH]; [by intros ?%elem_of_nil| |].
  - intros (? & ? & ? & ?)%IHemits. split_and!; [done|by right|done..].
  - pose proof (so_le _ H). apply emits_le in Hem.
    intros [->|(? & ? & ? & ?)%IH]%elem_of_cons; (split_and!; [done| |lia|lia]); [by left|by right].
Qed.

Lemma emits_kept n steps n' segs s id :
  emits n steps n' segs -> s ∈ steps -> get_str s "step" = Some id ->
  skipped entry reachable id = false -> exists sg, sg ∈ segs /\ sg_step sg = s.
Proof.
  induction 1 as [|n n' s' steps segs id' Hid Hsk _ IH|n' steps segs sg' H Hem IH];
    [by intros ?%elem_of_nil| |]; intros [->|Hs]%elem_of_cons Hi Hk.
  - congruence.
  - eauto.
  - exists sg'. split; [by left|done].
  - destruct IH as (sg & ? & ?); [done..|]. exists sg. split; [by right|done].
Qed.

(** Distinct segments use disjoint ranges of generated names. *)
Lemma emits_disjoint n steps n' segs sg sg' x :
  emits n steps n' segs -> sg ∈ segs -> sg' ∈ segs ->
  between (sg_lo sg) (sg_hi sg) x -> between (sg_lo sg') (sg_hi sg') x -> sg = sg'.
Proof.
  induction 1 as [|?????????|n' steps segs sg0 H Hem IH]; [by intros ?%elem_of_nil|done|].
  assert (Hsep : forall sg1, sg1 ∈ segs -> between (sg_lo sg0) (sg_hi sg0) x ->
    between (sg_lo sg1) (sg_hi sg1) x -> False).
  { intros sg1 Hsg1 (k & Hk & ->) (k' & Hk' & E%linked_name_inj).
    destruct (emits_elem _ _ _ _ _ Hem Hsg1) as (_ & _ & ? & _). lia. }
  intros [->|Hsg]%elem_of_cons [->|Hsg']%elem_of_cons H1 H2; [done| | |auto].
  - by destruct (Hsep sg').
  - by destruct (Hsep sg).
Qed.
End emission.

Lemma read_step_input s info x ins :
  read_step s = Ok info -> get_array s "input_from" = Some ins -> JString x ∈ ins <-> x ∈ deps_of s.
Proof.
  unfold read_step. intros H Hi.
  apply bind_Ok_inv in H as (id & _ & H). apply bind_Ok_inv in H as (kind & _ & H).
  rewrite Hi in H. simpl in H. apply bind_Ok_inv in H as (deps & Hd%mapM_Ok_Forall2 & _).
  unfold deps_of. rewrite Hi. simpl. assert (mapM as_str ins = Some deps) as ->.
  { clear Hi. induction Hd as [|v y ins deps Hv _ IH]; [done|]. apply context_Ok_inv in Hv.
    simpl. rewrite Hv. simpl. setoid_rewrite IH. done. }
  simpl. clear Hi. induction Hd as [|v y ins deps Hv _ IH]; [by rewrite !elem_of_nil|].
  apply context_Ok_inv in Hv. rewrite !elem_of_cons, IH. destruct v; naive_solver.
Qed.

Lemma read_step_array s info :
  read_step s = Ok info -> exists ins, get_array s "input_from" = Some ins.
Proof.
  unfold read_step. intros H. apply bind_Ok_inv in H as (id & _ & H).
  apply bind_Ok_inv in H as (kind & _ & H). apply bind_Ok_inv in H as (ins & Hi%context_Ok_inv & _). eauto.
Qed.

Lemma consumes_iff s info x :
  read_step s = Ok info -> consumes x s = true <-> detached s = false /\ x ∈ deps_of s.
Proof.
  intros H. destruct (read_step_array _ _ H) as [ins Hi].
  rewrite <-(read_step_input s info x ins H Hi). unfold consumes, detached.
  rewrite andb_true_iff, negb_true_iff, Hi. simpl. apply and_iff_compat_l.
  rewrite existsb_exists. split.
  - intros (v & Hv%list_elem_of_In & E). destruct v; try discriminate E. simpl in E.
    apply String.eqb_eq in E as ->. done.
  - intros Hv. exists (JString x). rewrite <-list_elem_of_In. split; [done|]. simpl. apply String.eqb_refl.
Qed.

Lemma emitted_detached names N step out : emitted names N step out -> detached out = detached step.
Proof.
  intros [_ _ _ _ Hk]. unfold detached, pointer_str. simpl. by rewrite (Hk "params") by (unfold TOUCHED; set_solver).
Qed.

Lemma compiled_name s : compiled_step s -> get_str s "step" = Some (name_of s) /\ name_of s <> "".
Proof.
  intros (info & Hr & _). pose proof (read_step_names _ _ Hr) as [<- _].
  by pose proof (read_step_inv _ _ Hr) as (-> & ? & _).
Qed.

(** Routes only depend on who consumes their output. *)
Lemma route_ok_consumers l l' s :
  (forall c, consumes (name_of s) c = true -> c ∈ l <-> c ∈ l') -> get_str s "step" = Some (name_of s) ->
  route_ok l s -> route_ok l' s.
Proof.
  intros Hc Hs (id & Hid & Hne & H). exists id. split_and!; [done..|].
  rewrite Hs in Hid. injection Hid as <-. case_decide; [|done].
  destruct H as (Hr & Hcap & branches & Hb & Hlen & HF & Ht). split_and!; [done..|].
  exists branches. split_and!; [done|apply Hlen|apply Hlen|done|]. intros t. rewrite Ht.
  apply exist_proper. intros c. split; intros (? & Hcc & ?); (split_and!; [|done..]); by apply (Hc c Hcc).
Qed.

Lemma step_ids_omap steps infos :
  Forall2 declares_step steps infos -> omap (fun s => get_str s "step") steps = si_id <$> infos.
Proof.
  induction 1 as [|s i l k Hd _ IH]; [done|]. simpl. destruct (read_step_inv _ _ Hd) as (-> & _).
  f_equal. exact IH.
Qed.

Lemma NoDup_bind_disjoint {A B} (f : A -> list B) l :
  NoDup l -> (forall a, a ∈ l -> NoDup (f a)) ->
  (forall a a' b, a ∈ l -> a' ∈ l -> b ∈ f a -> b ∈ f a' -> a = a') -> NoDup (l ≫= f).
Proof.
  induction 1 as [|a l Ha _ IH]; intros Hf Hd; simpl; [constructor|]. apply NoDup_app. split_and!.
  - apply Hf. by left.
  - intros b Hb (a' & Hb' & Ha')%list_elem_of_bind. apply Ha.
    by rewrite (Hd a a' b ltac:(by left) ltac:(by right) Hb Hb').
  - apply IH; [intros; apply Hf; by right|]. intros a1 a2 b H1 H2. apply Hd; by right.
Qed.

Lemma fmap_flat segs :
  name_of <$> flat segs = segs ≫= fun sg => name_of (sg_out sg) :: (name_of <$> sg_child sg).
Proof.
  unfold flat. induction segs as [|sg segs IH]; [done|]. simpl.
  f_equal. etransitivity; [apply fmap_app|]. f_equal. exact IH.
Qed.

Lemma emits_ids names entry reachable n steps n' segs :
  emits names entry reachable n steps n' segs -> NoDup (omap (fun s => get_str s "step") steps) ->
  NoDup (sg_id <$> segs) /\ forall x, x ∈ sg_id <$> segs -> x ∈ omap (fun s => get_str s "step") steps.
Proof.
  induction 1 as [|n n' s steps segs id Hid _ _ IH|n' steps segs sg Hok _ IH]; simpl.
  - intros _. split; [constructor|done].
  - rewrite Hid. intros [_ Hnd]%NoDup_cons. destruct (IH Hnd) as [? Hsub]. split; [done|].
    intros x Hx. right. by apply Hsub.
  - rewrite (so_id _ _ _ _ Hok). intros [Hn Hnd]%NoDup_cons. destruct (IH Hnd) as [? Hsub]. split.
    + apply NoDup_cons. split; [|done]. intros Hin. by apply Hn, Hsub.
    + intros x [->|Hx]%elem_of_cons; [by left|right]. by apply Hsub.
Qed.

(** *** Renamed branches *)
Lemma branch_renamed_strings names b b' :
  branch_renamed names b b' -> b.1 = b'.1 /\ exists xs ys, b.2 = json_strings xs /\ b'.2 = json_strings ys /\
    Forall2 (fun x y => names !! x = Some y) xs ys.
Proof.
  intros (Hl & ts & ys & Hb & Hb' & HF). split; [done|].
  assert (exists xs, ts = JString <$> xs /\ Forall2 (fun x y => names !! x = Some y) xs ys) as (xs & -> & HF').
  { clear -HF. induction HF as [|v y ts ys (x & -> & Hx) _ (xs & -> & HF)]; [by exists []; split; [|constructor]|].
    exists (x :: xs). split; [done|by constructor]. }
  by exists xs, ys.
Qed.

Lemma branch_target_renamed names b b' t' :
  Forall2 (branch_renamed names) b b' ->
  branch_target b' t' <-> exists t, branch_target b t /\ names !! t = Some t'.
Proof.
  unfold branch_target. intros HF. split.
  - intros (label & ys & [k Hk]%list_elem_of_lookup & Ht').
    destruct (Forall2_lookup_r _ _ _ _ _ HF Hk) as ([l v] & Hl & (_ & xs & ys' & Hx & Hy & Hxy)%branch_renamed_strings).
    simpl in *. injection Hy as Hy%json_strings_inj. subst ys' v.
    apply list_elem_of_lookup in Ht' as [j Hj].
    destruct (Forall2_lookup_r _ _ _ _ _ Hxy Hj) as (x & Hxj & Hn). exists x. split; [|done].
    exists l, xs. split; by eapply list_elem_of_lookup_2.
  - intros (t & (label & xs & [k Hk]%list_elem_of_lookup & Ht) & Hn).
    destruct (Forall2_lookup_l _ _ _ _ _ HF Hk) as ([l v] & Hl & (_ & xs' & ys & Hx & Hy & Hxy)%branch_renamed_strings).
    simpl in *. injection Hx as Hx%json_strings_inj. subst xs' v.
    apply list_elem_of_lookup in Ht as [j Hj].
    destruct (Forall2_lookup_l _ _ _ _ _ Hxy Hj) as (y & Hyj & Hny). exists l, ys.
    split; [by eapply list_elem_of_lookup_2|]. rewrite Hn in Hny. injection Hny as ->. by eapply list_elem_of_lookup_2.
Qed.

Lemma Forall2_inj_NoDup {A B} (R : A -> B -> Prop) xs ys :
  (forall x x' y, R x y -> R x' y -> x = x') -> Forall2 R xs ys -> NoDup xs -> NoDup ys.
Proof.
  intros Hinj. induction 1 as [|x y xs ys Hxy HF IH]; [constructor|]. intros [Hx Hnd]%NoDup_cons.
  apply NoDup_cons. split; [|auto]. intros [k Hk]%list_elem_of_lookup.
  destruct (Forall2_lookup_r _ _ _ _ _ HF Hk) as (x' & Hx' & Hr).
  apply Hx. rewrite (Hinj _ _ _ Hxy Hr). by eapply list_elem_of_lookup_2.
Qed.

Lemma branch_ok_renamed names b b' :
  (forall x x' y, names !! x = Some y -> names !! x' = Some y -> x = x') ->
  Forall2 (branch_renamed names) b b' -> Forall branch_ok b -> Forall branch_ok b'.
Proof.
  intros Hinj. induction 1 as [|e e' b b' He _ IH]; [constructor|]. intros [Hok HF]%Forall_cons.
  constructor; [|auto]. apply branch_renamed_strings in He as (Hl & xs & ys & Hx & Hy & Hxy).
  destruct Hok as (H1 & H2 & ts & Ht & Hne & Hnd). rewrite Hx in Ht. injection Ht as ->%json_strings_inj.
  unfold branch_ok. rewrite <-Hl. split_and!; [done..|]. exists ys. split_and!; [done| |].
  - intros ->. by inversion Hxy; subst.
  - by eapply (Forall2_inj_NoDup (fun x y => names !! x = Some y)).
Qed.

Section occurrence.
Context (names : gmap string string) (entry : option (string * string)) (reachable : gset string).
Context (outer own : string -> Prop) (n0 n1 n2 : nat).
Context (steps : list value) (sids : list string) (infos : list step_info) (segs : list seg).
Context (Hdecl : Forall2 declares_step steps infos).
Context (Hgraph : well_formed_graph (bound_of []) false steps sids infos).
Context (Hinj : forall x x' y, names !! x = Some y -> names !! x' = Some y -> x = x').
Context (Hset : forall x y, names !! x = Some y -> settled n1 y).
Context (Hstep : forall s x y, s ∈ steps -> get_str s "step" = Some x -> names !! x = Some y ->
  y <> "" /\ (own y \/ between n0 n1 y)).
Context (Hcases : forall x y, names !! x = Some y ->
  (exists s, s ∈ steps /\ get_str s "step" = Some x /\ skipped entry reachable x = false) \/
  (x ∈ sids /\ outer y)).
Context (Hle : n0 <= n1) (Hem : emits names entry reachable n1 steps n2 segs).

Lemma elem_of_flat s : s ∈ flat segs <-> exists sg, sg ∈ segs /\ (s = sg_out sg \/ s ∈ sg_child sg).
Proof.
  unfold flat. rewrite list_elem_of_bind. split.
  - intros (sg & [->|?]%elem_of_cons & ?); exists sg; auto.
  - intros (sg & ? & H). exists sg. by rewrite elem_of_cons.
Qed.

Lemma step_info_of s : s ∈ steps -> exists info, info ∈ infos /\ declares_step s info /\
  kind_ok s (si_kind info) /\ get_str s "step" = Some (si_id info).
Proof.
  intros [k Hk]%list_elem_of_lookup. destruct (Forall2_lookup_l _ _ _ _ _ Hdecl Hk) as (info & Hi & Hd).
  exists info. split_and!; [by eapply list_elem_of_lookup_2|done| |].
  - apply (Forall2_lookup_lr _ _ _ _ _ _ (wg_kinds _ _ _ _ _ Hgraph) Hk Hi).
  - by destruct (read_step_inv _ _ Hd) as (? & _).
Qed.

Lemma seg_facts sg : sg ∈ segs ->
  seg_ok names entry reachable sg /\ sg_step sg ∈ steps /\ n1 <= sg_lo sg /\ sg_hi sg <= n2 /\
  name_of (sg_out sg) = sg_name sg /\ compiled_step (sg_out sg).
Proof.
  intros Hsg. destruct (emits_elem _ _ _ _ _ _ _ _ Hem Hsg) as (Hok & Hin & Hlo & Hhi).
  destruct (step_info_of _ Hin) as (info & _ & Hd & Hk & _).
  split_and!; [done..|by eapply emitted_name, so_out|].
  eapply emitted_compiled; [done..|by eapply so_out|].
  by apply (Hstep _ _ _ Hin (so_id _ _ _ _ Hok) (so_name _ _ _ _ Hok)).
Qed.

Lemma child_linked sg s : sg ∈ segs -> s ∈ sg_child sg ->
  is_transfer (sg_step sg) = true /\ linked (sg_name sg) (sg_lo sg) (sg_hi sg) (sg_child sg).
Proof.
  intros Hsg Hs. destruct (seg_facts _ Hsg) as (Hok & _). pose proof (so_child _ _ _ _ Hok) as Hc.
  destruct (is_transfer (sg_step sg)); [done|]. rewrite Hc in Hs. by apply elem_of_nil in Hs.
Qed.

Lemma child_range sg s : sg ∈ segs -> s ∈ sg_child sg -> between (sg_lo sg) (sg_hi sg) (name_of s).
Proof.
  intros Hsg Hs. destruct (child_linked _ _ Hsg Hs) as [_ Hl].
  by destruct (ap_range _ _ _ _ _ Hl s Hs).
Qed.

Lemma seg_of_name x y : names !! x = Some y ->
  outer y \/ exists sg, sg ∈ segs /\ sg_id sg = x /\ sg_name sg = y.
Proof.
  intros Hy. destruct (Hcases _ _ Hy) as [(s & Hs & Hid & Hk)|[_ ?]]; [right|by left].
  destruct (emits_kept _ _ _ _ _ _ _ _ _ Hem Hs Hid Hk) as (sg & Hsg & <-). exists sg.
  destruct (seg_facts _ Hsg) as (Hok & _).
  pose proof (so_id _ _ _ _ Hok) as Hid'. pose proof (so_name _ _ _ _ Hok) as Hn.
  assert (sg_id sg = x) by congruence. split_and!; [done..|]. congruence.
Qed.

Lemma seg_unique sg sg' : sg ∈ segs -> sg' ∈ segs -> sg_id sg = sg_id sg' -> sg = sg'.
Proof.
  assert (Hnd : NoDup (sg_id <$> segs)).
  { eapply emits_ids; [exact Hem|]. rewrite (step_ids_omap _ _ Hdecl).
    by pose proof (wg_nodup _ _ _ _ _ Hgraph) as (_ & _ & ?)%NoDup_app. }
  intros [i Hi]%list_elem_of_lookup [j Hj]%list_elem_of_lookup E.
  assert (i = j) as ->; [|congruence].
  apply (NoDup_lookup _ _ _ (sg_id sg) Hnd); rewrite list_lookup_fmap; [by rewrite Hi|by rewrite Hj, E].
Qed.

Lemma out_settled sg : sg ∈ segs -> settled n1 (name_of (sg_out sg)).
Proof.
  intros Hsg. destruct (seg_facts _ Hsg) as (Hok & _ & _ & _ & -> & _).
  eapply Hset, so_name, Hok.
Qed.

Lemma out_not_child sg sg' s : sg ∈ segs -> sg' ∈ segs -> s ∈ sg_child sg' ->
  name_of (sg_out sg) <> name_of s.
Proof.
  intros Hsg Hsg' Hs E. pose proof (out_settled _ Hsg) as Hout. pose proof (child_range _ _ Hsg' Hs) as Hr.
  rewrite E in Hout. destruct (seg_facts _ Hsg') as (_ & _ & Hlo & _).
  eapply between_not_settled; [exact Hr|]. by eapply settled_mono.
Qed.

Lemma out_inj sg sg' : sg ∈ segs -> sg' ∈ segs -> name_of (sg_out sg) = name_of (sg_out sg') -> sg = sg'.
Proof.
  intros Hsg Hsg'. destruct (seg_facts _ Hsg) as (Hok & _ & _ & _ & -> & _).
  destruct (seg_facts _ Hsg') as (Hok' & _ & _ & _ & -> & _). intros E. apply seg_unique; [done..|].
  apply (Hinj _ _ (sg_name sg)); [apply Hok|]. rewrite E. apply Hok'.
Qed.

Lemma flat_nodup : NoDup (name_of <$> flat segs).
Proof.
  rewrite fmap_flat. apply NoDup_bind_disjoint.
  - eapply (NoDup_fmap_1 sg_id). eapply emits_ids; [exact Hem|]. rewrite (step_ids_omap _ _ Hdecl).
    by pose proof (wg_nodup _ _ _ _ _ Hgraph) as (_ & _ & ?)%NoDup_app.
  - intros sg Hsg. apply NoDup_cons. split.
    + intros (s & E & Hs)%list_elem_of_fmap. by apply (out_not_child sg sg s).
    + destruct (sg_child sg) as [|s l] eqn:Ec; [constructor|].
      destruct (child_linked sg s Hsg) as [_ Hl]; [rewrite Ec; by left|]. rewrite <-Ec. apply Hl.
  - intros sg sg' x Hsg Hsg' [->|(s & -> & Hs)%list_elem_of_fmap]%elem_of_cons
      [E|(s' & E & Hs')%list_elem_of_fmap]%elem_of_cons.
    + by apply out_inj.
    + by destruct (out_not_child sg sg' s' Hsg Hsg' Hs').
    + by destruct (out_not_child sg' sg s Hsg' Hsg Hs).
    + apply (emits_disjoint _ _ _ _ _ _ _ sg sg' (name_of s) Hem Hsg Hsg'); [by apply child_range|].
      rewrite E. by apply child_range.
Qed.

Lemma name_in_flat sg : sg ∈ segs -> sg_name sg ∈ name_of <$> flat segs.
Proof.
  intros Hsg. destruct (seg_facts _ Hsg) as (_ & _ & _ & _ & <- & _).
  apply list_elem_of_fmap_2, elem_of_flat. exists sg. auto.
Qed.

Lemma flat_inputs s x : s ∈ flat segs -> x ∈ deps_of s -> outer x \/ x ∈ name_of <$> flat segs.
Proof.
  intros (sg & Hsg & [->|Hs])%elem_of_flat Hx.
  - destruct (seg_facts _ Hsg) as (Hok & _).
    destruct (emitted_deps _ _ _ _ _ (so_out _ _ _ _ Hok) Hx) as (i & Hi & _).
    destruct (seg_of_name _ _ Hi) as [?|(sg' & Hsg' & _ & <-)]; [by left|right]. by apply name_in_flat.
  - destruct (child_linked _ _ Hsg Hs) as [_ Hl]. right.
    destruct (ap_inputs _ _ _ _ _ Hl s x Hs Hx) as [->|(s' & -> & Hs')%list_elem_of_fmap]; [by apply name_in_flat|].
    apply list_elem_of_fmap_2, elem_of_flat. exists sg. auto.
Qed.

(** The renamed graph is as well-founded as the definition it comes from. *)
Lemma names_acc (R : relation string) :
  (forall s x, s ∈ flat segs -> R x (name_of s) -> x ∈ deps_of s) ->
  (forall x, outer x -> Acc R x) -> forall i y, names !! i = Some y -> Acc R y.
Proof.
  intros HR Houter i. induction (wg_acyclic _ _ _ _ _ Hgraph i) as [i _ IH]. intros y Hy.
  destruct (seg_of_name _ _ Hy) as [?|(sg & Hsg & <- & <-)]; [auto|].
  destruct (seg_facts _ Hsg) as (Hok & Hin & _ & _ & Hn & _).
  constructor. intros x Hx. rewrite <-Hn in Hx. apply HR in Hx; [|apply elem_of_flat; exists sg; auto].
  destruct (emitted_deps _ _ _ _ _ (so_out _ _ _ _ Hok) Hx) as (j & Hj & ins & Hins & Hji).
  apply (IH j); [|done]. destruct (step_info_of _ Hin) as (info & Hinfo & Hd & _ & Hid).
  exists info. split_and!; [done| |].
  - rewrite (so_id _ _ _ _ Hok) in Hid. by injection Hid.
  - destruct (read_step_names _ _ Hd) as [_ ->]. by apply (read_step_input _ _ _ _ Hd Hins).
Qed.

Lemma flat_acc (R : relation string) :
  (forall s x, s ∈ flat segs -> R x (name_of s) -> x ∈ deps_of s) ->
  (forall x, outer x -> Acc R x) -> forall s, s ∈ flat segs -> Acc R (name_of s).
Proof.
  intros HR Houter s (sg & Hsg & Hs)%elem_of_flat. destruct (seg_facts _ Hsg) as (Hok & _ & _ & _ & Hn & _).
  assert (Hacc : Acc R (sg_name sg)) by (eapply names_acc; [done..|apply Hok]).
  destruct Hs as [->|Hs]; [by rewrite Hn|]. destruct (child_linked _ _ Hsg Hs) as [_ Hl].
  apply (ap_acc _ _ _ _ _ Hl R); [|by intros x ->|done].
  intros s' x Hs'. apply HR, elem_of_flat. exists sg. auto.
Qed.

Lemma flat_range s : s ∈ flat segs -> own (name_of s) \/ between n0 n2 (name_of s).
Proof.
  intros (sg & Hsg & [->|Hs])%elem_of_flat; destruct (seg_facts _ Hsg) as (Hok & Hin & Hlo & Hhi & Hn & _).
  - rewrite Hn. destruct (Hstep _ _ _ Hin (so_id _ _ _ _ Hok) (so_name _ _ _ _ Hok)) as [_ [?|Hb]]; [by left|right].
    revert Hb. apply between_mono; [lia|]. pose proof (so_le _ _ _ _ Hok). lia.
  - right. pose proof (child_range _ _ Hsg Hs) as Hb. revert Hb. apply between_mono; lia.
Qed.

Lemma flat_compiled s : s ∈ flat segs -> compiled_step s.
Proof.
  intros (sg & Hsg & [->|Hs])%elem_of_flat; [by apply seg_facts|].
  destruct (child_linked _ _ Hsg Hs) as [_ Hl]. by apply (ap_steps _ _ _ _ _ Hl).
Qed.

(** *** Routes *)
Lemma child_consumer sg s c :
  sg ∈ segs -> s ∈ sg_child sg -> c ∈ flat segs -> consumes (name_of s) c = true -> c ∈ sg_child sg.
Proof.
  intros Hsg Hs Hc Hcons. pose proof (child_range _ _ Hsg Hs) as Hb.
  destruct (seg_facts _ Hsg) as (_ & _ & Hlo & _).
  destruct (flat_compiled _ Hc) as (info & Hr & _). apply (consumes_iff _ _ _ Hr) in Hcons as [_ Hx].
  apply elem_of_flat in Hc as (sg' & Hsg' & [->|Hc]); destruct (seg_facts _ Hsg') as (Hok' & _).
  - destruct (emitted_deps _ _ _ _ _ (so_out _ _ _ _ Hok') Hx) as (i & Hi%Hset & _).
    exfalso. eapply between_not_settled; [exact Hb|]. by eapply settled_mono.
  - destruct (child_linked _ _ Hsg' Hc) as [_ Hl].
    destruct (ap_inputs _ _ _ _ _ Hl _ _ Hc Hx) as [E|(s' & E & Hs')%list_elem_of_fmap].
    + exfalso. eapply between_not_settled; [exact Hb|]. rewrite E. eapply settled_mono; [exact Hlo|].
      eapply Hset, so_name, Hok'.
    + rewrite (emits_disjoint _ _ _ _ _ _ _ sg sg' (name_of s) Hem Hsg Hsg'); [done..|].
      rewrite E. by apply child_range.
Qed.

Lemma own_consumer sg c :
  sg ∈ segs -> is_transfer (sg_step sg) = false -> c ∈ flat segs -> consumes (sg_name sg) c = true ->
  exists sg', sg' ∈ segs /\ c = sg_out sg'.
Proof.
  intros Hsg Ht Hc Hcons. destruct (flat_compiled _ Hc) as (info & Hr & _).
  apply (consumes_iff _ _ _ Hr) in Hcons as [_ Hx].
  apply elem_of_flat in Hc as (sg' & Hsg' & [->|Hc]); [by exists sg'|]. exfalso.
  destruct (seg_facts _ Hsg) as (Hok & _ & _ & _ & Hn & _).
  destruct (seg_facts _ Hsg') as (Hok' & _ & Hlo' & _ & Hn' & _).
  destruct (child_linked _ _ Hsg' Hc) as [Ht' Hl].
  destruct (ap_inputs _ _ _ _ _ Hl _ _ Hc Hx) as [E|(s' & E & Hs')%list_elem_of_fmap].
  - rewrite <-Hn, <-Hn' in E. apply out_inj in E as ->; [congruence|done..].
  - apply (out_not_child sg sg' s' Hsg Hsg' Hs'). by rewrite Hn.
Qed.

(** The consumers of a route's output in the expansion are its renamed consumers. *)
Lemma route_consumers sg t' :
  sg ∈ segs -> is_transfer (sg_step sg) = false ->
  (exists c, c ∈ flat segs /\ consumes (sg_name sg) c = true /\ get_str c "step" = Some t') <->
  (exists c t, c ∈ steps /\ consumes (sg_id sg) c = true /\ get_str c "step" = Some t /\
     skipped entry reachable t = false /\ names !! t = Some t').
Proof.
  intros Hsg Ht. destruct (seg_facts _ Hsg) as (Hok & _ & _ & _ & Hn & _). split.
  - intros (c & Hc & Hcons & Hname). destruct (own_consumer _ _ Hsg Ht Hc Hcons) as (sg' & Hsg' & ->).
    destruct (seg_facts _ Hsg') as (Hok' & Hin' & _ & _ & Hn' & (info' & Hr' & _)).
    apply (consumes_iff _ _ _ Hr') in Hcons as [Hdet Hx].
    destruct (emitted_deps _ _ _ _ _ (so_out _ _ _ _ Hok') Hx) as (i & Hi & ins & Hins & Hi').
    assert (i = sg_id sg) as -> by (eapply Hinj; [exact Hi|apply Hok]).
    destruct (step_info_of _ Hin') as (info & _ & Hd & _).
    exists (sg_step sg'), (sg_id sg'). split_and!; [done| |apply Hok'|apply Hok'|].
    + apply (consumes_iff _ _ _ Hd). rewrite <-(emitted_detached _ _ _ _ (so_out _ _ _ _ Hok')).
      split; [done|]. by apply (read_step_input _ _ _ _ Hd Hins).
    + unfold name_of in Hn'. rewrite Hname in Hn'. simpl in Hn'. rewrite Hn'. apply Hok'.
  - intros (c & t & Hc & Hcons & Hid & Hk & Hname).
    destruct (emits_kept _ _ _ _ _ _ _ _ _ Hem Hc Hid Hk) as (sg' & Hsg' & <-).
    destruct (seg_facts _ Hsg') as (Hok' & Hin' & _ & _ & Hn' & Hcomp).
    destruct (step_info_of _ Hin') as (info & _ & Hd & _).
    apply (consumes_iff _ _ _ Hd) in Hcons as [Hdet Hx]. destruct (read_step_array _ _ Hd) as [ins Hins].
    apply (read_step_input _ _ _ _ Hd Hins) in Hx.
    destruct (emitted_deps_rev _ _ _ _ _ _ (so_out _ _ _ _ Hok') Hins Hx) as (x & Hxn & Hxd).
    rewrite (so_name _ _ _ _ Hok) in Hxn. injection Hxn as <-.
    exists (sg_out sg'). destruct Hcomp as (info' & Hr' & _). split_and!.
    + apply elem_of_flat. exists sg'. auto.
    + apply (consumes_iff _ _ _ Hr'). by rewrite (emitted_detached _ _ _ _ (so_out _ _ _ _ Hok')).
    + pose proof (so_id _ _ _ _ Hok') as Hid'. rewrite Hid in Hid'. injection Hid' as ->.
      rewrite (em_name _ _ _ _ (so_out _ _ _ _ Hok')), <-(so_name _ _ _ _ Hok'). done.
Qed.

Lemma out_route sg : sg ∈ segs -> route_ok (flat segs) (sg_out sg).
Proof.
  intros Hsg. destruct (seg_facts _ Hsg) as (Hok & Hin & _ & _ & Hn & Hcomp).
  pose proof (compiled_name _ Hcomp) as [Hname Hne]. rewrite Hn in *.
  pose proof (so_out _ _ _ _ Hok) as [_ _ Htype Hbr Hkept].
  pose proof (wg_routes _ _ _ _ _ Hgraph) as HR. rewrite Forall_forall in HR.
  destruct (HR _ Hin) as (id & Hid & _ & Horig). rewrite (so_id _ _ _ _ Hok) in Hid. injection Hid as <-.
  exists (sg_name sg). split_and!; [done..|].
  destruct (is_transfer (sg_step sg)) eqn:Et.
  - rewrite decide_False in Horig by (apply is_transfer_iff in Et; by rewrite Et).
    rewrite Htype, decide_False by done. intros b' Hb'.
    destruct (get_object (sg_step sg) "branches") as [b|]; [|congruence].
    destruct Hbr as (b2 & Hb2 & HF). rewrite Hb2 in Hb'. injection Hb' as <-.
    rewrite (Horig b eq_refl) in HF. by inversion HF.
  - rewrite Htype. case_decide as Hr.
    2: { intros b' Hb'. destruct (get_object (sg_step sg) "branches") as [b|]; [|congruence].
         destruct Hbr as (b2 & Hb2 & HF). rewrite Hb2 in Hb'. injection Hb' as <-.
         rewrite (Horig b eq_refl) in HF. by inversion HF. }
    destruct Horig as ((r & Hrt & Hrin) & Hcap & b & Hb & Hlen & HFb & Htargets).
    rewrite Hb in Hbr. destruct Hbr as (b' & Hb' & HF). split_and!.
    + exists r. unfold get_str. rewrite Hkept by (unfold TOUCHED; set_solver). done.
    + intros v. rewrite Hkept by (unfold TOUCHED; set_solver). apply Hcap.
    + exists b'. rewrite <-(Forall2_length _ _ _ HF). split_and!; [done|lia|lia| |].
      * by apply (branch_ok_renamed names b).
      * intros t'. rewrite (branch_target_renamed _ _ _ _ HF), (route_consumers _ _ Hsg Et).
        setoid_rewrite Htargets. split.
        -- intros (t & (c & Hc & Hcons & Hcid) & Hnt). exists c, t. split_and!; [done..| |done].
           destruct (Hcases _ _ Hnt) as [(s & Hs & Hsid & Hk)|[Ho _]]; [done|exfalso].
           destruct (step_info_of _ Hc) as (info & Hinfo & _ & _ & Hid). rewrite Hcid in Hid. injection Hid as ->.
           pose proof (wg_nodup _ _ _ _ _ Hgraph) as (_ & Hdis & _)%NoDup_app.
           apply (Hdis _ Ho). by apply list_elem_of_fmap_2.
        -- intros (c & t & Hc & Hcons & Hcid & _ & Hnt). exists t. split; [by exists c|done].
Qed.

Lemma flat_routes : Forall (route_ok (flat segs)) (flat segs).
Proof.
  apply Forall_forall. intros s Hs. pose proof (flat_compiled _ Hs) as [Hname _]%compiled_name.
  apply elem_of_flat in Hs as (sg & Hsg & [->|Hs]); [by apply out_route|].
  destruct (child_linked _ _ Hsg Hs) as [_ Hl]. pose proof (ap_routes _ _ _ _ _ Hl) as HR.
  rewrite Forall_forall in HR. apply (route_ok_consumers (sg_child sg)); [|done|by apply HR].
  intros c Hc. split; [|by intros ?; apply (child_consumer sg s)].
  intros ?. apply elem_of_flat. exists sg. auto.
Qed.

(** One occurrence keeps the contract. *)
Lemma flat_appended : appended outer own n0 n2 (flat segs).
Proof.
  split.
  - apply emits_le in Hem. lia.
  - apply flat_compiled.
  - apply flat_range.
  - apply flat_nodup.
  - apply flat_inputs.
  - apply flat_acc.
  - apply flat_routes.
Qed.
End occurrence.

(** ** The emission loop builds such segments *)
Section loop.
Context (defs : definitions_map) (names : gmap string string) (entry : option (string * string)).
Context (reachable : gset string) (pid rid : string) (n1 : nat).
Context (child : Expansion -> string -> string -> value -> string * string -> result Expansion).
Context (Hset : forall x y, names !! x = Some y -> settled n1 y).
Context (Hchild : forall e p r d en e', defs !! (p, r) = Some d -> settled (e_next_id e) en.2 ->
  child e p r d en = Ok e' -> exists new, e_steps e' = e_steps e ++ new /\
    linked en.2 (e_next_id e) (e_next_id e') new).

Lemma emit_steps_Ok steps e e' :
  Forall (fun s => wf_value s = true) steps -> n1 <= e_next_id e ->
  emit_steps child defs pid rid entry reachable names steps e = Ok e' ->
  exists segs, e_steps e' = e_steps e ++ flat segs /\
    emits names entry reachable (e_next_id e) steps (e_next_id e') segs.
Proof.
  revert e. induction steps as [|s steps IH]; intros e Hwf Hle; simpl.
  - intros [= <-]. exists []. rewrite app_nil_r. split; [done|constructor].
  - apply Forall_cons in Hwf as [Hw Hwf]. intros (id & Hid%context_Ok_inv & H)%bind_Ok_inv.
    destruct (skipped entry reachable id) eqn:Hk.
    { apply IH in H as (segs & Hs & He); [|done..]. exists segs. split; [done|]. by eapply emits_skip. }
    apply bind_Ok_inv in H as (mapped & Hm%context_Ok_inv & H).
    apply bind_Ok_inv in H as (object & Hobj & H). apply bind_Ok_inv in H as (e1 & He1 & H).
    destruct (is_transfer s) eqn:Ht.
    + apply bind_Ok_inv in He1 as (v & Hv%context_Ok_inv & He1).
      apply bind_Ok_inv in He1 as (reference & Hr & He1).
      apply bind_Ok_inv in He1 as (d & Hd%context_Ok_inv & He1).
      apply Hchild in He1 as (new & Hnew & Hl); [|done|simpl; eapply settled_mono; [exact Hle|eauto]].
      simpl in *. pose proof (ap_le _ _ _ _ _ Hl).
      apply IH in H as (segs & Hs & He); [|done|lia].
      destruct (emitted_transfer _ _ _ _ _ _ _ _ Hw Hobj Ht) as [Hem _].
      exists (Seg s id mapped (JObject (jinsert "type" (JString "forward") (jremove "pipeline_ref" object)))
        new (e_next_id e) (e_next_id e1) :: segs). split.
      * rewrite Hs, Hnew. unfold flat. simpl. by rewrite <-!(assoc_L (++)).
      * eapply (emits_seg _ _ _ _ _ _ (Seg s id mapped _ new (e_next_id e) (e_next_id e1))); [|done].
        split; simpl; try done. by rewrite Ht.
    + injection He1 as <-. apply IH in H as (segs & Hs & He); [|done..]. simpl in *.
      exists (Seg s id mapped (JObject object) [] (e_next_id e) (e_next_id e) :: segs). split.
      * rewrite Hs. unfold flat. simpl. by rewrite <-(assoc_L (++)).
      * eapply (emits_seg _ _ _ _ _ _ (Seg s id mapped _ [] (e_next_id e) (e_next_id e))); [|done].
        split; simpl; try done; [by eapply emitted_plain|by rewrite Ht].
Qed.
End loop.

(** ** One call of [append] *)
Record append_run (child : Expansion -> string -> string -> value -> string * string -> result Expansion)
    (defs : definitions_map) (e : Expansion) (pid rid : string) (d : value)
    (entry : option (string * string)) (e' : Expansion) (refs : list PipelineReference)
    (sources steps : list value) (sids : list string) (infos : list step_info)
    (reachable : gset string) (names0 names : gmap string string) (n1 : nat) (e2 : Expansion) : Prop := {
  ar_active : pid ∉ e_active e;
  ar_refs : references d = Ok refs;
  ar_transfers : e_transfers e + length refs <= MAX_TRANSFERS;
  ar_graph : well_formed_graph (bound_of []) false steps sids infos;
  ar_sources : get_array d "sources" = Some sources;
  ar_steps : get_array d "pipeline" = Some steps;
  ar_decl_sources : Forall2 declares_source sources sids;
  ar_decl_steps : Forall2 declares_step steps infos;
  ar_blocks : e_blocks e + (length sources + length steps) <= MAX_BLOCKS;
  ar_names0 : name_sources sources entry ∅ = Ok names0;
  ar_names : name_steps steps entry reachable (e_next_id e) names0 = Ok (n1, names);
  ar_emit : emit_steps child defs pid rid entry reachable names steps
    {| e_active := {[pid]} ∪ e_active e; e_steps := e_steps e;
       e_blocks := e_blocks e + (length sources + length steps);
       e_transfers := e_transfers e + length refs; e_next_id := n1 |} = Ok e2;
  ar_result : e' = leave e2 pid;
}.

Lemma append_inv fuel defs e pid rid d entry e' :
  append (S fuel) defs e pid rid d entry = Ok e' ->
  exists refs sources steps sids infos reachable names0 names n1 e2,
    append_run (fun e p r d en => append fuel defs e p r d (Some en)) defs e pid rid d entry e'
      refs sources steps sids infos reachable names0 names n1 e2.
Proof.
  intros H. cbn [append] in H. unfold append_body in H.
  apply bind_Ok_inv in H as ([] & Ha%ensure_Ok_inv%bool_decide_eq_true & H).
  apply bind_Ok_inv in H as (refs & Hr & H).
  apply bind_Ok_inv in H as ([] & Ht%ensure_Ok_inv%Nat.leb_le & H).
  apply bind_Ok_inv in H as (order & Hv & H).
  apply bind_Ok_inv in H as (sources & Hs%context_Ok_inv & H).
  apply bind_Ok_inv in H as (steps & Hp%context_Ok_inv & H).
  apply bind_Ok_inv in H as ([] & Hb%ensure_Ok_inv%Nat.leb_le & H).
  apply bind_Ok_inv in H as (reachable & Hre & H).
  apply bind_Ok_inv in H as (names0 & Hn0 & H).
  apply bind_Ok_inv in H as ([n1 names] & Hn & H).
  apply bind_Ok_inv in H as (e2 & He & [= <-]).
  pose proof Hv as (sids & infos & (sources' & steps' & Hs' & Hp' & HFs & HFp & Hg) & _)
    %validate_pipeline_internal_iff.
  rewrite Hs in Hs'. rewrite Hp in Hp'. injection Hs' as <-. injection Hp' as <-.
  exists refs, sources, steps, sids, infos, reachable, names0, names, n1, e2. by split.
Qed.

Lemma wf_definition_steps d steps :
  wf_value d = true -> get_array d "pipeline" = Some steps -> Forall (fun s => wf_value s = true) steps.
Proof.
  intros Hw H. unfold get_array in H. destruct (get d "pipeline") as [v|] eqn:E; [|done].
  destruct v; simplify_eq/=. by apply wf_array, (wf_get _ _ _ Hw E).
Qed.

Lemma kept_ids_iff entry reachable steps x :
  x ∈ kept_ids entry reachable steps <->
  exists s, s ∈ steps /\ get_str s "step" = Some x /\ skipped entry reachable x = false.
Proof.
  unfold kept_ids. rewrite elem_of_bfilter, list_elem_of_omap, negb_true_iff. naive_solver.
Qed.

Section run.
Context (defs : definitions_map) (Hdefs : forall k d, defs !! k = Some d -> wf_value d = true).

Lemma append_linked fuel e pid rid d sel t e' :
  wf_value d = true -> settled (e_next_id e) t ->
  append fuel defs e pid rid d (Some (sel, t)) = Ok e' ->
  exists new, e_steps e' = e_steps e ++ new /\ linked t (e_next_id e) (e_next_id e') new.
Proof.
  revert e pid rid d sel t e'. induction fuel as [|fuel IH]; intros e pid rid d sel t e' Hwf Ht; [done|].
  intros (refs & sources & steps & sids & infos & reachable & names0 & names & n1 & e2 &
    [Hact Hrefs Htr Hg Hs Hp HFs HFp Hb Hn0 Hn Hem ->])%append_inv.
  pose proof (wg_nodup _ _ _ _ _ Hg) as Hnd. pose proof Hnd as (Hnds & Hdis & Hndp)%NoDup_app.
  pose proof (name_sources_Ok _ _ _ _ _ HFs Hnds (fun x _ => lookup_empty x) Hn0) as Hnames0.
  apply name_steps_Ok in Hn as [Hle Hold Hnew Hinj]; [|by rewrite (step_ids_omap _ _ HFp)].
  assert (Hsrc : forall x y, x ∉ kept_ids (Some (sel, t)) reachable steps -> names !! x = Some y ->
    x ∈ sids /\ x = sel /\ y = t).
  { intros x y Hx Hy. rewrite (Hold x Hx) in Hy. apply Hnames0 in Hy as [Hy|(? & -> & ->)]; [|done].
    by rewrite lookup_empty in Hy. }
  assert (Hset : forall x y, names !! x = Some y -> settled n1 y).
  { intros x y Hy. destruct (decide (x ∈ kept_ids (Some (sel, t)) reachable steps)) as [Hx|Hx].
    - destruct (Hnew x Hx) as (y' & Hy' & Hbt). simplify_eq/=. by eapply between_settled.
    - destruct (Hsrc x y Hx Hy) as (_ & _ & ->). by eapply settled_mono. }
  apply (emit_steps_Ok defs names (Some (sel, t)) reachable pid rid n1 _ Hset) in Hem as (segs & Hsteps & Hem);
    [|intros e0 p r d0 [s0 t0] e0' Hd0 Hs0; exact (IH e0 p r d0 s0 t0 e0' (Hdefs _ _ Hd0) Hs0)|by eapply wf_definition_steps|done].
  simpl in *. exists (flat segs). split; [done|].
  apply (flat_appended names (Some (sel, t)) reachable _ _ (e_next_id e) n1 _ steps sids infos); try done.
  - intros x x' y Hx Hx'.
    destruct (decide (x ∈ kept_ids (Some (sel, t)) reachable steps)) as [Hk|Hk],
      (decide (x' ∈ kept_ids (Some (sel, t)) reachable steps)) as [Hk'|Hk'].
    + by apply (Hinj x x' y).
    + destruct (Hnew x Hk) as (y' & Hy' & Hbt). destruct (Hsrc x' y Hk' Hx') as (_ & _ & ->). simplify_eq.
      by destruct (between_not_settled _ _ _ Hbt Ht).
    + destruct (Hnew x' Hk') as (y' & Hy' & Hbt). destruct (Hsrc x y Hk Hx) as (_ & _ & ->). simplify_eq.
      by destruct (between_not_settled _ _ _ Hbt Ht).
    + destruct (Hsrc x y Hk Hx) as (_ & -> & _). by destruct (Hsrc x' y Hk' Hx') as (_ & -> & _).
  - intros s x y Hin Hid Hy. destruct (decide (x ∈ kept_ids (Some (sel, t)) reachable steps)) as [Hk|Hk].
    + destruct (Hnew x Hk) as (y' & Hy' & Hbt). simplify_eq/=. split; [|by right].
      destruct Hbt as (k & _ & ->). done.
    + destruct (Hsrc x y Hk Hy) as (Hxs & _). exfalso. apply (Hdis x Hxs).
      rewrite <-(step_ids_omap _ _ HFp). apply list_elem_of_omap. by exists s.
  - intros x y Hy. destruct (decide (x ∈ kept_ids (Some (sel, t)) reachable steps)) as [Hk|Hk].
    + left. by apply kept_ids_iff.
    + right. by destruct (Hsrc x y Hk Hy) as (? & _ & ?).
Qed.

Lemma collect_references_names nodes_steps nodes acc refs node :
  collect_references nodes_steps nodes acc = Ok refs -> node ∈ nodes ->
  exists id, node_id node = Some id /\ starts_with "__linked_" id = false.
Proof.
  revert acc. induction nodes as [|v nodes IH]; intros acc; [by intros _ ?%elem_of_nil|]. cbn [collect_references].
  intros (id & Hid%context_Ok_inv & H)%bind_Ok_inv.
  apply bind_Ok_inv in H as (_ & Hres%ensure_Ok_inv & H).
  apply andb_prop in Hres as [Hres%negb_true_iff _]. intros [->|Hin]%elem_of_cons; [eauto|].
  destruct (is_transfer v).
  - apply bind_Ok_inv in H as (r & _ & H). apply bind_Ok_inv in H as (_ & _ & H). eauto.
  - apply bind_Ok_inv in H as (_ & _ & H). eauto.
Qed.

Lemma references_names d refs sources steps node :
  references d = Ok refs -> get_array d "sources" = Some sources -> get_array d "pipeline" = Some steps ->
  node ∈ sources ++ steps -> exists id, node_id node = Some id /\ starts_with "__linked_" id = false.
Proof.
  unfold references. intros H Hs Hp. rewrite Hs, Hp in H. simpl in H.
  apply bind_Ok_inv in H as (_ & _ & H). by eapply collect_references_names.
Qed.

Lemma settled_unreserved n x : starts_with "__linked_" x = false -> settled n x.
Proof. intros H k _ ->. by rewrite linked_name_prefix in H. Qed.

(** Source names outside of the compiler's name space. *)
Definition plain_sources (d : value) : Prop :=
  forall sources s, get_array d "sources" = Some sources -> s ∈ sources -> get s "step" = None.

Lemma node_id_source s id : get s "step" = None -> declares_source s id -> node_id s = Some id.
Proof. intros Hn [H _]. unfold node_id. rewrite Hn. exact H. Qed.

Lemma node_id_step s info : declares_step s info -> node_id s = Some (si_id info).
Proof.
  intros H. destruct (read_step_inv _ _ H) as (Hid & _). unfold node_id, get_str in *.
  by destruct (get s "step").
Qed.

Lemma append_root fuel e pid rid d e' :
  wf_value d = true -> plain_sources d ->
  append fuel defs e pid rid d None = Ok e' ->
  exists sources sids step_ids new,
    get_array d "sources" = Some sources /\ Forall2 declares_source sources sids /\
    e_steps e' = e_steps e ++ new /\ NoDup (sids ++ step_ids) /\
    (forall x, x ∈ sids -> settled 0 x) /\
    appended (fun x => x ∈ sids) (fun x => x ∈ step_ids) (e_next_id e) (e_next_id e') new.
Proof.
  intros Hwf Hplain. destruct fuel as [|fuel]; [done|].
  intros (refs & sources & steps & sids & infos & reachable & names0 & names & n1 & e2 &
    [Hact Hrefs Htr Hg Hs Hp HFs HFp Hb Hn0 Hn Hem ->])%append_inv.
  pose proof (wg_nodup _ _ _ _ _ Hg) as Hnd. pose proof Hnd as (Hnds & Hdis & Hndp)%NoDup_app.
  pose proof (name_sources_Ok _ _ _ _ _ HFs Hnds (fun x _ => lookup_empty x) Hn0) as Hnames0.
  apply name_steps_Ok in Hn as [Hle Hold Hnew Hinj]; [|by rewrite (step_ids_omap _ _ HFp)].
  assert (Hsids : forall x, x ∈ sids -> settled 0 x).
  { intros x [k Hk]%list_elem_of_lookup. destruct (Forall2_lookup_r _ _ _ _ _ HFs Hk) as (s & Hsk & Hd).
    apply list_elem_of_lookup_2 in Hsk.
    destruct (references_names _ _ _ _ s Hrefs Hs Hp) as (id & Hid & Hres); [by apply elem_of_app; left|].
    rewrite (node_id_source s x (Hplain _ _ Hs Hsk) Hd) in Hid. injection Hid as <-. by apply settled_unreserved. }
  assert (Hpids : forall s x, s ∈ steps -> get_str s "step" = Some x -> settled 0 x /\ x ∈ si_id <$> infos /\ x <> "").
  { intros s x Hin Hx. destruct (references_names _ _ _ _ s Hrefs Hs Hp) as (id & Hid & Hres); [by apply elem_of_app; right|].
    apply list_elem_of_lookup in Hin as [k Hk]. destruct (Forall2_lookup_l _ _ _ _ _ HFp Hk) as (info & Hinfo & Hd).
    destruct (read_step_inv _ _ Hd) as (Hx' & Hne & _). rewrite Hx in Hx'. injection Hx' as ->.
    rewrite (node_id_step _ _ Hd) in Hid. injection Hid as <-. split_and!; [by apply settled_unreserved| |done].
    apply list_elem_of_fmap_2. by eapply list_elem_of_lookup_2. }
  assert (Hid : forall x y, names !! x = Some y -> y = x /\
    ((x ∉ kept_ids None reachable steps /\ x ∈ sids) \/ x ∈ kept_ids None reachable steps)).
  { intros x y Hy. destruct (decide (x ∈ kept_ids None reachable steps)) as [Hx|Hx].
    - destruct (Hnew x Hx) as (y' & Hy' & Hbt). simplify_eq/=. auto.
    - rewrite (Hold x Hx) in Hy. apply Hnames0 in Hy as [Hy|[? ->]]; [by rewrite lookup_empty in Hy|auto]. }
  assert (Hset : forall x y, names !! x = Some y -> settled n1 y).
  { intros x y Hy. destruct (Hid x y Hy) as [-> [[_ Hx]|(s & Hin & Hx & _)%kept_ids_iff]].
    - eapply settled_mono; [|by apply Hsids]. lia.
    - destruct (Hpids s x Hin Hx) as (? & _). eapply settled_mono; [|done]. lia. }
  apply (emit_steps_Ok defs names None reachable pid rid n1 _ Hset) in Hem as (segs & Hsteps & Hem);
    [|intros e0 p r d0 [s0 t0] e0' Hd0 Hs0; exact (append_linked fuel e0 p r d0 s0 t0 e0' (Hdefs _ _ Hd0) Hs0)|
     by eapply wf_definition_steps|done].
  simpl in *. exists sources, sids, (si_id <$> infos), (flat segs). split_and!; [done..|].
  apply (flat_appended names None reachable _ _ (e_next_id e) n1 _ steps sids infos); try done.
  - intros x x' y Hx Hx'. destruct (Hid _ _ Hx) as [-> _]. by destruct (Hid _ _ Hx') as [-> _].
  - intros s x y Hin Hx Hy. destruct (Hid _ _ Hy) as [-> _].
    destruct (Hpids s x Hin Hx) as (_ & ? & ?). auto.
  - intros x y Hy. destruct (Hid _ _ Hy) as [-> [[_ ?]|Hk]]; [by right|left]. by apply kept_ids_iff.
Qed.
End run.

(** ** The compiled definition is well formed *)
Lemma compiled_infos new :
  (forall s, s ∈ new -> compiled_step s) -> exists infos, Forall2 declares_step new infos /\
    Forall2 (fun s info => kind_ok s (si_kind info)) new infos.
Proof.
  induction new as [|s new IH]; intros H; [by exists []; split; constructor|].
  destruct (H s ltac:(by left)) as (info & Hr & Hk & _).
  destruct IH as (infos & H1 & H2); [intros; apply H; by right|].
  exists (info :: infos). split; by constructor.
Qed.

Lemma infos_of_new new infos info :
  Forall2 declares_step new infos -> info ∈ infos ->
  exists s, s ∈ new /\ si_id info = name_of s /\ si_deps info = deps_of s.
Proof.
  intros HF [k Hk]%list_elem_of_lookup. destruct (Forall2_lookup_r _ _ _ _ _ HF Hk) as (s & Hs & Hd).
  exists s. split; [by eapply list_elem_of_lookup_2|]. by apply read_step_names.
Qed.

Lemma infos_names new infos :
  Forall2 declares_step new infos -> si_id <$> infos = name_of <$> new.
Proof.
  induction 1 as [|s i new infos Hd _ IH]; [done|]. rewrite !fmap_cons, IH.
  by destruct (read_step_names _ _ Hd) as [-> _].
Qed.

Lemma name_of_inj new s s' :
  NoDup (name_of <$> new) -> s ∈ new -> s' ∈ new -> name_of s = name_of s' -> s = s'.
Proof.
  intros Hnd [i Hi]%list_elem_of_lookup [j Hj]%list_elem_of_lookup E.
  assert (i = j) as ->; [|congruence].
  apply (NoDup_lookup _ _ _ (name_of s) Hnd); rewrite list_lookup_fmap; [by rewrite Hi|by rewrite Hj, E].
Qed.

Lemma appended_graph sids step_ids n' new infos :
  NoDup (sids ++ step_ids) -> (forall x, x ∈ sids -> settled 0 x) ->
  appended (fun x => x ∈ sids) (fun x => x ∈ step_ids) 0 n' new ->
  Forall2 declares_step new infos -> Forall2 (fun s info => kind_ok s (si_kind info)) new infos ->
  well_formed_graph (bound_of []) false new sids infos.
Proof.
  intros Hnd Hset [_ _ Hrange Hnodup Hin Hacc Hroutes] HFd HFk.
  apply NoDup_app in Hnd as (Hnds & Hdis & _). rewrite <-(infos_names _ _ HFd) in Hnodup, Hin.
  assert (Hfresh : forall x, x ∈ sids -> x ∉ si_id <$> infos).
  { intros x Hx. rewrite (infos_names _ _ HFd). intros (s & -> & Hs)%list_elem_of_fmap.
    destruct (Hrange s Hs) as [Ho|Hb]; [by apply (Hdis _ Hx)|]. eapply between_not_settled; eauto. }
  assert (Hfeeds : forall s x, s ∈ new -> feeds infos x (name_of s) -> x ∈ deps_of s).
  { intros s x Hs (info & Hi & Hid & Hx). destruct (infos_of_new _ _ _ HFd Hi) as (s' & Hs' & Hn & Hd).
    rewrite Hd in Hx. rewrite (infos_names _ _ HFd) in Hnodup.
    rewrite (name_of_inj new s s' Hnodup Hs Hs'); [done|]. congruence. }
  split; try assumption; try (intros [=]).
  - apply NoDup_app. by split_and!.
  - intros x n (info & Hi & _ & Hx). destruct (infos_of_new _ _ _ HFd Hi) as (s & Hs & _ & Hd).
    rewrite Hd in Hx. rewrite elem_of_app. by apply (Hin s x).
  - assert (Hsrc : forall x, x ∈ sids -> Acc (feeds infos) x).
    { intros x Hx. constructor. intros y (info & Hi & Hid & _). exfalso. apply (Hfresh x Hx).
      rewrite <-Hid. by apply list_elem_of_fmap_2. }
    intros n. constructor. intros x (info & Hi & <- & Hx).
    destruct (infos_of_new _ _ _ HFd Hi) as (s & Hs & Hn & Hd).
    apply (Acc_inv (Hacc (feeds infos) Hfeeds Hsrc s Hs)). exists info. by rewrite Hn.
Qed.


(** ** Budgets *)
Definition within (e : Expansion) : Prop :=
  e_transfers e <= MAX_TRANSFERS /\ e_blocks e <= MAX_BLOCKS.
(** From [e] to [e'] the counters grow at least as fast as the emitted steps. *)
Definition grows (extra : nat) (e e' : Expansion) : Prop :=
  within e' /\ e_transfers e <= e_transfers e' /\
  length (e_steps e') + e_blocks e <= length (e_steps e) + extra + e_blocks e'.

Lemma emit_steps_grows child defs pid rid entry reachable names steps e e' :
  (forall e p r d en e', within e -> child e p r d en = Ok e' -> grows 0 e e') ->
  within e -> emit_steps child defs pid rid entry reachable names steps e = Ok e' ->
  grows (length steps) e e'.
Proof.
  intros Hchild. revert e. induction steps as [|s steps IH]; intros e Hw; simpl.
  - intros [= <-]. split_and!; [done|lia|lia].
  - intros (id & _ & H)%bind_Ok_inv. destruct (skipped entry reachable id).
    { apply IH in H as (? & ? & ?); [|done]. split_and!; [done|lia|lia]. }
    apply bind_Ok_inv in H as (mapped & _ & H). apply bind_Ok_inv in H as (object & _ & H).
    apply bind_Ok_inv in H as (e1 & He1 & H).
    assert (Hg : grows 1 e e1).
    { destruct (is_transfer s).
      - apply bind_Ok_inv in He1 as (v & _ & He1). apply bind_Ok_inv in He1 as (r & _ & He1).
        apply bind_Ok_inv in He1 as (d & _ & He1). apply Hchild in He1 as (? & H1 & H2); [|done].
        simpl in *. rewrite length_app in H2. simpl in H2. split_and!; [done|lia|lia].
      - injection He1 as <-. split_and!; [done|simpl; lia|]. simpl. rewrite length_app. simpl. lia. }
    destruct Hg as (Hw1 & ? & ?). apply IH in H as (? & ? & ?); [|done]. split_and!; [done|lia|lia].
Qed.

Lemma append_grows fuel defs e pid rid d entry e' :
  append fuel defs e pid rid d entry = Ok e' ->
  grows 0 e e' /\ exists sources, get_array d "sources" = Some sources /\
    length (e_steps e') + length sources + e_blocks e <= length (e_steps e) + e_blocks e'.
Proof.
  revert e pid rid d entry e'. induction fuel as [|fuel IH]; intros e pid rid d entry e'; [done|].
  intros (refs & sources & steps & sids & infos & reachable & names0 & names & n1 & e2 &
    [_ _ Htr _ Hs _ _ _ Hb _ _ Hem ->])%append_inv.
  apply emit_steps_grows in Hem as ([Hw1 Hw2] & H1 & H2); simpl in *.
  - split; [split_and!; [by split|simpl; lia|simpl; lia]|]. exists sources. split; [done|simpl; lia].
  - intros e0 p r d0 en e0' _. apply IH.
  - by split.
Qed.

(** The admission limits hold for every successful compilation: at most
    three transfers and 256 charged blocks, and the compiled graph has no more
    blocks than were charged. *)
Theorem compile_budgets pid rid definition defs compiled :
  compile_with_stats pid rid definition defs = Ok compiled ->
  cp_transfers compiled <= MAX_TRANSFERS /\ cp_blocks compiled <= MAX_BLOCKS /\
  exists sources steps, get_array (cp_definition compiled) "sources" = Some sources /\
    get_array (cp_definition compiled) "pipeline" = Some steps /\
    length sources + length steps <= cp_blocks compiled.
Proof.
  intros H. unfold compile_with_stats in H. apply bind_Ok_inv in H as (e & He & H).
  apply bind_Ok_inv in H as (object & Ho%context_Ok_inv & [= <-]).
  apply append_grows in He as [([Ht Hb] & _ & _) (sources & Hs & Hlen)]. simpl in *. split_and!; [done..|].
  destruct definition as [| | | | |m]; try discriminate Ho. injection Ho as ->.
  exists sources, (e_steps e). split_and!; [| |lia]; unfold get_array in *; simpl in *;
    rewrite jget_jinsert; [by rewrite decide_False|by rewrite decide_True].
Qed.

(** ** Termination *)
Lemma collect_references_length nodes_steps nodes acc refs :
  collect_references nodes_steps nodes acc = Ok refs ->
  length acc <= length refs /\ (existsb is_transfer nodes = true -> length acc < length refs).
Proof.
  revert acc. induction nodes as [|v nodes IH]; intros acc; cbn [collect_references].
  { intros [= <-]. simpl. split; [lia|done]. }
  intros (id & _ & H)%bind_Ok_inv. apply bind_Ok_inv in H as (_ & _ & H). simpl.
  destruct (is_transfer v); simpl.
  - apply bind_Ok_inv in H as (r & _ & H). apply bind_Ok_inv in H as (_ & _ & H).
    apply IH in H as [H _]. rewrite length_app in H. simpl in H. split; intros; lia.
  - apply bind_Ok_inv in H as (_ & _ & H). by apply IH.
Qed.

Lemma references_count d refs steps s :
  references d = Ok refs -> get_array d "pipeline" = Some steps -> s ∈ steps -> is_transfer s = true ->
  1 <= length refs.
Proof.
  unfold references. intros H Hp Hs Ht. apply bind_Ok_inv in H as (sources & _ & H).
  rewrite Hp in H. simpl in H. apply bind_Ok_inv in H as (_ & _ & H).
  apply collect_references_length in H as [_ H]. simpl in H. apply H.
  rewrite existsb_app. apply orb_true_iff. right. apply existsb_exists. exists s.
  by rewrite <-list_elem_of_In.
Qed.

(** Two recursive calls that agree on all states with enough transfers charged
    give the same emission. *)
Lemma emit_steps_agree child child' defs pid rid entry reachable names steps e k :
  (forall e p r d en, k <= e_transfers e <= MAX_TRANSFERS -> child e p r d en = child' e p r d en) ->
  (forall e p r d en e', within e -> child e p r d en = Ok e' -> grows 0 e e') ->
  (existsb is_transfer steps = true -> k <= e_transfers e) -> within e ->
  emit_steps child defs pid rid entry reachable names steps e =
  emit_steps child' defs pid rid entry reachable names steps e.
Proof.
  intros Hag Hgr. revert e. induction steps as [|s steps IH]; intros e Hk Hw; simpl; [done|].
  destruct (get_str s "step") as [id|]; simpl; [|done]. simpl in Hk.
  assert (Hk' : existsb is_transfer steps = true -> k <= e_transfers e).
  { intros E. apply Hk. rewrite E. apply orb_true_r. }
  destruct (skipped entry reachable id); [by apply IH|].
  destruct (names !! id) as [mapped|]; simpl; [|done].
  destruct (expand_step _ _ _ _ _ _ _) as [object|]; simpl; [|done].
  destruct (is_transfer s) eqn:Et; simpl in Hk.
  - destruct (jget "pipeline_ref" object) as [v|]; simpl; [|done].
    destruct (parse_reference v) as [r|]; simpl; [|done]. destruct (defs !! _) as [d|]; simpl; [|done].
    rewrite Hag by (simpl; split; [by apply Hk|apply Hw]).
    destruct (child' _ _ _ _ _) as [e1|] eqn:E1; simpl; [|done].
    rewrite <-Hag in E1 by (simpl; split; [by apply Hk|apply Hw]).
    apply Hgr in E1 as (Hw1 & Ht & _); [|done]. simpl in Ht. apply IH; [|done].
    intros _. specialize (Hk eq_refl). lia.
  - by apply IH.
Qed.

Lemma append_fuel fuel defs e pid rid d entry :
  e_transfers e <= MAX_TRANSFERS -> S MAX_TRANSFERS <= fuel + e_transfers e ->
  append (S fuel) defs e pid rid d entry = append fuel defs e pid rid d entry.
Proof.
  revert e pid rid d entry. induction fuel as [|fuel IH]; intros e pid rid d entry Hle Hf; [lia|].
  change (append_body (fun e p r d en => append (S fuel) defs e p r d (Some en)) defs e pid rid d entry =
    append_body (fun e p r d en => append fuel defs e p r d (Some en)) defs e pid rid d entry).
  unfold append_body.
  destruct (ensure (bool_decide (pid ∉ e_active e)) _) as [[]|]; [|done].
  destruct (references d) as [refs|] eqn:Hr; [|done]. cbn [mbind result_bind].
  destruct (Nat.leb_spec (e_transfers (charge_transfers (enter e pid) (length refs))) MAX_TRANSFERS)
    as [Ht|Ht]; [|done]. cbn [ensure mbind result_bind].
  destruct (validate_pipeline_structure d) as [order|]; [|done].
  destruct (get_array d "sources") as [sources|]; [|done].
  destruct (get_array d "pipeline") as [steps|] eqn:Hp; [|done].
  cbn [ensure with_context mbind result_bind].
  destruct (Nat.leb_spec (e_blocks (charge_blocks (charge_transfers (enter e pid) (length refs))
    (length sources + length steps))) MAX_BLOCKS) as [Hb|Hb]; [|done].
  cbn [ensure mbind result_bind].
  destruct (entry_reachable sources steps order entry) as [reachable|]; [|done].
  cbn [mbind result_bind]. destruct (name_sources sources entry ∅) as [names0|]; [|done].
  cbn [mbind result_bind]. destruct (name_steps _ _ _ _ _) as [[n1 names]|]; [|done].
  cbn [mbind result_bind].
  rewrite (emit_steps_agree _ (fun e p r d en => append fuel defs e p r d (Some en)) _ _ _ _ _ _ _ _
    (S (e_transfers e))); [done| | | |].
  - intros e0 p r d0 en [H1 H2]. apply IH; [done|lia].
  - intros e0 p r d0 en e0' _ H. by apply append_grows in H as [H _].
  - intros Hex. apply existsb_exists in Hex as (s & Hs%list_elem_of_In & Hst).
    pose proof (references_count _ _ _ _ Hr Hp Hs Hst). simpl. lia.
  - by split.
Qed.

(** The expansion terminates: every nested call has charged a transfer
    before, so that the recursion never goes deeper than the four calls the
    transfer limit allows, and more fuel never changes the outcome. *)
Theorem append_terminates k defs pid rid definition :
  append (k + APPEND_FUEL) defs initial_expansion pid rid definition None =
  append APPEND_FUEL defs initial_expansion pid rid definition None.
Proof.
  induction k as [|k IH]; [done|]. rewrite <-IH. change (S k + APPEND_FUEL) with (S (k + APPEND_FUEL)).
  apply append_fuel; unfold MAX_TRANSFERS, APPEND_FUEL; simpl; lia.
Qed.

(** ** Witnesses *)
Definition demo_revision : string := "aaaaaaaaaaaaaaaaaaaa".
Definition demo_transfer (id input target : string) : value :=
  demo_step id "pipeline" [input]
    [("pipeline_ref", JObject [("pipeline_id", JString target); ("revision_id", JString demo_revision);
       ("input_source", JString "in")])].
Definition demo_linked : value :=
  JObject [("sources", JArray [JObject [("id", JString "in")]]);
           ("pipeline", JArray [demo_step "store" "sink" ["in"] []])].
Definition demo_root : value :=
  JObject [("sources", JArray [JObject [("id", JString "intake")]]);
           ("pipeline", JArray [demo_transfer "first" "intake" "child"; demo_transfer "second" "intake" "child"])].
Definition demo_definitions : definitions_map := {[ ("child", demo_revision) := demo_linked ]}.


Lemma compile_budgets_witness :
  exists compiled, compile_with_stats "root" demo_revision demo_root demo_definitions = Ok compiled /\
    cp_transfers compiled = 2 /\ cp_blocks compiled = 7 /\ cp_blocks compiled <= MAX_BLOCKS.
Proof.
  destruct (compile_with_stats "root" demo_revision demo_root demo_definitions) as [compiled|e] eqn:E;
    [|vm_compute in E; discriminate E].
  destruct (compile_budgets "root" demo_revision demo_root demo_definitions compiled E) as (_ & Hb & _).
  exists compiled. split; [reflexivity|].
  split; [vm_compute in E; by injection E as <-|]. split; [vm_compute in E; by injection E as <-|exact Hb].
Defined.

(** A source that also carries a [step] field hides its real name from the
    check for reserved names. *)
Definition demo_smuggled : value :=
  JObject [("sources", JArray [JObject [("id", JString "__linked_1"); ("step", JString "harmless")]]);
           ("pipeline", JArray [demo_transfer "first" "__linked_1" "child"])].

(** The reserved-name check of [references] reads [step] before [id], so a
    source named [__linked_1] that also has a [step] field is accepted, and the
    compiled graph then has two nodes of that name and a cycle. *)
Theorem reserved_source_name_accepted :
  exists compiled,
    validate_pipeline_structure demo_smuggled = Ok ["__linked_1"; "first"] /\
    compile_with_stats "root" demo_revision demo_smuggled demo_definitions = Ok compiled /\
    validate_pipeline_structure (cp_definition compiled) =
      Err (Msg "duplicate_pipeline_node:__linked_1; pipeline_cycle").
Proof.
  destruct (compile_with_stats "root" demo_revision demo_smuggled demo_definitions) as [compiled|e] eqn:E;
    [|vm_compute in E; discriminate E].
  exists compiled. split; [vm_compute; reflexivity|]. split; [reflexivity|].
  vm_compute in E. injection E as <-. vm_compute. reflexivity.
Qed.
