(* ===== verification/State.v ===== *)
(** * State: the tenant projection stored at one revision (state.rs)

    The records of state.rs and the collaboration records they embed
    (ontology_authoring.rs), their derived [Serialize] image, which the size
    limits measure, and the composite key of ontology bindings. *)

From S2P Require Import Prelude Text Json Authoring.
From Stdlib Require Import Ascii.

(** ** Records *)
Record OntologyBranch : Type := {
  ob_parent_branch : string;
  ob_definition : value;
  ob_display_name : string;
  ob_base_definition : value;
  ob_base_display_name : string;
  ob_base_revision_id : string;
  ob_author : string;
  ob_updated_at_ms : Z;
}.

Record OntologyAuthoringState : Type := {
  oa_branches : gmap string OntologyBranch;
  oa_previous_revision_id : option string;
  oa_last_branch : string;
  oa_last_operation : string;
  oa_last_author : string;
  oa_updated_at_ms : Z;
  oa_deleted_at_ms : option Z;
}.
Definition default_ontology_authoring : OntologyAuthoringState :=
  {| oa_branches := ∅; oa_previous_revision_id := None; oa_last_branch := EmptyString;
     oa_last_operation := EmptyString; oa_last_author := EmptyString; oa_updated_at_ms := 0;
     oa_deleted_at_ms := None |}.

Record OntologyPublicationRecord : Type := {
  pub_publication_id : string;
  pub_revision_id : string;
  pub_lifecycle : string;
  pub_metadata : value;
  pub_base_version : string;
  pub_base_hash : string;
  pub_effective_hash : string;
  pub_author : string;
  pub_message : string;
  pub_published_at_ms : Z;
  pub_retired_at_ms : option Z;
}.

Record OntologyRecord : Type := {
  or_authoring : OntologyAuthoringState;
  or_ontology_id : string;
  or_display_name : string;
  or_ontology : value;
  or_author : string;
  or_message : string;
  or_created_at_ms : Z;
  or_production_publication : option OntologyPublicationRecord;
}.

Record PipelineRecord : Type := {
  pl_authoring : AuthoringState;
  pl_previous_revision_id : option string;
  pl_pipeline_id : string;
  pl_name : string;
  pl_owner_id : string;
  pl_published_revision_id : option string;
  pl_definition : value;
  pl_author_id : string;
  pl_message : string;
  pl_created_at_ms : Z;
  pl_updated_at_ms : Z;
  pl_deleted_at_ms : option Z;
}.

Record OntologyBindingRecord : Type := {
  bd_pipeline_id : string;
  bd_block_id : string;
  bd_ontology_id : string;
  bd_resource_ids : list string;
  bd_resource_kinds : list string;
  bd_include_dependencies : bool;
  bd_metadata : value;
  bd_updated_at_ms : Z;
}.

Record TenantState : Type := {
  pipelines : gmap string PipelineRecord;
  ontologies : gmap string OntologyRecord;
  bindings : gmap string OntologyBindingRecord;
}.
#[export] Instance tenant_state_empty : Empty TenantState :=
  {| pipelines := ∅; ontologies := ∅; bindings := ∅ |}.

Definition set_pipelines (m : gmap string PipelineRecord) (s : TenantState) : TenantState :=
  {| pipelines := m; ontologies := ontologies s; bindings := bindings s |}.
Definition set_ontologies (m : gmap string OntologyRecord) (s : TenantState) : TenantState :=
  {| pipelines := pipelines s; ontologies := m; bindings := bindings s |}.
Definition set_bindings (m : gmap string OntologyBindingRecord) (s : TenantState) : TenantState :=
  {| pipelines := pipelines s; ontologies := ontologies s; bindings := m |}.

(** [state.pipelines.insert(id, record)] and the like. *)
Definition put_pipeline_record (id : string) (r : PipelineRecord) (s : TenantState) : TenantState :=
  set_pipelines (<[id := r]> (pipelines s)) s.
Definition put_ontology_record (id : string) (r : OntologyRecord) (s : TenantState) : TenantState :=
  set_ontologies (<[id := r]> (ontologies s)) s.
Definition put_binding_record (key : string) (b : OntologyBindingRecord) (s : TenantState)
    : TenantState := set_bindings (<[key := b]> (bindings s)) s.

(** The unit separator cannot occur in an identity the Registry accepts. *)
Definition UNIT_SEPARATOR : ascii := ascii_of_N 31.
Definition binding_key (pipeline_id block_id : string) : string :=
  pipeline_id +:+ String UNIT_SEPARATOR block_id.

(** ** The derived serialization *)
Definition json_opt {A} (f : A -> value) (o : option A) : value :=
  match o with Some a => f a | None => JNull end.
Definition json_map {A} (f : A -> value) (m : gmap string A) : value :=
  JObject ((fun kv => (kv.1, f kv.2)) <$> btree_entries m).

(** [Branch::parent_branch] is skipped when it is [None]. *)
Definition json_branch (b : Branch) : value :=
  JObject ((match br_parent_branch b with Some p => [("parent_branch", JString p)] | None => [] end) ++
    [("definition", br_definition b); ("base_definition", br_base_definition b);
     ("base_revision_id", JString (br_base_revision_id b)); ("author_id", JString (br_author_id b));
     ("updated_at_ms", json_i64 (br_updated_at_ms b))]).
Definition json_proposal (p : MergeProposal) : value :=
  JObject [("source_branch", JString (mp_source_branch p)); ("source_hash", JString (mp_source_hash p));
    ("target_hash", JString (mp_target_hash p)); ("author_id", JString (mp_author_id p));
    ("created_at_ms", json_i64 (mp_created_at_ms p))].
Definition json_review (r : ContentReview) : value :=
  JObject [("definition_hash", JString (cr_definition_hash r)); ("author_id", JString (cr_author_id r));
    ("reviewed_at_ms", json_i64 (cr_reviewed_at_ms r))].
Definition json_release (r : PipelineRelease) : value :=
  JObject [("revision_id", JString (pr_revision_id r));
    ("definition_hash", JString (pr_definition_hash r)); ("author_id", JString (pr_author_id r));
    ("published_at_ms", json_i64 (pr_published_at_ms r))].
Definition json_authoring (a : AuthoringState) : value :=
  JObject [("enabled", JBool (a_enabled a)); ("branches", json_map json_branch (a_branches a));
    ("proposals", json_map json_proposal (a_proposals a));
    ("approval", json_opt json_review (a_approval a)); ("release", json_opt json_release (a_release a))].

Definition json_pipeline (r : PipelineRecord) : value :=
  JObject [("authoring", json_authoring (pl_authoring r));
    ("previous_revision_id", json_opt JString (pl_previous_revision_id r));
    ("pipeline_id", JString (pl_pipeline_id r)); ("name", JString (pl_name r));
    ("owner_id", JString (pl_owner_id r));
    ("published_revision_id", json_opt JString (pl_published_revision_id r));
    ("definition", pl_definition r); ("author_id", JString (pl_author_id r));
    ("message", JString (pl_message r)); ("created_at_ms", json_i64 (pl_created_at_ms r));
    ("updated_at_ms", json_i64 (pl_updated_at_ms r));
    ("deleted_at_ms", json_opt json_i64 (pl_deleted_at_ms r))].

Definition json_ontology_branch (b : OntologyBranch) : value :=
  JObject [("parent_branch", JString (ob_parent_branch b)); ("definition", ob_definition b);
    ("display_name", JString (ob_display_name b)); ("base_definition", ob_base_definition b);
    ("base_display_name", JString (ob_base_display_name b));
    ("base_revision_id", JString (ob_base_revision_id b)); ("author", JString (ob_author b));
    ("updated_at_ms", json_i64 (ob_updated_at_ms b))].
Definition json_ontology_authoring (a : OntologyAuthoringState) : value :=
  JObject [("branches", json_map json_ontology_branch (oa_branches a));
    ("previous_revision_id", json_opt JString (oa_previous_revision_id a));
    ("last_branch", JString (oa_last_branch a)); ("last_operation", JString (oa_last_operation a));
    ("last_author", JString (oa_last_author a)); ("updated_at_ms", json_i64 (oa_updated_at_ms a));
    ("deleted_at_ms", json_opt json_i64 (oa_deleted_at_ms a))].
Definition json_publication (p : OntologyPublicationRecord) : value :=
  JObject [("publication_id", JString (pub_publication_id p));
    ("revision_id", JString (pub_revision_id p)); ("lifecycle", JString (pub_lifecycle p));
    ("metadata", pub_metadata p); ("base_version", JString (pub_base_version p));
    ("base_hash", JString (pub_base_hash p)); ("effective_hash", JString (pub_effective_hash p));
    ("author", JString (pub_author p)); ("message", JString (pub_message p));
    ("published_at_ms", json_i64 (pub_published_at_ms p));
    ("retired_at_ms", json_opt json_i64 (pub_retired_at_ms p))].
Definition json_ontology (r : OntologyRecord) : value :=
  JObject [("authoring", json_ontology_authoring (or_authoring r));
    ("ontology_id", JString (or_ontology_id r)); ("display_name", JString (or_display_name r));
    ("ontology", or_ontology r); ("author", JString (or_author r)); ("message", JString (or_message r));
    ("created_at_ms", json_i64 (or_created_at_ms r));
    ("production_publication", json_opt json_publication (or_production_publication r))].

(** ** Lemmas *)
Definition identity_byte (c : ascii) : bool := is_ascii_alphanumeric c || one_of "_-.:" c.

Lemma valid_identity_bytes s : valid_identity s = true -> bytes_all identity_byte s = true.
Proof. intros H. apply andb_prop in H as [_ H]. exact H. Qed.

Lemma valid_branch_identity s : valid_branch s = true -> valid_identity s = true.
Proof.
  intros H. apply andb_prop in H as [H Hb]. unfold valid_identity. rewrite H. simpl.
  revert Hb. apply bytes_all_impl. intros c [->|Hc]%orb_prop; [done|].
  apply orb_true_intro. right. revert Hc. simpl.
  destruct (Ascii.eqb c "_"), (Ascii.eqb c "-"); simpl; congruence.
Qed.

Lemma binding_key_inj p b p' b' :
  valid_identity p = true -> valid_identity p' = true ->
  binding_key p b = binding_key p' b' -> p = p' /\ b = b'.
Proof.
  intros Hp Hp'. apply (split_at_separator identity_byte); [done|by apply valid_identity_bytes..].
Qed.

(** The key of a pipeline block is collision-free: two pipeline/block pairs
    with the same key are the same pair, for every pipeline identity that passes
    [valid_identity], whatever the block names are. *)
Theorem binding_key_injective p b p' b' :
  valid_identity p = true -> valid_identity p' = true ->
  binding_key p b = binding_key p' b' -> p = p' /\ b = b'.
Proof. apply binding_key_inj. Qed.

Lemma binding_key_injective_witness :
  binding_key "mail" "store" = binding_key "mail" "store" /\ "mail" = "mail" /\ "store" = "store".
Proof. split; [done|]. by apply (binding_key_injective "mail" "store" "mail" "store"). Defined.
