(* ===== verification/Store.v ===== *)
(** * Store: the versioned storage boundary (storage.rs)

    The Registry is generic over the trait [RevisionStore].  An operation of the
    Registry is a program over the calls of the trait and the clock ([prog]); the
    trait's contract is the relation [store_step] on abstract worlds, and an
    implementation is an instance of the class [RevisionStore], whose law is that
    its calls refine the contract. *)

From S2P Require Import Prelude Text State.

Record Snapshot : Type := {
  sn_revision_id : string;
  sn_state : TenantState;
}.
(** [TenantSnapshot] has the revision as its only field. *)
Definition TenantSnapshot : Type := string.

(** The methods of the trait, and [Utc::now().timestamp_millis()]. *)
Inductive op : Type -> Type :=
  | TenantExists (tenant_id : string) : op bool
  | EnsureTenant (tenant_id : string) : op TenantSnapshot
  | DeleteTenant (tenant_id : string) : op unit
  | Load (tenant_id : string) (revision_id : option string) : op Snapshot
  | Commit (tenant_id expected_revision_id : string) (state : TenantState) (author message : string)
      : op string
  | Now : op Z.

(** A program stops at its first error: the code awaits every call with [?]. *)
Inductive prog (A : Type) : Type :=
  | Done (r : result A)
  | Do {B : Type} (o : op B) (k : B -> prog A).
Arguments Done {_} _.
Arguments Do {_ _} _ _.

#[export] Instance prog_ret : MRet prog := fun _ a => Done (Ok a).
#[export] Instance prog_bind : MBind prog := fun A B f =>
  fix bind (p : prog A) : prog B :=
    match p with
    | Done (Ok a) => f a
    | Done (Err e) => Done (Err e)
    | Do o k => Do o (fun b => bind (k b))
    end.

(** A pure computation, and one call. *)
Definition lift {A} (r : result A) : prog A := Done r.
Definition call {B} (o : op B) : prog B := Do o (fun b => Done (Ok b)).
Definition check (b : bool) (message : string) : prog unit := lift (ensure b message).
Definition require {A} (message : string) (o : option A) : prog A := lift (with_context message o).
Definition ok {A} (a : A) : prog A := Done (Ok a).

Definition tenant_exists (t : string) : prog bool := call (TenantExists t).
Definition ensure_tenant (t : string) : prog TenantSnapshot := call (EnsureTenant t).
Definition store_delete_tenant (t : string) : prog unit := call (DeleteTenant t).
Definition load (t : string) (revision : option string) : prog Snapshot := call (Load t revision).
Definition commit (t expected : string) (s : TenantState) (author message : string) : prog string :=
  call (Commit t expected s author message).
Definition now_ms : prog Z := call Now.

(** ** Abstract worlds

    [log] keeps every revision that was ever committed, of deleted tenants too;
    a repository selects the head and the revisions that can be read. *)
Record Entry : Type := {
  en_parent : option string;
  en_state : TenantState;
  en_author : string;
  en_message : string;
}.
Notation History := (@gmap (string * string) prod_eq_dec prod_countable Entry).
Record Repository : Type := {
  repo_head : string;
  repo_live : gset string;
}.
Record World : Type := {
  repos : gmap string Repository;
  log : History;
}.

Definition initial_entry : Entry :=
  {| en_parent := None; en_state := ∅; en_author := EmptyString; en_message := EmptyString |}.
Definition create_repository (t r : string) (w : World) : World :=
  {| repos := <[t := {| repo_head := r; repo_live := {[r]} |}]> (repos w);
     log := <[(t, r) := initial_entry]> (log w) |}.
Definition delete_repository (t : string) (w : World) : World :=
  {| repos := delete t (repos w); log := log w |}.
Definition append_revision (t r : string) (repo : Repository) (en : Entry) (w : World) : World :=
  {| repos := <[t := {| repo_head := r; repo_live := {[r]} ∪ repo_live repo |}]> (repos w);
     log := <[(t, r) := en]> (log w) |}.
Definition pinned_state (t r : string) (w : World) : TenantState :=
  match repos w !! t with
  | Some repo =>
      default ∅ (if bool_decide (r ∈ repo_live repo) then en_state <$> log w !! (t, r) else None)
  | None => ∅
  end.

(** ** The contract of the trait

    Any call may fail without an effect; a mutating call may also take effect
    and lose its acknowledgement.  [tenant_exists] answers from a cache, and its
    answer constrains nothing.  A deletion may find the tenant already gone.  A
    commit takes effect only when the expected revision is the head.  A pinned
    load of a revision the repository does not have, or of a repository that is
    gone, fails or returns the empty state. *)
Inductive store_step : forall {B : Type}, op B -> World -> result B -> World -> Prop :=
  | step_fail {B} (o : op B) w e : store_step o w (Err e) w
  | step_exists t b w : store_step (TenantExists t) w (Ok b) w
  | step_ensure_present t w repo :
      repos w !! t = Some repo -> store_step (EnsureTenant t) w (Ok (repo_head repo)) w
  | step_ensure_create t r w res :
      repos w !! t = None -> log w !! (t, r) = None -> valid_revision r = true ->
      res = Ok r \/ (exists e, res = Err e) ->
      store_step (EnsureTenant t) w res (create_repository t r w)
  | step_delete t w res :
      res = Ok tt \/ (exists e, res = Err e) ->
      store_step (DeleteTenant t) w res (delete_repository t w)
  | step_load_head t w repo en :
      repos w !! t = Some repo -> log w !! (t, repo_head repo) = Some en ->
      store_step (Load t None) w
        (Ok {| sn_revision_id := repo_head repo; sn_state := en_state en |}) w
  | step_load_pinned t r w :
      store_step (Load t (Some r)) w
        (Ok {| sn_revision_id := r; sn_state := pinned_state t r w |}) w
  | step_commit t expected s author message r w repo res :
      repos w !! t = Some repo -> repo_head repo = expected ->
      log w !! (t, r) = None -> valid_revision r = true ->
      res = Ok r \/ (exists e, res = Err e) ->
      store_step (Commit t expected s author message) w res
        (append_revision t r repo {| en_parent := Some expected; en_state := s;
                                     en_author := author; en_message := message |} w)
  | step_now z w : store_step Now w (Ok z) w.

(** Executions of one program: [env] is what other clients do between calls. *)
Inductive runs (env : relation World) {A} : prog A -> World -> result A -> World -> Prop :=
  | runs_done r w : runs env (Done r) w r w
  | runs_error {B} (o : op B) k w e w' :
      store_step o w (Err e) w' -> runs env (Do o k) w (Err e) w'
  | runs_call {B} (o : op B) k w b w1 w2 r w' :
      store_step o w (Ok b) w1 -> env w1 w2 -> runs env (k b) w2 r w' -> runs env (Do o k) w r w'.

(** ** Implementations *)
Class RevisionStore (S : Type) := {
  store_call : forall {B}, op B -> S -> result B * S;
  store_world : S -> World;
  store_refines {B} (o : op B) (s : S) :
    store_step o (store_world s) (store_call o s).1 (store_world (store_call o s).2);
}.

Fixpoint exec {S} `{RevisionStore S} {A} (p : prog A) (s : S) : result A * S :=
  match p with
  | Done r => (r, s)
  | Do o k =>
      match store_call o s with
      | (Ok b, s) => exec (k b) s
      | (Err e, s) => (Err e, s)
      end
  end.

Lemma exec_runs {S} `{RevisionStore S} {A} (p : prog A) s :
  runs eq p (store_world s) (exec p s).1 (store_world (exec p s).2).
Proof.
  revert s. induction p as [r|B o k IH]; intros s; simpl; [constructor|].
  pose proof (store_refines o s) as Hs. destruct (store_call o s) as [[b|e] s1]; simpl in *.
  - eapply runs_call; [exact Hs|reflexivity|apply IH].
  - by apply runs_error.
Qed.

(** ** The reference implementation: an in-memory store *)
Record MemoryStore : Type := {
  ms_world : World;
  ms_next : nat;
  ms_clock : Z;
}.
Definition revision_name (n : nat) : string := "00000000000000000000" +:+ pretty n.
Definition with_world (w : World) (s : MemoryStore) : MemoryStore :=
  {| ms_world := w; ms_next := S (ms_next s); ms_clock := ms_clock s |}.
Definition fresh_revision (t r : string) (w : World) : bool :=
  option_is_none (log w !! (t, r)) && valid_revision r.
Definition unavailable {A} (s : MemoryStore) : result A * MemoryStore :=
  (Err (Msg "tenant unavailable"), s).

Definition memory_call {B} (o : op B) (s : MemoryStore) : result B * MemoryStore :=
  let w := ms_world s in
  let r := revision_name (ms_next s) in
  match o in op B return result B * MemoryStore with
  | TenantExists t => (Ok (bool_decide (is_Some (repos w !! t))), s)
  | EnsureTenant t =>
      match repos w !! t with
      | Some repo => (Ok (repo_head repo), s)
      | None =>
          if fresh_revision t r w then (Ok r, with_world (create_repository t r w) s)
          else (Err (Foreign "revision exists"), s)
      end
  | DeleteTenant t =>
      match repos w !! t with
      | Some _ => (Ok tt, with_world (delete_repository t w) s)
      | None => unavailable s
      end
  | Load t None =>
      match repos w !! t with
      | Some repo =>
          match log w !! (t, repo_head repo) with
          | Some en => (Ok {| sn_revision_id := repo_head repo; sn_state := en_state en |}, s)
          | None => unavailable s
          end
      | None => unavailable s
      end
  | Load t (Some rev) =>
      match repos w !! t with
      | Some _ => (Ok {| sn_revision_id := rev; sn_state := pinned_state t rev w |}, s)
      | None => unavailable s
      end
  | Commit t expected st author message =>
      match repos w !! t with
      | Some repo =>
          if String.eqb (repo_head repo) expected && fresh_revision t r w then
            (Ok r, with_world (append_revision t r repo
               {| en_parent := Some expected; en_state := st; en_author := author;
                  en_message := message |} w) s)
          else (Err (Msg "registry revision changed"), s)
      | None => unavailable s
      end
  | Now => (Ok (ms_clock s), {| ms_world := w; ms_next := ms_next s; ms_clock := ms_clock s + 1 |})
  end.

Lemma fresh_revision_true t r w :
  fresh_revision t r w = true -> log w !! (t, r) = None /\ valid_revision r = true.
Proof. unfold fresh_revision. destruct (log w !! (t, r)); simpl; [done|by split]. Qed.

Lemma memory_refines {B} (o : op B) (s : MemoryStore) :
  store_step o (ms_world s) (memory_call o s).1 (ms_world (memory_call o s).2).
Proof.
  destruct o as [t|t|t|t [rev|]|t expected st author message|]; simpl.
  - constructor.
  - destruct (repos (ms_world s) !! t) eqn:E; [by apply step_ensure_present|].
    destruct (fresh_revision _ _ _) eqn:F; simpl; [|constructor].
    apply fresh_revision_true in F as [? ?]. apply step_ensure_create; auto.
  - destruct (repos (ms_world s) !! t) eqn:E; simpl; [|constructor].
    apply step_delete; auto.
  - destruct (repos (ms_world s) !! t) eqn:E; simpl; [by apply step_load_pinned|constructor].
  - destruct (repos (ms_world s) !! t) eqn:E; simpl; [|constructor].
    destruct (log (ms_world s) !! _) eqn:F; simpl; [by apply step_load_head|constructor].
  - destruct (repos (ms_world s) !! t) as [repo|] eqn:E; simpl; [|constructor].
    destruct (String.eqb (repo_head repo) expected && _) eqn:F; simpl; [|constructor].
    apply andb_prop in F as [F1%String.eqb_eq [? ?]%fresh_revision_true].
    apply step_commit; auto.
  - constructor.
Qed.

#[export] Instance memory_store : RevisionStore MemoryStore :=
  {| store_call := @memory_call; store_world := ms_world; store_refines := @memory_refines |}.

Definition empty_store : MemoryStore :=
  {| ms_world := {| repos := ∅; log := ∅ |}; ms_next := 0; ms_clock := 0 |}.
