(* ===== verification/Domain.v ===== *)
(** * Domain: the Registry operations over immutable revisions (domain.rs)

    One program per method of [Registry<S>].  A mutating method loads the head,
    computes the next tenant state and commits it against the loaded revision. *)

From S2P Require Import Prelude Text Json Ontology Pipeline DiffMerge Authoring Composition.
From S2P Require Import State Store.

Definition MAX_TENANT_VALIDATIONS : nat := 100.

Record TenantView : Type := {
  tv_tenant_id : string;
  tv_head_revision_id : string;
}.
Record PipelineView : Type := {
  pv_head_revision_id : string;
  pv_record : PipelineRecord;
}.
Record OntologyView : Type := {
  ov_revision_id : string;
  ov_record : OntologyRecord;
}.
Record OntologySliceView : Type := {
  sv_publication : OntologyPublicationRecord;
  sv_binding : OntologyBindingRecord;
  sv_ontology : value;
}.
Record PutPipeline : Type := {
  pp_tenant_id : string;
  pp_pipeline_id : string;
  pp_name : string;
  pp_owner_id : string;
  pp_definition : value;
  pp_author : string;
  pp_message : string;
  pp_expected_revision_id : option string;
  pp_create_only : bool;
}.
Record PutOntology : Type := {
  po_tenant_id : string;
  po_ontology_id : string;
  po_display_name : string;
  po_ontology : value;
  po_author : string;
  po_message : string;
  po_expected_revision_id : option string;
  po_create_only : bool;
}.

(** [state.pipelines.remove(id)] and [state.ontologies.remove(id)] as they change
    the state. *)
Definition remove_pipeline (id : string) (s : TenantState) : TenantState :=
  set_pipelines (delete id (pipelines s)) s.
Definition remove_ontology (id : string) (s : TenantState) : TenantState :=
  set_ontologies (delete id (ontologies s)) s.

(** ** Tenants *)
Fixpoint validate_tenant_list (tenant_ids : list string) : prog (list bool) :=
  match tenant_ids with
  | [] => ok []
  | tenant_id :: tenant_ids =>
      check (valid_tenant tenant_id) "invalid tenant ID" ;;
      b ← tenant_exists tenant_id;
      rest ← validate_tenant_list tenant_ids;
      ok (b :: rest)
  end.
Definition validate_tenants (tenant_ids : list string) : prog (list bool) :=
  check (negb (Nat.eqb (length tenant_ids) 0) && Nat.leb (length tenant_ids) MAX_TENANT_VALIDATIONS)
    "tenant validation list must contain 1 to 100 entries" ;;
  validate_tenant_list tenant_ids.

Definition tenant (tenant_id : string) : prog TenantView :=
  check (valid_tenant tenant_id) "invalid tenant ID" ;;
  snapshot ← load tenant_id None;
  ok {| tv_tenant_id := tenant_id; tv_head_revision_id := sn_revision_id snapshot |}.

Definition put_tenant (tenant_id : string) : prog TenantView :=
  check (valid_tenant tenant_id) "invalid tenant ID" ;;
  revision ← ensure_tenant tenant_id;
  ok {| tv_tenant_id := tenant_id; tv_head_revision_id := revision |}.

Definition delete_tenant (tenant_id confirmation_tenant_id : string) : prog unit :=
  check (valid_tenant tenant_id) "invalid tenant ID" ;;
  check (String.eqb tenant_id confirmation_tenant_id) "tenant purge confirmation mismatch" ;;
  store_delete_tenant tenant_id.

(** ** Dependencies of one pipeline *)
Definition live_pipeline (record : PipelineRecord) : bool := option_is_none (pl_deleted_at_ms record).
Definition live_ontology (record : OntologyRecord) : bool :=
  option_is_none (oa_deleted_at_ms (or_authoring record)).

Definition pipeline_from_snapshot (snapshot : Snapshot) (pipeline_id : string) : result PipelineView :=
  record ← with_context "pipeline unavailable"
    (option_filter live_pipeline (pipelines (sn_state snapshot) !! pipeline_id));
  Ok {| pv_head_revision_id := sn_revision_id snapshot; pv_record := record |}.

Definition pipeline_bindings (state : TenantState) (pipeline_id : string) : list OntologyBindingRecord :=
  List.filter (fun b => String.eqb (bd_pipeline_id b) pipeline_id) (btree_values (bindings state)).
Definition bindings_for (state : TenantState) (pipeline_id : string) : list PipelineBinding :=
  (fun b => {| block_id := bd_block_id b; ontology_id := bd_ontology_id b |}) <$>
    pipeline_bindings state pipeline_id.

Definition in_production (p : OntologyPublicationRecord) : bool :=
  String.eqb (pub_lifecycle p) "production".
(** The production publication of an ontology of the state. *)
Definition production_of (state : TenantState) (ontology_id : string)
    : option OntologyPublicationRecord :=
  option_filter in_production (ontologies state !! ontology_id ≫= or_production_publication).

Definition validate_pipeline_ontology_dependencies (state : TenantState) (pipeline_id : string)
    : result unit :=
  pipeline ← with_context "pipeline unavailable" (pipelines state !! pipeline_id);
  validate_pipeline (pl_definition pipeline) (bindings_for state pipeline_id) ;;
  for_each (fun b => ensure (option_is_some (production_of state (bd_ontology_id b)))
    "unpublished ontology dependency") (pipeline_bindings state pipeline_id).

(** The loop of [compile_composition]; the head of [pending] is the end of the
    Rust vector. *)
Fixpoint load_definitions (fuel : nat) (tenant_id : string) (require_ontologies : bool)
    (pending : list PipelineReference) (definitions : definitions_map) : prog definitions_map :=
  match fuel with
  | 0 => lift (Err (Foreign "recursion limit"))
  | S fuel =>
      match pending with
      | [] => ok definitions
      | reference :: pending =>
          let key := (ref_pipeline_id reference, ref_revision_id reference) in
          match definitions !! key with
          | Some _ => load_definitions fuel tenant_id require_ontologies pending definitions
          | None =>
              check (Nat.ltb (size definitions) MAX_TRANSFERS)
                "Composition exceeds three pipeline transfers" ;;
              snapshot ← load tenant_id (Some (ref_revision_id reference));
              (if require_ontologies then
                 lift (validate_pipeline_ontology_dependencies (sn_state snapshot)
                         (ref_pipeline_id reference))
               else ok tt) ;;
              child ← require "Referenced pipeline unavailable"
                (option_filter live_pipeline
                  (pipelines (sn_state snapshot) !! ref_pipeline_id reference));
              more ← lift (references (pl_definition child));
              load_definitions fuel tenant_id require_ontologies (rev more ++ pending)
                (<[key := pl_definition child]> definitions)
          end
      end
  end.
(** At most three references per definition and three loaded definitions: twelve
    iterations and the final test. *)
Definition LOAD_FUEL : nat := 13.

Definition compile_composition (tenant_id pipeline_id revision_id : string) (definition : value)
    (require_ontologies : bool) : prog value :=
  pending ← lift (references definition);
  definitions ← load_definitions LOAD_FUEL tenant_id require_ontologies (rev pending) ∅;
  lift (compile pipeline_id revision_id definition definitions).

(** ** Pipelines *)
Definition check_expected (expected : option string) (head : string) (create_only : bool)
    : prog unit :=
  match expected with
  | Some expected =>
      check (valid_revision expected) "invalid expected revision ID" ;;
      check (String.eqb head expected) "pipeline head changed"
  | None => check create_only "expected revision ID is required"
  end.

Definition put_pipeline (input : PutPipeline) : prog PipelineView :=
  let id := pp_pipeline_id input in
  lift (validate_identity (pp_tenant_id input) id) ;;
  check (negb (is_empty (pp_name input))) "pipeline name is required" ;;
  check (negb (is_empty (pp_owner_id input))) "pipeline owner is required" ;;
  check (negb (is_empty (pp_author input))) "pipeline author is required" ;;
  check (negb (is_empty (pp_message input))) "pipeline message is required" ;;
  ensure_tenant (pp_tenant_id input) ;;
  snapshot ← load (pp_tenant_id input) None;
  let existing := pipelines (sn_state snapshot) !! id in
  let state := remove_pipeline id (sn_state snapshot) in
  check (negb (pp_create_only input) || option_is_none existing) "pipeline already exists" ;;
  check (pp_create_only input || option_is_some existing) "pipeline unavailable" ;;
  check_expected (pp_expected_revision_id input) (sn_revision_id snapshot) (pp_create_only input) ;;
  check (negb (is_some_and (fun r => a_enabled (pl_authoring r)) existing))
    "managed pipeline requires explicit authoring commands" ;;
  lift (validate_pipeline_structure (pp_definition input)) ;;
  compile_composition (pp_tenant_id input) id (sn_revision_id snapshot) (pp_definition input) false ;;
  now ← now_ms;
  let record := {|
    pl_authoring := default_authoring;
    pl_previous_revision_id := (fun _ => sn_revision_id snapshot) <$> existing;
    pl_pipeline_id := id;
    pl_name := pp_name input;
    pl_owner_id := pp_owner_id input;
    pl_published_revision_id := existing ≫= pl_published_revision_id;
    pl_definition := pp_definition input;
    pl_author_id := pp_author input;
    pl_message := pp_message input;
    pl_created_at_ms := from_option pl_created_at_ms now existing;
    pl_updated_at_ms := now;
    pl_deleted_at_ms := None |} in
  let state := put_pipeline_record id record state in
  revision ← commit (pp_tenant_id input) (sn_revision_id snapshot) state (pp_author input)
    (pp_message input);
  record ← require "committed pipeline missing from state" (pipelines state !! id);
  ok {| pv_head_revision_id := revision; pv_record := record |}.

Definition current_pipeline (tenant_id pipeline_id : string) : prog PipelineView :=
  lift (validate_identity tenant_id pipeline_id) ;;
  snapshot ← load tenant_id None;
  lift (pipeline_from_snapshot snapshot pipeline_id).

Definition pipeline_revision (tenant_id pipeline_id revision_id : string) : prog PipelineView :=
  lift (validate_identity tenant_id pipeline_id) ;;
  check (valid_revision revision_id) "invalid revision ID" ;;
  snapshot ← load tenant_id (Some revision_id);
  lift (pipeline_from_snapshot snapshot pipeline_id).

Definition list_pipelines (tenant_id : string) (limit : nat) : prog (list PipelineView) :=
  check (valid_tenant tenant_id) "invalid tenant ID" ;;
  snapshot ← load tenant_id None;
  ok ((fun record => {| pv_head_revision_id := sn_revision_id snapshot; pv_record := record |}) <$>
    take (limit `min` 100)
      (List.filter live_pipeline (btree_values (pipelines (sn_state snapshot))))).

Definition published_at (revision_id : string) (now : Z) (head : string) (r : PipelineRecord)
    : PipelineRecord :=
  {| pl_authoring := pl_authoring r; pl_previous_revision_id := Some head;
     pl_pipeline_id := pl_pipeline_id r; pl_name := pl_name r; pl_owner_id := pl_owner_id r;
     pl_published_revision_id := Some revision_id; pl_definition := pl_definition r;
     pl_author_id := pl_author_id r; pl_message := pl_message r;
     pl_created_at_ms := pl_created_at_ms r; pl_updated_at_ms := now;
     pl_deleted_at_ms := pl_deleted_at_ms r |}.

Definition publish_pipeline (tenant_id pipeline_id revision_id : string) : prog PipelineView :=
  lift (validate_identity tenant_id pipeline_id) ;;
  check (valid_revision revision_id) "invalid revision ID" ;;
  pinned ← load tenant_id (Some revision_id);
  candidate ← require "pipeline unavailable at revision"
    (option_filter live_pipeline (pipelines (sn_state pinned) !! pipeline_id));
  check (negb (a_enabled (pl_authoring candidate)))
    "managed pipeline requires explicit approval and deployment" ;;
  lift (validate_pipeline (pl_definition candidate) (bindings_for (sn_state pinned) pipeline_id)) ;;
  lift (validate_pipeline_ontology_dependencies (sn_state pinned) pipeline_id) ;;
  compile_composition tenant_id pipeline_id revision_id (pl_definition candidate) true ;;
  current ← load tenant_id None;
  check (String.eqb (sn_revision_id current) revision_id) "pipeline head changed" ;;
  pipeline ← require "pipeline unavailable" (pipelines (sn_state current) !! pipeline_id);
  now ← now_ms;
  let record := published_at revision_id now (sn_revision_id current) pipeline in
  let state := put_pipeline_record pipeline_id record (sn_state current) in
  head ← commit tenant_id revision_id state (pl_author_id record) "Publish pipeline";
  record ← require "committed pipeline missing from state" (pipelines state !! pipeline_id);
  ok {| pv_head_revision_id := head; pv_record := record |}.

Definition deleted_at (now : Z) (r : PipelineRecord) : PipelineRecord :=
  {| pl_authoring := pl_authoring r; pl_previous_revision_id := pl_previous_revision_id r;
     pl_pipeline_id := pl_pipeline_id r; pl_name := pl_name r; pl_owner_id := pl_owner_id r;
     pl_published_revision_id := None; pl_definition := pl_definition r;
     pl_author_id := pl_author_id r; pl_message := pl_message r;
     pl_created_at_ms := pl_created_at_ms r; pl_updated_at_ms := pl_updated_at_ms r;
     pl_deleted_at_ms := Some now |}.

Definition delete_pipeline (tenant_id pipeline_id expected_revision_id : string) : prog string :=
  lift (validate_identity tenant_id pipeline_id) ;;
  snapshot ← load tenant_id None;
  check (String.eqb (sn_revision_id snapshot) expected_revision_id) "pipeline head changed" ;;
  pipeline ← require "pipeline unavailable" (pipelines (sn_state snapshot) !! pipeline_id);
  now ← now_ms;
  commit tenant_id expected_revision_id
    (put_pipeline_record pipeline_id (deleted_at now pipeline) (sn_state snapshot))
    "registry" "Delete pipeline".

Definition with_definition (definition : value) (r : PipelineRecord) : PipelineRecord :=
  {| pl_authoring := pl_authoring r; pl_previous_revision_id := pl_previous_revision_id r;
     pl_pipeline_id := pl_pipeline_id r; pl_name := pl_name r; pl_owner_id := pl_owner_id r;
     pl_published_revision_id := pl_published_revision_id r; pl_definition := definition;
     pl_author_id := pl_author_id r; pl_message := pl_message r;
     pl_created_at_ms := pl_created_at_ms r; pl_updated_at_ms := pl_updated_at_ms r;
     pl_deleted_at_ms := pl_deleted_at_ms r |}.

Definition runtime_pipeline (tenant_id pipeline_id revision_id : string) : prog PipelineRecord :=
  lift (validate_identity tenant_id pipeline_id) ;;
  check (valid_revision revision_id) "invalid revision ID" ;;
  snapshot ← load tenant_id (Some revision_id);
  lift (validate_pipeline_ontology_dependencies (sn_state snapshot) pipeline_id) ;;
  record ← require "pipeline unavailable at revision"
    (option_filter live_pipeline (pipelines (sn_state snapshot) !! pipeline_id));
  definition ← compile_composition tenant_id pipeline_id revision_id (pl_definition record) true;
  ok (with_definition definition record).

Fixpoint runtime_views (tenant_id : string) (published : list (string * string))
    : prog (list PipelineView) :=
  match published with
  | [] => ok []
  | (pipeline_id, revision) :: published =>
      record ← runtime_pipeline tenant_id pipeline_id revision;
      rest ← runtime_views tenant_id published;
      ok ({| pv_head_revision_id := revision; pv_record := record |} :: rest)
  end.

Definition list_published_pipelines (tenant_id : string) (limit : nat) : prog (list PipelineView) :=
  check (valid_tenant tenant_id) "invalid tenant ID" ;;
  current ← load tenant_id None;
  runtime_views tenant_id
    (take (limit `min` 100)
      (omap (fun r => (fun revision => (pl_pipeline_id r, revision)) <$> pl_published_revision_id r)
        (btree_values (pipelines (sn_state current))))).

(** ** Content hashes *)
Fixpoint canonicalize (v : value) : value :=
  match v with
  | JObject m =>
      JObject (foldl (fun acc kv => jinsert kv.1 kv.2 acc) []
        (List.map (fun kv => (kv.1, canonicalize kv.2)) m))
  | JArray items => JArray (List.map canonicalize items)
  | v => v
  end.

(** ** Ontologies *)
Definition touch (now : Z) (previous : option string) (branch operation author : string)
    (a : OntologyAuthoringState) : OntologyAuthoringState :=
  {| oa_branches := oa_branches a; oa_previous_revision_id := previous; oa_last_branch := branch;
     oa_last_operation := operation; oa_last_author := author; oa_updated_at_ms := now;
     oa_deleted_at_ms := oa_deleted_at_ms a |}.

Definition MAX_WORKSPACE_BYTES : N := 2097152.

Definition ontology_at (tenant_id ontology_id revision_id : string) : prog OntologyView :=
  lift (validate_identity tenant_id ontology_id) ;;
  check (valid_revision revision_id) "invalid revision ID" ;;
  snapshot ← load tenant_id (Some revision_id);
  record ← require "ontology unavailable at revision" (ontologies (sn_state snapshot) !! ontology_id);
  lift (validate_ontology (or_ontology record)) ;;
  ok {| ov_revision_id := sn_revision_id snapshot; ov_record := record |}.

Definition current_ontology (tenant_id ontology_id : string) : prog OntologyView :=
  lift (validate_identity tenant_id ontology_id) ;;
  snapshot ← load tenant_id None;
  record ← require "ontology unavailable" (ontologies (sn_state snapshot) !! ontology_id);
  check (live_ontology record) "ontology unavailable" ;;
  lift (validate_ontology (or_ontology record)) ;;
  ok {| ov_revision_id := sn_revision_id snapshot; ov_record := record |}.

Definition list_ontologies (tenant_id : string) (limit : nat) : prog (list OntologyRecord) :=
  check (valid_tenant tenant_id) "invalid tenant ID" ;;
  snapshot ← load tenant_id None;
  ok (take (limit `min` 100)
    (List.filter live_ontology (btree_values (ontologies (sn_state snapshot))))).

(** The new workspace metadata of [put_ontology]: a present record must be live
    and keep its plugin provenance. *)
Definition check_provenance (existing : option OntologyRecord) (ontology : value) : prog unit :=
  match existing with
  | Some record =>
      check (live_ontology record) "ontology is deleted" ;;
      match get (or_ontology record) "plugin_origin" with
      | Some origin =>
          check (opt_value_eqb (get ontology "plugin_origin") (Some origin))
            "ontology plugin provenance is immutable"
      | None => ok tt
      end
  | None => ok tt
  end.

Definition retired_at (now : Z) (p : OntologyPublicationRecord) : OntologyPublicationRecord :=
  {| pub_publication_id := pub_publication_id p; pub_revision_id := pub_revision_id p;
     pub_lifecycle := "retired"; pub_metadata := pub_metadata p;
     pub_base_version := pub_base_version p; pub_base_hash := pub_base_hash p;
     pub_effective_hash := pub_effective_hash p; pub_author := pub_author p;
     pub_message := pub_message p; pub_published_at_ms := pub_published_at_ms p;
     pub_retired_at_ms := Some now |}.

Section ontologies.
Context `{Externals}.

Definition content_hash (v : value) : result string :=
  payload ← json_to_vec (canonicalize v);
  Ok (sha256_hex payload).

Definition validate_workspace_size (record : OntologyRecord) : result unit :=
  bytes ← json_to_vec (json_ontology record);
  ensure (N.of_nat (String.length bytes) <=? MAX_WORKSPACE_BYTES)%N
    "ontology workspace size limit exceeded".

Definition put_ontology (input : PutOntology) : prog OntologyView :=
  let id := po_ontology_id input in
  lift (validate_identity (po_tenant_id input) id) ;;
  check (negb (is_empty (po_display_name input))) "ontology display name is required" ;;
  check (negb (is_empty (po_author input))) "ontology author is required" ;;
  check (negb (is_empty (po_message input))) "ontology message is required" ;;
  lift (validate_ontology (po_ontology input)) ;;
  ensure_tenant (po_tenant_id input) ;;
  snapshot ← load (po_tenant_id input) None;
  let existing := ontologies (sn_state snapshot) !! id in
  let state := remove_ontology id (sn_state snapshot) in
  check (negb (po_create_only input) || option_is_none existing) "ontology already exists" ;;
  check (po_create_only input || option_is_some existing) "ontology unavailable" ;;
  match po_expected_revision_id input with
  | Some expected => check (String.eqb (sn_revision_id snapshot) expected) "ontology head changed"
  | None => check (po_create_only input) "expected revision ID is required"
  end ;;
  check_provenance existing (po_ontology input) ;;
  created ← match existing with Some record => ok (or_created_at_ms record) | None => now_ms end;
  now ← now_ms;
  let record := {|
    or_authoring := touch now
      (if po_create_only input then None else Some (sn_revision_id snapshot)) "main" "save_draft"
      (po_author input) (from_option or_authoring default_ontology_authoring existing);
    or_ontology_id := id;
    or_display_name := po_display_name input;
    or_ontology := po_ontology input;
    or_author := po_author input;
    or_message := po_message input;
    or_created_at_ms := created;
    or_production_publication := existing ≫= or_production_publication |} in
  lift (validate_workspace_size record) ;;
  let state := put_ontology_record id record state in
  revision ← commit (po_tenant_id input) (sn_revision_id snapshot) state (po_author input)
    (po_message input);
  record ← require "committed ontology missing from state" (ontologies state !! id);
  ok {| ov_revision_id := revision; ov_record := record |}.

Definition publish_ontology (tenant_id ontology_id display_name publication_id revision_id : string)
    (metadata : value) (create_only : bool) : prog OntologyPublicationRecord :=
  lift (validate_identity tenant_id ontology_id) ;;
  check (valid_identity publication_id) "invalid publication ID" ;;
  pinned ← ontology_at tenant_id ontology_id revision_id;
  current ← load tenant_id None;
  existing ← require "ontology unavailable" (ontologies (sn_state current) !! ontology_id);
  check (negb create_only || option_is_none (or_production_publication existing))
    "ontology already published" ;;
  hash ← lift (content_hash (or_ontology (ov_record pinned)));
  version ← require "ontology version missing" (get_str (or_ontology (ov_record pinned)) "version");
  published ← now_ms;
  let publication := {|
    pub_publication_id := publication_id; pub_revision_id := revision_id;
    pub_lifecycle := "production"; pub_metadata := metadata; pub_base_version := version;
    pub_base_hash := hash; pub_effective_hash := hash;
    pub_author := or_author (ov_record pinned); pub_message := or_message (ov_record pinned);
    pub_published_at_ms := published; pub_retired_at_ms := None |} in
  record ← require "ontology unavailable" (ontologies (sn_state current) !! ontology_id);
  check (live_ontology record && live_ontology (ov_record pinned)) "ontology is deleted" ;;
  now ← now_ms;
  let record := {|
    or_authoring := touch now (Some (sn_revision_id current)) "main" "publish" "registry"
      (or_authoring record);
    or_ontology_id := or_ontology_id record; or_display_name := display_name;
    or_ontology := or_ontology record; or_author := or_author record;
    or_message := "Publish ontology"; or_created_at_ms := or_created_at_ms record;
    or_production_publication := Some publication |} in
  let state := put_ontology_record ontology_id record (sn_state current) in
  commit tenant_id (sn_revision_id current) state "registry" "Publish ontology" ;;
  require "committed ontology publication missing from state"
    (ontologies state !! ontology_id ≫= or_production_publication).

Definition retire_ontology (tenant_id ontology_id publication_id revision_id : string)
    : prog string :=
  lift (validate_identity tenant_id ontology_id) ;;
  snapshot ← load tenant_id None;
  record ← require "ontology unavailable" (ontologies (sn_state snapshot) !! ontology_id);
  publication ← require "ontology publication unavailable" (or_production_publication record);
  check (String.eqb (pub_publication_id publication) publication_id &&
         String.eqb (pub_revision_id publication) revision_id && in_production publication)
    "ontology publication changed" ;;
  retired ← now_ms;
  now ← now_ms;
  let record := {|
    or_authoring := touch now (Some (sn_revision_id snapshot)) "main" "retire" "registry"
      (or_authoring record);
    or_ontology_id := or_ontology_id record; or_display_name := or_display_name record;
    or_ontology := or_ontology record; or_author := or_author record;
    or_message := "Retire ontology"; or_created_at_ms := or_created_at_ms record;
    or_production_publication := Some (retired_at retired publication) |} in
  commit tenant_id (sn_revision_id snapshot)
    (put_ontology_record ontology_id record (sn_state snapshot)) "registry" "Retire ontology".

(** ** Bindings *)
Definition has_block (definition : value) (block : string) : bool :=
  is_some_and (existsb (fun step => opt_str_eqb (get_str step "step") block))
    (get_array definition "pipeline").

Definition validate_published_binding (tenant_id : string) (state : TenantState)
    (binding : OntologyBindingRecord) : prog unit :=
  check (valid_identity (bd_ontology_id binding)) "invalid ontology ID" ;;
  publication ← require "ontology is not published" (production_of state (bd_ontology_id binding));
  published ← ontology_at tenant_id (bd_ontology_id binding) (pub_revision_id publication);
  lift (validate_ontology_selector (or_ontology (ov_record published)) (bd_resource_ids binding)
          (bd_resource_kinds binding)).

Definition put_binding (tenant_id expected_revision_id : string) (binding : OntologyBindingRecord)
    : prog (OntologyBindingRecord * string) :=
  lift (validate_identity tenant_id (bd_pipeline_id binding)) ;;
  check (valid_identity (bd_block_id binding)) "invalid block ID" ;;
  check (valid_identity (bd_ontology_id binding)) "invalid ontology ID" ;;
  ensure_tenant tenant_id ;;
  snapshot ← load tenant_id None;
  check (String.eqb (sn_revision_id snapshot) expected_revision_id) "registry revision changed" ;;
  pipeline ← require "pipeline unavailable" (pipelines (sn_state snapshot) !! bd_pipeline_id binding);
  check (has_block (pl_definition pipeline) (bd_block_id binding)) "pipeline block unavailable" ;;
  validate_published_binding tenant_id (sn_state snapshot) binding ;;
  let key := binding_key (bd_pipeline_id binding) (bd_block_id binding) in
  let state := put_binding_record key binding (sn_state snapshot) in
  revision ← commit tenant_id expected_revision_id state "registry" "Update ontology binding";
  binding ← require "committed binding missing from state" (bindings state !! key);
  ok (binding, revision).

Definition list_bindings (tenant_id : string) (pipeline_id revision_id : option string) (limit : nat)
    : prog (list OntologyBindingRecord) :=
  check (valid_tenant tenant_id) "invalid tenant ID" ;;
  check (is_none_or valid_identity pipeline_id) "invalid pipeline ID" ;;
  snapshot ← load tenant_id revision_id;
  ok (take (limit `min` 100)
    (List.filter (fun b => is_none_or (String.eqb (bd_pipeline_id b)) pipeline_id)
      (btree_values (bindings (sn_state snapshot))))).

Definition ontology_slice (tenant_id pipeline_id pipeline_revision_id block_id : string)
    : prog OntologySliceView :=
  lift (validate_identity tenant_id pipeline_id) ;;
  check (valid_identity block_id) "invalid block ID" ;;
  snapshot ← load tenant_id (Some pipeline_revision_id);
  check (option_is_some (pipelines (sn_state snapshot) !! pipeline_id))
    "pipeline unavailable at revision" ;;
  binding ← require "ontology binding unavailable at revision"
    (bindings (sn_state snapshot) !! binding_key pipeline_id block_id);
  publication ← require "ontology publication unavailable at revision"
    (production_of (sn_state snapshot) (bd_ontology_id binding));
  view ← ontology_at tenant_id (bd_ontology_id binding) (pub_revision_id publication);
  sliced ← lift (slice_ontology (or_ontology (ov_record view)) (bd_resource_ids binding)
    (bd_resource_kinds binding) (bd_include_dependencies binding));
  ok {| sv_publication := publication; sv_binding := binding; sv_ontology := sliced |}.

(** ** Comparison and merge of revisions *)
Definition diff_ontology (tenant_id ontology_id base_revision_id target_revision_id : string)
    : prog (list SemanticChange) :=
  base ← ontology_at tenant_id ontology_id base_revision_id;
  target ← ontology_at tenant_id ontology_id target_revision_id;
  lift (semantic_diff (or_ontology (ov_record base)) (or_ontology (ov_record target))).

Definition merge_ontology
    (tenant_id ontology_id base_revision_id left_revision_id right_revision_id
     expected_revision_id author message : string) : prog (MergeResult * option OntologyView) :=
  ensure_tenant tenant_id ;;
  base ← ontology_at tenant_id ontology_id base_revision_id;
  left ← ontology_at tenant_id ontology_id left_revision_id;
  right ← ontology_at tenant_id ontology_id right_revision_id;
  result ← lift (DiffMerge.merge_ontology (or_ontology (ov_record base))
    (or_ontology (ov_record left)) (or_ontology (ov_record right)));
  match mr_ontology result with
  | None => ok (result, None)
  | Some ontology =>
      view ← put_ontology {|
        po_tenant_id := tenant_id; po_ontology_id := ontology_id;
        po_display_name := or_display_name (ov_record left); po_ontology := ontology;
        po_author := author; po_message := message;
        po_expected_revision_id := Some expected_revision_id; po_create_only := false |};
      ok (result, Some view)
  end.
End ontologies.
