(* ===== verification/AuthoringService.v ===== *)
(** * AuthoringService: pipeline workspace commands (authoring_service.rs)

    [author_pipeline] loads the head, applies one command to the record of the
    pipeline and commits record and bindings together.  Each arm of its [match]
    is a definition of its own. *)

From S2P Require Import Prelude Text Json Pipeline Authoring Composition State Store Domain.

(** ** Field updates *)
Definition set_enabled (b : bool) (a : AuthoringState) : AuthoringState :=
  {| a_enabled := b; a_branches := a_branches a; a_proposals := a_proposals a;
     a_approval := a_approval a; a_release := a_release a |}.
Definition set_branches (m : gmap string Branch) (a : AuthoringState) : AuthoringState :=
  {| a_enabled := a_enabled a; a_branches := m; a_proposals := a_proposals a;
     a_approval := a_approval a; a_release := a_release a |}.
Definition set_proposals (m : gmap string MergeProposal) (a : AuthoringState) : AuthoringState :=
  {| a_enabled := a_enabled a; a_branches := a_branches a; a_proposals := m;
     a_approval := a_approval a; a_release := a_release a |}.
Definition set_approval (o : option ContentReview) (a : AuthoringState) : AuthoringState :=
  {| a_enabled := a_enabled a; a_branches := a_branches a; a_proposals := a_proposals a;
     a_approval := o; a_release := a_release a |}.
Definition set_release (o : option PipelineRelease) (a : AuthoringState) : AuthoringState :=
  {| a_enabled := a_enabled a; a_branches := a_branches a; a_proposals := a_proposals a;
     a_approval := a_approval a; a_release := o |}.

Definition with_authoring (f : AuthoringState -> AuthoringState) (r : PipelineRecord)
    : PipelineRecord :=
  {| pl_authoring := f (pl_authoring r); pl_previous_revision_id := pl_previous_revision_id r;
     pl_pipeline_id := pl_pipeline_id r; pl_name := pl_name r; pl_owner_id := pl_owner_id r;
     pl_published_revision_id := pl_published_revision_id r; pl_definition := pl_definition r;
     pl_author_id := pl_author_id r; pl_message := pl_message r;
     pl_created_at_ms := pl_created_at_ms r; pl_updated_at_ms := pl_updated_at_ms r;
     pl_deleted_at_ms := pl_deleted_at_ms r |}.
Definition with_name (name : string) (r : PipelineRecord) : PipelineRecord :=
  {| pl_authoring := pl_authoring r; pl_previous_revision_id := pl_previous_revision_id r;
     pl_pipeline_id := pl_pipeline_id r; pl_name := name; pl_owner_id := pl_owner_id r;
     pl_published_revision_id := pl_published_revision_id r; pl_definition := pl_definition r;
     pl_author_id := pl_author_id r; pl_message := pl_message r;
     pl_created_at_ms := pl_created_at_ms r; pl_updated_at_ms := pl_updated_at_ms r;
     pl_deleted_at_ms := pl_deleted_at_ms r |}.
Definition with_published (o : option string) (r : PipelineRecord) : PipelineRecord :=
  {| pl_authoring := pl_authoring r; pl_previous_revision_id := pl_previous_revision_id r;
     pl_pipeline_id := pl_pipeline_id r; pl_name := pl_name r; pl_owner_id := pl_owner_id r;
     pl_published_revision_id := o; pl_definition := pl_definition r;
     pl_author_id := pl_author_id r; pl_message := pl_message r;
     pl_created_at_ms := pl_created_at_ms r; pl_updated_at_ms := pl_updated_at_ms r;
     pl_deleted_at_ms := pl_deleted_at_ms r |}.
(** The assignments after the [match] on the command. *)
Definition stamp (previous : option string) (author message : string) (now : Z)
    (r : PipelineRecord) : PipelineRecord :=
  {| pl_authoring := pl_authoring r; pl_previous_revision_id := previous;
     pl_pipeline_id := pl_pipeline_id r; pl_name := pl_name r; pl_owner_id := pl_owner_id r;
     pl_published_revision_id := pl_published_revision_id r; pl_definition := pl_definition r;
     pl_author_id := author; pl_message := message;
     pl_created_at_ms := pl_created_at_ms r; pl_updated_at_ms := now;
     pl_deleted_at_ms := pl_deleted_at_ms r |}.

Definition operation_name (command : AuthoringCommand) : string :=
  match command with
  | SaveDraft _ => "save_draft"
  | BindOntology _ _ => "bind_ontology"
  | CreateBranch _ _ => "create_branch"
  | DeleteBranch _ => "delete_branch"
  | ProposeMerge _ => "propose_merge"
  | Merge _ _ => "merge"
  | Approve => "approve"
  | Publish => "publish"
  | Deploy => "deploy"
  end.

(** ** Binding an ontology to a block of the draft *)
Definition is_block (block : string) (step : value) : bool := opt_str_eqb (get_str step "step") block.
Definition bindable (step : value) : bool :=
  is_some_and (fun kind => negb (str_in kind ["forward"; "filter"; "pipeline"])) (get_str step "type").

(** [steps.iter_mut().find(..)] and the update of the step found. *)
Fixpoint require_ontology (block : string) (steps : list value) : result (list value) :=
  match steps with
  | [] => Err (Msg "pipeline block unavailable")
  | step :: steps =>
      if is_block block step then
        ensure (bindable step) "control-flow block cannot bind ontology" ;;
        object ← with_context "invalid pipeline block" (as_object step);
        Ok (JObject (jinsert "ontology_required" (JBool true) object) :: steps)
      else
        steps ← require_ontology block steps;
        Ok (step :: steps)
  end.
Definition require_block (block : string) (definition : value) : result value :=
  object ← with_context "pipeline block unavailable" (as_object definition);
  steps ← with_context "pipeline block unavailable" (jget "pipeline" object ≫= as_array);
  steps ← require_ontology block steps;
  Ok (JObject (jinsert "pipeline" (JArray steps) object)).

Definition DRAFT_BINDING_KINDS : list string := ["object_type"; "event_type"; "property"; "link_type"].
Definition draft_binding (pipeline_id block ontology : string) (now : Z) : OntologyBindingRecord :=
  {| bd_pipeline_id := pipeline_id; bd_block_id := block; bd_ontology_id := ontology;
     bd_resource_ids := []; bd_resource_kinds := DRAFT_BINDING_KINDS;
     bd_include_dependencies := true;
     bd_metadata := JObject [("source", JString "explicit_tenant_selection")];
     bd_updated_at_ms := now |}.

Section service.
Context `{Externals}.

Definition bind_ontology_draft (tenant : string) (pipeline : PipelineRecord) (state : TenantState)
    (block ontology : string) : prog (PipelineRecord * TenantState) :=
  now ← now_ms;
  let binding := draft_binding (pl_pipeline_id pipeline) block ontology now in
  validate_published_binding tenant state binding ;;
  definition ← lift (require_block block (pl_definition pipeline));
  lift (validate_draft definition) ;;
  ok (with_authoring (set_approval None) (with_definition definition pipeline),
      put_binding_record (binding_key (pl_pipeline_id pipeline) block) binding state).

(** ** The commands on the record *)
Definition save_draft (input : PutPipeline) (branch : string) (now : Z) (record : PipelineRecord)
    : result PipelineRecord :=
  validate_draft (pp_definition input) ;;
  ensure (opt_str_eqb (get_str (pp_definition input) "name") (pp_name input))
    "pipeline name mismatch" ;;
  if String.eqb branch "main" then
    Ok (with_authoring (set_approval None)
          (with_name (pp_name input) (with_definition (pp_definition input) record)))
  else
    selected ← with_context "pipeline branch unavailable" (a_branches (pl_authoring record) !! branch);
    let selected := {|
      br_parent_branch := br_parent_branch selected; br_definition := pp_definition input;
      br_base_definition := br_base_definition selected;
      br_base_revision_id := br_base_revision_id selected;
      br_author_id := pp_author input; br_updated_at_ms := now |} in
    Ok (with_authoring (fun a => set_branches (<[branch := selected]> (a_branches a)) a) record).

Definition has_children (branch : string) (branches : gmap string Branch) : bool :=
  existsb (fun child => opt_str_eqb (br_parent_branch child) branch) (btree_values branches).
Definition has_proposal (branch : string) (proposals : gmap string MergeProposal) : bool :=
  existsb (fun proposal => String.eqb (mp_source_branch proposal) branch) (btree_values proposals).

Definition delete_branch (branch : string) (record : PipelineRecord) : result PipelineRecord :=
  let a := pl_authoring record in
  ensure (valid_branch branch && negb (String.eqb branch "main")) "invalid pipeline branch" ;;
  ensure (option_is_some (a_branches a !! branch)) "pipeline branch unavailable" ;;
  ensure (negb (has_children branch (a_branches a))) "pipeline branch has children" ;;
  ensure (negb (has_proposal branch (a_proposals a))) "pipeline branch has an open proposal" ;;
  Ok (with_authoring (fun a => set_branches (delete branch (a_branches a)) a) record).

Definition create_branch (author branch from_branch head : string) (now : Z) (record : PipelineRecord)
    : result PipelineRecord :=
  let a := pl_authoring record in
  ensure (valid_branch branch && negb (String.eqb branch "main")) "invalid pipeline branch" ;;
  ensure (Nat.ltb (size (a_branches a)) 32 && option_is_none (a_branches a !! branch))
    "pipeline branch exists or limit reached" ;;
  '(definition, base_definition, base_revision_id) ←
    (if String.eqb from_branch "main" then Ok (pl_definition record, pl_definition record, head)
     else
       parent ← with_context "pipeline branch unavailable" (a_branches a !! from_branch);
       Ok (br_definition parent, br_base_definition parent, br_base_revision_id parent));
  let value := {|
    br_parent_branch := Some from_branch; br_definition := definition;
    br_base_definition := base_definition; br_base_revision_id := base_revision_id;
    br_author_id := author; br_updated_at_ms := now |} in
  Ok (with_authoring (fun a => set_branches (<[branch := value]> (a_branches a)) a) record).

Definition propose_merge (author source_branch : string) (now : Z) (record : PipelineRecord)
    : result PipelineRecord :=
  let a := pl_authoring record in
  source ← with_context "pipeline source branch unavailable" (a_branches a !! source_branch);
  ensure (Nat.ltb (size (a_proposals a)) 32 || option_is_some (a_proposals a !! source_branch))
    "pipeline proposal limit exceeded" ;;
  source_hash ← definition_hash (br_definition source);
  target_hash ← definition_hash (pl_definition record);
  let proposal := {|
    mp_source_branch := source_branch; mp_source_hash := source_hash; mp_target_hash := target_hash;
    mp_author_id := author; mp_created_at_ms := now |} in
  Ok (with_authoring (fun a => set_proposals (<[source_branch := proposal]> (a_proposals a)) a) record).

(** The proposal pins both documents by their hashes. *)
Definition proposal_current (proposal : MergeProposal) (source : Branch) (record : PipelineRecord)
    : result bool :=
  source_hash ← definition_hash (br_definition source);
  if String.eqb (mp_source_hash proposal) source_hash then
    target_hash ← definition_hash (pl_definition record);
    Ok (String.eqb (mp_target_hash proposal) target_hash)
  else Ok false.

Definition merge_proposal (proposal_id : string) (resolutions : gmap string MergeChoice)
    (head : string) (record : PipelineRecord) : result PipelineRecord :=
  let a := pl_authoring record in
  proposal ← with_context "pipeline proposal unavailable" (a_proposals a !! proposal_id);
  source ← with_context "pipeline branch unavailable" (a_branches a !! mp_source_branch proposal);
  current ← proposal_current proposal source record;
  ensure current "pipeline proposal changed; refresh proposal" ;;
  preview ← merge_definitions (br_base_definition source) (pl_definition record)
    (br_definition source) resolutions;
  ensure (Nat.eqb (length (pv_conflicts preview)) 0) "pipeline merge conflicts unresolved" ;;
  validate_draft (pv_definition preview) ;;
  name ← with_context "pipeline name missing" (get_str (pv_definition preview) "name");
  let record := with_authoring (fun a => set_proposals (delete proposal_id (a_proposals a))
      (set_approval None a)) (with_definition (pv_definition preview) (with_name name record)) in
  source ← with_context "pipeline branch unavailable"
    (a_branches (pl_authoring record) !! proposal_id);
  let source := {|
    br_parent_branch := br_parent_branch source; br_definition := pl_definition record;
    br_base_definition := pl_definition record; br_base_revision_id := head;
    br_author_id := br_author_id source; br_updated_at_ms := br_updated_at_ms source |} in
  Ok (with_authoring (fun a => set_branches (<[proposal_id := source]> (a_branches a)) a) record).

Definition approve (input : PutPipeline) (head : string) (now : Z) (record : PipelineRecord)
    : prog PipelineRecord :=
  lift (validate_executable (pl_definition record)) ;;
  check (negb (is_none_or (fun l => Nat.eqb (length l) 0) (get_array (pl_definition record) "sources")))
    "pipeline requires a source" ;;
  compile_composition (pp_tenant_id input) (pp_pipeline_id input) head (pl_definition record) false ;;
  hash ← lift (definition_hash (pl_definition record));
  ok (with_authoring (set_approval (Some {|
        cr_definition_hash := hash; cr_author_id := pp_author input; cr_reviewed_at_ms := now |}))
      record).

Definition publish (input : PutPipeline) (head : string) (now : Z) (record : PipelineRecord)
    : prog PipelineRecord :=
  review ← require "pipeline approval required" (a_approval (pl_authoring record));
  hash ← lift (definition_hash (pl_definition record));
  check (String.eqb (cr_definition_hash review) hash) "pipeline approval stale" ;;
  compile_composition (pp_tenant_id input) (pp_pipeline_id input) head (pl_definition record) true ;;
  ok (with_authoring (set_release (Some {|
        pr_revision_id := head; pr_definition_hash := cr_definition_hash review;
        pr_author_id := pp_author input; pr_published_at_ms := now |})) record).

Definition deploy (input : PutPipeline) (record : PipelineRecord) : prog PipelineRecord :=
  let tenant_id := pp_tenant_id input in
  let pipeline_id := pp_pipeline_id input in
  release ← require "pipeline publication required" (a_release (pl_authoring record));
  pinned ← pipeline_revision tenant_id pipeline_id (pr_revision_id release);
  hash ← lift (definition_hash (pl_definition (pv_record pinned)));
  check (String.eqb (pr_definition_hash release) hash) "pipeline publication invalid" ;;
  compile_composition tenant_id pipeline_id (pr_revision_id release)
    (pl_definition (pv_record pinned)) true ;;
  runtime_pipeline tenant_id pipeline_id (pr_revision_id release) ;;
  ok (with_published (Some (pr_revision_id release)) record).

(** ** The command dispatch and its frame *)
Definition on_record (state : TenantState) (p : prog PipelineRecord)
    : prog (PipelineRecord * TenantState) := record ← p; ok (record, state).

Definition apply_command (input : PutPipeline) (command : AuthoringCommand) (head : string) (now : Z)
    (record : PipelineRecord) (state : TenantState) : prog (PipelineRecord * TenantState) :=
  match command with
  | BindOntology block_id ontology_id =>
      check (value_eqb (pp_definition input) (pl_definition record))
        "binding cannot replace the pipeline definition" ;;
      bind_ontology_draft (pp_tenant_id input) record state block_id ontology_id
  | SaveDraft branch => on_record state (lift (save_draft input branch now record))
  | DeleteBranch branch => on_record state (lift (delete_branch branch record))
  | CreateBranch branch from_branch =>
      on_record state (lift (create_branch (pp_author input) branch from_branch head now record))
  | ProposeMerge source_branch =>
      on_record state (lift (propose_merge (pp_author input) source_branch now record))
  | Merge proposal_id resolutions =>
      on_record state (lift (merge_proposal proposal_id resolutions head record))
  | Approve => on_record state (approve input head now record)
  | Publish => on_record state (publish input head now record)
  | Deploy => on_record state (deploy input record)
  end.

Definition saves_main (command : AuthoringCommand) : bool :=
  match command with SaveDraft branch => String.eqb branch "main" | _ => false end.

Definition new_pipeline (input : PutPipeline) (now : Z) : PipelineRecord :=
  {| pl_authoring := default_authoring; pl_previous_revision_id := None;
     pl_pipeline_id := pp_pipeline_id input; pl_name := pp_name input;
     pl_owner_id := pp_owner_id input; pl_published_revision_id := None;
     pl_definition := JNull; pl_author_id := pp_author input; pl_message := pp_message input;
     pl_created_at_ms := now; pl_updated_at_ms := now; pl_deleted_at_ms := None |}.

Definition MAX_PIPELINE_BYTES : N := 3145728.
Definition validate_pipeline_size (record : PipelineRecord) : result unit :=
  bytes ← json_to_vec (json_pipeline record);
  ensure (N.of_nat (String.length bytes) <=? MAX_PIPELINE_BYTES)%N
    "pipeline workspace size limit exceeded".

Definition author_pipeline (input : PutPipeline) (command : AuthoringCommand) : prog PipelineView :=
  let id := pp_pipeline_id input in
  let create_only := pp_create_only input in
  check (valid_tenant (pp_tenant_id input) && valid_branch id) "invalid pipeline identity" ;;
  check (negb (is_empty (pp_author input)) && negb (is_empty (pp_owner_id input)))
    "pipeline principal required" ;;
  check (negb (trim_is_empty (pp_name input)) && len_le (pp_name input) 256)
    "pipeline name required" ;;
  check (negb (is_empty (pp_message input)) && len_le (pp_message input) 1024)
    "pipeline message required" ;;
  (if create_only then
     check (saves_main command) "only a main draft can create a pipeline" ;;
     ensure_tenant (pp_tenant_id input) ;;
     ok tt
   else ok tt) ;;
  snapshot ← load (pp_tenant_id input) None;
  let head := sn_revision_id snapshot in
  check (create_only || opt_str_eqb (pp_expected_revision_id input) head) "pipeline head changed" ;;
  let previous := pipelines (sn_state snapshot) !! id in
  let state := remove_pipeline id (sn_state snapshot) in
  check (negb create_only || option_is_none previous) "pipeline already exists" ;;
  check (create_only || is_some_and live_pipeline previous) "pipeline unavailable" ;;
  now ← now_ms;
  let record := with_authoring (set_enabled true) (default (new_pipeline input now) previous) in
  '(record, state) ← apply_command input command head now record state;
  let record := stamp (if create_only then None else Some head) (pp_author input)
    (pp_message input) now record in
  lift (validate_pipeline_size record) ;;
  let state := put_pipeline_record id record state in
  head ← commit (pp_tenant_id input) head state (pp_author input) (pp_message input);
  record ← require "committed pipeline missing" (pipelines state !! id);
  ok {| pv_head_revision_id := head; pv_record := record |}.
End service.
