(* ===== verification/OntologyAuthoring.v ===== *)
(** * OntologyAuthoring: ontology workspace commands (ontology_authoring.rs)

    Branches of an ontology, their semantic merge into the parent, tombstones
    and the history of one ontology along its chain of revisions. *)

From S2P Require Import Prelude Text Json Ontology DiffMerge Authoring State Store Domain.

Inductive OntologyCommand : Type :=
  | OCreateBranch (branch from_branch : string)
  | OSaveDraft (branch : string)
  | OMerge (branch : string)
  | ODeleteBranch (branch : string)
  | ODelete
  | ORestore.

Definition ontology_operation_name (command : OntologyCommand) : string :=
  match command with
  | OCreateBranch _ _ => "create_branch"
  | OSaveDraft _ => "save_draft"
  | OMerge _ => "merge"
  | ODeleteBranch _ => "delete_branch"
  | ODelete => "delete"
  | ORestore => "restore"
  end.

Record OntologyHistoryItem : Type := {
  hi_revision_id : string;
  hi_author : string;
  hi_message : string;
  hi_branch : string;
  hi_operation : string;
  hi_created_at_ms : Z;
}.
Record OntologyHistoryPage : Type := {
  hp_items : list OntologyHistoryItem;
  hp_next_revision_id : option string;
}.

(** ** Field updates *)
Definition with_ontology_branches (m : gmap string OntologyBranch) (r : OntologyRecord)
    : OntologyRecord :=
  {| or_authoring := {| oa_branches := m;
       oa_previous_revision_id := oa_previous_revision_id (or_authoring r);
       oa_last_branch := oa_last_branch (or_authoring r);
       oa_last_operation := oa_last_operation (or_authoring r);
       oa_last_author := oa_last_author (or_authoring r);
       oa_updated_at_ms := oa_updated_at_ms (or_authoring r);
       oa_deleted_at_ms := oa_deleted_at_ms (or_authoring r) |};
     or_ontology_id := or_ontology_id r; or_display_name := or_display_name r;
     or_ontology := or_ontology r; or_author := or_author r; or_message := or_message r;
     or_created_at_ms := or_created_at_ms r;
     or_production_publication := or_production_publication r |}.
Definition with_model (ontology : value) (name : string) (r : OntologyRecord) : OntologyRecord :=
  {| or_authoring := or_authoring r; or_ontology_id := or_ontology_id r; or_display_name := name;
     or_ontology := ontology; or_author := or_author r; or_message := or_message r;
     or_created_at_ms := or_created_at_ms r;
     or_production_publication := or_production_publication r |}.
Definition with_tombstone (deleted : option Z) (publication : option OntologyPublicationRecord)
    (r : OntologyRecord) : OntologyRecord :=
  {| or_authoring := {| oa_branches := oa_branches (or_authoring r);
       oa_previous_revision_id := oa_previous_revision_id (or_authoring r);
       oa_last_branch := oa_last_branch (or_authoring r);
       oa_last_operation := oa_last_operation (or_authoring r);
       oa_last_author := oa_last_author (or_authoring r);
       oa_updated_at_ms := oa_updated_at_ms (or_authoring r);
       oa_deleted_at_ms := deleted |};
     or_ontology_id := or_ontology_id r; or_display_name := or_display_name r;
     or_ontology := or_ontology r; or_author := or_author r; or_message := or_message r;
     or_created_at_ms := or_created_at_ms r; or_production_publication := publication |}.
(** The assignments after the [match] on the command. *)
Definition stamp_ontology (now : Z) (head affected operation author : string) (r : OntologyRecord)
    : OntologyRecord :=
  {| or_authoring := touch now (Some head) affected operation author (or_authoring r);
     or_ontology_id := or_ontology_id r; or_display_name := or_display_name r;
     or_ontology := or_ontology r; or_author := author; or_message := "Ontology " +:+ operation;
     or_created_at_ms := or_created_at_ms r;
     or_production_publication := or_production_publication r |}.

(** ** Branches *)
Notation obranches r := (oa_branches (or_authoring r)).

(** The definition and name of a branch, the record's own for [main]. *)
Definition branch_content (record : OntologyRecord) (branch : string) : result (value * string) :=
  if String.eqb branch "main" then Ok (or_ontology record, or_display_name record)
  else
    parent ← with_context "parent ontology branch unavailable" (obranches record !! branch);
    Ok (ob_definition parent, ob_display_name parent).

Definition fork (branch from_branch expected author : string) (now : Z) (record : OntologyRecord)
    : result OntologyRecord :=
  ensure (valid_branch branch && negb (String.eqb branch "main") &&
          option_is_none (obranches record !! branch)) "invalid ontology branch" ;;
  ensure (Nat.ltb (size (obranches record)) 20) "ontology branch limit exceeded" ;;
  '(definition, name) ← branch_content record from_branch;
  let value := {|
    ob_parent_branch := from_branch; ob_definition := definition; ob_display_name := name;
    ob_base_definition := definition; ob_base_display_name := name;
    ob_base_revision_id := expected; ob_author := author; ob_updated_at_ms := now |} in
  Ok (with_ontology_branches (<[branch := value]> (obranches record)) record).

Definition save_branch (branch : string) (input : PutOntology) (now : Z) (record : OntologyRecord)
    : result OntologyRecord :=
  ensure (valid_branch branch) "invalid ontology branch" ;;
  ensure (negb (trim_is_empty (po_display_name input)) && len_le (po_display_name input) 256)
    "invalid ontology display name" ;;
  validate_ontology (po_ontology input) ;;
  ensure (opt_value_eqb (get (or_ontology record) "plugin_origin")
            (get (po_ontology input) "plugin_origin"))
    "ontology plugin provenance is immutable" ;;
  if String.eqb branch "main" then
    Ok (with_model (po_ontology input) (po_display_name input) record)
  else
    selected ← with_context "ontology branch unavailable" (obranches record !! branch);
    let selected := {|
      ob_parent_branch := ob_parent_branch selected; ob_definition := po_ontology input;
      ob_display_name := po_display_name input; ob_base_definition := ob_base_definition selected;
      ob_base_display_name := ob_base_display_name selected;
      ob_base_revision_id := ob_base_revision_id selected;
      ob_author := po_author input; ob_updated_at_ms := now |} in
    Ok (with_ontology_branches (<[branch := selected]> (obranches record)) record).

(** The source branch after a merge: its ancestor is what was merged. *)
Definition rebased (expected : string) (source : OntologyBranch) : OntologyBranch :=
  {| ob_parent_branch := ob_parent_branch source; ob_definition := ob_definition source;
     ob_display_name := ob_display_name source; ob_base_definition := ob_definition source;
     ob_base_display_name := ob_display_name source; ob_base_revision_id := expected;
     ob_author := ob_author source; ob_updated_at_ms := ob_updated_at_ms source |}.
Definition received (merged : value) (name author : string) (now : Z) (b : OntologyBranch)
    : OntologyBranch :=
  {| ob_parent_branch := ob_parent_branch b; ob_definition := merged; ob_display_name := name;
     ob_base_definition := ob_base_definition b; ob_base_display_name := ob_base_display_name b;
     ob_base_revision_id := ob_base_revision_id b; ob_author := author; ob_updated_at_ms := now |}.

Definition merge_branch (branch expected author : string) (now : Z) (record : OntologyRecord)
    : result (OntologyRecord * string) :=
  ensure (negb (String.eqb branch "main")) "invalid ontology merge source" ;;
  source ← with_context "ontology branch unavailable" (obranches record !! branch);
  let parent := ob_parent_branch source in
  '(target, name) ← branch_content record parent;
  ensure (String.eqb name (ob_base_display_name source) ||
          String.eqb (ob_display_name source) (ob_base_display_name source) ||
          String.eqb name (ob_display_name source)) "ontology name conflict" ;;
  result ← DiffMerge.merge_ontology (ob_base_definition source) target (ob_definition source);
  ensure (Nat.eqb (length (mr_conflicts result)) 0) "ontology merge has conflicts" ;;
  merged ← with_context "ontology merge unavailable" (mr_ontology result);
  let merged_name :=
    if String.eqb name (ob_base_display_name source) then ob_display_name source else name in
  source ← with_context "ontology branch unavailable" (obranches record !! branch);
  let record :=
    with_ontology_branches (<[branch := rebased expected source]> (obranches record)) record in
  if String.eqb parent "main" then Ok (with_model merged merged_name record, parent)
  else
    value ← with_context "parent ontology branch unavailable" (obranches record !! parent);
    Ok (with_ontology_branches
          (<[parent := received merged merged_name author now value]> (obranches record)) record,
        parent).

Definition remove_branch (branch : string) (record : OntologyRecord) : result OntologyRecord :=
  ensure (negb (String.eqb branch "main") && option_is_some (obranches record !! branch))
    "ontology branch unavailable" ;;
  ensure (negb (existsb (fun child => String.eqb (ob_parent_branch child) branch)
                  (btree_values (obranches record)))) "ontology branch has children" ;;
  Ok (with_ontology_branches (delete branch (obranches record)) record).

(** [state] no longer holds the record itself. *)
Definition delete_ontology (state : TenantState) (now : Z) (record : OntologyRecord)
    : result OntologyRecord :=
  ensure (option_is_none (get (or_ontology record) "plugin_origin")) "plugin ontology is protected" ;;
  ensure (negb (existsb (fun b => String.eqb (bd_ontology_id b) (or_ontology_id record))
                  (btree_values (bindings state)))) "ontology is used by a pipeline" ;;
  ensure (negb (existsb (fun o => live_ontology o &&
                  opt_str_eqb (pointer_str ["target_origin"; "ontology_id"] (or_ontology o))
                    (or_ontology_id record))
                  (btree_values (ontologies state)))) "ontology is used by another model" ;;
  Ok (with_tombstone (Some now) None record).

Definition restore_ontology (record : OntologyRecord) : result OntologyRecord :=
  ensure (option_is_some (oa_deleted_at_ms (or_authoring record))) "ontology is not deleted" ;;
  Ok (with_tombstone None (or_production_publication record) record).

(** The record after a command and the branch it affects. *)
Definition apply_ontology_command (input : PutOntology) (command : OntologyCommand)
    (expected : string) (now : Z) (state : TenantState) (record : OntologyRecord)
    : result (OntologyRecord * string) :=
  match command with
  | OCreateBranch branch from_branch =>
      record ← fork branch from_branch expected (po_author input) now record; Ok (record, branch)
  | OSaveDraft branch => record ← save_branch branch input now record; Ok (record, branch)
  | OMerge branch => merge_branch branch expected (po_author input) now record
  | ODeleteBranch branch => record ← remove_branch branch record; Ok (record, branch)
  | ODelete => record ← delete_ontology state now record; Ok (record, "main")
  | ORestore => record ← restore_ontology record; Ok (record, "main")
  end.

Definition is_restore (command : OntologyCommand) : bool :=
  match command with ORestore => true | _ => false end.

Section ontology_authoring.
Context `{Externals}.

Definition author_ontology (input : PutOntology) (command : OntologyCommand) : prog OntologyView :=
  let id := po_ontology_id input in
  let author := po_author input in
  lift (validate_identity (po_tenant_id input) id) ;;
  check (negb (po_create_only input)) "ontology commands require an existing model" ;;
  check (negb (is_empty author) && len_le author 256) "invalid ontology author" ;;
  expected ← require "expected revision ID is required" (po_expected_revision_id input);
  check (valid_revision expected) "invalid ontology revision" ;;
  snapshot ← load (po_tenant_id input) None;
  check (String.eqb (sn_revision_id snapshot) expected) "ontology head changed" ;;
  record ← require "ontology unavailable" (ontologies (sn_state snapshot) !! id);
  let state := remove_ontology id (sn_state snapshot) in
  check (live_ontology record || is_restore command) "ontology is deleted" ;;
  let operation := ontology_operation_name command in
  now ← now_ms;
  '(record, affected) ← lift (apply_ontology_command input command expected now state record);
  touched ← now_ms;
  let record := stamp_ontology touched (sn_revision_id snapshot) affected operation author record in
  lift (validate_workspace_size record) ;;
  let state := put_ontology_record id record state in
  revision_id ← commit (po_tenant_id input) expected state author operation;
  record ← require "committed ontology unavailable" (ontologies state !! id);
  ok {| ov_revision_id := revision_id; ov_record := record |}.
End ontology_authoring.

(** ** History *)
Definition or_else (s fallback : string) : string := if is_empty s then fallback else s.
Definition history_item (revision : string) (record : OntologyRecord) : OntologyHistoryItem :=
  let metadata := or_authoring record in
  {| hi_revision_id := revision;
     hi_author := or_else (oa_last_author metadata) (or_author record);
     hi_message := or_message record;
     hi_branch := or_else (oa_last_branch metadata) "main";
     hi_operation := or_else (oa_last_operation metadata) "save_draft";
     hi_created_at_ms :=
       if (oa_updated_at_ms metadata =? 0)%Z then or_created_at_ms record
       else oa_updated_at_ms metadata |}.

(** [for _ in 0..limit]: [limit] is the number of iterations left. *)
Fixpoint walk_history (limit : nat) (tenant id : string) (next : option string)
    (visited : gset string) (items : list OntologyHistoryItem) : prog OntologyHistoryPage :=
  match limit with
  | 0 => ok {| hp_items := items; hp_next_revision_id := next |}
  | S limit =>
      snapshot ← load tenant next;
      let revision := sn_revision_id snapshot in
      check (bool_decide (revision ∉ visited)) "ontology revision cycle" ;;
      record ← require "ontology unavailable at revision" (ontologies (sn_state snapshot) !! id);
      let items := items ++ [history_item revision record] in
      match oa_previous_revision_id (or_authoring record) with
      | None => ok {| hp_items := items; hp_next_revision_id := None |}
      | Some previous =>
          walk_history limit tenant id (Some previous) ({[revision]} ∪ visited) items
      end
  end.

Definition ontology_history (tenant id : string) (after : option string) (limit : nat)
    : prog OntologyHistoryPage :=
  lift (validate_identity tenant id) ;;
  check (Nat.leb 1 limit && Nat.leb limit 100) "invalid ontology history limit" ;;
  check (is_none_or valid_revision after) "invalid ontology revision" ;;
  walk_history limit tenant id after ∅ [].
