(* ===== verification/PluginOntology.v ===== *)
(** * PluginOntology: tenant overlays over plugin packages (plugin_ontology.rs)

    [materialize] collects the resources of a plugin package, rebinds the
    participant links the tenant mapped and imports the dependency closure of
    the mapped types. *)

From S2P Require Import Prelude Json Ontology Authoring.

Notation Resources := (gmap string value).

Definition resource_id (resource : value) : result string :=
  with_context "resource ID missing" (get_str resource "resource_id").

(** One resource of a module, stamped with the module's identity. *)
Definition stamp_resource (module_id : string) (module item : value) : result (string * value) :=
  id ← resource_id item;
  object ← with_context "resource attributes missing" (as_object item);
  attributes ← with_context "resource attributes missing" (jget "attributes" object ≫= as_object);
  version ← with_context "module version missing" (get module "version");
  let attributes := jinsert "plugin_module_version" version
    (jinsert "plugin_module" (JString module_id) attributes) in
  Ok (id, JObject (jinsert "attributes" (JObject attributes) object)).

Fixpoint add_items (module_id : string) (module : value) (items : list value) (resources : Resources)
    : result Resources :=
  match items with
  | [] => Ok resources
  | item :: items =>
      '(id, resource) ← stamp_resource module_id module item;
      ensure (option_is_none (resources !! id)) "duplicate plugin resource" ;;
      add_items module_id module items (<[id := resource]> resources)
  end.

Fixpoint add_modules (modules : list value) (resources : Resources) : result Resources :=
  match modules with
  | [] => Ok resources
  | module :: modules =>
      module_id ← with_context "module identity missing" (get_str module "id");
      items ← with_context "ontology resources missing" (get_array module "resources");
      resources ← add_items module_id module items resources;
      add_modules modules resources
  end.

Definition package_resources (package : value) : result Resources :=
  modules ← with_context "ontology modules missing" (get_array package "ontologies");
  ensure (negb (Nat.eqb (length modules) 0) && Nat.leb (length modules) 32)
    "invalid ontology modules" ;;
  add_modules modules ∅.

Definition target_resources (target : option value) (mappings : gmap string string)
    : result Resources :=
  if Nat.eqb (size mappings) 0 then Ok ∅
  else
    target ← with_context "mapped target ontology missing" target;
    slice ← slice_ontology target (btree_values mappings) [] true;
    items ← with_context "target resources missing" (get_array slice "resources");
    entries ← mapM (fun item => id ← resource_id item; Ok (id, item)) items;
    Ok (btree_collect entries).

Definition rename_reference (old destination : string) (reference : value) : value :=
  if opt_str_eqb (as_str reference) old then JString destination else reference.

Definition rebind_participant (resource : value) (destination : string) (selected : value)
    : result value :=
  ensure (is_some_and (fun b => b) (pointer_get ["attributes"; "mapping_slot"] resource ≫= as_bool))
    "resource is not a mapping slot" ;;
  ensure (opt_str_eqb (get_str resource "kind") "link_type")
    "only participant relationships can be rebound" ;;
  ensure (opt_str_eqb (get_str selected "kind") "object_type")
    "participant target must be an object type" ;;
  old ← with_context "link target missing" (pointer_str ["attributes"; "target_type"] resource);
  object ← with_context "link target missing" (as_object resource);
  attributes ← with_context "link target missing" (jget "attributes" object ≫= as_object);
  let object := jinsert "attributes"
    (JObject (jinsert "target_type" (JString destination) attributes)) object in
  refs ← with_context "link references missing" (jget "references" object ≫= as_array);
  Ok (JObject (jinsert "references" (JArray (rename_reference old destination <$> refs)) object)).

(** [for (slot, destination) in mappings] *)
Fixpoint rebind_all (mappings : list (string * string)) (external resources : Resources)
    : result Resources :=
  match mappings with
  | [] => Ok resources
  | (slot, destination) :: mappings =>
      resource ← with_context "unknown plugin mapping slot" (resources !! slot);
      selected ← with_context "target resource unavailable" (external !! destination);
      resource ← rebind_participant resource destination selected;
      rebind_all mappings external (<[slot := resource]> resources)
  end.

(** [for (id, resource) in external] *)
Fixpoint import_all (external : list (string * value)) (resources : Resources) : result Resources :=
  match external with
  | [] => Ok resources
  | (id, resource) :: external =>
      ensure (option_is_none (resources !! id)) "target conflicts with plugin resource" ;;
      import_all external (<[id := resource]> resources)
  end.

(** [json!(option)]: [null] for [None]. *)
Definition json_or_null (v : option value) : value := default JNull v.
Definition package_origin (package : value) : value :=
  JObject [("package_id", json_or_null (get package "id"));
           ("plugin_id", json_or_null (get package "plugin_id"));
           ("plugin_version", json_or_null (get package "plugin_version"));
           ("package_version", json_or_null (get package "version"))].
Definition package_document (package : value) (resources : Resources) : value :=
  JObject [("version", json_or_null (get package "version"));
           ("resources", JArray (btree_values resources))].
Definition overlay_document (package : value) (resources : Resources) (mappings : gmap string string)
    : value :=
  JObject [("version", json_or_null (get package "version"));
           ("resources", JArray (btree_values resources));
           ("plugin_origin", package_origin package);
           ("participant_mappings",
             JObject ((fun kv => (kv.1, JString kv.2)) <$> btree_entries mappings))].

Section plugin.
Context `{Externals}.

Definition MAX_PACKAGE_BYTES : N := 524288.
Definition materialize (package : value) (target : option value) (mappings : gmap string string)
    : result value :=
  bytes ← json_to_vec package;
  ensure (N.of_nat (String.length bytes) <=? MAX_PACKAGE_BYTES)%N
    "plugin ontology package exceeds limit" ;;
  ensure (Nat.leb (size mappings) 128) "too many ontology mappings" ;;
  resources ← package_resources package;
  validate_ontology (package_document package resources) ;;
  external ← target_resources target mappings;
  resources ← rebind_all (btree_entries mappings) external resources;
  resources ← import_all (btree_entries external) resources;
  ensure (Nat.leb (size resources) 1024) "ontology overlay exceeds resource limit" ;;
  let result := overlay_document package resources mappings in
  validate_ontology result ;;
  Ok result.
End plugin.
