(* ===== verification/StoreLogic.v ===== *)
(** * StoreLogic: reasoning about programs over the store

    A program logic against the contract of the trait: [wp] is the weakest
    precondition of a program over the growing history of revisions, for an
    invariant of the entries; [sys_step] runs any number of programs
    concurrently.  The soundness theorem says that programs whose commits
    preserve the invariant preserve it under every interleaving. *)

From S2P Require Import Prelude Text State Store.

(** An invariant of entries: it may refer to the revisions already in the
    history, and new revisions do not falsify it. *)
Class EntryInvariant (J : History -> string -> Entry -> Prop) := {
  inv_mono (L L' : History) t en : L ⊆ L' -> J L t en -> J L' t en;
  inv_initial (L : History) t : J L t initial_entry;
}.

Section logic.
Context (J : History -> string -> Entry -> Prop) `{!EntryInvariant J}.

Definition history_ok (L : History) : Prop :=
  forall t r en, L !! (t, r) = Some en ->
    valid_revision r = true /\ J L t en /\
    (forall p, en_parent en = Some p -> is_Some (L !! (t, p))).

Implicit Types (L : History).

(** What a successful call promises, and what the caller must show. *)
Definition op_wp {B} (o : op B) : History -> (History -> B -> Prop) -> Prop :=
  match o in op B return History -> (History -> B -> Prop) -> Prop with
  | TenantExists t => fun L Φ => forall L' b, L ⊆ L' -> history_ok L' -> Φ L' b
  | EnsureTenant t => fun L Φ => forall L' r, L ⊆ L' -> history_ok L' -> is_Some (L' !! (t, r)) -> Φ L' r
  | DeleteTenant t => fun L Φ => forall L' u, L ⊆ L' -> history_ok L' -> Φ L' u
  | Load t None => fun L Φ => forall L' sn en, L ⊆ L' -> history_ok L' ->
      L' !! (t, sn_revision_id sn) = Some en -> en_state en = sn_state sn -> Φ L' sn
  | Load t (Some r) => fun L Φ => forall L' sn, L ⊆ L' -> history_ok L' -> sn_revision_id sn = r ->
      (sn_state sn = ∅ \/ exists en, L' !! (t, r) = Some en /\ en_state en = sn_state sn) -> Φ L' sn
  | Commit t expected s author message => fun L Φ =>
      let en := {| en_parent := Some expected; en_state := s; en_author := author;
                   en_message := message |} in
      (forall L', L ⊆ L' -> history_ok L' -> is_Some (L' !! (t, expected)) -> J L' t en) /\
      (forall L' r, L ⊆ L' -> history_ok L' -> L' !! (t, r) = Some en -> Φ L' r)
  | Now => fun L Φ => forall L' z, L ⊆ L' -> history_ok L' -> Φ L' z
  end.

Fixpoint wp {A} (p : prog A) (L : History) (Q : History -> A -> Prop) : Prop :=
  match p with
  | Done (Ok a) => Q L a
  | Done (Err _) => True
  | Do o k => op_wp o L (fun L' b => wp (k b) L' Q)
  end.

(** ** Structural rules *)
Lemma op_wp_mono {B} (o : op B) L L' (Φ Φ' : History -> B -> Prop) :
  L ⊆ L' -> (forall L2 b, L' ⊆ L2 -> history_ok L2 -> Φ L2 b -> Φ' L2 b) ->
  op_wp o L Φ -> op_wp o L' Φ'.
Proof.
  intros HL HΦ. destruct o as [t|t|t|t [r|]|t e s a m|]; simpl.
  all: try (intros H L2; intros; apply HΦ; [done..|]; eapply H; [by etrans|done..]).
  intros [H1 H2]. split.
  - intros L2 ???. apply H1; [by etrans|done..].
  - intros L2 r ???. apply HΦ; [done..|]. apply H2; [by etrans|done..].
Qed.

Lemma wp_mono {A} (p : prog A) L L' (Q Q' : History -> A -> Prop) :
  L ⊆ L' -> (forall L2 a, L' ⊆ L2 -> history_ok L2 -> Q L2 a -> Q' L2 a) ->
  (forall L2 L3 a, L2 ⊆ L3 -> Q L2 a -> Q L3 a) -> history_ok L' ->
  wp p L Q -> wp p L' Q'.
Proof.
  revert L L'. induction p as [[a|e]|B o k IH]; intros L L' HL HQ Hm Hok; simpl; [|done|].
  - intros H. apply HQ; [done..|]. by eapply Hm.
  - apply op_wp_mono; [done|]. intros L2 b HL2 Hok2. apply IH; [done| |done..].
    intros L3 a HL3. apply HQ. by etrans.
Qed.

Lemma wp_conseq {A} (p : prog A) L (Q Q' : History -> A -> Prop) :
  history_ok L -> (forall L2 a, L ⊆ L2 -> history_ok L2 -> Q L2 a -> Q' L2 a) ->
  wp p L Q -> wp p L Q'.
Proof.
  revert L. induction p as [[a|e]|B o k IH]; intros L Hok HQ; simpl; [by apply HQ|done|].
  apply op_wp_mono; [done|]. intros L2 b HL2 Hok2. apply IH; [done|].
  intros L3 a HL3. apply HQ. by etrans.
Qed.

Lemma wp_bind {A B} (p : prog A) (f : A -> prog B) L (Q : History -> B -> Prop) :
  history_ok L -> wp p L (fun L' a => wp (f a) L' Q) -> wp (p ≫= f) L Q.
Proof.
  revert L. induction p as [[a|e]|C o k IH]; intros L Hok; simpl; [done..|].
  apply op_wp_mono; [done|]. intros L2 b HL2 Hok2. by apply IH.
Qed.

Lemma wp_lift {A} (r : result A) L (Q : History -> A -> Prop) :
  (forall a, r = Ok a -> Q L a) -> wp (lift r) L Q.
Proof. destruct r; simpl; auto. Qed.

Lemma wp_check b m L (Q : History -> unit -> Prop) : (b = true -> Q L tt) -> wp (check b m) L Q.
Proof. intros H. apply wp_lift. intros [] Hb%ensure_Ok_inv. auto. Qed.

Lemma wp_require {A} m (o : option A) L (Q : History -> A -> Prop) :
  (forall a, o = Some a -> Q L a) -> wp (require m o) L Q.
Proof. intros H. apply wp_lift. intros a Ha%context_Ok_inv. auto. Qed.

(** ** Concurrent executions *)
Inductive task : Type :=
  | Task {A : Type} (p : prog A).
Definition system : Type := list task * World.

Inductive sys_step (request : task -> Prop) : system -> system -> Prop :=
  | sys_spawn ts w t : request t -> sys_step request (ts, w) (t :: ts, w)
  | sys_call {A B} pre post (o : op B) (k : B -> prog A) w b w' :
      store_step o w (Ok b) w' ->
      sys_step request (pre ++ Task (Do o k) :: post, w) (pre ++ Task (k b) :: post, w')
  | sys_error {A B} pre post (o : op B) (k : B -> prog A) w e w' :
      store_step o w (Err e) w' ->
      sys_step request (pre ++ Task (Do o k) :: post, w) (pre ++ Task (@Done A (Err e)) :: post, w').

Definition initial_world : World := {| repos := ∅; log := ∅ |}.
Definition reachable (request : task -> Prop) (w : World) : Prop :=
  exists ts, rtc (sys_step request) ([], initial_world) (ts, w).

(** No revision is its own ancestor, and two revisions never share a parent. *)
Definition parent_of (L : History) (t : string) (p r : string) : Prop :=
  exists en, L !! (t, r) = Some en /\ en_parent en = Some p.
Record world_ok (w : World) : Prop := {
  wo_history : history_ok (log w);
  wo_repos t repo : repos w !! t = Some repo ->
    is_Some (log w !! (t, repo_head repo)) /\ repo_head repo ∈ repo_live repo /\
    (forall r, ~ parent_of (log w) t (repo_head repo) r);
  wo_live t repo r : repos w !! t = Some repo -> r ∈ repo_live repo ->
    is_Some (log w !! (t, r)) /\ (forall p, parent_of (log w) t p r -> p ∈ repo_live repo);
  wo_wf t : well_founded (parent_of (log w) t);
  wo_linear t p r r' : parent_of (log w) t p r -> parent_of (log w) t p r' -> r = r';
}.

Definition task_ok (L : History) (t : task) : Prop :=
  match t with Task p => wp p L (fun _ _ => True) end.

(** ** Soundness *)
Lemma insert_fresh_sub (L : History) k en : L !! k = None -> L ⊆ <[k := en]> L.
Proof. intros H. by apply insert_subseteq. Qed.

Lemma history_ok_insert L t r en :
  history_ok L -> L !! (t, r) = None -> valid_revision r = true -> J L t en ->
  (forall p, en_parent en = Some p -> is_Some (L !! (t, p))) -> history_ok (<[(t, r) := en]> L).
Proof.
  intros Hok Hf Hv HJ Hp t' r' en'. pose proof (insert_fresh_sub L (t, r) en Hf) as Hsub.
  rewrite lookup_insert_Some. intros [[[= -> ->] ->]|[Hne H]].
  - split; [done|]. split; [by eapply inv_mono|]. intros p Hpp.
    destruct (Hp p Hpp) as [x Hx]. exists x. by eapply lookup_weaken.
  - destruct (Hok _ _ _ H) as (? & ? & Hp'). split; [done|]. split; [by eapply inv_mono|].
    intros p Hpp. destruct (Hp' p Hpp) as [x Hx]. exists x. by eapply lookup_weaken.
Qed.

Lemma parent_of_insert L t r en u p x :
  L !! (t, r) = None ->
  parent_of (<[(t, r) := en]> L) u p x <->
  parent_of L u p x \/ (u = t /\ x = r /\ en_parent en = Some p).
Proof.
  intros Hf. unfold parent_of. split.
  - intros (en' & H & Hp). apply lookup_insert_Some in H as [[[= -> ->] ->]|[_ H]]; eauto.
  - intros [(en' & H & Hp)|(-> & -> & Hp)].
    + exists en'. split; [|done]. rewrite lookup_insert_ne; [done|]. intros [= -> ->].
      by rewrite Hf in H.
    + exists en. by rewrite lookup_insert_eq.
Qed.

Lemma parent_exists L t p r : history_ok L -> parent_of L t p r -> is_Some (L !! (t, p)).
Proof. intros Hok (en & H & Hp). destruct (Hok _ _ _ H) as (_ & _ & Hx). auto. Qed.

(** Adding a fresh revision whose parent is in the history. *)
Lemma parents_wf_insert L t r en u :
  history_ok L -> L !! (t, r) = None ->
  (forall p, en_parent en = Some p -> is_Some (L !! (t, p))) ->
  well_founded (parent_of L u) -> well_founded (parent_of (<[(t, r) := en]> L) u).
Proof.
  intros Hok Hf Hp Hwf.
  assert (forall x, (u, x) <> (t, r) -> Acc (parent_of (<[(t, r) := en]> L) u) x) as Hold.
  { intros x. induction (Hwf x) as [x _ IH]. intros Hne. constructor. intros y Hy.
    apply parent_of_insert in Hy as [Hy|(-> & -> & _)]; [|done|done].
    apply IH; [done|]. intros [= -> ->].
    destruct (parent_exists _ _ _ _ Hok Hy) as [z Hz]. by rewrite Hf in Hz. }
  intros x. destruct (decide ((u, x) = (t, r))) as [[= -> ->]|Hne]; [|by apply Hold].
  constructor. intros y Hy.
  apply parent_of_insert in Hy as [(en' & H & _)|(_ & _ & Hy)]; [by rewrite Hf in H| |done].
  apply Hold. intros [= ->]. destruct (Hp _ Hy) as [z Hz]. by rewrite Hf in Hz.
Qed.

Lemma world_ok_initial : world_ok initial_world.
Proof.
  split; simpl.
  - intros t r en. by rewrite lookup_empty.
  - intros t repo. by rewrite lookup_empty.
  - intros t repo r. by rewrite lookup_empty.
  - intros t r. constructor. intros p (en & H & _). by rewrite lookup_empty in H.
  - intros t p r r' (en & H & _). by rewrite lookup_empty in H.
Qed.

Lemma world_ok_create w t r :
  world_ok w -> log w !! (t, r) = None -> valid_revision r = true ->
  world_ok (create_repository t r w).
Proof.
  intros [Hh Hr Hlv Hw Hl] Hf Hv. split; simpl.
  - apply history_ok_insert; [done..|apply inv_initial|done].
  - intros u repo. rewrite lookup_insert_Some. intros [[<- <-]|[Hne H]]; simpl.
    + split; [by rewrite lookup_insert_eq|]. split; [set_solver|]. intros x Hx.
      apply parent_of_insert in Hx as [Hx|(_ & _ & [=])]; [|done].
      destruct (parent_exists _ _ _ _ Hh Hx) as [z Hz]. by rewrite Hf in Hz.
    + destruct (Hr _ _ H) as ([en He] & Hin & Hc). split.
      { rewrite lookup_insert_ne; [by rewrite He|]. by intros [= ? ?]. }
      split; [done|]. intros x Hx. apply parent_of_insert in Hx as [Hx|(_ & _ & [=])]; [|done].
      by eapply Hc.
  - intros u repo x. rewrite lookup_insert_Some. intros [[<- <-]|[Hne H]]; simpl.
    + intros ->%elem_of_singleton. split; [by rewrite lookup_insert_eq|]. intros p Hp.
      apply parent_of_insert in Hp as [(en & He & _)|(_ & _ & [=])]; [|done]. by rewrite Hf in He.
    + intros Hx. destruct (Hlv _ _ _ H Hx) as [Hs Hp]. split.
      { rewrite lookup_insert_ne; [done|]. by intros [= ? ?]. }
      intros p Hpp. apply parent_of_insert in Hpp as [Hpp|(_ & _ & [=])]; [|done]. by apply Hp.
  - intros u. by apply parents_wf_insert.
  - intros u p x x' Hx Hx'. apply parent_of_insert in Hx as [Hx|(_ & _ & [=])]; [|done].
    apply parent_of_insert in Hx' as [Hx'|(_ & _ & [=])]; [|done]. by eapply Hl.
Qed.

Lemma world_ok_delete w t : world_ok w -> world_ok (delete_repository t w).
Proof.
  intros [Hh Hr Hlv Hw Hl]. split; simpl; [done| | |done..].
  - intros u repo [_ H]%lookup_delete_Some. by apply Hr.
  - intros u repo r [_ H]%lookup_delete_Some. by apply Hlv.
Qed.

Lemma world_ok_append w t r repo en :
  world_ok w -> repos w !! t = Some repo -> en_parent en = Some (repo_head repo) ->
  log w !! (t, r) = None -> valid_revision r = true -> J (log w) t en ->
  world_ok (append_revision t r repo en w).
Proof.
  intros [Hh Hr Hlv Hw Hl] Ht Hp Hf Hv HJ. destruct (Hr _ _ Ht) as ([he Hhe] & Hin & Hc).
  assert (forall p, en_parent en = Some p -> is_Some (log w !! (t, p))) as Hpe.
  { intros p Hpp. rewrite Hp in Hpp. injection Hpp as <-. by rewrite Hhe. }
  split; simpl.
  - by apply history_ok_insert.
  - intros u ru. rewrite lookup_insert_Some. intros [[<- <-]|[Hne H]]; simpl.
    + split; [by rewrite lookup_insert_eq|]. split; [set_solver|]. intros x Hx.
      apply parent_of_insert in Hx as [Hx|(_ & -> & Hx)]; [| |done].
      * destruct (parent_exists _ _ _ _ Hh Hx) as [z Hz]. by rewrite Hf in Hz.
      * rewrite Hp in Hx. injection Hx as Hx. rewrite Hx in Hhe. by rewrite Hf in Hhe.
    + destruct (Hr _ _ H) as ([en' He] & Hin' & Hc'). split.
      { rewrite lookup_insert_ne; [by rewrite He|]. by intros [= ? ?]. }
      split; [done|]. intros x Hx. apply parent_of_insert in Hx as [Hx|(-> & _)]; [|done|done].
      by eapply Hc'.
  - intros u ru x. rewrite lookup_insert_Some. intros [[<- <-]|[Hne H]]; simpl.
    + rewrite elem_of_union, elem_of_singleton. intros [->|Hx].
      * split; [by rewrite lookup_insert_eq|]. intros p Hpp.
        apply parent_of_insert in Hpp as [(en' & He & _)|(_ & _ & Hpp)]; [by rewrite Hf in He| |done].
        rewrite Hp in Hpp. injection Hpp as <-. set_solver.
      * destruct (Hlv _ _ _ Ht Hx) as [[ex Hex] Hpx]. split.
        { rewrite lookup_insert_ne; [by rewrite Hex|]. intros [= <-]. by rewrite Hf in Hex. }
        intros p Hpp. apply parent_of_insert in Hpp as [Hpp|(_ & -> & _)]; [| |done].
        -- apply elem_of_union_r. by apply Hpx.
        -- by rewrite Hf in Hex.
    + intros Hx. destruct (Hlv _ _ _ H Hx) as [Hsx Hpx]. split.
      { rewrite lookup_insert_ne; [done|]. by intros [= ? ?]. }
      intros p Hpp. apply parent_of_insert in Hpp as [Hpp|(-> & _)]; [|done|done]. by apply Hpx.
  - intros u. by apply parents_wf_insert.
  - intros u p x x' Hx Hx'.
    apply parent_of_insert in Hx as [Hx|(-> & -> & Hx)]; [| |done];
      apply parent_of_insert in Hx' as [Hx'|(Hu & -> & Hx')]; try done; [by eapply Hl|..].
    + subst u. rewrite Hp in Hx'. injection Hx' as <-. by destruct (Hc x).
    + rewrite Hp in Hx. injection Hx as <-. by destruct (Hc x').
Qed.

(** One call of a program whose precondition holds. *)
Lemma store_step_sound {B} (o : op B) w res w' (Φ : History -> B -> Prop) :
  world_ok w -> op_wp o (log w) Φ -> store_step o w res w' ->
  world_ok w' /\ log w ⊆ log w' /\ (forall b, res = Ok b -> Φ (log w') b).
Proof.
  intros Hw HΦ Hs. pose proof (wo_history _ Hw) as Hh.
  destruct Hs as [B o w e|t b0 w|t w repo Ht|t r w res Ht Hf Hv Hres|t w res Hres|t w repo en Ht Hl
    |t r w|t e s a m r w repo res Ht <- Hf Hv Hres|z w]; simpl in HΦ.
  - done.
  - split; [done|]. split; [done|]. intros b [= <-]. by apply HΦ.
  - split; [done|]. split; [done|]. intros b [= <-]. apply HΦ; [done..|]. apply (wo_repos _ Hw _ _ Ht).
  - pose proof (world_ok_create _ _ _ Hw Hf Hv) as Hc. split; [done|].
    split; [by apply insert_fresh_sub|]. intros b ->. destruct Hres as [[= ->]|[? [=]]].
    apply HΦ; [by apply insert_fresh_sub|apply Hc|]. simpl. by rewrite lookup_insert_eq.
  - pose proof (world_ok_delete w t Hw). split; [done|]. split; [done|]. intros b _.
    by apply HΦ.
  - split; [done|]. split; [done|]. intros b [= <-]. by eapply HΦ.
  - split; [done|]. split; [done|]. intros b [= <-]. apply HΦ; [done..|]. simpl. unfold pinned_state.
    destruct (repos w !! t) as [repo|]; [|by left]. case_bool_decide; [|by left]. destruct (log w !! (t, r)) as [en|] eqn:E; simpl; eauto.
  - destruct HΦ as [HJ HΦ]. destruct (wo_repos _ Hw _ _ Ht) as (Hhe & _ & _).
    assert (world_ok (append_revision t r repo {| en_parent := Some (repo_head repo); en_state := s;
      en_author := a; en_message := m |} w)) as Hc by (apply world_ok_append; auto).
    split; [done|]. split; [by apply insert_fresh_sub|]. intros b ->.
    destruct Hres as [[= ->]|[? [=]]].
    apply HΦ; [by apply insert_fresh_sub|apply Hc|]. simpl. by rewrite lookup_insert_eq.
  - split; [done|]. split; [done|]. intros b [= <-]. by apply HΦ.
Qed.

Definition system_ok (s : system) : Prop :=
  world_ok s.2 /\ Forall (task_ok (log s.2)) s.1.

Lemma task_ok_mono L L' t : L ⊆ L' -> history_ok L' -> task_ok L t -> task_ok L' t.
Proof. destruct t as [A p]. intros HL Hok. by apply wp_mono. Qed.

Lemma system_ok_step request s s' :
  (forall t L, request t -> history_ok L -> task_ok L t) ->
  sys_step request s s' -> system_ok s -> system_ok s'.
Proof.
  intros Hreq Hs [Hw Ht]. destruct Hs as [ts w t Hr|A B pre post o k w b w' Hs|A B pre post o k w e w' Hs];
    simpl in *.
  - split; simpl; [done|]. constructor; [|done]. apply Hreq; [done|apply Hw].
  - apply Forall_app in Ht as [Hpre Hpost]. apply Forall_cons in Hpost as [Hk Hpost].
    destruct (store_step_sound _ _ _ _ _ Hw Hk Hs) as (Hw' & HL & Hb).
    split; simpl; [done|]. pose proof (wo_history _ Hw') as Hh.
    apply Forall_app. split; [|constructor; [by apply Hb|]].
    all: eapply Forall_impl; [eassumption|]; intros t; by apply task_ok_mono.
  - apply Forall_app in Ht as [Hpre Hpost]. apply Forall_cons in Hpost as [Hk Hpost].
    destruct (store_step_sound _ _ _ _ _ Hw Hk Hs) as (Hw' & HL & _).
    split; simpl; [done|]. pose proof (wo_history _ Hw') as Hh.
    apply Forall_app. split; [|constructor; [done|]].
    all: eapply Forall_impl; [eassumption|]; intros t; by apply task_ok_mono.
Qed.

Lemma reachable_ok request w :
  (forall t L, request t -> history_ok L -> task_ok L t) -> reachable request w -> world_ok w.
Proof.
  intros Hreq [ts Hr]. remember ([], initial_world) as s0 eqn:E0.
  assert (system_ok s0) as H0 by (subst; split; [apply world_ok_initial|constructor]).
  clear E0. remember (ts, w) as s1 eqn:E1. revert ts w E1.
  induction Hr as [s|s s' s'' Hs _ IH]; intros ts w ->; [apply H0|].
  eapply IH; [|done]. by eapply system_ok_step.
Qed.
End logic.
