(* ===== verification/RegistryInv.v ===== *)
(** * RegistryInv: the invariant of stored tenant states

    What every revision of every tenant satisfies, stated over the history the
    revision was committed to: identities match their keys, bindings refer to
    present pipelines and live ontologies, published revisions can be executed,
    publications describe the revision they pin, and each revision is one edit
    of its parent. *)

From S2P Require Import Prelude Text Json Ontology Pipeline Authoring Composition State Store.
From S2P Require Import StoreLogic Domain AuthoringService OntologyAuthoring.

(** ** Reads of a history

    The value of a program that only reads pinned revisions, when all of them
    are in the history. *)
Definition pinned_answer (L : History) {B} (o : op B) : result B :=
  match o in op B return result B with
  | Load t (Some r) =>
      match L !! (t, r) with
      | Some en => Ok {| sn_revision_id := r; sn_state := en_state en |}
      | None => Err (Foreign "unknown revision")
      end
  | _ => Err (Foreign "not a pinned read")
  end.
Fixpoint eval (L : History) {A} (p : prog A) : result A :=
  match p with
  | Done r => r
  | Do o k => match pinned_answer L o with Ok b => eval L (k b) | Err e => Err e end
  end.

Lemma eval_bind L {A B} (p : prog A) (f : A -> prog B) :
  eval L (p ≫= f) = (eval L p ≫= fun a => eval L (f a)).
Proof.
  induction p as [[a|e]|C o k IH]; simpl; [done..|].
  destruct (pinned_answer L o); simpl; [apply IH|done].
Qed.

Lemma pinned_answer_mono (L L' : History) {B} (o : op B) b :
  L ⊆ L' -> pinned_answer L o = Ok b -> pinned_answer L' o = Ok b.
Proof.
  intros HL. destruct o as [| | |t [r|]| |]; simpl; try done.
  destruct (L !! (t, r)) as [en|] eqn:E; [|done]. by rewrite (lookup_weaken _ _ _ _ E HL).
Qed.

Lemma eval_mono (L L' : History) {A} (p : prog A) a : L ⊆ L' -> eval L p = Ok a -> eval L' p = Ok a.
Proof.
  intros HL. induction p as [r|C o k IH]; simpl; [done|].
  destruct (pinned_answer L o) eqn:E; [|done]. rewrite (pinned_answer_mono L L' o _ HL E). apply IH.
Qed.

Section inv.
Context `{Externals}.
Implicit Types (L : History).

(** ** Pipelines *)
Definition pipeline_at L (t id rev : string) (r : PipelineRecord) : Prop :=
  exists en, L !! (t, rev) = Some en /\ pipelines (en_state en) !! id = Some r.

(** The runtime view of the revision exists. *)
Definition runnable L (t id rev : string) : Prop :=
  exists record, eval L (runtime_pipeline t id rev) = Ok record.

(** A review holds for the definition it was given for, which is executable. *)
Definition approved (r : PipelineRecord) (review : ContentReview) : Prop :=
  validate_executable (pl_definition r) = Ok tt /\
  definition_hash (pl_definition r) = Ok (cr_definition_hash review).

(** A release pins a revision whose main definition was approved. *)
Definition released L (t id : string) (release : PipelineRelease) : Prop :=
  exists r review, pipeline_at L t id (pr_revision_id release) r /\
    a_approval (pl_authoring r) = Some review /\ cr_definition_hash review = pr_definition_hash release.

(** What may be in production: unmanaged content, or approved content. *)
Definition admitted L (t id rev : string) : Prop :=
  exists r, pipeline_at L t id rev r /\
    (a_enabled (pl_authoring r) = false \/ exists review, a_approval (pl_authoring r) = Some review).

Record authoring_ok (a : AuthoringState) : Prop := {
  ao_branch_limit : size (a_branches a) <= 32;
  ao_proposal_limit : size (a_proposals a) <= 32;
  ao_branch name b : a_branches a !! name = Some b ->
    valid_branch name = true /\ name <> "main" /\
    (forall p, br_parent_branch b = Some p -> p = "main" \/ is_Some (a_branches a !! p));
  ao_proposal name p : a_proposals a !! name = Some p ->
    mp_source_branch p = name /\ is_Some (a_branches a !! name);
}.

Record pipeline_ok L (t id : string) (r : PipelineRecord) : Prop := {
  po_id : pl_pipeline_id r = id;
  po_valid : valid_identity id = true;
  po_deleted : is_Some (pl_deleted_at_ms r) -> pl_published_revision_id r = None;
  po_authoring : authoring_ok (pl_authoring r);
  po_runnable rev : pl_published_revision_id r = Some rev -> runnable L t id rev;
  po_admitted rev : pl_published_revision_id r = Some rev -> admitted L t id rev;
  po_approved review : a_approval (pl_authoring r) = Some review -> approved r review;
  po_released release : a_release (pl_authoring r) = Some release -> released L t id release;
}.

(** ** Ontologies *)
Definition ontology_stored L (t id rev : string) (r : OntologyRecord) : Prop :=
  exists en, L !! (t, rev) = Some en /\ ontologies (en_state en) !! id = Some r.

(** A publication describes the ontology of the revision it pins. *)
Record publication_ok L (t id : string) (p : OntologyPublicationRecord) : Prop := {
  pu_lifecycle : pub_lifecycle p = "production" /\ pub_retired_at_ms p = None \/
    pub_lifecycle p = "retired" /\ is_Some (pub_retired_at_ms p);
  pu_hash : pub_effective_hash p = pub_base_hash p;
  pu_pinned : exists r, ontology_stored L t id (pub_revision_id p) r /\
    validate_ontology (or_ontology r) = Ok tt /\
    content_hash (or_ontology r) = Ok (pub_base_hash p) /\
    get_str (or_ontology r) "version" = Some (pub_base_version p) /\
    pub_author p = or_author r /\ pub_message p = or_message r;
}.

Record ontology_branches_ok (branches : gmap string OntologyBranch) : Prop := {
  bo_limit : size branches <= 20;
  bo_branch name b : branches !! name = Some b ->
    valid_branch name = true /\ name <> "main" /\
    (ob_parent_branch b = "main" \/ is_Some (branches !! ob_parent_branch b)) /\
    validate_ontology (ob_definition b) = Ok tt /\
    validate_ontology (ob_base_definition b) = Ok tt;
}.

Record ontology_ok L (t id : string) (r : OntologyRecord) : Prop := {
  oo_id : or_ontology_id r = id;
  oo_valid : valid_identity id = true;
  oo_model : validate_ontology (or_ontology r) = Ok tt;
  oo_branches : ontology_branches_ok (oa_branches (or_authoring r));
  oo_deleted : is_Some (oa_deleted_at_ms (or_authoring r)) -> or_production_publication r = None;
  oo_publication p : or_production_publication r = Some p -> publication_ok L t id p;
}.

(** ** Bindings *)
Record binding_ok (s : TenantState) (key : string) (b : OntologyBindingRecord) : Prop := {
  bk_key : key = binding_key (bd_pipeline_id b) (bd_block_id b);
  bk_pipeline : is_Some (pipelines s !! bd_pipeline_id b);
  bk_ontology : exists r, ontologies s !! bd_ontology_id b = Some r /\ live_ontology r = true;
}.

Record state_ok L (t : string) (s : TenantState) : Prop := {
  so_pipelines id r : pipelines s !! id = Some r -> pipeline_ok L t id r;
  so_ontologies id r : ontologies s !! id = Some r -> ontology_ok L t id r;
  so_bindings key b : bindings s !! key = Some b -> binding_ok s key b;
}.

(** ** Edits: what one commit changes

    One pipeline record, together with bindings of that pipeline, or one
    ontology record.  The record is linked to the parent revision when that
    holds an older version of it. *)
Definition bindings_of (id : string) (old new : gmap string OntologyBindingRecord) : Prop :=
  forall key, new !! key = old !! key \/
    exists b, new !! key = Some b /\ bd_pipeline_id b = id /\ key = binding_key id (bd_block_id b).

Definition linked {A} (parent : string) (old : option A) (previous : option string) : Prop :=
  previous = (fun _ => parent) <$> old.

Inductive edit (parent : string) (s : TenantState) : TenantState -> Prop :=
  | edit_pipeline id r b :
      linked parent (pipelines s !! id) (pl_previous_revision_id r) ->
      (forall old, pipelines s !! id = Some old -> pl_created_at_ms r = pl_created_at_ms old) ->
      bindings_of id (bindings s) b ->
      edit parent s {| pipelines := <[id := r]> (pipelines s); ontologies := ontologies s; bindings := b |}
  | edit_pipeline_delete id r now :
      pipelines s !! id = Some r -> edit parent s (put_pipeline_record id (deleted_at now r) s)
  | edit_ontology id r :
      linked parent (ontologies s !! id) (oa_previous_revision_id (or_authoring r)) ->
      (forall old, ontologies s !! id = Some old -> or_created_at_ms r = or_created_at_ms old) ->
      edit parent s (put_ontology_record id r s)
  | edit_binding b :
      edit parent s (put_binding_record (binding_key (bd_pipeline_id b) (bd_block_id b)) b s).

Definition registry_inv L (t : string) (en : Entry) : Prop :=
  state_ok L t (en_state en) /\
  (en_parent en = None -> en_state en = ∅) /\
  (forall p, en_parent en = Some p ->
    exists parent, L !! (t, p) = Some parent /\ edit p (en_state parent) (en_state en)).

(** ** Monotonicity in the history *)
Lemma stored_mono L L' (t rev : string) (P : Entry -> Prop) :
  L ⊆ L' -> (exists en, L !! (t, rev) = Some en /\ P en) ->
  exists en, L' !! (t, rev) = Some en /\ P en.
Proof. intros HL (en & H1 & H2). exists en. split; [by eapply lookup_weaken|done]. Qed.

Lemma pipeline_ok_mono L L' t id r : L ⊆ L' -> pipeline_ok L t id r -> pipeline_ok L' t id r.
Proof.
  intros HL [? ? ? ? Hrun Had ? Hrel]. split; try done.
  - intros rev Hr. destruct (Hrun rev Hr) as [record Hrec]. exists record. by eapply eval_mono.
  - intros rev Hr. destruct (Had rev Hr) as (r' & Hat & Hh). exists r'.
    split; [by eapply stored_mono|done].
  - intros release Hr. destruct (Hrel release Hr) as (r' & review & Hat & Hh). exists r', review.
    split; [by eapply stored_mono|done].
Qed.

Lemma publication_ok_mono L L' t id p : L ⊆ L' -> publication_ok L t id p -> publication_ok L' t id p.
Proof.
  intros HL [? ? (r & Hs & Hr)]. split; [done..|]. exists r. split; [by eapply stored_mono|done].
Qed.

Lemma ontology_ok_mono L L' t id r : L ⊆ L' -> ontology_ok L t id r -> ontology_ok L' t id r.
Proof.
  intros HL [? ? ? ? ? Hp]. split; try done. intros p Hpp. eapply publication_ok_mono; eauto.
Qed.

Lemma state_ok_mono L L' t s : L ⊆ L' -> state_ok L t s -> state_ok L' t s.
Proof.
  intros HL [Hp Ho Hb]. split; [..|done].
  - intros id r Hr. eapply pipeline_ok_mono; eauto.
  - intros id r Hr. eapply ontology_ok_mono; eauto.
Qed.

Lemma state_ok_empty L t : state_ok L t ∅.
Proof. split; intros ? ?; simpl; by rewrite lookup_empty. Qed.

#[export] Instance registry_invariant : EntryInvariant registry_inv.
Proof.
  split.
  - intros L L' t en HL (Hs & Hi & Hp). split; [by eapply state_ok_mono|]. split; [done|].
    intros p Hpp. by eapply stored_mono, Hp.
  - intros L t. split; [apply state_ok_empty|]. by split.
Qed.

Notation hist_ok := (history_ok registry_inv).

Lemma history_state L t r en : hist_ok L -> L !! (t, r) = Some en -> state_ok L t (en_state en).
Proof. intros Hok Hl. destruct (Hok _ _ _ Hl) as (_ & (Hs & _) & _). exact Hs. Qed.

(** ** Preservation by single record updates *)
Lemma binding_ok_insert_pipeline s id r key b :
  binding_ok s key b -> binding_ok (put_pipeline_record id r s) key b.
Proof.
  intros [? [x Hx] ?]. split; simpl; [done| |done]. rewrite lookup_insert. case_decide; eauto.
Qed.

Lemma state_ok_put_pipeline L t s id r :
  state_ok L t s -> pipeline_ok L t id r -> state_ok L t (put_pipeline_record id r s).
Proof.
  intros [Hp Ho Hb] Hr. split; simpl.
  - intros id' r'. rewrite lookup_insert_Some. intros [[<- <-]|[_ ?]]; eauto.
  - eauto.
  - intros key b Hkb. by apply binding_ok_insert_pipeline, Hb.
Qed.

Lemma state_ok_put_ontology L t s id r :
  state_ok L t s -> ontology_ok L t id r ->
  (live_ontology r = true \/ forall key b, bindings s !! key = Some b -> bd_ontology_id b <> id) ->
  state_ok L t (put_ontology_record id r s).
Proof.
  intros [Hp Ho Hb] Hr Hl. split; simpl.
  - eauto.
  - intros id' r'. rewrite lookup_insert_Some. intros [[<- <-]|[_ ?]]; eauto.
  - intros key b Hkb. destruct (Hb key b Hkb) as [? ? (ro & Hro & Hlive)]. split; simpl; [done..|].
    rewrite lookup_insert. case_decide as Hid; [|eauto]. exists r. split; [done|].
    destruct Hl as [Hl|Hl]; [done|]. by destruct (Hl key b Hkb).
Qed.

Lemma state_ok_put_binding L t s b :
  state_ok L t s -> binding_ok s (binding_key (bd_pipeline_id b) (bd_block_id b)) b ->
  state_ok L t (put_binding_record (binding_key (bd_pipeline_id b) (bd_block_id b)) b s).
Proof.
  intros [Hp Ho Hb] Hr. split; simpl; [eauto..|].
  intros key b'. rewrite lookup_insert_Some. intros [[<- <-]|[_ Hk]].
  - destruct Hr; by split.
  - destruct (Hb _ _ Hk); by split.
Qed.

(** [insert] after [remove] is [insert]. *)
Lemma put_removed_pipeline id r s :
  put_pipeline_record id r (remove_pipeline id s) = put_pipeline_record id r s.
Proof. unfold put_pipeline_record, remove_pipeline, set_pipelines. simpl. by rewrite insert_delete_eq. Qed.
Lemma put_removed_ontology id r s :
  put_ontology_record id r (remove_ontology id s) = put_ontology_record id r s.
Proof. unfold put_ontology_record, remove_ontology, set_ontologies. simpl. by rewrite insert_delete_eq. Qed.

Lemma bindings_of_refl id m : bindings_of id m m.
Proof. intros key. by left. Qed.

(** What the load of a state gives to the code that follows. *)
Lemma loaded_head L t sn en :
  hist_ok L -> L !! (t, sn_revision_id sn) = Some en -> en_state en = sn_state sn ->
  state_ok L t (sn_state sn).
Proof. intros Hok Hl <-. by eapply history_state. Qed.

(** Revision [rev] was committed on top of [parent], turning one state into the
    other. *)
Definition committed L (t rev parent : string) (before after : TenantState) : Prop :=
  exists pe en, L !! (t, parent) = Some pe /\ en_state pe = before /\
    L !! (t, rev) = Some en /\ en_parent en = Some parent /\ en_state en = after.

Lemma commit_committed L L' t sn pe rev s author message :
  L ⊆ L' -> L !! (t, sn_revision_id sn) = Some pe -> en_state pe = sn_state sn ->
  L' !! (t, rev) = Some {| en_parent := Some (sn_revision_id sn); en_state := s; en_author := author;
                           en_message := message |} ->
  committed L' t rev (sn_revision_id sn) (sn_state sn) s.
Proof. intros HL Hp Hs Hr. exists pe. eexists. split; [by eapply lookup_weaken|]. eauto. Qed.

(** The obligation of a commit against the loaded head. *)
Lemma commit_inv L L' t sn en s author message :
  L ⊆ L' -> L !! (t, sn_revision_id sn) = Some en -> en_state en = sn_state sn ->
  state_ok L' t s -> edit (sn_revision_id sn) (sn_state sn) s ->
  registry_inv L' t {| en_parent := Some (sn_revision_id sn); en_state := s; en_author := author;
                       en_message := message |}.
Proof.
  intros HL Hl He Hs Hed. split; [done|]. split; [done|]. simpl. intros p [= <-].
  exists en. rewrite He. split; [by eapply lookup_weaken|done].
Qed.
End inv.
Notation hist_ok := (history_ok registry_inv).
