(* ===== verification/DomainSafe.v ===== *)
(** * DomainSafe: the methods of domain.rs preserve the invariant

    For each program of Domain.v, what it establishes of its result over the
    history, and that every state it commits satisfies [registry_inv]. *)

From S2P Require Import Prelude Text Json Ontology Pipeline DiffMerge Authoring Composition.
From S2P Require Import State Store StoreLogic Domain AuthoringService OntologyAuthoring.
From S2P Require Import RegistryInv.

(** ** Symbolic execution *)
Section rules.
Context (J : History -> string -> Entry -> Prop).
Implicit Types (L : History).

Lemma wp_load_head t L Q :
  (forall L' sn en, L ⊆ L' -> history_ok J L' -> L' !! (t, sn_revision_id sn) = Some en ->
    en_state en = sn_state sn -> Q L' sn) -> wp J (load t None) L Q.
Proof. intros HQ. exact HQ. Qed.
Lemma wp_load_pinned t r L Q :
  (forall L' sn, L ⊆ L' -> history_ok J L' -> sn_revision_id sn = r ->
    (sn_state sn = ∅ \/ exists en, L' !! (t, r) = Some en /\ en_state en = sn_state sn) -> Q L' sn) ->
  wp J (load t (Some r)) L Q.
Proof. intros HQ. exact HQ. Qed.
Lemma wp_ensure_tenant t L Q :
  (forall L' r, L ⊆ L' -> history_ok J L' -> is_Some (L' !! (t, r)) -> Q L' r) ->
  wp J (ensure_tenant t) L Q.
Proof. intros HQ. exact HQ. Qed.
Lemma wp_tenant_exists t L Q :
  (forall L' b, L ⊆ L' -> history_ok J L' -> Q L' b) -> wp J (tenant_exists t) L Q.
Proof. intros HQ. exact HQ. Qed.
Lemma wp_delete_tenant t L Q :
  (forall L' u, L ⊆ L' -> history_ok J L' -> Q L' u) -> wp J (store_delete_tenant t) L Q.
Proof. intros HQ. exact HQ. Qed.
Lemma wp_now L Q : (forall L' z, L ⊆ L' -> history_ok J L' -> Q L' z) -> wp J now_ms L Q.
Proof. intros HQ. exact HQ. Qed.
Lemma wp_ok {A} (a : A) L Q : Q L a -> wp J (ok a) L Q.
Proof. intros HQ. exact HQ. Qed.
Lemma wp_commit t e s a m L Q :
  let en := {| en_parent := Some e; en_state := s; en_author := a; en_message := m |} in
  (forall L', L ⊆ L' -> history_ok J L' -> is_Some (L' !! (t, e)) -> J L' t en) ->
  (forall L' r, L ⊆ L' -> history_ok J L' -> L' !! (t, r) = Some en -> Q L' r) ->
  wp J (commit t e s a m) L Q.
Proof. intros en H1 H2. by split. Qed.
End rules.

(** One structural step; calls introduce the larger history and what they
    return. *)
Ltac wp_step :=
  lazymatch goal with
  | |- wp _ (mbind _ _) _ _ => apply wp_bind; [assumption|]
  | |- wp _ (check _ _) _ _ => apply wp_check; intros ?
  | |- wp _ (require _ _) _ _ => apply wp_require; intros ? ?
  | |- wp _ (lift (Err _)) _ _ => exact I
  | |- wp _ (lift _) _ _ => apply wp_lift; intros ? ?
  | |- wp _ (ok _) _ _ => apply wp_ok
  | |- wp _ (ensure_tenant _) _ _ => apply wp_ensure_tenant; intros ? ? ? ? ?
  | |- wp _ (tenant_exists _) _ _ => apply wp_tenant_exists; intros ? ? ? ?
  | |- wp _ (store_delete_tenant _) _ _ => apply wp_delete_tenant; intros ? ? ? ?
  | |- wp _ now_ms _ _ => apply wp_now; intros ? ? ? ?
  end; cbv beta zeta.
Ltac wp_go := repeat wp_step.

(** Subset chains between histories. *)
Ltac hsub := repeat (first [eassumption | reflexivity | etrans; [eassumption|]]).

Section safe.
Context `{Externals}.
Implicit Types (L : History).
Notation post := (fun (_ : History) _ => True).

(** ** Reads *)
Lemma wp_true {A} (p : prog A) L Q : hist_ok L -> wp registry_inv p L Q -> wp registry_inv p L post.
Proof. intros Hok. by apply wp_conseq. Qed.

Lemma load_definitions_wp fuel t b pending defs L :
  hist_ok L ->
  wp registry_inv (load_definitions fuel t b pending defs) L
    (fun L' m => eval L' (load_definitions fuel t b pending defs) = Ok m).
Proof.
  revert pending defs L. induction fuel as [|fuel IH]; intros pending defs L Hok; [exact I|].
  cbn [load_definitions].
  destruct pending as [|ref pending]; [reflexivity|].
  destruct (defs !! _) as [d|]; [by apply IH|].
  apply wp_bind; [done|]. apply wp_check. intros Hsize.
  apply wp_bind; [done|]. apply wp_load_pinned. intros L1 sn HL1 Hok1 <- Hsn.
  apply wp_bind; [done|].
  assert (forall (Q : History -> unit -> Prop) u,
    (u = (if b then validate_pipeline_ontology_dependencies (sn_state sn) (ref_pipeline_id ref) else Ok tt)) ->
    (u = Ok tt -> Q L1 tt) ->
    wp registry_inv (if b then lift (validate_pipeline_ontology_dependencies (sn_state sn) (ref_pipeline_id ref))
      else ok tt) L1 Q) as Hdep.
  { intros Q u -> HQ. destruct b; [|by apply wp_ok, HQ]. apply wp_lift. intros [] Hu. by apply HQ. }
  eapply Hdep; [reflexivity|]. intros Hd.
  apply wp_bind; [done|]. apply wp_require. intros child Hchild.
  apply wp_bind; [done|]. apply wp_lift. intros more Hmore.
  destruct Hsn as [Hsn|(en & Hen & Hst)].
  { rewrite Hsn in Hchild. simpl in Hchild. by rewrite lookup_empty in Hchild. }
  eapply wp_conseq; [done| |by apply IH]. intros L2 m HL2 Hok2 Hm. simpl in *.
  unfold check, lift. rewrite Hsize. simpl. rewrite (lookup_weaken _ _ _ _ Hen HL2), Hst.
  rewrite eval_bind. destruct b; unfold lift, ok; simpl; [rewrite Hd; simpl|].
  all: unfold require, lift; rewrite Hchild; simpl; rewrite Hmore; exact Hm.
Qed.

#[local] Opaque load_definitions.

Lemma compile_composition_wp t pid rev def b L :
  hist_ok L ->
  wp registry_inv (compile_composition t pid rev def b) L
    (fun L' v => eval L' (compile_composition t pid rev def b) = Ok v).
Proof.
  intros Hok. unfold compile_composition. apply wp_bind; [done|]. apply wp_lift. intros pending Hp.
  apply wp_bind; [done|]. eapply wp_conseq; [done| |by apply load_definitions_wp].
  intros L1 m HL1 Hok1 Hm. cbv beta. apply wp_lift. intros v Hv.
  rewrite eval_bind. unfold lift. simpl. rewrite Hp. simpl. rewrite eval_bind, Hm. simpl. exact Hv.
Qed.

#[local] Opaque compile_composition.

(** The runtime view, when its checks pass on the entry of the revision. *)
Lemma runtime_eval L t id rev en r v u :
  validate_identity t id = Ok u -> valid_revision rev = true -> L !! (t, rev) = Some en ->
  validate_pipeline_ontology_dependencies (en_state en) id = Ok tt ->
  option_filter live_pipeline (pipelines (en_state en) !! id) = Some r ->
  eval L (compile_composition t id rev (pl_definition r) true) = Ok v ->
  eval L (runtime_pipeline t id rev) = Ok (with_definition v r).
Proof.
  intros Hid Hrev Hen Hdep Hrec Hv. unfold runtime_pipeline, lift, check, require, ok. simpl.
  rewrite Hid. simpl. rewrite Hrev. simpl. rewrite Hen. simpl. rewrite Hdep. simpl. rewrite Hrec. simpl.
  by rewrite eval_bind, Hv.
Qed.

Lemma runtime_pipeline_wp t pid rev L :
  hist_ok L ->
  wp registry_inv (runtime_pipeline t pid rev) L
    (fun L' r => eval L' (runtime_pipeline t pid rev) = Ok r).
Proof.
  intros Hok. unfold runtime_pipeline at 1. apply wp_bind; [done|]. apply wp_lift. intros u Hid.
  apply wp_bind; [done|]. apply wp_check. intros Hrev.
  apply wp_bind; [done|]. apply wp_load_pinned. intros L1 sn HL1 Hok1 <- Hsn.
  apply wp_bind; [done|]. apply wp_lift. intros [] Hdep.
  apply wp_bind; [done|]. apply wp_require. intros record Hrec.
  apply wp_bind; [done|]. eapply wp_conseq; [done| |by apply compile_composition_wp].
  intros L2 v HL2 Hok2 Hv. cbv beta. apply wp_ok.
  destruct Hsn as [Hsn|(en & Hen & Hst)].
  { rewrite Hsn in Hrec. simpl in Hrec. by rewrite lookup_empty in Hrec. }
  rewrite <-Hst in *. eapply runtime_eval; [done|done|by eapply lookup_weaken|done|done|done].
Qed.

(** A successful pinned read of an ontology returns what the history holds. *)
Lemma ontology_at_wp t id rev L (Q : History -> OntologyView -> Prop) :
  hist_ok L ->
  (forall L' v, L ⊆ L' -> hist_ok L' -> valid_revision rev = true -> ov_revision_id v = rev ->
    ontology_stored L' t id rev (ov_record v) -> validate_ontology (or_ontology (ov_record v)) = Ok tt ->
    Q L' v) ->
  wp registry_inv (ontology_at t id rev) L Q.
Proof.
  intros Hok HQ. unfold ontology_at. wp_step. wp_step. wp_step. wp_step. wp_step.
  apply wp_load_pinned. intros L1 sn HL1 Hok1 Hr Hsn. wp_step. wp_step.
  destruct Hsn as [Hsn|(en & Hen & Hst)].
  { rewrite Hsn in *. simpl in *. by rewrite lookup_empty in *. }
  wp_step. wp_step. wp_step.
  match goal with x : unit |- _ => destruct x end.
  apply HQ; try done. exists en. split; [done|]. by rewrite Hst.
Qed.

Lemma pipeline_revision_wp t id rev L (Q : History -> PipelineView -> Prop) :
  hist_ok L ->
  (forall L' v, L ⊆ L' -> hist_ok L' -> pv_head_revision_id v = rev ->
    pipeline_at L' t id rev (pv_record v) -> live_pipeline (pv_record v) = true -> Q L' v) ->
  wp registry_inv (pipeline_revision t id rev) L Q.
Proof.
  intros Hok HQ. unfold pipeline_revision. wp_step. wp_step. wp_step. wp_step. wp_step.
  apply wp_load_pinned. intros L1 sn HL1 Hok1 Hr Hsn. wp_step.
  match goal with H : pipeline_from_snapshot _ _ = _ |- _ => unfold pipeline_from_snapshot in H end.
  res_inv. apply option_filter_Some in E as [E Hlive].
  destruct Hsn as [Hsn|(en & Hen & Hst)].
  { rewrite Hsn in E. simpl in E. by rewrite lookup_empty in E. }
  apply HQ; try done. exists en. split; [done|]. by rewrite Hst.
Qed.

(** ** Pipelines *)
Lemma authoring_ok_default : authoring_ok default_authoring.
Proof. split; simpl; [rewrite map_size_empty; lia..| |]; intros ? ?; by rewrite lookup_empty. Qed.

Lemma live_not_deleted (r : PipelineRecord) :
  live_pipeline r = true -> is_Some (pl_deleted_at_ms r) -> False.
Proof. unfold live_pipeline. intros Hl [z Hz]. by rewrite Hz in Hl. Qed.

Lemma identity_valid t id u : validate_identity t id = Ok u -> valid_identity id = true.
Proof. unfold validate_identity. intros H0. by res_inv. Qed.

Lemma check_expected_wp e head c L (Q : History -> unit -> Prop) :
  hist_ok L -> ((forall x, e = Some x -> head = x) -> Q L tt) ->
  wp registry_inv (check_expected e head c) L Q.
Proof.
  intros Hok HQ. unfold check_expected. destruct e as [x|]; wp_go; apply HQ; [|done].
  intros y [= <-]. by apply String.eqb_eq.
Qed.

(** The outcome of [put_pipeline]. *)
Record put_pipeline_post (input : PutPipeline) L (v : PipelineView) : Prop := {
  pp_commit : exists parent before,
    committed L (pp_tenant_id input) (pv_head_revision_id v) parent before
      (put_pipeline_record (pp_pipeline_id input) (pv_record v) before) /\
    (forall e, pp_expected_revision_id input = Some e -> parent = e) /\
    (pp_create_only input = true <-> pipelines before !! pp_pipeline_id input = None) /\
    pl_previous_revision_id (pv_record v) =
      ((fun _ => parent) <$> pipelines before !! pp_pipeline_id input) /\
    pl_published_revision_id (pv_record v) =
      (pipelines before !! pp_pipeline_id input ≫= pl_published_revision_id);
  pp_record : pl_pipeline_id (pv_record v) = pp_pipeline_id input /\
    pl_name (pv_record v) = pp_name input /\ pl_owner_id (pv_record v) = pp_owner_id input /\
    pl_definition (pv_record v) = pp_definition input /\
    pl_authoring (pv_record v) = default_authoring /\ pl_deleted_at_ms (pv_record v) = None;
  pp_structure : is_Ok (validate_pipeline_structure (pp_definition input)) = true;
}.

Lemma put_pipeline_wp input L :
  hist_ok L -> wp registry_inv (put_pipeline input) L (put_pipeline_post input).
Proof.
  intros Hok. unfold put_pipeline. wp_go.
  apply wp_load_head. intros L1 sn en HL1 Hok1 Hen Hst. wp_step. apply wp_check. intros Hfresh.
  wp_step. apply wp_check. intros Hpresent. wp_step. apply check_expected_wp; [done|]. intros Hexp. wp_step. wp_step. wp_step. wp_step.
  match goal with H : validate_pipeline_structure _ = _ |- _ => rename H into Hstr end. wp_step.
  eapply wp_conseq; [done| |by apply compile_composition_wp]. intros L2 v HL2 Hok2 _. cbv beta.
  wp_go. apply wp_commit.
  - intros L4 HL4 Hok4 _. eapply commit_inv; [|exact Hen|exact Hst|..]; [hsub|..].
    all: rewrite put_removed_pipeline.
    + pose proof (loaded_head _ _ _ _ Hok1 Hen Hst) as Hs.
      apply (state_ok_mono _ L4) in Hs; [|hsub].
      apply state_ok_put_pipeline; [done|]. split; simpl; try done.
      * by eapply identity_valid.
      * apply authoring_ok_default.
      * intros rev (old & Hold & Hrev)%bind_Some. by apply (so_pipelines _ _ _ Hs _ _ Hold).
      * intros rev (old & Hold & Hrev)%bind_Some. by apply (so_pipelines _ _ _ Hs _ _ Hold).
    + apply (edit_pipeline _ (sn_state sn)); simpl; [done| |apply bindings_of_refl].
      intros old Hold. by rewrite Hold.
  - intros L4 rev HL4 Hok4 Hrev. rewrite put_removed_pipeline in *. wp_step. apply wp_require.
    intros record Hrecord. simpl in Hrecord. rewrite lookup_insert_eq in Hrecord.
    injection Hrecord as <-. wp_go. split; simpl; [|done|by rewrite Hstr].
    exists (sn_revision_id sn), (sn_state sn). split_and!; try done.
    + eapply commit_committed; [|exact Hen|exact Hst|exact Hrev]. hsub.
    + destruct (pipelines (sn_state sn) !! _), (pp_create_only input); done.
Qed.

Lemma publish_pipeline_safe t id rev L : hist_ok L -> wp registry_inv (publish_pipeline t id rev) L post.
Proof.
  intros Hok. unfold publish_pipeline. wp_step. wp_step. rename H0 into Hid. wp_go.
  rename H0 into Hrev.
  apply wp_load_pinned. intros L1 pin HL1 Hok1 Hr Hpin. wp_step. wp_step. rename H0 into Hcand. wp_go.
  eapply wp_conseq; [done| |by apply compile_composition_wp]. intros L2 v HL2 Hok2 Hv.
  cbv beta. wp_go. apply wp_load_head. intros L3 sn en HL3 Hok3 Hen Hst. wp_step. wp_step.
  apply String.eqb_eq in H3 as Hsame. wp_step. wp_step. rename H4 into Hcur. wp_go.
  apply wp_commit; [|intros; wp_go; done]. intros L5 HL5 Hok5 _.
  destruct Hpin as [Hpin|(en1 & Hen1 & Hpin)].
  { rewrite Hpin in Hcand. simpl in Hcand. by rewrite lookup_empty in Hcand. }
  assert (L3 !! (t, rev) = Some en1) as Hen3 by (eapply lookup_weaken; [exact Hen1|hsub]).
  rewrite <-Hsame, Hen in Hen3. injection Hen3 as <-.
  assert (sn_state sn = sn_state pin) as Hstates by congruence.
  apply option_filter_Some in Hcand as [Hcand Hlive].
  rewrite Hstates, Hcand in Hcur. injection Hcur as <-.
  match goal with H : validate_pipeline_ontology_dependencies _ _ = Ok ?u |- _ => destruct u end.
  rewrite <-Hsame at 1. eapply commit_inv; [|exact Hen|exact Hst|..]; [hsub|..].
  - pose proof (loaded_head _ _ _ _ Hok3 Hen Hst) as Hs.
    apply (state_ok_mono _ L5) in Hs; [|hsub].
    apply state_ok_put_pipeline; [done|].
    destruct (so_pipelines _ _ _ Hs id a0) as [? ? ? ? ? ? ? ?]; [by rewrite Hstates|].
    split; simpl; try done; [intros Hd; by destruct (live_not_deleted _ Hlive Hd)|..].
    + intros rev' [= <-]. eexists. eapply runtime_eval; [done|done| | | |].
      * eapply lookup_weaken; [exact Hen1|hsub].
      * by rewrite Hpin.
      * rewrite Hpin. apply option_filter_Some. eauto.
      * eapply eval_mono; [|exact Hv]. hsub.
    + intros rev' [= <-]. exists a0. split; [|left; by bool_inv].
      exists en. rewrite Hpin. split; [eapply lookup_weaken; [exact Hen1|hsub]|done].
  - apply (edit_pipeline _ (sn_state sn)); simpl; [|intros old Hold|apply bindings_of_refl].
    + unfold linked. rewrite Hstates, Hcand. done.
    + rewrite Hstates in Hold. congruence.
Qed.

Lemma delete_pipeline_safe t id expected L :
  hist_ok L -> wp registry_inv (delete_pipeline t id expected) L post.
Proof.
  intros Hok. unfold delete_pipeline. wp_go. apply wp_load_head. intros L1 sn en HL1 Hok1 Hen Hst.
  wp_step. wp_step. apply String.eqb_eq in H1 as <-. wp_go.
  apply wp_commit; [|done]. intros L3 HL3 Hok3 _.
  eapply commit_inv; [|exact Hen|exact Hst|..]; [hsub|..].
  - pose proof (loaded_head _ _ _ _ Hok1 Hen Hst) as Hs.
    apply (state_ok_mono _ L3) in Hs; [|hsub]. apply state_ok_put_pipeline; [done|].
    destruct (so_pipelines _ _ _ Hs id a0) as [? ? ? ? ? ? ? ?]; [done|]. by split.
  - by apply edit_pipeline_delete.
Qed.

(** ** Ontologies *)
Lemma branches_ok_empty : ontology_branches_ok ∅.
Proof. split; [rewrite map_size_empty; lia|]. intros ? ?. by rewrite lookup_empty. Qed.

Lemma live_ontology_None (r : OntologyRecord) :
  live_ontology r = true <-> oa_deleted_at_ms (or_authoring r) = None.
Proof. unfold live_ontology. by destruct (oa_deleted_at_ms _). Qed.

Lemma check_provenance_wp existing o L (Q : History -> unit -> Prop) :
  hist_ok L -> ((forall r, existing = Some r -> live_ontology r = true) -> Q L tt) ->
  wp registry_inv (check_provenance existing o) L Q.
Proof.
  intros Hok HQ. unfold check_provenance. destruct existing as [r|]; [|wp_go; by apply HQ].
  wp_step. wp_step. assert (Q L tt) by (apply HQ; by intros ? [= <-]).
  destruct (get _ _); wp_go; assumption.
Qed.

(** The record [put_ontology] builds. *)
Lemma ontology_ok_saved L t id now existing prev op author name o created msg :
  valid_identity id = true -> validate_ontology o = Ok tt ->
  (forall r, existing = Some r -> ontology_ok L t id r /\ live_ontology r = true) ->
  ontology_ok L t id {|
    or_authoring := touch now prev "main" op author
      (from_option or_authoring default_ontology_authoring existing);
    or_ontology_id := id; or_display_name := name; or_ontology := o; or_author := author;
    or_message := msg; or_created_at_ms := created;
    or_production_publication := existing ≫= or_production_publication |}.
Proof.
  intros Hid Hv Hex. destruct existing as [r|]; simpl.
  - destruct (Hex r eq_refl) as [[? ? ? ? ? ?] Hl]. by split.
  - split; simpl; try done. apply branches_ok_empty.
Qed.

(** The outcome of [put_ontology]. *)
Record put_ontology_post (input : PutOntology) L (v : OntologyView) : Prop := {
  pop_commit : exists parent before,
    committed L (po_tenant_id input) (ov_revision_id v) parent before
      (put_ontology_record (po_ontology_id input) (ov_record v) before) /\
    (forall e, po_expected_revision_id input = Some e -> parent = e) /\
    (po_create_only input = true <-> ontologies before !! po_ontology_id input = None) /\
    oa_previous_revision_id (or_authoring (ov_record v)) =
      ((fun _ => parent) <$> ontologies before !! po_ontology_id input) /\
    oa_branches (or_authoring (ov_record v)) =
      from_option (fun r => oa_branches (or_authoring r)) ∅ (ontologies before !! po_ontology_id input) /\
    or_production_publication (ov_record v) =
      (ontologies before !! po_ontology_id input ≫= or_production_publication);
  pop_record : or_ontology_id (ov_record v) = po_ontology_id input /\
    or_display_name (ov_record v) = po_display_name input /\
    or_ontology (ov_record v) = po_ontology input /\ live_ontology (ov_record v) = true;
  pop_valid : validate_ontology (po_ontology input) = Ok tt;
}.

Lemma expected_head_wp e head c L (Q : History -> unit -> Prop) :
  hist_ok L -> ((forall x, e = Some x -> head = x) -> Q L tt) ->
  wp registry_inv match e with
    | Some expected => check (head =? expected)%string "ontology head changed"
    | None => check c "expected revision ID is required"
    end L Q.
Proof.
  intros Hok HQ. destruct e as [x|]; wp_go; apply HQ; [|done].
  intros y [= <-]. by apply String.eqb_eq.
Qed.

Lemma created_at_wp (existing : option OntologyRecord) L (Q : History -> Z -> Prop) :
  hist_ok L ->
  (forall L2 z, L ⊆ L2 -> hist_ok L2 -> (forall r, existing = Some r -> z = or_created_at_ms r) -> Q L2 z) ->
  wp registry_inv match existing with Some record => ok (or_created_at_ms record) | None => now_ms end L Q.
Proof. intros Hok HQ. destruct existing; wp_go; apply HQ; try done. by intros ? [= <-]. Qed.

Lemma put_ontology_wp input L :
  hist_ok L -> wp registry_inv (put_ontology input) L (put_ontology_post input).
Proof.
  intros Hok. unfold put_ontology. wp_go.
  apply wp_load_head. intros L1 sn en HL1 Hok1 Hen Hst. wp_step. apply wp_check. intros Hfresh.
  wp_step. apply wp_check. intros Hpresent. wp_step. apply expected_head_wp; [done|]. intros Hexp.
  wp_step. apply check_provenance_wp; [done|]. intros Hlive. wp_step.
  set (existing := ontologies (sn_state sn) !! po_ontology_id input) in *.
  apply created_at_wp; [done|]. intros L2 created HL2 Hok2 Hcreated. wp_go.
  match goal with H : validate_ontology _ = Ok ?u |- _ => destruct u; rename H into Hvalid end.
  assert ((if po_create_only input then None else Some (sn_revision_id sn)) =
    (fun _ => sn_revision_id sn) <$> existing) as Hprev
    by (clearbody existing; destruct existing, (po_create_only input); done).
  assert (oa_deleted_at_ms (from_option or_authoring default_ontology_authoring existing) = None) as Hdel.
  { clearbody existing. destruct existing as [x|]; [|done]. apply live_ontology_None, Hlive. done. }
  apply wp_commit.
  - intros L4 HL4 Hok4 _.
    pose proof (loaded_head _ _ _ _ Hok1 Hen Hst) as Hs. apply (state_ok_mono _ L4) in Hs; [|hsub].
    eapply commit_inv; [|exact Hen|exact Hst|..]; [hsub|..]; rewrite put_removed_ontology.
    + apply state_ok_put_ontology; [done| |left; by apply live_ontology_None].
      apply ontology_ok_saved; [by eapply identity_valid|done|].
      intros x Hx. split; [by apply (so_ontologies _ _ _ Hs)|by apply Hlive].
    + apply edit_ontology; simpl; [exact Hprev|intros old Hold; by apply Hcreated].
  - intros L4 rev HL4 Hok4 Hrev. rewrite put_removed_ontology in *. wp_step. apply wp_require.
    intros record Hrecord. simpl in Hrecord. rewrite lookup_insert_eq in Hrecord.
    injection Hrecord as <-. wp_go. split; simpl; [|split_and!; try done; by apply live_ontology_None|done].
    exists (sn_revision_id sn), (sn_state sn). fold existing. split_and!; try done.
    + eapply commit_committed; [|exact Hen|exact Hst|exact Hrev]. hsub.
    + clearbody existing. destruct existing, (po_create_only input); done.
    + clearbody existing. by destruct existing.
Qed.

Lemma publish_ontology_safe t id name pub_id rev metadata create L :
  hist_ok L -> wp registry_inv (publish_ontology t id name pub_id rev metadata create) L post.
Proof.
  intros Hok. unfold publish_ontology. wp_go. apply ontology_at_wp; [done|].
  intros L1 v HL1 Hok1 Hrev Hv Hstored Hval. wp_step. apply wp_load_head.
  intros L2 sn en HL2 Hok2 Hen Hst. wp_step. wp_step. rename a0 into existing, H2 into Hex.
  wp_step. wp_step. wp_step. wp_step. rename H3 into Hhash. wp_step. wp_step. rename H3 into Hversion.
  wp_step. wp_step. wp_step. wp_step. rewrite Hex in H5. injection H5 as <-.
  wp_step. wp_step. apply andb_prop in H5 as [Hlive _]. wp_go.
  apply wp_commit; [|intros; wp_go; done]. intros L4 HL4 Hok4 _.
  pose proof (loaded_head _ _ _ _ Hok2 Hen Hst) as Hs. apply (state_ok_mono _ L4) in Hs; [|hsub].
  pose proof (so_ontologies _ _ _ Hs _ _ Hex) as [? ? ? ? ? ?].
  eapply commit_inv; [|exact Hen|exact Hst|..]; [hsub|..].
  - apply state_ok_put_ontology; [done| |by left]. apply live_ontology_None in Hlive.
    split; simpl; try done; [intros [? Hd]; by rewrite Hlive in Hd|].
    intros p [= <-]. split; simpl; [by left|done|]. exists (ov_record v).
    split; [|done]. eapply stored_mono; [|exact Hstored]. hsub.
  - apply edit_ontology; simpl; [unfold linked; by rewrite Hex|]. intros old Hold. congruence.
Qed.

Lemma retire_ontology_safe t id pub_id rev L :
  hist_ok L -> wp registry_inv (retire_ontology t id pub_id rev) L post.
Proof.
  intros Hok. unfold retire_ontology. wp_go. apply wp_load_head. intros L1 sn en HL1 Hok1 Hen Hst.
  wp_step. wp_step. rename a0 into record, H1 into Hrec. wp_step. wp_step.
  rename a0 into publication, H1 into Hpub. wp_go.
  apply wp_commit; [|done]. intros L4 HL4 Hok4 _.
  pose proof (loaded_head _ _ _ _ Hok1 Hen Hst) as Hs. apply (state_ok_mono _ L4) in Hs; [|hsub].
  pose proof (so_ontologies _ _ _ Hs _ _ Hrec) as [? ? ? ? Hdel Hp].
  assert (live_ontology record = true) as Hlive.
  { apply live_ontology_None. destruct (oa_deleted_at_ms _) eqn:E; [|done].
    rewrite Hdel in Hpub by eauto. done. }
  eapply commit_inv; [|exact Hen|exact Hst|..]; [hsub|..].
  - apply state_ok_put_ontology; [done| |by left].
    split; simpl; try done; [intros Hd; by rewrite (Hdel Hd) in Hpub|].
    intros p [= <-]. destruct (Hp _ Hpub) as [? ? ?]. split; simpl; try done. right. eauto.
  - apply edit_ontology; simpl; [unfold linked; by rewrite Hrec|]. intros old Hold. congruence.
Qed.

(** ** Bindings *)
Lemma production_live L t s id p :
  state_ok L t s -> production_of s id = Some p ->
  exists r, ontologies s !! id = Some r /\ live_ontology r = true.
Proof.
  intros Hs Hp. apply option_filter_Some in Hp as [Hp _]. apply bind_Some in Hp as (r & Hr & Hpub).
  exists r. split; [done|]. apply live_ontology_None.
  destruct (oa_deleted_at_ms _) eqn:E; [|done].
  by rewrite (oo_deleted _ _ _ _ (so_ontologies _ _ _ Hs _ _ Hr)) in Hpub by eauto.
Qed.

Lemma validate_published_binding_wp t s b L (Q : History -> unit -> Prop) :
  hist_ok L ->
  (forall L' p, L ⊆ L' -> hist_ok L' -> production_of s (bd_ontology_id b) = Some p -> Q L' tt) ->
  wp registry_inv (validate_published_binding t s b) L Q.
Proof.
  intros Hok HQ. unfold validate_published_binding. wp_go. apply ontology_at_wp; [done|].
  intros L1 v HL1 Hok1 _ _ _ _. wp_go. match goal with x : unit |- _ => destruct x end. by eapply HQ.
Qed.

Lemma put_binding_safe t expected b L : hist_ok L -> wp registry_inv (put_binding t expected b) L post.
Proof.
  intros Hok. unfold put_binding. wp_go. apply wp_load_head. intros L1 sn en HL1 Hok1 Hen Hst.
  wp_step. wp_step. match goal with H : (_ =? expected)%string = true |- _ =>
    apply String.eqb_eq in H as <- end.
  wp_step. wp_step. wp_step. wp_step. wp_step. apply validate_published_binding_wp; [done|].
  intros L2 p HL2 Hok2 Hp. wp_step. apply wp_commit; [|intros; wp_go; done]. intros L3 HL3 Hok3 _.
  pose proof (loaded_head _ _ _ _ Hok1 Hen Hst) as Hs. apply (state_ok_mono _ L3) in Hs; [|hsub].
  eapply commit_inv; [|exact Hen|exact Hst|..]; [hsub| |apply edit_binding].
  apply state_ok_put_binding; [done|]. split; [done|eauto|by eapply production_live].
Qed.

(** ** The other methods *)
Lemma merge_ontology_safe t id base left right expected author message L :
  hist_ok L -> wp registry_inv (merge_ontology t id base left right expected author message) L post.
Proof.
  intros Hok. unfold merge_ontology. wp_go. apply ontology_at_wp; [done|]. intros L1 v1 ? ? _ _ _ _.
  wp_step. apply ontology_at_wp; [done|]. intros L2 v2 ? ? _ _ _ _.
  wp_step. apply ontology_at_wp; [done|]. intros L3 v3 ? ? _ _ _ _. wp_step. wp_step.
  destruct (mr_ontology _); [|by wp_go]. wp_step. eapply wp_conseq; [done| |by apply put_ontology_wp].
  intros. by wp_go.
Qed.

Lemma validate_tenants_safe ids L : hist_ok L -> wp registry_inv (validate_tenants ids) L post.
Proof.
  intros Hok. unfold validate_tenants. wp_step. wp_step. clear H0.
  revert L Hok. induction ids as [|id ids IH]; intros L Hok; [exact I|]. cbn [validate_tenant_list].
  wp_go. eapply wp_conseq; [done| |by apply IH]. intros. by wp_go.
Qed.

Lemma runtime_views_safe t l L : hist_ok L -> wp registry_inv (runtime_views t l) L post.
Proof.
  revert L. induction l as [|[id rev] l IH]; intros L Hok; [exact I|]. cbn [runtime_views].
  wp_step. eapply wp_conseq; [done| |by apply runtime_pipeline_wp]. intros L1 r ? ? _. cbv beta.
  wp_step. eapply wp_conseq; [done| |by apply IH]. intros. by wp_go.
Qed.

Lemma ontology_slice_safe t id rev block L :
  hist_ok L -> wp registry_inv (ontology_slice t id rev block) L post.
Proof.
  intros Hok. unfold ontology_slice. wp_go. apply wp_load_pinned. intros L1 sn ? ? _ _. wp_go.
  apply ontology_at_wp; [done|]. intros. by wp_go.
Qed.

Lemma diff_ontology_safe t id base target L :
  hist_ok L -> wp registry_inv (diff_ontology t id base target) L post.
Proof.
  intros Hok. unfold diff_ontology. wp_go. apply ontology_at_wp; [done|]. intros.
  wp_go. apply ontology_at_wp; [done|]. intros. by wp_go.
Qed.
End safe.
