(* ===== verification/AuthoringSafe.v ===== *)
(** * AuthoringSafe: the workspace commands preserve the invariant

    [author_pipeline] (authoring_service.rs), [author_ontology] and
    [ontology_history] (ontology_authoring.rs). *)

From S2P Require Import Prelude Text Json Ontology Pipeline DiffMerge MergeFacts Authoring.
From S2P Require Import Composition State Store StoreLogic Domain AuthoringService.
From S2P Require Import OntologyAuthoring RegistryInv DomainSafe.

Section pipelines.
Context `{Externals}.
Implicit Types (L : History).

(** ** Authoring state updates *)
Lemma existsb_values {A} (f : A -> bool) (m : gmap string A) k a :
  existsb f (btree_values m) = false -> m !! k = Some a -> f a = false.
Proof.
  intros Hf Hk. destruct (f a) eqn:E; [|done].
  assert (existsb f (btree_values m) = true) as Ht; [|by rewrite Hf in Ht].
  apply existsb_exists. exists a. split; [|done]. apply list_elem_of_In, elem_of_btree_values. eauto.
Qed.

Lemma size_insert_present {A} (m : gmap string A) k a b :
  m !! k = Some b -> size (<[k := a]> m) = size m.
Proof. intros Hk. apply map_size_insert_Some. eauto. Qed.

Lemma authoring_ok_approval a o : authoring_ok a -> authoring_ok (set_approval o a).
Proof. by intros []. Qed.
Lemma authoring_ok_release a o : authoring_ok a -> authoring_ok (set_release o a).
Proof. by intros []. Qed.
Lemma authoring_ok_enabled a b : authoring_ok a -> authoring_ok (set_enabled b a).
Proof. by intros []. Qed.

(** Replacing a branch that keeps its parent. *)
Lemma authoring_ok_branch a name old new :
  authoring_ok a -> a_branches a !! name = Some old -> br_parent_branch new = br_parent_branch old ->
  authoring_ok (set_branches (<[name := new]> (a_branches a)) a).
Proof.
  intros [Hl Hpl Hb Hp] Hold Hpar. split; simpl; [by erewrite size_insert_present|done| |].
  - assert (forall p, is_Some (a_branches a !! p) -> is_Some (<[name := new]> (a_branches a) !! p)) as Hup.
    { intros p Hpp. rewrite lookup_insert. case_decide; eauto. }
    intros n b. rewrite lookup_insert_Some. intros [[<- <-]|[Hne Hn]].
    + destruct (Hb _ _ Hold) as (? & ? & Hpp). split; [done|]. split; [done|]. rewrite Hpar.
      intros p Hp'. destruct (Hpp p Hp') as [->|?]; [by left|right; auto].
    + destruct (Hb _ _ Hn) as (? & ? & Hpp). split; [done|]. split; [done|].
      intros p Hp'. destruct (Hpp p Hp') as [->|?]; [by left|right; auto].
  - intros n p Hn. destruct (Hp _ _ Hn) as [? ?]. split; [done|]. rewrite lookup_insert.
    case_decide; eauto.
Qed.

Lemma authoring_ok_create a name b :
  authoring_ok a -> size (a_branches a) < 32 -> a_branches a !! name = None ->
  valid_branch name = true -> name <> "main" ->
  (forall p, br_parent_branch b = Some p -> p = "main" \/ is_Some (a_branches a !! p)) ->
  authoring_ok (set_branches (<[name := b]> (a_branches a)) a).
Proof.
  intros [Hl Hpl Hb Hp] Hsize Hfresh Hv Hm Hpar.
  assert (forall p, is_Some (a_branches a !! p) -> is_Some (<[name := b]> (a_branches a) !! p)) as Hup.
  { intros p Hpp. rewrite lookup_insert. case_decide; eauto. }
  split; simpl; [rewrite map_size_insert_None by done; lia|done| |].
  - intros n b'. rewrite lookup_insert_Some. intros [[<- <-]|[Hne Hn]].
    + split; [done|]. split; [done|]. intros p Hp'. destruct (Hpar p Hp') as [->|?]; [by left|right; auto].
    + destruct (Hb _ _ Hn) as (? & ? & Hpp). split; [done|]. split; [done|].
      intros p Hp'. destruct (Hpp p Hp') as [->|?]; [by left|right; auto].
  - intros n p Hn. destruct (Hp _ _ Hn) as [? ?]. split; auto.
Qed.

Lemma authoring_ok_remove a name :
  authoring_ok a -> has_children name (a_branches a) = false ->
  has_proposal name (a_proposals a) = false ->
  authoring_ok (set_branches (delete name (a_branches a)) a).
Proof.
  intros [Hl Hpl Hb Hp] Hc Hprop. split; simpl; [|done| |].
  - etrans; [|exact Hl]. apply map_subseteq_size, delete_subseteq.
  - intros n b [Hne Hn]%lookup_delete_Some. destruct (Hb _ _ Hn) as (? & ? & Hpp).
    split; [done|]. split; [done|]. intros p Hp'. destruct (Hpp p Hp') as [->|?]; [by left|right].
    rewrite lookup_delete_ne; [done|]. intros <-.
    pose proof (existsb_values _ _ _ _ Hc Hn) as Hf. simpl in Hf. rewrite Hp' in Hf. simpl in Hf.
    by rewrite String.eqb_refl in Hf.
  - intros n p Hn. destruct (Hp _ _ Hn) as [Hs ?]. split; [done|]. rewrite lookup_delete_ne; [done|].
    intros <-. pose proof (existsb_values _ _ _ _ Hprop Hn) as Hf. simpl in Hf. subst.
    by rewrite String.eqb_refl in Hf.
Qed.

Lemma authoring_ok_propose a name p :
  authoring_ok a -> is_Some (a_branches a !! name) -> mp_source_branch p = name ->
  (size (a_proposals a) < 32 \/ is_Some (a_proposals a !! name)) ->
  authoring_ok (set_proposals (<[name := p]> (a_proposals a)) a).
Proof.
  intros [Hl Hpl Hb Hp] Hbr Hs Hsize. split; simpl; [done| |done|].
  - destruct (a_proposals a !! name) as [old|] eqn:E; [by erewrite size_insert_present|].
    rewrite map_size_insert_None by done. destruct Hsize as [?|[? [=]]]. lia.
  - intros n q. rewrite lookup_insert_Some. intros [[<- <-]|[_ ?]]; eauto.
Qed.

Lemma authoring_ok_close a name :
  authoring_ok a -> authoring_ok (set_proposals (delete name (a_proposals a)) a).
Proof.
  intros [Hl Hpl Hb Hp]. split; simpl; [done| |done|].
  - etrans; [|exact Hpl]. apply map_subseteq_size, delete_subseteq.
  - intros n q [_ Hn]%lookup_delete_Some. eauto.
Qed.

(** ** The commands on the record *)

(** What a command keeps of the record. *)
Record kept L (t id : string) (r r' : PipelineRecord) : Prop := {
  ke_ok : pipeline_ok L t id r';
  ke_deleted : pl_deleted_at_ms r' = pl_deleted_at_ms r;
  ke_created : pl_created_at_ms r' = pl_created_at_ms r;
  ke_enabled : a_enabled (pl_authoring r') = a_enabled (pl_authoring r);
}.

Lemma kept_update L t id r r' :
  pipeline_ok L t id r -> pl_pipeline_id r' = pl_pipeline_id r ->
  pl_deleted_at_ms r' = pl_deleted_at_ms r -> pl_created_at_ms r' = pl_created_at_ms r ->
  a_enabled (pl_authoring r') = a_enabled (pl_authoring r) ->
  pl_published_revision_id r' = pl_published_revision_id r ->
  a_release (pl_authoring r') = a_release (pl_authoring r) ->
  a_approval (pl_authoring r') = None \/
    a_approval (pl_authoring r') = a_approval (pl_authoring r) /\ pl_definition r' = pl_definition r ->
  authoring_ok (pl_authoring r') -> kept L t id r r'.
Proof.
  intros [? ? ? ? ? ? Happ ?] Hid Hd Hc He Hp Hr Hap Ha. split; [|done..]. split; try done.
  all: rewrite ?Hid, ?Hd, ?Hp, ?Hr; try done.
  intros review Hrev. destruct Hap as [Hap|[Hap Hdef]]; [by rewrite Hap in Hrev|].
  unfold approved. rewrite Hdef. apply Happ. by rewrite <-Hap.
Qed.

Lemma save_draft_kept L t id input branch now r r' :
  pipeline_ok L t id r -> save_draft input branch now r = Ok r' -> kept L t id r r'.
Proof.
  intros Hok. unfold save_draft. intros Hs. res_inv. destruct (String.eqb branch "main"); res_inv.
  - apply kept_update; try done; [by left|]. apply authoring_ok_approval, Hok.
  - apply kept_update; try done; [by right|]. by eapply authoring_ok_branch; [apply Hok|..].
Qed.

Lemma delete_branch_kept L t id branch r r' :
  pipeline_ok L t id r -> delete_branch branch r = Ok r' -> kept L t id r r'.
Proof.
  intros Hok. unfold delete_branch. intros Hs. res_inv. bool_inv. apply kept_update; try done; [by right|].
  apply authoring_ok_remove; [apply Hok|done..].
Qed.

Lemma create_branch_kept L t id author branch from head now r r' :
  pipeline_ok L t id r -> create_branch author branch from head now r = Ok r' -> kept L t id r r'.
Proof.
  intros Hok. unfold create_branch. intros Hs. res_inv. bool_inv.
  destruct x1 as [[d bd] brev]. res_inv. apply kept_update; try done; [by right|].
  apply authoring_ok_create; simpl; [apply Hok|by apply Nat.ltb_lt| |done| |].
  - by destruct (a_branches (pl_authoring r) !! branch).
  - by apply String.eqb_neq.
  - intros p [= <-]. destruct (String.eqb from "main") eqn:E2; [left; by apply String.eqb_eq|].
    right. res_inv. eauto.
Qed.

Lemma propose_merge_kept L t id author branch now r r' :
  pipeline_ok L t id r -> propose_merge author branch now r = Ok r' -> kept L t id r r'.
Proof.
  intros Hok. unfold propose_merge. intros Hs. res_inv. apply kept_update; try done; [by right|].
  apply authoring_ok_propose; simpl; [apply Hok|eauto|done|].
  apply orb_prop in E0 as [?%Nat.ltb_lt|?]; [by left|right].
  by destruct (a_proposals (pl_authoring r) !! branch).
Qed.

Lemma merge_proposal_kept L t id pid res head r r' :
  pipeline_ok L t id r -> merge_proposal pid res head r = Ok r' -> kept L t id r r'.
Proof.
  intros Hok. unfold merge_proposal. intros Hs. res_inv. apply kept_update; try done; [by left|].
  simpl. eapply (authoring_ok_branch (set_proposals (delete pid (a_proposals (pl_authoring r)))
    (set_approval None (pl_authoring r)))); [|done|done].
  apply (authoring_ok_close (set_approval None (pl_authoring r))), authoring_ok_approval, Hok.
Qed.

Lemma kept_mono L L' t id r r' : L ⊆ L' -> kept L t id r r' -> kept L' t id r r'.
Proof. intros HL [? ? ? ?]. split; [by eapply pipeline_ok_mono|done..]. Qed.

#[local] Opaque compile_composition runtime_pipeline.

Lemma approve_wp input head now t id r L :
  hist_ok L -> pipeline_ok L t id r ->
  wp registry_inv (approve input head now r) L (fun L' r' => L ⊆ L' /\ kept L' t id r r').
Proof.
  intros Hok Hr. unfold approve. wp_go. eapply wp_conseq; [done| |by apply compile_composition_wp].
  intros L1 v HL1 Hok1 _. cbv beta. wp_go. split; [done|]. eapply kept_mono; [done|].
  match goal with H : validate_executable _ = Ok ?u |- _ => destruct u end.
  destruct Hr as [? ? ? ? ? ? ? ?]. split; [|done..]. split; simpl; try done.
  - by apply authoring_ok_approval.
  - by intros review [= <-].
Qed.

Lemma publish_wp input head now t id r L :
  hist_ok L -> pipeline_ok L t id r ->
  (exists r0, pipeline_at L t id head r0 /\ a_approval (pl_authoring r0) = a_approval (pl_authoring r)) ->
  wp registry_inv (publish input head now r) L (fun L' r' => L ⊆ L' /\ kept L' t id r r').
Proof.
  intros Hok Hr (r0 & Hat & Hap). unfold publish. wp_go.
  eapply wp_conseq; [done| |by apply compile_composition_wp].
  intros L1 v HL1 Hok1 _. cbv beta. wp_go. split; [done|]. eapply kept_mono; [done|].
  destruct Hr as [? ? ? ? ? ? ? ?]. split; [|done..]. split; simpl; try done; [by apply authoring_ok_release|].
  intros release [= <-]. simpl. exists r0. eexists. simpl. split; [done|]. rewrite Hap. by split.
Qed.

Lemma deploy_wp input r L :
  hist_ok L -> pipeline_ok L (pp_tenant_id input) (pp_pipeline_id input) r ->
  live_pipeline r = true ->
  wp registry_inv (deploy input r) L
    (fun L' r' => L ⊆ L' /\ kept L' (pp_tenant_id input) (pp_pipeline_id input) r r').
Proof.
  intros Hok Hr Hlive. unfold deploy. wp_step. wp_step. wp_step. apply pipeline_revision_wp; [done|].
  intros L1 v HL1 Hok1 _ _ _. wp_go. eapply wp_conseq; [done| |by apply compile_composition_wp].
  intros L2 v2 HL2 Hok2 _. cbv beta. wp_step.
  eapply wp_conseq; [done| |by apply runtime_pipeline_wp]. intros L3 rec HL3 Hok3 Hrun. cbv beta. wp_go.
  assert (L ⊆ L3) as HL by hsub. split; [done|].
  apply (pipeline_ok_mono _ _ _ _ _ HL) in Hr as [? ? ? ? ? ? ? Hrel].
  split; [|done..]. split; simpl; try done.
  - intros Hd. by destruct (live_not_deleted _ Hlive Hd).
  - intros rev [= <-]. by exists rec.
  - intros rev [= <-]. edestruct Hrel as (r' & review & Hat & Hap & _); [done|]. exists r'. eauto.
Qed.

(** The state beside the record: unchanged, or with one binding of the pipeline
    to a published ontology. *)
Definition draft_state (id : string) (s s' : TenantState) : Prop :=
  s' = s \/ exists b p, bd_pipeline_id b = id /\ production_of s (bd_ontology_id b) = Some p /\
    s' = put_binding_record (binding_key id (bd_block_id b)) b s.

Lemma bind_ontology_draft_wp t id r s block ontology L :
  hist_ok L -> pipeline_ok L t id r ->
  wp registry_inv (bind_ontology_draft t r s block ontology) L
    (fun L' p => L ⊆ L' /\ kept L' t id r p.1 /\ draft_state id s p.2).
Proof.
  intros Hok Hr. unfold bind_ontology_draft. wp_go. apply validate_published_binding_wp; [done|].
  intros L1 p HL1 Hok1 Hp. wp_go. simpl. assert (L ⊆ L1) as HL by hsub. split; [done|].
  apply (pipeline_ok_mono _ _ _ _ _ HL) in Hr. split.
  - apply kept_update; try done; [by left|]. apply authoring_ok_approval, Hr.
  - right. rewrite (po_id _ _ _ _ Hr) in *. eexists _, p. split; [|split; [exact Hp|done]]. done.
Qed.

Lemma on_record_wp {L0} t id r s (p : prog PipelineRecord) L :
  hist_ok L -> wp registry_inv p L (fun L' r' => L0 ⊆ L' /\ kept L' t id r r') ->
  wp registry_inv (on_record s p) L
    (fun L' q => L0 ⊆ L' /\ kept L' t id r q.1 /\ draft_state id s q.2).
Proof.
  intros Hok Hp. unfold on_record. wp_step. eapply wp_conseq; [done| |exact Hp].
  intros L1 r' HL1 Hok1 [HL Hk]. cbv beta. wp_go. split; [done|]. split; [done|]. by left.
Qed.

Lemma apply_command_wp input command head now r s L :
  hist_ok L -> pipeline_ok L (pp_tenant_id input) (pp_pipeline_id input) r ->
  live_pipeline r = true ->
  (saves_main command = false -> exists r0,
    pipeline_at L (pp_tenant_id input) (pp_pipeline_id input) head r0 /\
    a_approval (pl_authoring r0) = a_approval (pl_authoring r)) ->
  wp registry_inv (apply_command input command head now r s) L
    (fun L' q => L ⊆ L' /\ kept L' (pp_tenant_id input) (pp_pipeline_id input) r q.1 /\
      draft_state (pp_pipeline_id input) s q.2).
Proof.
  intros Hok Hr Hlive Hpin. destruct command as [branch|branch|block o|branch from|branch|pid res| | |];
    cbn [apply_command].
  3: { wp_step. wp_step. by apply bind_ontology_draft_wp. }
  all: apply on_record_wp; [done|].
  - wp_go. split; [done|]. by eapply delete_branch_kept.
  - wp_go. split; [done|]. by eapply save_draft_kept.
  - wp_go. split; [done|]. by eapply create_branch_kept.
  - wp_go. split; [done|]. by eapply propose_merge_kept.
  - wp_go. split; [done|]. by eapply merge_proposal_kept.
  - by apply approve_wp.
  - apply publish_wp; [done..|by apply Hpin].
  - by apply deploy_wp.
Qed.

(** ** The command frame *)
Lemma new_pipeline_ok L t input now :
  valid_branch (pp_pipeline_id input) = true ->
  pipeline_ok L t (pp_pipeline_id input) (new_pipeline input now).
Proof.
  intros Hv. split; simpl; try done; [by apply valid_branch_identity|apply authoring_ok_default].
Qed.

(** The committed state of a command. *)
Lemma state_ok_draft L t id s s' r' :
  state_ok L t s -> draft_state id (remove_pipeline id s) s' -> pipeline_ok L t id r' ->
  state_ok L t (put_pipeline_record id r' s').
Proof.
  intros Hs Hd Hr. destruct Hd as [->|(b & p & <- & Hp & ->)].
  - rewrite put_removed_pipeline. by apply state_ok_put_pipeline.
  - replace (put_pipeline_record _ r' _) with
      (put_binding_record (binding_key (bd_pipeline_id b) (bd_block_id b)) b
        (put_pipeline_record (bd_pipeline_id b) r' s)).
    2: { rewrite <-put_removed_pipeline. done. }
    apply state_ok_put_binding; [by apply state_ok_put_pipeline|].
    split; [done|simpl; rewrite lookup_insert_eq; eauto|].
    apply (production_live L t s (bd_ontology_id b) p); [done|exact Hp].
Qed.

Lemma edit_draft parent id s s' r' :
  draft_state id (remove_pipeline id s) s' ->
  linked parent (pipelines s !! id) (pl_previous_revision_id r') ->
  (forall old, pipelines s !! id = Some old -> pl_created_at_ms r' = pl_created_at_ms old) ->
  edit parent s (put_pipeline_record id r' s').
Proof.
  intros Hd Hl Hc.
  assert (exists b, put_pipeline_record id r' s' =
    {| pipelines := <[id := r']> (pipelines s); ontologies := ontologies s; bindings := b |} /\
    bindings_of id (bindings s) b) as (b & -> & Hb); [|by apply edit_pipeline].
  destruct Hd as [->|(b & p & Hid & Hp & ->)].
  - exists (bindings s). rewrite put_removed_pipeline. split; [done|apply bindings_of_refl].
  - eexists. split.
    + unfold put_pipeline_record, put_binding_record, set_pipelines. simpl.
      by rewrite insert_delete_eq.
    + intros key. simpl. rewrite lookup_insert. case_decide as E; [right|by left].
      exists b. by subst.
Qed.

(** The outcome of [author_pipeline]. *)
Definition author_pipeline_post (input : PutPipeline) L (v : PipelineView) : Prop :=
  exists parent before after,
    committed L (pp_tenant_id input) (pv_head_revision_id v) parent before after /\
    pipelines after = <[pp_pipeline_id input := pv_record v]> (pipelines before) /\
    ontologies after = ontologies before /\
    bindings_of (pp_pipeline_id input) (bindings before) (bindings after) /\
    a_enabled (pl_authoring (pv_record v)) = true /\ live_pipeline (pv_record v) = true /\
    (if pp_create_only input then pipelines before !! pp_pipeline_id input = None
     else pp_expected_revision_id input = Some parent /\
       exists old, pipelines before !! pp_pipeline_id input = Some old /\ live_pipeline old = true).

Lemma create_only_wp input command L (Q : History -> unit -> Prop) :
  hist_ok L ->
  (forall L1, L ⊆ L1 -> hist_ok L1 -> (pp_create_only input = true -> saves_main command = true) ->
    Q L1 tt) ->
  wp registry_inv (if pp_create_only input then
     check (saves_main command) "only a main draft can create a pipeline" ;;
     ensure_tenant (pp_tenant_id input) ;; ok tt else ok tt) L Q.
Proof. intros Hok HQ. destruct (pp_create_only input); wp_go; by apply HQ. Qed.

(** The record a command starts from. *)
Lemma command_record L t input command now (s : TenantState) head en :
  state_ok L t s -> L !! (t, head) = Some en -> en_state en = s ->
  valid_branch (pp_pipeline_id input) = true ->
  (pp_create_only input = true -> saves_main command = true) ->
  pp_create_only input || is_some_and live_pipeline (pipelines s !! pp_pipeline_id input) = true ->
  negb (pp_create_only input) || option_is_none (pipelines s !! pp_pipeline_id input) = true ->
  let r := with_authoring (set_enabled true)
    (default (new_pipeline input now) (pipelines s !! pp_pipeline_id input)) in
  pipeline_ok L t (pp_pipeline_id input) r /\ live_pipeline r = true /\
  (saves_main command = false -> exists r0, pipeline_at L t (pp_pipeline_id input) head r0 /\
    a_approval (pl_authoring r0) = a_approval (pl_authoring r)).
Proof.
  intros Hs Hen Hst Hvb Hsaves Hpresent Hfresh.
  destruct (pipelines s !! _) as [old|] eqn:Hprev; simpl in *.
  - pose proof (so_pipelines _ _ _ Hs _ _ Hprev) as Ho.
    destruct (pp_create_only input); [done|]. simpl in Hpresent.
    split; [|split; [done|intros _; exists old; split; [|done]; exists en; by rewrite Hst]].
    destruct Ho as [? ? ? ? ? ? ? ?]. split; simpl; try done. by apply authoring_ok_enabled.
  - destruct (pp_create_only input); [|done]. rewrite Hsaves by done. split; [|done].
    destruct (new_pipeline_ok L t input now Hvb) as [? ? ? ? ? ? ? ?]. split; simpl; try done.
    by apply authoring_ok_enabled.
Qed.

Lemma draft_state_after id s s' r' :
  draft_state id (remove_pipeline id s) s' ->
  pipelines (put_pipeline_record id r' s') = <[id := r']> (pipelines s) /\
  ontologies (put_pipeline_record id r' s') = ontologies s /\
  bindings_of id (bindings s) (bindings (put_pipeline_record id r' s')).
Proof.
  intros [->|(b & p & Hid & Hp & ->)]; simpl; rewrite insert_delete_eq; (split_and!; [done..|]).
  - apply bindings_of_refl.
  - intros key. rewrite lookup_insert. case_decide as E; [right|by left]. exists b. by subst.
Qed.

Lemma author_pipeline_wp input command L :
  hist_ok L -> wp registry_inv (author_pipeline input command) L (author_pipeline_post input).
Proof.
  intros Hok. unfold author_pipeline. wp_step. apply wp_check. intros [_ Hvb]%andb_prop. wp_go.
  apply create_only_wp; [done|]. intros L1 HL1 Hok1 Hsaves. wp_step.
  apply wp_load_head. intros L2 sn en HL2 Hok2 Hen Hst. wp_step. apply wp_check. intros Hexp.
  wp_step. apply wp_check. intros Hfresh. wp_step. apply wp_check. intros Hpresent.
  wp_step. apply wp_now. intros L3 now HL3 Hok3. wp_step.
  pose proof (loaded_head _ _ _ _ Hok2 Hen Hst) as Hs. apply (state_ok_mono _ L3) in Hs; [|done].
  destruct (command_record L3 (pp_tenant_id input) input command now (sn_state sn) (sn_revision_id sn) en)
    as (Hr & Hlive & Hpin); [done|by eapply lookup_weaken|done..|].
  eapply wp_conseq; [done| |by apply apply_command_wp]. intros L4 [r' s'] HL4 Hok4 (_ & Hk & Hd).
  simpl in Hk, Hd. cbv beta. wp_go. destruct Hk as [Hr' Hdel' Hcreated' Hen'].
  destruct (draft_state_after _ _ _ (stamp (if pp_create_only input then None else Some (sn_revision_id sn))
    (pp_author input) (pp_message input) now r') Hd) as (Hpl & Hon & Hbi).
  apply wp_commit.
  - intros L5 HL5 Hok5 _. apply (pipeline_ok_mono _ L5) in Hr'; [|done].
    eapply commit_inv; [|exact Hen|exact Hst|..]; [hsub|..].
    + apply (state_ok_mono _ L5) in Hs; [|hsub]. eapply state_ok_draft; [done..|].
      by destruct Hr'; split.
    + apply edit_draft; [done|..]; simpl.
      * unfold linked. destruct (pipelines (sn_state sn) !! _), (pp_create_only input); done.
      * intros old Hold. rewrite Hcreated', Hold. done.
  - intros L5 rev HL5 Hok5 Hrev. wp_step. apply wp_require. intros record Hrecord.
    rewrite Hpl, lookup_insert_eq in Hrecord. injection Hrecord as <-. wp_go.
    exists (sn_revision_id sn), (sn_state sn). eexists. split_and!; [|exact Hpl|exact Hon|exact Hbi|..]; simpl.
    + eapply commit_committed; [|exact Hen|exact Hst|exact Hrev]. hsub.
    + by rewrite Hen'.
    + unfold live_pipeline in *. simpl. by rewrite Hdel'.
    + destruct (pp_create_only input); simpl in *.
      * by destruct (pipelines (sn_state sn) !! _).
      * destruct (pp_expected_revision_id input); [|done]. simpl in Hexp.
        apply String.eqb_eq in Hexp as ->. split; [done|].
        destruct (pipelines (sn_state sn) !! _) as [old|]; [|done]. eauto.
Qed.
End pipelines.

Section ontologies.
Context `{Externals}.
Implicit Types (L : History).

Lemma merge_ontology_valid base left right res o :
  DiffMerge.merge_ontology base left right = Ok res -> mr_ontology res = Some o ->
  validate_ontology o = Ok tt.
Proof.
  unfold DiffMerge.merge_ontology. intros Hm Ho. do 6 apply bind_Ok_inv in Hm as (? & _ & Hm).
  destruct (merge_resources _ _ _ _ _ _) as [mg c]. do 3 apply bind_Ok_inv in Hm as (? & _ & Hm).
  destruct (DiffMerge.merge_value _ _ _ _ _ _) as [md [|? ?]]; res_inv; [|done]. by injection Ho as <-.
Qed.

(** ** Branches of an ontology *)
Lemma branches_ok_replace m name old new :
  ontology_branches_ok m -> m !! name = Some old -> ob_parent_branch new = ob_parent_branch old ->
  validate_ontology (ob_definition new) = Ok tt -> validate_ontology (ob_base_definition new) = Ok tt ->
  ontology_branches_ok (<[name := new]> m).
Proof.
  intros [Hl Hb] Hold Hpar Hd Hbd.
  assert (forall p, is_Some (m !! p) -> is_Some (<[name := new]> m !! p)) as Hup.
  { intros p Hpp. rewrite lookup_insert. case_decide; eauto. }
  split; [by erewrite size_insert_present|]. intros n b. rewrite lookup_insert_Some.
  intros [[<- <-]|[Hne Hn]].
  - destruct (Hb _ _ Hold) as (? & ? & Hp & _). rewrite Hpar. split_and!; try done. naive_solver.
  - destruct (Hb _ _ Hn) as (? & ? & Hp & ? & ?). split_and!; try done. naive_solver.
Qed.

Lemma branches_ok_fork m name b :
  ontology_branches_ok m -> size m < 20 -> m !! name = None -> valid_branch name = true ->
  name <> "main" -> ob_parent_branch b = "main" \/ is_Some (m !! ob_parent_branch b) ->
  validate_ontology (ob_definition b) = Ok tt -> validate_ontology (ob_base_definition b) = Ok tt ->
  ontology_branches_ok (<[name := b]> m).
Proof.
  intros [Hl Hb] Hsize Hf Hv Hm Hpar Hd Hbd.
  assert (forall p, is_Some (m !! p) -> is_Some (<[name := b]> m !! p)) as Hup.
  { intros p Hpp. rewrite lookup_insert. case_decide; eauto. }
  split; [rewrite map_size_insert_None by done; lia|]. intros n b'. rewrite lookup_insert_Some.
  intros [[<- <-]|[Hne Hn]]; [split_and!; try done; naive_solver|].
  destruct (Hb _ _ Hn) as (? & ? & Hp & ? & ?). split_and!; try done. naive_solver.
Qed.

Lemma branches_ok_remove m name :
  ontology_branches_ok m ->
  existsb (fun child => String.eqb (ob_parent_branch child) name) (btree_values m) = false ->
  ontology_branches_ok (delete name m).
Proof.
  intros [Hl Hb] Hc. split; [etrans; [apply map_subseteq_size, delete_subseteq|done]|].
  intros n b [Hne Hn]%lookup_delete_Some. destruct (Hb _ _ Hn) as (? & ? & Hp & ? & ?).
  split_and!; try done. destruct Hp as [?|?]; [by left|right]. rewrite lookup_delete_ne; [done|].
  intros Heq. pose proof (existsb_values _ _ _ _ Hc Hn) as Hf. simpl in Hf. rewrite Heq in Hf.
  by rewrite String.eqb_refl in Hf.
Qed.

(** What a command keeps of the record; a tombstone needs an unused ontology. *)
Record okept L (t id : string) (s : TenantState) (r r' : OntologyRecord) : Prop := {
  ok_ok : ontology_ok L t id r';
  ok_created : or_created_at_ms r' = or_created_at_ms r;
  ok_live : live_ontology r' = true \/
    (forall key b, bindings s !! key = Some b -> bd_ontology_id b <> id);
}.

Lemma okept_update L t id s r r' :
  ontology_ok L t id r -> live_ontology r = true -> or_ontology_id r' = or_ontology_id r ->
  or_created_at_ms r' = or_created_at_ms r ->
  oa_deleted_at_ms (or_authoring r') = oa_deleted_at_ms (or_authoring r) ->
  or_production_publication r' = or_production_publication r ->
  validate_ontology (or_ontology r') = Ok tt -> ontology_branches_ok (oa_branches (or_authoring r')) ->
  okept L t id s r r'.
Proof.
  intros [] Hl Hid Hc Hd Hp Hm Hb. split; [|done|left; apply live_ontology_None; rewrite Hd;
    by apply live_ontology_None]. split; try done; rewrite ?Hid, ?Hd, ?Hp; done.
Qed.

Lemma branch_content_valid L t id r branch d n :
  ontology_ok L t id r -> branch_content r branch = Ok (d, n) ->
  validate_ontology d = Ok tt /\
  (branch = "main" \/ is_Some (oa_branches (or_authoring r) !! branch)).
Proof.
  intros Hr. unfold branch_content. destruct (String.eqb branch "main") eqn:E; intros Hc; res_inv.
  - split; [apply Hr|]. left. by apply String.eqb_eq.
  - split; [by apply (bo_branch _ (oo_branches _ _ _ _ Hr) _ _ E0)|eauto].
Qed.

Section commands.
Context (L : History) (t id : string) (s : TenantState) (r : OntologyRecord)
  (Hr : ontology_ok L t id r) (Hlive : live_ontology r = true).

Lemma fork_kept branch from expected author now r' :
  fork branch from expected author now r = Ok r' -> okept L t id s r r'.
Proof.
  unfold fork. intros Hf. res_inv. bool_inv. destruct x1 as [d n]. res_inv.
  destruct (branch_content_valid _ _ _ _ _ _ _ Hr E1) as [Hd Hp].
  apply okept_update; try done; [apply Hr|]. simpl.
  apply branches_ok_fork; simpl; try done; [apply Hr|by apply Nat.ltb_lt| |by apply String.eqb_neq].
  by destruct (oa_branches _ !! branch).
Qed.

Lemma save_branch_kept branch input now r' :
  save_branch branch input now r = Ok r' -> okept L t id s r r'.
Proof.
  unfold save_branch. intros Hf. res_inv.
  destruct (String.eqb branch "main"); res_inv; apply okept_update; try done; try apply Hr. simpl.
  eapply branches_ok_replace; [apply Hr|exact E3|done|done|].
  by apply (bo_branch _ (oo_branches _ _ _ _ Hr) _ _ E3).
Qed.

Lemma merge_branch_kept branch expected author now r' parent :
  merge_branch branch expected author now r = Ok (r', parent) -> okept L t id s r r'.
Proof.
  unfold merge_branch. intros Hf. res_inv. destruct x1 as [target name]. res_inv.
  pose proof (merge_ontology_valid _ _ _ _ _ E3 E5) as Hmerged.
  destruct (bo_branch _ (oo_branches _ _ _ _ Hr) _ _ E6) as (_ & _ & _ & Hd & Hbd).
  assert (ontology_branches_ok (<[branch := rebased expected x4]> (oa_branches (or_authoring r)))) as Hbr
    by (eapply branches_ok_replace; [apply Hr|exact E6|done..]).
  destruct (String.eqb (ob_parent_branch x0) "main"); res_inv; apply okept_update; try done;
    try apply Hr. simpl.
  match goal with Hp : <[branch := _]> _ !! _ = Some ?b |- _ =>
    destruct (bo_branch _ Hbr _ _ Hp) as (_ & _ & _ & _ & ?);
    by eapply branches_ok_replace; [exact Hbr|exact Hp|..] end.
Qed.

Lemma remove_branch_kept branch r' : remove_branch branch r = Ok r' -> okept L t id s r r'.
Proof.
  unfold remove_branch. intros Hf. res_inv. bool_inv. apply okept_update; try done; [apply Hr|].
  apply branches_ok_remove; [apply Hr|done].
Qed.

Lemma delete_ontology_kept now r' : delete_ontology s now r = Ok r' -> okept L t id s r r'.
Proof.
  unfold delete_ontology. intros Hf. res_inv. bool_inv. destruct Hr as [Hid ? ? ? ? ?].
  split; [by split|done|right]. intros key b Hb <-.
  pose proof (existsb_values _ _ _ _ E0 Hb) as Hu. simpl in Hu. rewrite Hid in Hu.
  by rewrite String.eqb_refl in Hu.
Qed.
End commands.

Lemma restore_ontology_kept L t id s r r' :
  ontology_ok L t id r -> restore_ontology r = Ok r' -> okept L t id s r r'.
Proof.
  unfold restore_ontology. intros [] Hf. res_inv. split; [|done|by left].
  split; simpl; try done.
Qed.

Lemma apply_ontology_command_kept L t id s input command expected now r r' affected :
  ontology_ok L t id r -> live_ontology r || is_restore command = true ->
  apply_ontology_command input command expected now s r = Ok (r', affected) -> okept L t id s r r'.
Proof.
  intros Hr Hl. destruct command as [branch from|branch|branch|branch| |];
    cbn [apply_ontology_command is_restore] in *; try (rewrite orb_false_r in Hl); intros Hc.
  3: by eapply merge_branch_kept.
  all: apply bind_Ok_inv in Hc as (x & Hx & Hc); injection Hc as <- <-.
  - by eapply fork_kept.
  - by eapply save_branch_kept.
  - by eapply remove_branch_kept.
  - by eapply delete_ontology_kept.
  - by eapply restore_ontology_kept.
Qed.

(** The outcome of [author_ontology]. *)
Definition author_ontology_post (input : PutOntology) (command : OntologyCommand) L (v : OntologyView)
    : Prop :=
  exists parent before old now touched affected new,
    po_expected_revision_id input = Some parent /\
    committed L (po_tenant_id input) (ov_revision_id v) parent before
      (put_ontology_record (po_ontology_id input) (ov_record v) before) /\
    ontologies before !! po_ontology_id input = Some old /\
    live_ontology old || is_restore command = true /\
    apply_ontology_command input command parent now
      (remove_ontology (po_ontology_id input) before) old = Ok (new, affected) /\
    ov_record v = stamp_ontology touched parent affected (ontology_operation_name command)
      (po_author input) new.

Lemma author_ontology_wp input command L :
  hist_ok L -> wp registry_inv (author_ontology input command) L (author_ontology_post input command).
Proof.
  intros Hok. unfold author_ontology. wp_go. apply wp_load_head. intros L1 sn en HL1 Hok1 Hen Hst.
  wp_step. wp_step. match goal with H : (sn_revision_id sn =? _)%string = true |- _ =>
    apply String.eqb_eq in H as <- end.
  wp_step. apply wp_require. intros r Hrec. wp_step. apply wp_check. intros Hlr. wp_step.
  apply wp_now. intros L2 now HL2 Hok2. wp_step. apply wp_lift. intros [r' affected] Hcmd. wp_step.
  apply wp_now. intros L3 touched HL3 Hok3. wp_go. apply wp_commit.
  - intros L4 HL4 Hok4 _.
    pose proof (loaded_head _ _ _ _ Hok1 Hen Hst) as Hs. apply (state_ok_mono _ L4) in Hs; [|hsub].
    eapply (apply_ontology_command_kept L4 (po_tenant_id input) (po_ontology_id input)) in Hcmd
      as [Ho Hc Hl]; [|by apply (so_ontologies _ _ _ Hs)|done].
    eapply commit_inv; [|exact Hen|exact Hst|..]; [hsub|..]; rewrite put_removed_ontology.
    + apply state_ok_put_ontology; [done| |exact Hl]. by destruct Ho; split.
    + apply edit_ontology; simpl; [unfold linked; by rewrite Hrec|]. intros old Hold. congruence.
  - intros L4 rev HL4 Hok4 Hrev. rewrite put_removed_ontology in *. wp_step. apply wp_require.
    intros record Hrecord. simpl in Hrecord. rewrite lookup_insert_eq in Hrecord.
    injection Hrecord as <-. wp_go.
    exists (sn_revision_id sn), (sn_state sn), r, now, touched, affected, r'. split_and!; try done.
    eapply commit_committed; [|exact Hen|exact Hst|exact Hrev]. hsub.
Qed.

Lemma walk_history_safe limit t id next visited items L :
  hist_ok L -> wp registry_inv (walk_history limit t id next visited items) L (fun _ _ => True).
Proof.
  revert next visited items L.
  induction limit as [|limit IH]; intros next visited items L Hok; [exact I|]. cbn [walk_history].
  wp_step. destruct next as [rev|]; [apply wp_load_pinned|apply wp_load_head]; intros L1 sn; intros; wp_go;
    (destruct (oa_previous_revision_id _); [by apply IH|by wp_go]).
Qed.

Lemma ontology_history_safe t id after limit L :
  hist_ok L -> wp registry_inv (ontology_history t id after limit) L (fun _ _ => True).
Proof. intros Hok. unfold ontology_history. wp_go. by apply walk_history_safe. Qed.
End ontologies.
