(* ===== verification/RegistryFacts.v ===== *)
(** * RegistryFacts: the Registry as a concurrent system

    Every method of [Registry<S>] is a request.  The theorems hold for every
    world that any number of concurrent requests can reach, with store calls
    that fail, lose their acknowledgement or are overtaken by other clients. *)

From S2P Require Import Prelude Text Json Ontology Pipeline DiffMerge MergeFacts Authoring.
From S2P Require Import AuthoringFacts Composition State Store StoreLogic Domain.
From S2P Require Import AuthoringService OntologyAuthoring PipelineFacts RegistryInv.
From S2P Require Import DomainSafe AuthoringSafe.

Section registry.
Context `{Externals}.
Implicit Types (L : History) (w : World).

(** ** Requests *)
Inductive request : task -> Prop :=
  | req_validate_tenants ids : request (Task (validate_tenants ids))
  | req_tenant t : request (Task (tenant t))
  | req_put_tenant t : request (Task (put_tenant t))
  | req_delete_tenant t c : request (Task (delete_tenant t c))
  | req_put_pipeline input : request (Task (put_pipeline input))
  | req_current_pipeline t id : request (Task (current_pipeline t id))
  | req_pipeline_revision t id rev : request (Task (pipeline_revision t id rev))
  | req_list_pipelines t limit : request (Task (list_pipelines t limit))
  | req_publish_pipeline t id rev : request (Task (publish_pipeline t id rev))
  | req_delete_pipeline t id rev : request (Task (delete_pipeline t id rev))
  | req_runtime_pipeline t id rev : request (Task (runtime_pipeline t id rev))
  | req_list_published t limit : request (Task (list_published_pipelines t limit))
  | req_author_pipeline input command : request (Task (author_pipeline input command))
  | req_put_ontology input : request (Task (put_ontology input))
  | req_ontology_at t id rev : request (Task (ontology_at t id rev))
  | req_current_ontology t id : request (Task (current_ontology t id))
  | req_list_ontologies t limit : request (Task (list_ontologies t limit))
  | req_publish_ontology t id name pub rev metadata create :
      request (Task (publish_ontology t id name pub rev metadata create))
  | req_retire_ontology t id pub rev : request (Task (retire_ontology t id pub rev))
  | req_author_ontology input command : request (Task (author_ontology input command))
  | req_ontology_history t id after limit : request (Task (ontology_history t id after limit))
  | req_put_binding t rev b : request (Task (put_binding t rev b))
  | req_list_bindings t id rev limit : request (Task (list_bindings t id rev limit))
  | req_ontology_slice t id rev block : request (Task (ontology_slice t id rev block))
  | req_diff_ontology t id base target : request (Task (diff_ontology t id base target))
  | req_merge_ontology t id base left right expected author message :
      request (Task (merge_ontology t id base left right expected author message)).

#[local] Opaque compile_composition runtime_pipeline load_definitions.

Lemma request_ok t L : request t -> hist_ok L -> task_ok registry_inv L t.
Proof.
  intros Hr Hok. destruct Hr; unfold task_ok; try (by eapply wp_true);
    try (unfold tenant, put_tenant, delete_tenant, list_pipelines, list_ontologies, current_pipeline,
      current_ontology; wp_go; try apply wp_load_head; intros; wp_go; done).
  - by apply validate_tenants_safe.
  - by eapply wp_true, put_pipeline_wp.
  - apply pipeline_revision_wp; [done|]. done.
  - by apply publish_pipeline_safe.
  - by apply delete_pipeline_safe.
  - by eapply wp_true, runtime_pipeline_wp.
  - unfold list_published_pipelines. wp_go. apply wp_load_head. intros. by apply runtime_views_safe.
  - by eapply wp_true, author_pipeline_wp.
  - by eapply wp_true, put_ontology_wp.
  - by apply ontology_at_wp.
  - by apply publish_ontology_safe.
  - by apply retire_ontology_safe.
  - by eapply wp_true, author_ontology_wp.
  - by apply ontology_history_safe.
  - by apply put_binding_safe.
  - unfold list_bindings. wp_go. destruct rev; [apply wp_load_pinned|apply wp_load_head]; intros; by wp_go.
  - by apply ontology_slice_safe.
  - by apply diff_ontology_safe.
  - by apply merge_ontology_safe.
Qed.

Lemma reachable_world w : reachable request w -> world_ok registry_inv w.
Proof. apply reachable_ok; [apply _|]. intros t L. apply request_ok. Qed.

(** ** Single executions among other clients

    Between two calls, other clients perform calls that the Registry's programs
    may perform. *)
Definition client_step (w w' : World) : Prop :=
  exists (B : Type) (o : op B) res,
    op_wp registry_inv o (log w) (fun _ _ => True) /\ store_step o w res w'.
Definition others : relation World := rtc client_step.

Lemma others_ok w w' :
  world_ok registry_inv w -> others w w' -> world_ok registry_inv w' /\ log w ⊆ log w'.
Proof.
  intros Hw Ho. induction Ho as [w|w w1 w' (B & o & res & Hwp & Hs) _ IH]; [done|].
  destruct (store_step_sound registry_inv o w res w1 _ Hw Hwp Hs) as (Hw1 & HL & _).
  destruct (IH Hw1) as [? ?]. split; [done|]. by etrans.
Qed.

Definition stable {A} (Q : History -> A -> Prop) : Prop :=
  forall L L' a, L ⊆ L' -> Q L a -> Q L' a.

Lemma runs_wp {A} (p : prog A) w res w' Q :
  stable Q -> world_ok registry_inv w -> wp registry_inv p (log w) Q -> runs others p w res w' ->
  world_ok registry_inv w' /\ log w ⊆ log w' /\ (forall a, res = Ok a -> Q (log w') a).
Proof.
  intros HQ Hw Hp Hr. induction Hr as [r w|B o k w e w' Hs|B o k w b w1 w2 r w' Hs He _ IH].
  - split; [done|]. split; [done|]. by intros a ->.
  - destruct (store_step_sound registry_inv o w _ w' _ Hw Hp Hs) as (? & ? & _). done.
  - destruct (store_step_sound registry_inv o w _ w1 _ Hw Hp Hs) as (Hw1 & HL1 & Hb).
    destruct (others_ok _ _ Hw1 He) as [Hw2 HL2].
    destruct IH as (Hw' & HL' & Hres); [done| |split; [done|split; [by do 2 etrans|done]]].
    eapply (wp_mono _ _ (log w1)); [done|by intros ? ? _ _ ?|exact HQ|apply Hw2|by apply Hb].
Qed.

Lemma runs_reached {A} (p : prog A) w a w' Q :
  stable Q -> reachable request w -> (forall L, hist_ok L -> wp registry_inv p L Q) ->
  runs others p w (Ok a) w' -> world_ok registry_inv w' /\ log w ⊆ log w' /\ Q (log w') a.
Proof.
  intros HQ Hw%reachable_world Hp Hr.
  destruct (runs_wp p w _ w' Q HQ Hw (Hp _ (wo_history _ _ Hw)) Hr) as (? & ? & ?). auto.
Qed.

Lemma committed_mono L L' t rev parent before after :
  L ⊆ L' -> committed L t rev parent before after -> committed L' t rev parent before after.
Proof.
  intros HL (pe & en & ? & ? & ? & ? & ?). exists pe, en. split_and!; try done; by eapply lookup_weaken.
Qed.

Lemma eval_stable {A} (p : prog A) : stable (fun L a => eval L p = Ok a).
Proof. intros L L' a. apply eval_mono. Qed.
Lemma put_pipeline_stable input : stable (put_pipeline_post input).
Proof.
  intros L L' a HL [(parent & before & Hc & Hr) ? ?]. split; [|done..].
  exists parent, before. split; [by eapply committed_mono|done].
Qed.
Lemma put_ontology_stable input : stable (put_ontology_post input).
Proof.
  intros L L' a HL [(parent & before & Hc & Hr) ? ?]. split; [|done..].
  exists parent, before. split; [by eapply committed_mono|done].
Qed.
Lemma author_pipeline_stable input : stable (author_pipeline_post input).
Proof.
  intros L L' a HL (parent & before & after & Hc & Hr). exists parent, before, after.
  split; [by eapply committed_mono|done].
Qed.
Lemma author_ontology_stable input command : stable (author_ontology_post input command).
Proof.
  intros L L' a HL (parent & before & old & now & touched & affected & new & He & Hc & Hr).
  exists parent, before, old, now, touched, affected, new. split; [done|].
  split; [by eapply committed_mono|done].
Qed.

(** ** Executions on the reference store *)
Lemma runs_system {A} (p : prog A) w res w' ts :
  runs eq p w res w' -> exists ts', rtc (sys_step request) (Task p :: ts, w) (ts', w').
Proof.
  intros Hr. induction Hr as [r w|B o k w e w' Hs|B o k w b w1 w2 r w' Hs <- _ [ts' IH]].
  - by eexists.
  - eexists. apply rtc_once. by apply (sys_error request [] ts).
  - exists ts'. eapply rtc_l; [by apply (sys_call request [] ts)|exact IH].
Qed.

Lemma exec_reachable {A} (p : prog A) (s : MemoryStore) :
  request (Task p) -> reachable request (ms_world s) -> reachable request (ms_world (exec p s).2).
Proof.
  intros Hp [ts Hts]. destruct (runs_system p _ _ _ ts (exec_runs p s)) as [ts' Hr].
  exists ts'. etrans; [exact Hts|]. eapply rtc_l; [by apply sys_spawn|exact Hr].
Qed.

Lemma reachable_empty : reachable request (ms_world empty_store).
Proof. exists []. constructor. Qed.

Lemma runs_env {A} (env env' : relation World) (p : prog A) w res w' :
  (forall a b, env a b -> env' a b) -> runs env p w res w' -> runs env' p w res w'.
Proof. intros He Hr. induction Hr; [constructor|by apply runs_error|eapply runs_call; eauto]. Qed.

Lemma exec_others {A} (p : prog A) (s : MemoryStore) a :
  (exec p s).1 = Ok a -> runs others p (ms_world s) (Ok a) (ms_world (exec p s).2).
Proof.
  intros Ha. eapply (runs_env eq); [intros x y ->; constructor|].
  pose proof (exec_runs p s) as Hr. rewrite Ha in Hr. exact Hr.
Qed.

(** ** The invariant *)

(** C1: every revision of every tenant that any interleaving of requests can
    store is well-formed: record identities match their keys, workspaces stay
    within their branch and proposal limits with every parent branch and proposal
    source present, ontology models and branch models validate, publications
    describe the ontology of the revision they pin, deleted records are not
    published, and bindings point from a present pipeline to a live ontology. *)
Theorem registry_state_invariant w t r en :
  reachable request w -> log w !! (t, r) = Some en -> state_ok (log w) t (en_state en).
Proof. intros Hw Hl. eapply history_state; [apply reachable_world, Hw|exact Hl]. Qed.

(** C11: the revisions of a tenant form linear histories: a revision is never its
    own ancestor, two revisions never have the same parent (no update is lost or
    forked), the head has no successor, and every revision is the empty initial
    state or exactly one edit of its parent. *)
Theorem registry_history_linear w t :
  reachable request w ->
  well_founded (parent_of (log w) t) /\
  (forall p r r', parent_of (log w) t p r -> parent_of (log w) t p r' -> r = r') /\
  (forall repo r, repos w !! t = Some repo -> ~ parent_of (log w) t (repo_head repo) r) /\
  (forall r en, log w !! (t, r) = Some en ->
    match en_parent en with
    | None => en_state en = ∅
    | Some p => exists parent, log w !! (t, p) = Some parent /\ edit p (en_state parent) (en_state en)
    end).
Proof.
  intros Hw%reachable_world. split; [apply Hw|]. split; [apply Hw|]. split.
  - intros repo r Hr. apply (wo_repos _ _ Hw _ _ Hr).
  - intros r en Hl. destruct (wo_history _ _ Hw _ _ _ Hl) as (_ & (_ & Hi & Hp) & _).
    destruct (en_parent en); auto.
Qed.

(** C7: production gate: a revision selected for production holds unmanaged
    content, or content that passed the executability checks and was approved
    with the hash of exactly this definition; nobody can deploy a draft. *)
Theorem production_is_admitted w t r en id pipeline rev :
  reachable request w -> log w !! (t, r) = Some en -> pipelines (en_state en) !! id = Some pipeline ->
  pl_published_revision_id pipeline = Some rev ->
  exists content, pipeline_at (log w) t id rev content /\
    (a_enabled (pl_authoring content) = false \/
     exists review, a_approval (pl_authoring content) = Some review /\
       validate_executable (pl_definition content) = Ok tt /\
       definition_hash (pl_definition content) = Ok (cr_definition_hash review)).
Proof.
  intros Hw%reachable_world Hl Hp Hrev. pose proof (wo_history _ _ Hw) as Hok.
  destruct (po_admitted _ _ _ _ (so_pipelines _ _ _ (history_state _ _ _ _ Hok Hl) _ _ Hp) _ Hrev)
    as (content & Hat & Had). exists content. split; [done|]. destruct Had as [?|[review Hr]]; [by left|].
  right. exists review. split; [done|]. destruct Hat as (en' & Hl' & Hc).
  by apply (po_approved _ _ _ _ (so_pipelines _ _ _ (history_state _ _ _ _ Hok Hl') _ _ Hc)).
Qed.

(** C12: a production pipeline has one runtime definition for ever: the compiled
    record of its published revision exists, and every later successful read of
    that revision, among any other requests, returns exactly this record. *)
Theorem published_pipeline_stable w t r en id pipeline rev :
  reachable request w -> log w !! (t, r) = Some en -> pipelines (en_state en) !! id = Some pipeline ->
  pl_published_revision_id pipeline = Some rev ->
  exists record, eval (log w) (runtime_pipeline t id rev) = Ok record /\
    forall w1 w2 result, others w w1 -> runs others (runtime_pipeline t id rev) w1 (Ok result) w2 ->
      result = record.
Proof.
  intros Hw%reachable_world Hl Hp Hrev. pose proof (wo_history _ _ Hw) as Hok.
  destruct (po_runnable _ _ _ _ (so_pipelines _ _ _ (history_state _ _ _ _ Hok Hl) _ _ Hp) _ Hrev)
    as [record Hrec]. exists record. split; [done|]. intros w1 w2 result Ho Hr.
  destruct (others_ok _ _ Hw Ho) as [Hw1 HL1].
  destruct (runs_wp _ _ _ _ _ (eval_stable _) Hw1 (runtime_pipeline_wp t id rev _ (wo_history _ _ Hw1)) Hr)
    as (_ & HL2 & He). specialize (He _ eq_refl).
  apply (eval_mono _ (log w2)) in Hrec; [congruence|by etrans].
Qed.

(** ** Optimistic concurrency *)

(** A successful [put_pipeline] is one atomic edit of the head it read: the
    new revision has that head as its parent (the expected revision, when one is
    given), differs from it only in this pipeline, holds the submitted definition
    without review state, keeps the production pointer and links the record to
    the previous revision; creation and replacement are told apart. *)
Theorem put_pipeline_commits input w v w' :
  reachable request w -> runs others (put_pipeline input) w (Ok v) w' ->
  put_pipeline_post input (log w') v.
Proof. intros Hw Hr. by eapply runs_reached; [apply put_pipeline_stable|..|exact Hr]; [|apply put_pipeline_wp]. Qed.

(** A successful [put_ontology] stores the submitted, valid document as one
    atomic edit of the head it read, keeps branches and publication, and links
    the record to the previous revision. *)
Theorem put_ontology_commits input w v w' :
  reachable request w -> runs others (put_ontology input) w (Ok v) w' ->
  put_ontology_post input (log w') v.
Proof. intros Hw Hr. by eapply runs_reached; [apply put_ontology_stable|..|exact Hr]; [|apply put_ontology_wp]. Qed.

(** C28: a successful workspace command on a pipeline is one atomic edit of the
    expected head: it changes this pipeline and its bindings only, works on a
    live record (or creates one) and leaves it managed. *)
Theorem author_pipeline_commits input command w v w' :
  reachable request w -> runs others (author_pipeline input command) w (Ok v) w' ->
  author_pipeline_post input (log w') v.
Proof.
  intros Hw Hr. by eapply runs_reached; [apply author_pipeline_stable|..|exact Hr]; [|apply author_pipeline_wp].
Qed.

(** A successful workspace command on an ontology commits, on top of the
    expected head, exactly the record the command computes from the record of
    that head, stamped with the parent revision and the operation. *)
Theorem author_ontology_commits input command w v w' :
  reachable request w -> runs others (author_ontology input command) w (Ok v) w' ->
  author_ontology_post input command (log w') v.
Proof.
  intros Hw Hr. by eapply runs_reached; [apply author_ontology_stable|..|exact Hr]; [|apply author_ontology_wp].
Qed.

End registry.

(** ** Witnesses: a governed release on the reference store

    An ontology is stored and published; a managed pipeline is drafted, bound to
    it, approved, published and deployed. *)
#[local] Existing Instance demo_externals.

Definition demo_ontology_input (create : bool) (expected : option string) (o : value) : PutOntology :=
  {| po_tenant_id := "acme"; po_ontology_id := "fleet"; po_display_name := "Fleet";
     po_ontology := o; po_author := "ann"; po_message := "edit";
     po_expected_revision_id := expected; po_create_only := create |}.
Definition demo_pipeline_input (create : bool) (expected : option string) (d : value) : PutPipeline :=
  {| pp_tenant_id := "acme"; pp_pipeline_id := "mail"; pp_name := "main"; pp_owner_id := "ann";
     pp_definition := d; pp_author := "ann"; pp_message := "edit";
     pp_expected_revision_id := expected; pp_create_only := create |}.
Definition demo_command (n : nat) (command : AuthoringCommand) : prog PipelineView :=
  author_pipeline (demo_pipeline_input false (Some (revision_name n)) demo_main) command.

Definition after {A} (p : prog A) (s : MemoryStore) : MemoryStore := (exec p s).2.
Definition demo_saved : MemoryStore :=
  after (put_ontology (demo_ontology_input true None demo_base)) empty_store.
Definition demo_published : MemoryStore :=
  after (publish_ontology "acme" "fleet" "Fleet" "pub-1" (revision_name 1) JNull true) demo_saved.
Definition demo_drafted : MemoryStore :=
  after (author_pipeline (demo_pipeline_input true None demo_main) (SaveDraft "main")) demo_published.
Definition demo_bound : MemoryStore := after (demo_command 3 (BindOntology "store" "fleet")) demo_drafted.
Definition demo_approved : MemoryStore := after (demo_command 4 Approve) demo_bound.
Definition demo_released : MemoryStore := after (demo_command 5 Publish) demo_approved.
Definition demo_deployed : MemoryStore := after (demo_command 6 Deploy) demo_released.

Lemma after_reachable {A} (p : prog A) (s : MemoryStore) :
  request (Task p) -> reachable request (ms_world s) -> reachable request (ms_world (after p s)).
Proof. exact (exec_reachable p s). Qed.

Lemma demo_saved_reachable : reachable request (ms_world demo_saved).
Proof. exact (after_reachable _ _ (req_put_ontology _) reachable_empty). Qed.
Lemma demo_published_reachable : reachable request (ms_world demo_published).
Proof. exact (after_reachable _ _ (req_publish_ontology _ _ _ _ _ _ _) demo_saved_reachable). Qed.
Lemma demo_drafted_reachable : reachable request (ms_world demo_drafted).
Proof. exact (after_reachable _ _ (req_author_pipeline _ _) demo_published_reachable). Qed.
Lemma demo_bound_reachable : reachable request (ms_world demo_bound).
Proof. exact (after_reachable _ _ (req_author_pipeline _ _) demo_drafted_reachable). Qed.
Lemma demo_approved_reachable : reachable request (ms_world demo_approved).
Proof. exact (after_reachable _ _ (req_author_pipeline _ _) demo_bound_reachable). Qed.
Lemma demo_released_reachable : reachable request (ms_world demo_released).
Proof. exact (after_reachable _ _ (req_author_pipeline _ _) demo_approved_reachable). Qed.
Lemma demo_deployed_reachable : reachable request (ms_world demo_deployed).
Proof. exact (after_reachable _ _ (req_author_pipeline _ _) demo_released_reachable). Qed.

Lemma demo_production :
  exists en r, log (ms_world demo_deployed) !! ("acme", revision_name 7) = Some en /\
    pipelines (en_state en) !! "mail" = Some r /\
    pl_published_revision_id r = Some (revision_name 5).
Proof.
  assert (Hc : (log (ms_world demo_deployed) !! ("acme", revision_name 7) ≫= fun en =>
    pipelines (en_state en) !! "mail" ≫= pl_published_revision_id) = Some (revision_name 5))
    by (vm_compute; reflexivity).
  apply bind_Some in Hc as (en & Hen & (r & Hr & Hp)%bind_Some).
  exists en, r. split; [exact Hen|]. split; [exact Hr|exact Hp].
Qed.

(** A successful execution on the reference store. *)
Lemma exec_Ok {A} (p : prog A) (s : MemoryStore) :
  is_Ok (exec p s).1 = true ->
  exists a, runs others p (ms_world s) (Ok a) (ms_world (after p s)) /\ (exec p s).1 = Ok a.
Proof.
  unfold after. destruct (exec p s).1 as [a|e] eqn:E; [|done]. intros _. exists a. split; [|done].
  by apply exec_others.
Qed.

Lemma registry_state_invariant_witness :
  exists en, log (ms_world demo_deployed) !! ("acme", revision_name 7) = Some en /\
    state_ok (log (ms_world demo_deployed)) "acme" (en_state en).
Proof.
  destruct demo_production as (en & r & Hen & _). exists en. split; [exact Hen|].
  exact (registry_state_invariant _ _ _ _ demo_deployed_reachable Hen).
Defined.

Lemma registry_history_linear_witness :
  reachable request (ms_world demo_deployed) /\
  well_founded (parent_of (log (ms_world demo_deployed)) "acme").
Proof.
  split; [exact demo_deployed_reachable|].
  apply (registry_history_linear _ "acme" demo_deployed_reachable).
Defined.

Lemma production_is_admitted_witness :
  exists content, pipeline_at (log (ms_world demo_deployed)) "acme" "mail" (revision_name 5) content /\
    a_enabled (pl_authoring content) = true.
Proof.
  destruct demo_production as (en & r & Hen & Hr & Hp).
  destruct (production_is_admitted _ _ _ _ _ _ _ demo_deployed_reachable Hen Hr Hp)
    as (content & Hat & _).
  exists content. split; [exact Hat|]. destruct Hat as (en' & Hen' & Hc).
  assert (Hb : (log (ms_world demo_deployed) !! ("acme", revision_name 5) ≫= fun en =>
    pipelines (en_state en) !! "mail" ≫= fun r => Some (a_enabled (pl_authoring r))) = Some true)
    by (vm_compute; reflexivity).
  rewrite Hen' in Hb. cbn in Hb. rewrite Hc in Hb. cbn in Hb. injection Hb as Hb. exact Hb.
Defined.

Lemma published_pipeline_stable_witness :
  exists record, eval (log (ms_world demo_deployed)) (runtime_pipeline "acme" "mail" (revision_name 5)) =
    Ok record.
Proof.
  destruct demo_production as (en & r & Hen & Hr & Hp).
  destruct (published_pipeline_stable _ _ _ _ _ _ _ demo_deployed_reachable Hen Hr Hp) as (record & Hrec & _).
  exists record. exact Hrec.
Defined.

Lemma put_pipeline_commits_witness :
  exists v, put_pipeline_post (demo_pipeline_input true None demo_main)
    (log (ms_world (after (put_pipeline (demo_pipeline_input true None demo_main)) demo_saved))) v.
Proof.
  destruct (exec_Ok (put_pipeline (demo_pipeline_input true None demo_main)) demo_saved)
    as (v & Hr & _); [vm_compute; reflexivity|].
  exists v. exact (put_pipeline_commits _ _ _ _ demo_saved_reachable Hr).
Defined.

Lemma put_ontology_commits_witness :
  exists v, put_ontology_post (demo_ontology_input false (Some (revision_name 1)) demo_left)
    (log (ms_world (after (put_ontology (demo_ontology_input false (Some (revision_name 1)) demo_left))
      demo_saved))) v.
Proof.
  destruct (exec_Ok (put_ontology (demo_ontology_input false (Some (revision_name 1)) demo_left)) demo_saved)
    as (v & Hr & _); [vm_compute; reflexivity|].
  exists v. exact (put_ontology_commits _ _ _ _ demo_saved_reachable Hr).
Defined.

Lemma author_pipeline_commits_witness :
  exists v, author_pipeline_post (demo_pipeline_input false (Some (revision_name 3)) demo_main)
    (log (ms_world demo_bound)) v.
Proof.
  destruct (exec_Ok (demo_command 3 (BindOntology "store" "fleet")) demo_drafted)
    as (v & Hr & _); [vm_compute; reflexivity|].
  exists v. exact (author_pipeline_commits _ _ _ _ _ demo_drafted_reachable Hr).
Defined.

Definition demo_fork : prog OntologyView :=
  author_ontology (demo_ontology_input false (Some (revision_name 1)) demo_base)
    (OCreateBranch "trial" "main").
Lemma author_ontology_commits_witness :
  exists v, author_ontology_post (demo_ontology_input false (Some (revision_name 1)) demo_base)
    (OCreateBranch "trial" "main") (log (ms_world (after demo_fork demo_saved))) v.
Proof.
  destruct (exec_Ok demo_fork demo_saved) as (v & Hr & _); [vm_compute; reflexivity|].
  exists v. exact (author_ontology_commits _ _ _ _ _ demo_saved_reachable Hr).
Defined.
