(* ===== verification/HistoryFacts.v ===== *)
(** * HistoryFacts: the history of one ontology (ontology_authoring.rs)

    [ontology_history] follows [previous_revision_id] from revision to revision.
    On every reachable store these links lead to strict ancestors that hold the
    ontology, so that the walk never meets a cycle or a missing revision. *)

From S2P Require Import Prelude Text Json MergeFacts Authoring AuthoringFacts State Store StoreLogic Domain.
From S2P Require Import OntologyAuthoring RegistryInv DomainSafe AuthoringSafe RegistryFacts.

(** ** Execution of compound programs *)
Lemma exec_bind {A B} (p : prog A) (f : A -> prog B) (s : MemoryStore) :
  exec (p ≫= f) s =
  match exec p s with (Ok a, s') => exec (f a) s' | (Err e, s') => (Err e, s') end.
Proof.
  revert s. induction p as [[a|e]|C o k IH]; intros s; simpl; [done..|].
  destruct (memory_call o s) as [[b|e] s1]; [apply IH|done].
Qed.

Lemma exec_load_head t (s : MemoryStore) repo en :
  repos (ms_world s) !! t = Some repo -> log (ms_world s) !! (t, repo_head repo) = Some en ->
  exec (load t None) s = (Ok {| sn_revision_id := repo_head repo; sn_state := en_state en |}, s).
Proof. intros Ht Hen. simpl. rewrite Ht, Hen. done. Qed.

Lemma exec_load_live t rev (s : MemoryStore) repo en :
  repos (ms_world s) !! t = Some repo -> rev ∈ repo_live repo ->
  log (ms_world s) !! (t, rev) = Some en ->
  exec (load t (Some rev)) s = (Ok {| sn_revision_id := rev; sn_state := en_state en |}, s).
Proof.
  intros Ht Hl Hen. simpl. unfold pinned_state. rewrite Ht.
  rewrite bool_decide_eq_true_2, Hen by done. done.
Qed.

(** ** Transitive closures *)
Lemma tc_last {A} (R : relation A) x y : tc R x y -> exists z, rtc R x z /\ R z y.
Proof.
  induction 1 as [x y Hxy|x x' y Hx _ (z & Hz & Hzy)]; [by exists x|].
  exists z. split; [by eapply rtc_l|done].
Qed.

Lemma tc_well_founded {A} (R : relation A) : well_founded R -> well_founded (tc R).
Proof.
  intros Hwf x. induction (Hwf x) as [x _ IH]. constructor.
  intros y (z & Hyz & Hzx)%tc_last. apply rtc_tc in Hyz as [->|Hyz]; [by apply IH|].
  by apply (Acc_inv (IH z Hzx)).
Qed.

(** The items of a page: one per revision, following the links. *)
Inductive history_chain (L : History) (t id : string)
    : option string -> list OntologyHistoryItem -> option string -> Prop :=
  | chain_stop next : history_chain L t id next [] next
  | chain_item rev record items next :
      ontology_stored L t id rev record ->
      history_chain L t id (oa_previous_revision_id (or_authoring record)) items next ->
      history_chain L t id (Some rev) (history_item rev record :: items) next.

Section history.
Context `{Externals}.

Lemma edit_ontologies parent s s' id record :
  edit parent s s' -> ontologies s' !! id = Some record ->
  ontologies s !! id = Some record \/
  oa_previous_revision_id (or_authoring record) = (fun _ => parent) <$> ontologies s !! id.
Proof.
  intros He Hr. destruct He as [id' r b Hl _ _|id' r now Hr'|id' r Hl _|b]; simpl in Hr; auto.
  apply lookup_insert_Some in Hr as [[<- <-]|[_ Hr]]; auto.
Qed.

(** A link leads to a strict ancestor that holds the ontology. *)
Lemma previous_ancestor w t id r record q :
  world_ok registry_inv w -> ontology_stored (log w) t id r record ->
  oa_previous_revision_id (or_authoring record) = Some q ->
  tc (parent_of (log w) t) q r /\ exists older, ontology_stored (log w) t id q older.
Proof.
  intros Hw. revert record q. induction (wo_wf _ _ Hw t r) as [r _ IH].
  intros record q (en & Hen & Hrec) Hq.
  destruct (wo_history _ _ Hw _ _ _ Hen) as (_ & (_ & Hnone & Hsome) & _).
  destruct (en_parent en) as [p|] eqn:Hp.
  2: { rewrite Hnone in Hrec by done. simpl in Hrec. by rewrite lookup_empty in Hrec. }
  destruct (Hsome p eq_refl) as (pe & Hpe & Hedit).
  assert (parent_of (log w) t p r) as Hpar by (exists en; done).
  destruct (edit_ontologies _ _ _ _ _ Hedit Hrec) as [Hold|Hlink].
  - destruct (IH p Hpar record q) as [Htc Hst]; [by exists pe|done|].
    split; [|done]. eapply tc_r; [exact Htc|exact Hpar].
  - rewrite Hq in Hlink. destruct (ontologies (en_state pe) !! id) as [older|] eqn:E; [|done].
    injection Hlink as ->. split; [by apply tc_once|]. exists older, pe. done.
Qed.

Lemma ancestor_live w t repo q r :
  world_ok registry_inv w -> repos w !! t = Some repo -> r ∈ repo_live repo ->
  tc (parent_of (log w) t) q r -> q ∈ repo_live repo.
Proof.
  intros Hw Ht Hr Htc. induction Htc as [q r Hp|q p r Hp _ IH].
  - by apply (wo_live _ _ Hw _ _ _ Ht Hr).
  - by apply (wo_live _ _ Hw _ _ _ Ht (IH Hr)).
Qed.

Lemma ancestor_irrefl w t r : world_ok registry_inv w -> ~ tc (parent_of (log w) t) r r.
Proof.
  intros Hw Hr. pose proof (tc_well_founded _ (wo_wf _ _ Hw t)) as Htc.
  induction (Htc r) as [r _ IH]. exact (IH r Hr Hr).
Qed.

Lemma walk_history_step limit (s : MemoryStore) t id repo rev en record visited items :
  repos (ms_world s) !! t = Some repo -> rev ∈ repo_live repo ->
  log (ms_world s) !! (t, rev) = Some en -> ontologies (en_state en) !! id = Some record ->
  rev ∉ visited ->
  exec (walk_history (S limit) t id (Some rev) visited items) s =
  match oa_previous_revision_id (or_authoring record) with
  | None =>
      (Ok {| hp_items := items ++ [history_item rev record]; hp_next_revision_id := None |}, s)
  | Some q =>
      exec (walk_history limit t id (Some q) ({[rev]} ∪ visited) (items ++ [history_item rev record])) s
  end.
Proof.
  intros Ht Hlive Hen Hrec Hv. cbn [walk_history].
  rewrite exec_bind, (exec_load_live _ _ _ _ _ Ht Hlive Hen). cbn [sn_revision_id sn_state].
  rewrite exec_bind. unfold check, lift. rewrite bool_decide_eq_true_2 by done. cbn [exec ensure].
  rewrite exec_bind. unfold require, lift. rewrite Hrec. cbn [exec with_context].
  by destruct (oa_previous_revision_id (or_authoring record)).
Qed.

(** The walk from a live revision that holds the ontology; every visited
    revision is a strict descendant. *)
Lemma walk_history_exec limit (s : MemoryStore) t id repo rev record visited items :
  world_ok registry_inv (ms_world s) -> repos (ms_world s) !! t = Some repo ->
  rev ∈ repo_live repo -> ontology_stored (log (ms_world s)) t id rev record ->
  (forall x, x ∈ visited -> tc (parent_of (log (ms_world s)) t) rev x) ->
  exists new next,
    exec (walk_history limit t id (Some rev) visited items) s =
      (Ok {| hp_items := items ++ new; hp_next_revision_id := next |}, s) /\
    history_chain (log (ms_world s)) t id (Some rev) new next /\
    length new <= limit /\ (next = None \/ length new = limit) /\
    NoDup (hi_revision_id <$> new) /\
    (forall x, x ∈ hi_revision_id <$> new -> x = rev \/ tc (parent_of (log (ms_world s)) t) x rev).
Proof.
  intros Hw Ht. revert rev record visited items.
  induction limit as [|limit IH]; intros rev record visited items Hlive Hst Hvis.
  { exists [], (Some rev). rewrite app_nil_r. split_and!; simpl; [done|constructor|lia|by right|constructor|].
    intros x Hx. by apply elem_of_nil in Hx. }
  pose proof Hst as (en & Hen & Hrec). rewrite (walk_history_step _ _ _ _ _ _ _ _ _ _ Ht Hlive Hen Hrec).
  2: { intros Hin. exact (ancestor_irrefl _ _ rev Hw (Hvis _ Hin)). }
  destruct (oa_previous_revision_id (or_authoring record)) as [q|] eqn:Hq.
  - destruct (previous_ancestor _ _ _ _ _ _ Hw Hst Hq) as [Htc [older Holder]].
    destruct (IH q older ({[rev]} ∪ visited) (items ++ [history_item rev record]))
      as (new & next & He & Hc & Hlen & Hend & Hnd & Hanc); [by eapply ancestor_live|done| |].
    { intros x [->%elem_of_singleton|Hx]%elem_of_union; [done|]. etrans; [exact Htc|by apply Hvis]. }
    exists (history_item rev record :: new), next. split.
    { etrans; [exact He|]. by rewrite <-app_assoc. }
    split_and!; simpl.
    + econstructor; [done|]. by rewrite Hq.
    + lia.
    + destruct Hend as [?|?]; [by left|right; lia].
    + constructor; [|done]. intros [->|Hx]%Hanc; [exact (ancestor_irrefl _ _ _ Hw Htc)|].
      apply (ancestor_irrefl (ms_world s) t rev Hw). by etrans.
    + intros x [->|[->|Hx]%Hanc]%elem_of_cons; [by left|by right|right; by etrans].
  - exists [history_item rev record], None. split_and!; simpl.
    + done.
    + econstructor; [done|]. rewrite Hq. constructor.
    + lia.
    + by left.
    + apply NoDup_singleton.
    + intros x Hx%list_elem_of_singleton. by left.
Qed.

End history.

#[local] Existing Instance demo_externals.
Definition demo_edited : MemoryStore := after demo_fork demo_saved.
Lemma demo_edited_reachable : reachable request (ms_world demo_edited).
Proof. exact (after_reachable _ _ (req_author_ontology _ _) demo_saved_reachable). Qed.

