(* ===== verification/DomainFacts.v ===== *)
(** * DomainFacts: further properties of domain.rs

    Termination of the loop that loads pipeline dependencies, and what the
    canonical form behind content hashes is. *)

From S2P Require Import Prelude Text Json Ontology Pipeline Authoring AuthoringFacts Composition.
From S2P Require Import State Store Domain.

(** ** Programs that behave alike

    Equal results after equal answers to equal calls. *)
Inductive same_behaviour {A} : prog A -> prog A -> Prop :=
  | same_done r : same_behaviour (Done r) (Done r)
  | same_call {B} (o : op B) k k' :
      (forall b, same_behaviour (k b) (k' b)) -> same_behaviour (Do o k) (Do o k').

Lemma same_refl {A} (p : prog A) : same_behaviour p p.
Proof. induction p; by constructor. Qed.

Lemma same_bind {A B} (p : prog A) (f g : A -> prog B) :
  (forall a, same_behaviour (f a) (g a)) -> same_behaviour (p ≫= f) (p ≫= g).
Proof. intros Hfg. induction p as [[a|e]|C o k IH]; simpl; [apply Hfg|constructor|by constructor]. Qed.

Lemma same_lift {A B} (r : result A) (f g : A -> prog B) :
  (forall a, r = Ok a -> same_behaviour (f a) (g a)) -> same_behaviour (lift r ≫= f) (lift r ≫= g).
Proof. destruct r as [a|e]; simpl; [auto|constructor]. Qed.

(** ** Loading the dependencies of a composition *)
Lemma collect_references_limit steps nodes acc refs :
  collect_references steps nodes acc = Ok refs -> length acc <= MAX_TRANSFERS ->
  length refs <= MAX_TRANSFERS.
Proof.
  revert acc. induction nodes as [|node nodes IH]; intros acc; cbn [collect_references].
  - by intros [= <-].
  - intros Hr Ha. apply bind_Ok_inv in Hr as (id & _ & Hr). apply bind_Ok_inv in Hr as (u & _ & Hr).
    destruct (is_transfer node).
    + apply bind_Ok_inv in Hr as (ref & _ & Hr). apply bind_Ok_inv in Hr as (u' & Hl & Hr).
      apply ensure_Ok_inv, Nat.leb_le in Hl. by eapply IH.
    + apply bind_Ok_inv in Hr as (u' & _ & Hr). by eapply IH.
Qed.

Lemma references_limit d refs : references d = Ok refs -> length refs <= MAX_TRANSFERS.
Proof.
  unfold references. intros Hr. do 3 apply bind_Ok_inv in Hr as (? & _ & Hr).
  eapply collect_references_limit; [exact Hr|]. simpl. unfold MAX_TRANSFERS. lia.
Qed.

(** The work left: pending references, and those a new definition may add. *)
Definition work (pending : list PipelineReference) (definitions : definitions_map) : nat :=
  length pending + MAX_TRANSFERS * (MAX_TRANSFERS - size definitions).

Lemma load_definitions_fuel fuel fuel' t b pending definitions :
  work pending definitions < fuel -> work pending definitions < fuel' ->
  same_behaviour (load_definitions fuel t b pending definitions)
    (load_definitions fuel' t b pending definitions).
Proof.
  revert fuel' pending definitions.
  induction fuel as [|fuel IH]; intros [|fuel'] pending definitions Hw Hw'; try lia.
  cbn [load_definitions]. destruct pending as [|ref pending]; [constructor|].
  destruct (definitions !! _) as [d|] eqn:Hd.
  { apply IH; unfold work in *; simpl in *; lia. }
  unfold check. apply same_lift. intros _ Hs%ensure_Ok_inv%Nat.ltb_lt.
  apply same_bind. intros sn. apply same_bind. intros _. apply same_bind. intros child.
  apply same_lift. intros more Hmore%references_limit.
  assert (work (rev more ++ pending) (<[(ref_pipeline_id ref, ref_revision_id ref) := pl_definition child]>
    definitions) < work (ref :: pending) definitions) as Hless.
  { unfold work. unfold definitions_map in *.
    pose proof (map_size_insert_None _ (pl_definition child) _ Hd) as Hsize.
    rewrite Hsize. rewrite length_app, length_rev. simpl.
    unfold MAX_TRANSFERS in *. lia. }
  apply IH; lia.
Qed.


(** ** Canonical forms *)
Lemma foldl_jinsert m acc :
  NoDup (acc ++ m).*1 -> foldl (fun acc kv => jinsert kv.1 kv.2 acc) acc m = acc ++ m.
Proof.
  revert acc. induction m as [|[k v] m IH]; intros acc Hnd; simpl; [by rewrite app_nil_r|].
  rewrite fmap_app in Hnd. simpl in Hnd.
  assert (jget k acc = None) as Hk.
  { apply jget_None. apply NoDup_app in Hnd as (_ & Hd & _). intros Hin. apply (Hd k Hin). left. }
  rewrite jinsert_fresh by done. rewrite IH; [by rewrite <-app_assoc|].
  by rewrite <-app_assoc, fmap_app.
Qed.

Lemma canonicalize_id v : wf_value v = true -> canonicalize v = v.
Proof.
  induction v as [| | | |l IH|m IH] using value_ind'; try done.
  - intros Hw%wf_array. simpl. f_equal. induction IH as [|x l Hx _ IHl]; [done|].
    apply Forall_cons in Hw as [Hwx Hwl]. simpl. by rewrite Hx, IHl.
  - intros Hw. simpl. f_equal.
    assert (List.map (fun kv => (kv.1, canonicalize kv.2)) m = m) as Hm.
    { simpl in Hw. apply andb_prop in Hw as [_ Hw]. clear -IH Hw.
      induction IH as [|[k x] m Hx _ IHm]; [done|]. simpl in *. apply andb_prop in Hw as [Hwx Hwm].
      by rewrite Hx, IHm. }
    rewrite Hm, foldl_jinsert; [done|]. simpl in Hw. apply andb_prop in Hw as [Hw _].
    by apply bool_decide_eq_true in Hw.
Qed.

(** [canonicalize] is the identity on documents as they are parsed: it keeps
    the order in which the members of an object were written, so that equal
    documents can have different canonical forms and different content hashes. *)
Theorem canonicalize_keeps_order :
  (forall v, wf_value v = true -> canonicalize v = v) /\
  exists v w, v ≡ w /\ canonicalize v <> canonicalize w.
Proof.
  split; [exact canonicalize_id|].
  exists (JObject [("a", JNull); ("b", JNull)]), (JObject [("b", JNull); ("a", JNull)]).
  split; [|done]. apply value_eqb_veq; done.
Qed.

