(* ===== verification/StateJson.v ===== *)
(** * StateJson: reading stored artifacts back (state.rs, storage.rs)

    The derived [Deserialize] of every stored record, with its attributes
    ([deny_unknown_fields], [default]), next to the derived [Serialize] of
    State.v, and the artifacts a commit stores: the pipeline state, the ontology
    state and the tenant marker.  A parsed text is a [value] that may still
    repeat a key, as the text may. *)

From S2P Require Import Prelude Text Json Serde Authoring State Domain DomainFacts.
From Stdlib Require Import Ascii.

(** ** authoring.rs *)
Definition de_branch (v : value) : result Branch :=
  m ← struct_members (dflt "parent_branch" :: (plain <$> ["definition"; "base_definition";
    "base_revision_id"; "author_id"; "updated_at_ms"])) v;
  parent ← optional de_string "parent_branch" m;
  definition ← required de_json "definition" m;
  base_definition ← required de_json "base_definition" m;
  base_revision_id ← required de_string "base_revision_id" m;
  author_id ← required de_string "author_id" m;
  updated_at_ms ← required de_i64 "updated_at_ms" m;
  Ok {| br_parent_branch := parent; br_definition := definition;
        br_base_definition := base_definition; br_base_revision_id := base_revision_id;
        br_author_id := author_id; br_updated_at_ms := updated_at_ms |}.

Definition de_proposal (v : value) : result MergeProposal :=
  m ← struct_members (plain <$> ["source_branch"; "source_hash"; "target_hash"; "author_id";
    "created_at_ms"]) v;
  source_branch ← required de_string "source_branch" m;
  source_hash ← required de_string "source_hash" m;
  target_hash ← required de_string "target_hash" m;
  author_id ← required de_string "author_id" m;
  created_at_ms ← required de_i64 "created_at_ms" m;
  Ok {| mp_source_branch := source_branch; mp_source_hash := source_hash;
        mp_target_hash := target_hash; mp_author_id := author_id;
        mp_created_at_ms := created_at_ms |}.

Definition de_review (v : value) : result ContentReview :=
  m ← struct_members (plain <$> ["definition_hash"; "author_id"; "reviewed_at_ms"]) v;
  definition_hash ← required de_string "definition_hash" m;
  author_id ← required de_string "author_id" m;
  reviewed_at_ms ← required de_i64 "reviewed_at_ms" m;
  Ok {| cr_definition_hash := definition_hash; cr_author_id := author_id;
        cr_reviewed_at_ms := reviewed_at_ms |}.

Definition de_release (v : value) : result PipelineRelease :=
  m ← struct_members (plain <$> ["revision_id"; "definition_hash"; "author_id";
    "published_at_ms"]) v;
  revision_id ← required de_string "revision_id" m;
  definition_hash ← required de_string "definition_hash" m;
  author_id ← required de_string "author_id" m;
  published_at_ms ← required de_i64 "published_at_ms" m;
  Ok {| pr_revision_id := revision_id; pr_definition_hash := definition_hash;
        pr_author_id := author_id; pr_published_at_ms := published_at_ms |}.

(** The container has [serde(default)]: every field may be missing. *)
Definition de_authoring (v : value) : result AuthoringState :=
  m ← struct_members (dflt <$> ["enabled"; "branches"; "proposals"; "approval"; "release"]) v;
  enabled ← defaulted de_bool false "enabled" m;
  branches ← defaulted (de_map de_branch) ∅ "branches" m;
  proposals ← defaulted (de_map de_proposal) ∅ "proposals" m;
  approval ← optional de_review "approval" m;
  release ← optional de_release "release" m;
  Ok {| a_enabled := enabled; a_branches := branches; a_proposals := proposals;
        a_approval := approval; a_release := release |}.

(** ** ontology_authoring.rs *)
Definition de_ontology_branch (v : value) : result OntologyBranch :=
  m ← struct_members (plain <$> ["parent_branch"; "definition"; "display_name"; "base_definition";
    "base_display_name"; "base_revision_id"; "author"; "updated_at_ms"]) v;
  parent_branch ← required de_string "parent_branch" m;
  definition ← required de_json "definition" m;
  display_name ← required de_string "display_name" m;
  base_definition ← required de_json "base_definition" m;
  base_display_name ← required de_string "base_display_name" m;
  base_revision_id ← required de_string "base_revision_id" m;
  author ← required de_string "author" m;
  updated_at_ms ← required de_i64 "updated_at_ms" m;
  Ok {| ob_parent_branch := parent_branch; ob_definition := definition;
        ob_display_name := display_name; ob_base_definition := base_definition;
        ob_base_display_name := base_display_name; ob_base_revision_id := base_revision_id;
        ob_author := author; ob_updated_at_ms := updated_at_ms |}.

Definition de_ontology_authoring (v : value) : result OntologyAuthoringState :=
  m ← struct_members (dflt <$> ["branches"; "previous_revision_id"; "last_branch";
    "last_operation"; "last_author"; "updated_at_ms"; "deleted_at_ms"]) v;
  branches ← defaulted (de_map de_ontology_branch) ∅ "branches" m;
  previous_revision_id ← optional de_string "previous_revision_id" m;
  last_branch ← defaulted de_string EmptyString "last_branch" m;
  last_operation ← defaulted de_string EmptyString "last_operation" m;
  last_author ← defaulted de_string EmptyString "last_author" m;
  updated_at_ms ← defaulted de_i64 0%Z "updated_at_ms" m;
  deleted_at_ms ← optional de_i64 "deleted_at_ms" m;
  Ok {| oa_branches := branches; oa_previous_revision_id := previous_revision_id;
        oa_last_branch := last_branch; oa_last_operation := last_operation;
        oa_last_author := last_author; oa_updated_at_ms := updated_at_ms;
        oa_deleted_at_ms := deleted_at_ms |}.

(** ** state.rs *)
Definition de_pipeline (v : value) : result PipelineRecord :=
  m ← struct_members ((dflt <$> ["authoring"; "previous_revision_id"]) ++
    (plain <$> ["pipeline_id"; "name"; "owner_id"; "published_revision_id"; "definition";
      "author_id"; "message"; "created_at_ms"; "updated_at_ms"; "deleted_at_ms"])) v;
  authoring ← defaulted de_authoring default_authoring "authoring" m;
  previous_revision_id ← optional de_string "previous_revision_id" m;
  pipeline_id ← required de_string "pipeline_id" m;
  name ← required de_string "name" m;
  owner_id ← required de_string "owner_id" m;
  published_revision_id ← optional de_string "published_revision_id" m;
  definition ← required de_json "definition" m;
  author_id ← required de_string "author_id" m;
  message ← required de_string "message" m;
  created_at_ms ← required de_i64 "created_at_ms" m;
  updated_at_ms ← required de_i64 "updated_at_ms" m;
  deleted_at_ms ← optional de_i64 "deleted_at_ms" m;
  Ok {| pl_authoring := authoring; pl_previous_revision_id := previous_revision_id;
        pl_pipeline_id := pipeline_id; pl_name := name; pl_owner_id := owner_id;
        pl_published_revision_id := published_revision_id; pl_definition := definition;
        pl_author_id := author_id; pl_message := message; pl_created_at_ms := created_at_ms;
        pl_updated_at_ms := updated_at_ms; pl_deleted_at_ms := deleted_at_ms |}.

Definition de_publication (v : value) : result OntologyPublicationRecord :=
  m ← struct_members (plain <$> ["publication_id"; "revision_id"; "lifecycle"; "metadata";
    "base_version"; "base_hash"; "effective_hash"; "author"; "message"; "published_at_ms";
    "retired_at_ms"]) v;
  publication_id ← required de_string "publication_id" m;
  revision_id ← required de_string "revision_id" m;
  lifecycle ← required de_string "lifecycle" m;
  metadata ← required de_json "metadata" m;
  base_version ← required de_string "base_version" m;
  base_hash ← required de_string "base_hash" m;
  effective_hash ← required de_string "effective_hash" m;
  author ← required de_string "author" m;
  message ← required de_string "message" m;
  published_at_ms ← required de_i64 "published_at_ms" m;
  retired_at_ms ← optional de_i64 "retired_at_ms" m;
  Ok {| pub_publication_id := publication_id; pub_revision_id := revision_id;
        pub_lifecycle := lifecycle; pub_metadata := metadata; pub_base_version := base_version;
        pub_base_hash := base_hash; pub_effective_hash := effective_hash; pub_author := author;
        pub_message := message; pub_published_at_ms := published_at_ms;
        pub_retired_at_ms := retired_at_ms |}.

Definition de_ontology (v : value) : result OntologyRecord :=
  m ← struct_members (dflt "authoring" :: (plain <$> ["ontology_id"; "display_name"; "ontology";
    "author"; "message"; "created_at_ms"; "production_publication"])) v;
  authoring ← defaulted de_ontology_authoring default_ontology_authoring "authoring" m;
  ontology_id ← required de_string "ontology_id" m;
  display_name ← required de_string "display_name" m;
  ontology ← required de_json "ontology" m;
  author ← required de_string "author" m;
  message ← required de_string "message" m;
  created_at_ms ← required de_i64 "created_at_ms" m;
  production_publication ← optional de_publication "production_publication" m;
  Ok {| or_authoring := authoring; or_ontology_id := ontology_id;
        or_display_name := display_name; or_ontology := ontology; or_author := author;
        or_message := message; or_created_at_ms := created_at_ms;
        or_production_publication := production_publication |}.

Definition json_binding (b : OntologyBindingRecord) : value :=
  JObject [("pipeline_id", JString (bd_pipeline_id b)); ("block_id", JString (bd_block_id b));
    ("ontology_id", JString (bd_ontology_id b)); ("resource_ids", json_strings (bd_resource_ids b));
    ("resource_kinds", json_strings (bd_resource_kinds b));
    ("include_dependencies", JBool (bd_include_dependencies b)); ("metadata", bd_metadata b);
    ("updated_at_ms", json_i64 (bd_updated_at_ms b))].
Definition de_binding (v : value) : result OntologyBindingRecord :=
  m ← struct_members (plain <$> ["pipeline_id"; "block_id"; "ontology_id"; "resource_ids";
    "resource_kinds"; "include_dependencies"; "metadata"; "updated_at_ms"]) v;
  pipeline_id ← required de_string "pipeline_id" m;
  block_id ← required de_string "block_id" m;
  ontology_id ← required de_string "ontology_id" m;
  resource_ids ← required (de_vec de_string) "resource_ids" m;
  resource_kinds ← required (de_vec de_string) "resource_kinds" m;
  include_dependencies ← required de_bool "include_dependencies" m;
  metadata ← required de_json "metadata" m;
  updated_at_ms ← required de_i64 "updated_at_ms" m;
  Ok {| bd_pipeline_id := pipeline_id; bd_block_id := block_id; bd_ontology_id := ontology_id;
        bd_resource_ids := resource_ids; bd_resource_kinds := resource_kinds;
        bd_include_dependencies := include_dependencies; bd_metadata := metadata;
        bd_updated_at_ms := updated_at_ms |}.

(** ** The artifacts of storage.rs *)
Record PipelineState : Type := {
  ps_pipelines : gmap string PipelineRecord;
  ps_bindings : gmap string OntologyBindingRecord;
}.
Record OntologyState : Type := {
  os_ontologies : gmap string OntologyRecord;
}.
Definition json_pipeline_state (s : TenantState) : value :=
  JObject [("pipelines", json_map json_pipeline (pipelines s));
           ("bindings", json_map json_binding (bindings s))].
Definition json_ontology_state (s : TenantState) : value :=
  JObject [("ontologies", json_map json_ontology (ontologies s))].
Definition de_pipeline_state (v : value) : result PipelineState :=
  m ← struct_members (dflt <$> ["pipelines"; "bindings"]) v;
  pipelines ← defaulted (de_map de_pipeline) ∅ "pipelines" m;
  bindings ← defaulted (de_map de_binding) ∅ "bindings" m;
  Ok {| ps_pipelines := pipelines; ps_bindings := bindings |}.
Definition de_ontology_state (v : value) : result OntologyState :=
  m ← struct_members (dflt <$> ["ontologies"]) v;
  ontologies ← defaulted (de_map de_ontology) ∅ "ontologies" m;
  Ok {| os_ontologies := ontologies |}.

Record TenantMarker : Type := {
  tm_version : Z;
  tm_tenant_id : string;
  tm_repository : string;
}.
Definition json_marker (m : TenantMarker) : value :=
  JObject [("version", json_i64 (tm_version m)); ("tenant_id", JString (tm_tenant_id m));
           ("repository", JString (tm_repository m))].
Definition de_marker (v : value) : result TenantMarker :=
  m ← struct_members (plain <$> ["version"; "tenant_id"; "repository"]) v;
  version ← required de_u8 "version" m;
  tenant_id ← required de_string "tenant_id" m;
  repository ← required de_string "repository" m;
  Ok {| tm_version := version; tm_tenant_id := tenant_id; tm_repository := repository |}.

(** ** Representable records

    Rust's types guarantee what the types of the model leave open: integers are
    in the range of [i64] and objects do not repeat a key. *)
Definition i64_ok (z : Z) : Prop := (I64_MIN <= z <= I64_MAX)%Z.
Definition opt_ok {A} (P : A -> Prop) (o : option A) : Prop :=
  match o with Some a => P a | None => True end.
Definition doc_ok (v : value) : Prop := wf_value v = true.
Definition branch_rep (b : Branch) : Prop :=
  doc_ok (br_definition b) /\ doc_ok (br_base_definition b) /\ i64_ok (br_updated_at_ms b).
Definition authoring_rep (a : AuthoringState) : Prop :=
  map_Forall (fun _ => branch_rep) (a_branches a) /\
  map_Forall (fun _ p => i64_ok (mp_created_at_ms p)) (a_proposals a) /\
  opt_ok (fun r => i64_ok (cr_reviewed_at_ms r)) (a_approval a) /\
  opt_ok (fun r => i64_ok (pr_published_at_ms r)) (a_release a).
Definition pipeline_rep (r : PipelineRecord) : Prop :=
  authoring_rep (pl_authoring r) /\ doc_ok (pl_definition r) /\ i64_ok (pl_created_at_ms r) /\
  i64_ok (pl_updated_at_ms r) /\ opt_ok i64_ok (pl_deleted_at_ms r).
Definition ontology_branch_rep (b : OntologyBranch) : Prop :=
  doc_ok (ob_definition b) /\ doc_ok (ob_base_definition b) /\ i64_ok (ob_updated_at_ms b).
Definition ontology_authoring_rep (a : OntologyAuthoringState) : Prop :=
  map_Forall (fun _ => ontology_branch_rep) (oa_branches a) /\ i64_ok (oa_updated_at_ms a) /\
  opt_ok i64_ok (oa_deleted_at_ms a).
Definition publication_rep (p : OntologyPublicationRecord) : Prop :=
  doc_ok (pub_metadata p) /\ i64_ok (pub_published_at_ms p) /\ opt_ok i64_ok (pub_retired_at_ms p).
Definition ontology_rep (r : OntologyRecord) : Prop :=
  ontology_authoring_rep (or_authoring r) /\ doc_ok (or_ontology r) /\ i64_ok (or_created_at_ms r) /\
  opt_ok publication_rep (or_production_publication r).
Definition binding_rep (b : OntologyBindingRecord) : Prop :=
  doc_ok (bd_metadata b) /\ i64_ok (bd_updated_at_ms b).
Definition state_rep (s : TenantState) : Prop :=
  map_Forall (fun _ => pipeline_rep) (pipelines s) /\
  map_Forall (fun _ => ontology_rep) (ontologies s) /\
  map_Forall (fun _ => binding_rep) (bindings s).

(** ** Reading back the standard types *)
Lemma de_i64_json z : i64_ok z -> de_i64 (json_i64 z) = Ok z.
Proof.
  intros [Hlo Hhi]. unfold json_i64. destruct (0 <=? z)%Z eqn:E; simpl.
  - apply Z.leb_le in E. rewrite Z2N.id by done. by rewrite (proj2 (Z.leb_le _ _) Hhi).
  - by rewrite (proj2 (Z.leb_le _ _) Hlo), (proj2 (Z.leb_le _ _) Hhi).
Qed.

Lemma de_value_id v : doc_ok v -> de_value v = v.
Proof. apply canonicalize_id. Qed.

Lemma de_opt_json {A} (f : value -> result A) (g : A -> value) (o : option A) :
  (forall a, g a <> JNull) -> opt_ok (fun a => f (g a) = Ok a) o -> de_opt f (json_opt g o) = Ok o.
Proof.
  intros Hg. destruct o as [a|]; simpl; [|done]. intros Ha. specialize (Hg a).
  unfold de_opt. rewrite Ha. by destruct (g a).
Qed.

Lemma de_opt_i64 o : opt_ok i64_ok o -> de_opt de_i64 (json_opt json_i64 o) = Ok o.
Proof.
  intros Ho. apply de_opt_json; [done|]. destruct o; simpl in *; [by apply de_i64_json|done].
Qed.
Lemma de_opt_string o : de_opt de_string (json_opt JString o) = Ok o.
Proof. by destruct o. Qed.

Lemma de_vec_strings l : de_vec de_string (json_strings l) = Ok l.
Proof. simpl. apply mapM_Ok_Forall2. induction l; constructor; done. Qed.

Lemma btree_collect_entries {V} (m : gmap string V) : btree_collect (btree_entries m) = m.
Proof.
  apply map_eq. intros k. apply option_eq. intros v.
  rewrite btree_collect_lookup by apply NoDup_btree_entries_fst. apply elem_of_btree_entries.
Qed.

Lemma de_map_json {A} (f : value -> result A) (g : A -> value) (m : gmap string A) :
  map_Forall (fun _ a => f (g a) = Ok a) m -> de_map f (json_map g m) = Ok m.
Proof.
  intros Hm. unfold de_map, json_map.
  assert (mapM (fun kv => a ← f kv.2; Ok (kv.1, a)) ((fun kv => (kv.1, g kv.2)) <$> btree_entries m)
    = Ok (btree_entries m)) as ->; [|simpl; by rewrite btree_collect_entries].
  apply mapM_Ok_Forall2, Forall2_fmap_l, Forall_Forall2_diag, Forall_forall.
  intros [k a] Hin%elem_of_btree_entries. simpl. by rewrite (Hm k a Hin).
Qed.

Lemma struct_object fields m :
  nodup_keys m && forallb (fun kv => str_in kv.1 fields.*1) m = true ->
  struct_members fields (JObject m) = Ok m.
Proof. intros H. simpl. by rewrite H. Qed.

(** A record read back: the members are looked up by computation, the fields
    by the lemmas above. *)
Ltac de_field :=
  first
    [ rewrite de_i64_json by tauto
    | rewrite de_value_id by tauto
    | rewrite de_opt_i64 by tauto
    | rewrite de_opt_string
    | rewrite de_vec_strings ].
Ltac de_struct :=
  rewrite struct_object by reflexivity; cbn [mbind result_bind];
  unfold required, optional, defaulted, de_json; cbn [jget String.eqb Ascii.eqb Bool.eqb];
  cbn [de_string de_bool mbind result_bind]; repeat (de_field; cbn [mbind result_bind]).

Lemma de_review_json r : i64_ok (cr_reviewed_at_ms r) -> de_review (json_review r) = Ok r.
Proof. destruct r. intros H. simpl in H. unfold de_review, json_review. de_struct. done. Qed.
Lemma de_release_json r : i64_ok (pr_published_at_ms r) -> de_release (json_release r) = Ok r.
Proof. destruct r. intros H. simpl in H. unfold de_release, json_release. de_struct. done. Qed.
Lemma de_proposal_json p : i64_ok (mp_created_at_ms p) -> de_proposal (json_proposal p) = Ok p.
Proof. destruct p. intros H. simpl in H. unfold de_proposal, json_proposal. de_struct. done. Qed.
Lemma de_branch_json b : branch_rep b -> de_branch (json_branch b) = Ok b.
Proof.
  destruct b as [[p|] ? ? ? ? ?]; intros (? & ? & ?); simpl in *; unfold de_branch, json_branch;
    cbn [br_parent_branch app]; de_struct; done.
Qed.
Lemma de_ontology_branch_json b :
  ontology_branch_rep b -> de_ontology_branch (json_ontology_branch b) = Ok b.
Proof.
  destruct b. intros (? & ? & ?); simpl in *. unfold de_ontology_branch, json_ontology_branch.
  de_struct. done.
Qed.
Lemma de_publication_json p : publication_rep p -> de_publication (json_publication p) = Ok p.
Proof.
  destruct p. intros (? & ? & ?); simpl in *. unfold de_publication, json_publication. de_struct. done.
Qed.
Lemma de_binding_json b : binding_rep b -> de_binding (json_binding b) = Ok b.
Proof. destruct b. intros (? & ?); simpl in *. unfold de_binding, json_binding. de_struct. done. Qed.
Lemma de_marker_json m : (0 <= tm_version m <= 255)%Z -> de_marker (json_marker m) = Ok m.
Proof.
  destruct m as [version t r]. intros [Hlo Hhi]. cbn [tm_version] in *.
  unfold de_marker, json_marker, json_i64. cbn [tm_version].
  rewrite (proj2 (Z.leb_le 0 version) Hlo). de_struct. unfold de_u8, de_int.
  rewrite Z2N.id, (proj2 (Z.leb_le _ _) Hhi) by done. done.
Qed.

(** Nested maps and options of records. *)
Lemma de_map_rep {A} (P : A -> Prop) (f : value -> result A) (g : A -> value) (m : gmap string A) :
  (forall a, P a -> f (g a) = Ok a) -> map_Forall (fun _ => P) m -> de_map f (json_map g m) = Ok m.
Proof. intros Hf Hm. apply de_map_json. intros k a Hk. apply Hf, (Hm k a Hk). Qed.
Lemma de_opt_rep {A} (P : A -> Prop) (f : value -> result A) (g : A -> value) (o : option A) :
  (forall a, P a -> f (g a) = Ok a) -> (forall a, g a <> JNull) -> opt_ok P o ->
  de_opt f (json_opt g o) = Ok o.
Proof. intros Hf Hg Ho. apply de_opt_json; [done|]. destruct o; simpl in *; auto. Qed.

(** Rewrites with the lemma of the next nested record. *)
Ltac de_nested lem :=
  first [ rewrite (de_map_rep _ _ _ _ lem) by assumption
        | rewrite (de_opt_rep _ _ _ _ lem) by first [assumption | done] ];
  cbn [mbind result_bind]; repeat (de_field; cbn [mbind result_bind]).

Lemma de_authoring_json a : authoring_rep a -> de_authoring (json_authoring a) = Ok a.
Proof.
  destruct a. intros (? & ? & ? & ?). simpl in *. unfold de_authoring, json_authoring. de_struct.
  de_nested de_branch_json. de_nested de_proposal_json. de_nested de_review_json.
  de_nested de_release_json. done.
Qed.
Lemma de_ontology_authoring_json a :
  ontology_authoring_rep a -> de_ontology_authoring (json_ontology_authoring a) = Ok a.
Proof.
  destruct a. intros (? & ? & ?). simpl in *. unfold de_ontology_authoring, json_ontology_authoring.
  de_struct. de_nested de_ontology_branch_json. done.
Qed.
Lemma de_pipeline_json r : pipeline_rep r -> de_pipeline (json_pipeline r) = Ok r.
Proof.
  destruct r. intros (? & ? & ? & ? & ?). simpl in *. unfold de_pipeline, json_pipeline.
  de_struct. rewrite de_authoring_json by done. cbn [mbind result_bind].
  repeat (de_field; cbn [mbind result_bind]). done.
Qed.
Lemma de_ontology_json r : ontology_rep r -> de_ontology (json_ontology r) = Ok r.
Proof.
  destruct r. intros (? & ? & ? & ?). simpl in *. unfold de_ontology, json_ontology.
  de_struct. rewrite de_ontology_authoring_json by done. cbn [mbind result_bind].
  repeat (de_field; cbn [mbind result_bind]). de_nested de_publication_json. done.
Qed.

Lemma de_pipeline_state_json s :
  state_rep s -> de_pipeline_state (json_pipeline_state s) =
    Ok {| ps_pipelines := pipelines s; ps_bindings := bindings s |}.
Proof.
  intros (? & _ & ?). unfold de_pipeline_state, json_pipeline_state. de_struct.
  de_nested de_pipeline_json. de_nested de_binding_json. done.
Qed.
Lemma de_ontology_state_json s :
  state_rep s -> de_ontology_state (json_ontology_state s) = Ok {| os_ontologies := ontologies s |}.
Proof.
  intros (_ & ? & _). unfold de_ontology_state, json_ontology_state. de_struct.
  de_nested de_ontology_json. done.
Qed.

(** ** Representable documents

    What a [serde_json::Value] guarantees beyond the type [value]: strings are
    UTF-8, integers are 64 bits wide, floats are finite. *)
Definition utf8_tail (c : ascii) : bool := byte_between 128 191 c.
Definition utf8_lead3 (a b : ascii) : bool :=
  ((code a =? 224)%N && byte_between 160 191 b) ||
  ((byte_between 225 236 a || byte_between 238 239 a) && utf8_tail b) ||
  ((code a =? 237)%N && byte_between 128 159 b).
Definition utf8_lead4 (a b : ascii) : bool :=
  ((code a =? 240)%N && byte_between 144 191 b) || (byte_between 241 243 a && utf8_tail b) ||
  ((code a =? 244)%N && byte_between 128 143 b).
Fixpoint valid_utf8 (s : string) : bool :=
  match s with
  | EmptyString => true
  | String a s1 =>
      if (code a <? 128)%N then valid_utf8 s1 else
      match s1 with
      | EmptyString => false
      | String b s2 =>
          if byte_between 194 223 a then utf8_tail b && valid_utf8 s2 else
          match s2 with
          | EmptyString => false
          | String c s3 =>
              if utf8_lead3 a b then utf8_tail c && valid_utf8 s3 else
              match s3 with
              | EmptyString => false
              | String d s4 => utf8_lead4 a b && utf8_tail c && utf8_tail d && valid_utf8 s4
              end
          end
      end
  end.
Definition number_rep (n : number) : bool :=
  match n with
  | PosInt n => (n <? 2 ^ 64)%N
  | NegInt z => (I64_MIN <=? z)%Z && (z <? 0)%Z
  | Float bits => (0 <=? bits)%Z && (bits <? 2 ^ 64)%Z && negb (Z.land (Z.shiftr bits 52) 2047 =? 2047)%Z
  end.
Fixpoint value_rep (v : value) : bool :=
  match v with
  | JNumber n => number_rep n
  | JString s => valid_utf8 s
  | JArray l => forallb value_rep l
  | JObject m => forallb (fun kv => valid_utf8 kv.1 && value_rep kv.2) m
  | _ => true
  end.

(** ** Round trip *)
Definition legacy_ontology (r : OntologyRecord) : value :=
  match json_ontology r with JObject (_ :: rest) => JObject rest | v => v end.
Definition legacy_pipeline (r : PipelineRecord) : value :=
  match json_pipeline r with JObject (_ :: _ :: rest) => JObject rest | v => v end.


Definition stored_pipeline : PipelineRecord :=
  {| pl_authoring := {| a_enabled := true;
       a_branches := {["draft" := {| br_parent_branch := None; br_definition := JObject [];
         br_base_definition := JNull; br_base_revision_id := "r"; br_author_id := "ada";
         br_updated_at_ms := 3 |}]};
       a_proposals := ∅; a_approval := None; a_release := None |};
     pl_previous_revision_id := Some "p"; pl_pipeline_id := "mail"; pl_name := "Mail";
     pl_owner_id := "ada"; pl_published_revision_id := None;
     pl_definition := JObject [("sources", JArray []); ("pipeline", JArray [])];
     pl_author_id := "ada"; pl_message := "m"; pl_created_at_ms := (-1); pl_updated_at_ms := 2;
     pl_deleted_at_ms := None |}.
Definition stored_demo : TenantState :=
  {| pipelines := {["mail" := stored_pipeline]}; ontologies := ∅; bindings := ∅ |}.
Lemma i64_ok_small z : (-1 <=? z)%Z && (z <=? 10)%Z = true -> i64_ok z.
Proof. intros [? ?]%andb_prop. unfold i64_ok, I64_MIN, I64_MAX. lia. Qed.
Lemma stored_demo_rep : state_rep stored_demo.
Proof.
  split_and!; [|apply map_Forall_empty|apply map_Forall_empty].
  apply map_Forall_singleton. split; [|split_and!; done || by apply i64_ok_small].
  split_and!; [|apply map_Forall_empty|done..].
  apply map_Forall_singleton. split_and!; [done..|by apply i64_ok_small].
Qed.

