(* ===== verification/PluginFacts.v ===== *)
(** * PluginFacts: what a materialized overlay contains (plugin_ontology.rs) *)

From S2P Require Import Prelude Text Json Ontology MergeFacts Authoring AuthoringFacts PluginOntology.

(** A link resource rebound to a destination: its target and its references
    name the destination, every other field is kept. *)
Definition rebound (old new : value) (destination : string) : Prop :=
  pointer_str ["attributes"; "target_type"] new = Some destination /\
  (exists target refs, pointer_str ["attributes"; "target_type"] old = Some target /\
    get_array old "references" = Some refs /\
    get_array new "references" = Some (rename_reference target destination <$> refs)) /\
  (forall key, key <> "attributes" -> key <> "references" -> get new key = get old key) /\
  (forall key, key <> "target_type" ->
    pointer_get ["attributes"; key] new = pointer_get ["attributes"; key] old).

Lemma opt_str_eqb_Some o s : opt_str_eqb o s = true -> o = Some s.
Proof. destruct o as [x|]; simpl; [intros ->%String.eqb_eq; done|done]. Qed.

Lemma rebind_participant_rebound old destination selected new :
  rebind_participant old destination selected = Ok new ->
  rebound old new destination /\ get_str old "kind" = Some "link_type" /\
  get_str selected "kind" = Some "object_type".
Proof.
  unfold rebind_participant. intros Hr.
  apply bind_Ok_inv in Hr as (_ & _ & Hr).
  apply bind_Ok_inv in Hr as (_ & Hkind%ensure_Ok_inv%opt_str_eqb_Some & Hr).
  apply bind_Ok_inv in Hr as (_ & Hsel%ensure_Ok_inv%opt_str_eqb_Some & Hr).
  apply bind_Ok_inv in Hr as (target & Ht%context_Ok_inv & Hr).
  apply bind_Ok_inv in Hr as (m & Hm%context_Ok_inv & Hr).
  apply bind_Ok_inv in Hr as (attributes & Ha%context_Ok_inv & Hr).
  apply bind_Ok_inv in Hr as (refs & Hrefs%context_Ok_inv & [= <-]).
  destruct old as [| | | | |m']; try done. injection Hm as ->.
  split; [|done]. apply bind_Some in Ha as (va & Hva & Ha). destruct va as [| | | | |attrs]; try done.
  injection Ha as ->. rewrite jget_jinsert, decide_False in Hrefs by done.
  unfold rebound, get_array, pointer_str, pointer_get, get. split_and!.
  - simpl. rewrite jget_jinsert, decide_False by done. rewrite jget_jinsert, decide_True by done. simpl.
    by rewrite jget_jinsert, decide_True by done.
  - exists target, refs. split; [exact Ht|]. split; [exact Hrefs|]. by rewrite jget_jinsert, decide_True by done.
  - intros key Hk1 Hk2. by rewrite !jget_jinsert, !decide_False by done.
  - intros key Hk. simpl. rewrite jget_jinsert, decide_False by done.
    rewrite jget_jinsert, decide_True by done. simpl. by rewrite Hva, jget_jinsert, decide_False by done.
Qed.

(** The loop over the mappings: each slot is rebound, the rest is kept. *)
Lemma rebind_all_spec mappings external resources resources' :
  NoDup mappings.*1 -> rebind_all mappings external resources = Ok resources' ->
  dom resources' = dom resources /\
  (forall id, id ∉ mappings.*1 -> resources' !! id = resources !! id) /\
  (forall slot destination, (slot, destination) ∈ mappings -> exists old new selected,
    resources !! slot = Some old /\ resources' !! slot = Some new /\
    external !! destination = Some selected /\ get_str selected "kind" = Some "object_type" /\
    get_str old "kind" = Some "link_type" /\ rebound old new destination).
Proof.
  revert resources. induction mappings as [|[slot destination] mappings IH]; intros resources Hnd; simpl.
  - intros [= <-]. split_and!; [done..|]. intros slot destination Hin. by apply elem_of_nil in Hin.
  - intros Hr. apply bind_Ok_inv in Hr as (old & Hold%context_Ok_inv & Hr).
    apply bind_Ok_inv in Hr as (selected & Hsel%context_Ok_inv & Hr).
    apply bind_Ok_inv in Hr as (new & (Hreb & Hk & Hs)%rebind_participant_rebound & Hr).
    simpl in Hnd. apply NoDup_cons in Hnd as [Hni Hnd].
    destruct (IH _ Hnd Hr) as (Hdom & Hkeep & Hslots). split_and!.
    + rewrite Hdom, dom_insert_L. apply elem_of_dom_2 in Hold. set_solver.
    + intros id Hid. apply not_elem_of_cons in Hid as [Hne Hid].
      rewrite Hkeep by done. by rewrite lookup_insert_ne.
    + intros slot' destination' [[= -> ->]|Hin]%elem_of_cons.
      * exists old, new, selected. split_and!; try done. rewrite Hkeep by done. apply lookup_insert_eq.
      * destruct (Hslots _ _ Hin) as (old' & new' & sel' & Hold' & Hrest).
        exists old', new', sel'. split; [|done].
        assert (slot <> slot') as Hne by (intros ->; apply Hni, list_elem_of_fmap; by exists (slot', destination')).
        by rewrite lookup_insert_ne in Hold'.
Qed.

(** The import of the target's resources, none of which may be present. *)
Lemma import_all_spec external resources resources' :
  NoDup external.*1 -> import_all external resources = Ok resources' ->
  (forall id, id ∈ external.*1 -> resources !! id = None) /\
  (forall id, resources' !! id =
    match list_to_map (M:=gmap string value) external !! id with Some v => Some v | None => resources !! id end).
Proof.
  revert resources. induction external as [|[id v] external IH]; intros resources Hnd; simpl.
  - intros [= <-]. split; [intros id Hin; by apply elem_of_nil in Hin|done].
  - intros Hr. apply bind_Ok_inv in Hr as (_ & Hfresh%ensure_Ok_inv & Hr).
    apply NoDup_cons in Hnd as [Hni Hnd]. destruct (IH _ Hnd Hr) as (Hnone & Hlook).
    assert (resources !! id = None) as Hid by (by destruct (resources !! id)).
    split.
    + intros x [->|Hx]%elem_of_cons; [done|]. specialize (Hnone x Hx).
      rewrite lookup_insert in Hnone. by case_decide.
    + intros x. rewrite Hlook. rewrite lookup_insert. case_decide as E.
      * subst x. rewrite lookup_insert_eq. by rewrite not_elem_of_list_to_map_1.
      * by rewrite lookup_insert_ne.
Qed.

Lemma btree_entries_to_map {V} (m : gmap string V) : list_to_map (btree_entries m) = m.
Proof.
  apply map_eq. intros k. apply option_eq. intros v.
  rewrite <-elem_of_list_to_map by apply NoDup_btree_entries_fst. apply elem_of_btree_entries.
Qed.

Section plugin.
Context `{Externals}.

(** A materialized overlay is a valid ontology of at most 1024 resources:
    the resources of the plugin package with every mapped participant link
    rebound to the tenant's object type and nothing else changed, and the
    dependency closure of the mapped types, none of which shadows a plugin
    resource; its origin names the package. *)
Theorem materialize_overlay package target mappings result :
  materialize package target mappings = Ok result ->
  validate_ontology result = Ok tt /\
  get result "plugin_origin" = Some (package_origin package) /\
  exists plugin external overlay,
    package_resources package = Ok plugin /\ target_resources target mappings = Ok external /\
    get_array result "resources" = Some (btree_values overlay) /\ size overlay <= 1024 /\
    plugin ##ₘ external /\ dom overlay = dom plugin ∪ dom external /\
    (forall id, id ∈ dom external -> overlay !! id = external !! id) /\
    (forall id, id ∈ dom plugin -> mappings !! id = None -> overlay !! id = plugin !! id) /\
    (forall slot destination, mappings !! slot = Some destination ->
      exists old new selected, plugin !! slot = Some old /\ overlay !! slot = Some new /\
        external !! destination = Some selected /\ get_str selected "kind" = Some "object_type" /\
        get_str old "kind" = Some "link_type" /\ rebound old new destination).
Proof.
  unfold materialize. intros Hm.
  apply bind_Ok_inv in Hm as (bytes & _ & Hm). apply bind_Ok_inv in Hm as (_ & _ & Hm).
  apply bind_Ok_inv in Hm as (_ & _ & Hm). apply bind_Ok_inv in Hm as (plugin & Hplugin & Hm).
  apply bind_Ok_inv in Hm as (_ & _ & Hm). apply bind_Ok_inv in Hm as (external & Hext & Hm).
  apply bind_Ok_inv in Hm as (bound & Hbound & Hm). apply bind_Ok_inv in Hm as (overlay & Hover & Hm).
  apply bind_Ok_inv in Hm as (_ & Hsize%ensure_Ok_inv%Nat.leb_le & Hm).
  apply bind_Ok_inv in Hm as ([] & Hvalid & [= <-]).
  split; [exact Hvalid|]. split; [done|]. exists plugin, external, overlay.
  apply rebind_all_spec in Hbound as (Hdom & Hkeep & Hslots); [|apply NoDup_btree_entries_fst].
  apply import_all_spec in Hover as (Hnone & Hlook); [|apply NoDup_btree_entries_fst].
  rewrite btree_entries_to_map in Hlook.
  assert (forall id, id ∈ dom external -> id ∉ dom plugin) as Hdisj.
  { intros id Hid. rewrite <-Hdom. apply not_elem_of_dom. apply Hnone.
    rewrite btree_entries_fst. by apply elem_of_btree_keys, elem_of_dom. }
  assert (forall id, id ∈ dom plugin -> overlay !! id = bound !! id) as Hpl.
  { intros id Hid. rewrite Hlook. destruct (external !! id) eqn:E; [|done].
    by destruct (Hdisj id); [apply elem_of_dom_2 in E|]. }
  split_and!; try done.
  - apply map_disjoint_dom. set_solver.
  - apply set_eq. intros id. rewrite elem_of_union, <-Hdom, !elem_of_dom, Hlook.
    destruct (external !! id); [|naive_solver]. split; [by right|eauto].
  - intros id Hid. rewrite Hlook. apply elem_of_dom in Hid as [v ->]. done.
  - intros id Hid Hmap. rewrite Hpl by done. apply Hkeep. rewrite btree_entries_fst.
    rewrite elem_of_btree_keys, Hmap. by intros [? [=]].
  - intros slot destination Hmap.
    destruct (Hslots slot destination) as (old & new & selected & Hold & Hnew & Hrest);
      [by apply elem_of_btree_entries|].
    exists old, new, selected. split; [done|]. split; [|done]. rewrite Hpl; [done|].
    by apply elem_of_dom_2 in Hold.
Qed.
End plugin.

(** ** Witness *)
#[local] Existing Instance demo_externals.
Definition demo_participant : value :=
  JObject [("resource_id", JString "mail.sender"); ("kind", JString "link_type");
           ("display_name", JString "Sender"); ("references", json_strings ["mail.message"; "mail.person"]);
           ("attributes", JObject [("mapping_slot", JBool true); ("source_type", JString "mail.message");
              ("target_type", JString "mail.person")])].
Definition demo_package : value :=
  JObject [("id", JString "mail"); ("plugin_id", JString "utils"); ("version", JString "1");
           ("ontologies", JArray [JObject [("id", JString "core"); ("version", JString "1");
              ("resources", JArray [demo_type "mail.message" "Message" [];
                 demo_type "mail.person" "Person" []; demo_participant])]])].

Lemma materialize_overlay_witness :
  exists result, materialize demo_package (Some demo_base) {["mail.sender" := "ship"]} = Ok result /\
    validate_ontology result = Ok tt /\ exists overlay new : _,
      get_array result "resources" = Some (btree_values (V:=value) overlay) /\
      overlay !! "mail.sender" = Some new /\
      pointer_str ["attributes"; "target_type"] new = Some "ship".
Proof.
  destruct (materialize demo_package (Some demo_base) {["mail.sender" := "ship"]})
    as [result|e] eqn:E; [|vm_compute in E; discriminate].
  exists result. split; [reflexivity|].
  destruct (materialize_overlay demo_package (Some demo_base) {["mail.sender" := "ship"]} result E)
    as (Hvalid & _ & plugin & external & overlay & _ & _ & Hres & _ & _ & _ & _ & _ & Hslots).
  destruct (Hslots "mail.sender" "ship") as (old & new & selected & _ & Hnew & _ & _ & _ & Hreb);
    [reflexivity|].
  split; [exact Hvalid|]. exists overlay, new. split_and!; [exact Hres|exact Hnew|exact (proj1 Hreb)].
Defined.
