(* ===== verification/LakeFs.v ===== *)
(** * LakeFs: the lakeFS and S3 implementation of the store (storage.rs)

    [LakeFsStore] keeps one lakeFS repository per tenant, with a marker object
    in S3 that says the tenant exists and a cache of markers.  Its methods are
    programs over the requests they send ([syscall]); lakeFS, S3, the HTTP client
    and serde_json's parser are code of others, and enter as parameters. *)

From S2P Require Import Prelude Text RustStr Json Authoring State Store Serde StateJson.
From Stdlib Require Import Ascii.

(** ** Configuration *)
Record LakeFsConfig : Type := {
  lc_endpoint : string;
  lc_access_key : string;
  lc_secret_key : string;
  lc_repository_prefix : string;
  lc_storage_namespace : string;
  lc_branch : string;
}.
Record S3Config : Type := {
  sc_endpoint : string;
  sc_region : string;
  sc_access_key : string;
  sc_secret_key : string;
}.
Record S3TenantDirectory : Type := {
  sd_bucket : string;
  sd_prefix : string;
}.
Record LakeFsStore : Type := {
  ls_config : LakeFsConfig;
  ls_directory : S3TenantDirectory;
}.

Definition ONTOLOGY_STATE_PATH : string := "ontology/state.json".
Definition PIPELINE_STATE_PATH : string := "pipeline/state.json".
Definition TENANT_MARKER_VERSION : Z := 1.
Definition MAX_STATE_BYTES : N := 33554432.
Definition TENANT_LOCK_STRIPES : N := 64.
Definition USIZE_MAX : N := 18446744073709551615.

(** [reqwest::Url] through the accessors the code uses. *)
Record Url : Type := {
  url_scheme : string;
  url_host : option string;
  url_username : string;
  url_password : option string;
  url_path : string;
  url_query : option string;
  url_fragment : option string;
}.
Class StorageExternals := {
  url_parse : string -> result Url;
  http_client : result unit;
  json_from_slice : string -> result value;
  hash_one : string -> N;
}.

(** ** Requests *)
Inductive lakefs : Type :=
  | GetBranch (repository branch : string)
  | CreateRepository (name storage_namespace default_branch : string)
  | DeleteRepository (repository : string)
  | GetObject (repository reference path : string)
  | UploadObject (repository branch path payload : string)
  | CommitBranch (repository branch message author tenant_digest : string).
(** A body arrives in chunks, and may break off. *)
Record response : Type := {
  status : N;
  content_length : option N;
  chunks : list (result string);
}.
Definition is_success (code : N) : bool := (200 <=? code)%N && (code <=? 299)%N.
Definition NOT_FOUND : N := 404.
Definition CONFLICT : N := 409.
Definition PRECONDITION_FAILED : N := 412.
Record s3_object : Type := {
  so_content_length : option Z;
  so_body : result string;
}.

Inductive syscall : Type -> Type :=
  | Lakefs (c : lakefs) : syscall response
  | S3Get (bucket key : string) : syscall (option s3_object)
  | S3Put (bucket key payload : string) : syscall unit
  | S3List (bucket prefix : string) (max_keys : nat) : syscall (list (option string))
  | S3Delete (bucket : string) (keys : list string) : syscall nat
  | CacheGet (tenant_id : string) : syscall (option (option TenantMarker))
  | CacheInsert (tenant_id : string) (marker : option TenantMarker) : syscall unit
  | CacheInvalidate (tenant_id : string) : syscall unit
  | Lock (stripe : N) : syscall unit
  | Clock : syscall Z.

Inductive io (A : Type) : Type :=
  | Ret (r : result A)
  | Call {B : Type} (c : syscall B) (k : result B -> io A).
Arguments Ret {_} _.
Arguments Call {_ _} _ _.
#[export] Instance io_ret : MRet io := fun _ a => Ret (Ok a).
#[export] Instance io_bind : MBind io := fun A B f =>
  fix bind (p : io A) : io B :=
    match p with
    | Ret (Ok a) => f a
    | Ret (Err e) => Ret (Err e)
    | Call c k => Call c (fun r => bind (k r))
    end.
Definition pure {A} (r : result A) : io A := Ret r.
Definition assert (b : bool) (message : string) : io unit := Ret (ensure b message).
Definition needs {A} (message : string) (o : option A) : io A := Ret (with_context message o).
(** [call.await?] and [call.await.context(message)?] *)
Definition sys {B} (c : syscall B) : io B := Call c Ret.
Definition context {A} (message : string) (r : result A) : result A :=
  match r with Ok a => Ok a | Err _ => Err (Msg message) end.
Definition sys_context {B} (message : string) (c : syscall B) : io B :=
  Call c (fun r => Ret (context message r)).

(** [response.json::<T>()] reads the whole body; unknown members are ignored. *)
Fixpoint read_all (chunks : list (result string)) : result string :=
  match chunks with
  | [] => Ok EmptyString
  | chunk :: chunks => bytes ← chunk; rest ← read_all chunks; Ok (bytes +:+ rest)
  end.

Section store.
Context `{Externals} `{StorageExternals}.

Definition json_member (key : string) (r : response) : result string :=
  bytes ← read_all (chunks r);
  v ← json_from_slice bytes;
  members ← match v with JObject m => Ok m | _ => serde_error end;
  required de_string key members.

(** ** Construction *)
Definition valid_endpoint (u : Url) : bool :=
  str_in (url_scheme u) ["http"; "https"] && option_is_some (url_host u) &&
  is_empty (url_username u) && option_is_none (url_password u) &&
  str_in (url_path u) [EmptyString; "/"] && option_is_none (url_query u) &&
  option_is_none (url_fragment u).
Definition valid_prefix (prefix : string) : bool :=
  is_empty prefix ||
  (ends_with_byte "/" prefix && negb (starts_with "/" prefix) && negb (contains ".." prefix) &&
   negb (contains "//" prefix) &&
   bytes_all (fun byte => is_ascii_alphanumeric byte || one_of "/_-." byte) prefix).

Definition directory_new (config : S3Config) (storage_namespace : string)
    : result S3TenantDirectory :=
  endpoint ← url_parse (sc_endpoint config);
  ensure (valid_endpoint endpoint) "invalid S3 endpoint" ;;
  ensure (negb (is_empty (sc_region config)) && len_le (sc_region config) 64 &&
          bytes_all (fun byte => is_ascii_alphanumeric byte || one_of "-_" byte) (sc_region config))
    "invalid S3 region" ;;
  ensure (negb (is_empty (sc_access_key config)) && len_le (sc_access_key config) 256)
    "invalid S3 access key" ;;
  ensure (negb (is_empty (sc_secret_key config))) "invalid S3 secret key" ;;
  namespace ← with_context "invalid S3 storage namespace" (strip_prefix "s3://" storage_namespace);
  '(bucket, prefix) ← with_context "S3 storage namespace requires a prefix"
    (split_once "/" namespace);
  ensure (valid_bucket bucket) "invalid S3 bucket" ;;
  ensure (valid_prefix prefix) "invalid S3 namespace prefix" ;;
  Ok {| sd_bucket := bucket; sd_prefix := prefix |}.

Definition store_new (config : LakeFsConfig) (s3 : S3Config) : result LakeFsStore :=
  endpoint ← url_parse (lc_endpoint config);
  ensure (valid_endpoint endpoint) "invalid lakeFS endpoint" ;;
  ensure (valid_segment (lc_repository_prefix config)) "invalid repository prefix" ;;
  ensure (valid_segment (lc_branch config)) "invalid lakeFS branch" ;;
  ensure (negb (is_empty (lc_access_key config)) && len_le (lc_access_key config) 256)
    "invalid lakeFS access key" ;;
  ensure (negb (is_empty (lc_secret_key config))) "invalid lakeFS secret key" ;;
  ensure (starts_with "s3://" (lc_storage_namespace config) &&
          ends_with_byte "/" (lc_storage_namespace config))
    "lakeFS storage namespace must be an S3 prefix ending in slash" ;;
  http_client ;;
  directory ← directory_new s3 (lc_storage_namespace config);
  Ok {| ls_config := config; ls_directory := directory |}.

Section methods.
Context (self : LakeFsStore).

(** ** Coordinates of a tenant *)
Definition repository_for_tenant (tenant_id : string) : result string :=
  ensure (valid_tenant tenant_id) "invalid tenant ID" ;;
  Ok (take_bytes 63 (lc_repository_prefix (ls_config self) +:+ "-" +:+ sha256_hex tenant_id)).
Definition namespace_for_tenant (tenant_id : string) : result string :=
  ensure (valid_tenant tenant_id) "invalid tenant ID" ;;
  Ok (lc_storage_namespace (ls_config self) +:+ tenant_id +:+ "/_lakefs/").
Definition marker_key (tenant_id : string) : result string :=
  ensure (valid_tenant tenant_id) "invalid tenant ID" ;;
  Ok (tenant_id +:+ "/_registry/tenant.json").

Definition url (path : string) : string :=
  trim_end_matches "/" (lc_endpoint (ls_config self)) +:+ "/api/v1/" +:+ path.
(** Method, URL and query of a request. *)
Definition route (c : lakefs) : string * string * list (string * string) :=
  match c with
  | GetBranch repository branch =>
      ("GET", url ("repositories/" +:+ repository +:+ "/branches/" +:+ branch), [])
  | CreateRepository _ _ _ => ("POST", url "repositories", [])
  | DeleteRepository repository => ("DELETE", url ("repositories/" +:+ repository), [])
  | GetObject repository reference path =>
      ("GET", url ("repositories/" +:+ repository +:+ "/refs/" +:+ reference +:+ "/objects"),
       [("path", path)])
  | UploadObject repository branch path _ =>
      ("POST", url ("repositories/" +:+ repository +:+ "/branches/" +:+ branch +:+ "/objects"),
       [("path", path)])
  | CommitBranch repository branch _ _ _ =>
      ("POST", url ("repositories/" +:+ repository +:+ "/branches/" +:+ branch +:+ "/commits"), [])
  end.

(** ** S3 *)
Definition key (relative : string) : result string :=
  ensure (negb (is_empty relative) && negb (starts_with "/" relative) &&
          negb (contains ".." relative)) "invalid Registry S3 key" ;;
  Ok (sd_prefix (ls_directory self) +:+ relative).
Definition bucket : string := sd_bucket (ls_directory self).

Definition read (relative : string) : io (option string) :=
  key ← pure (key relative);
  output ← sys_context "S3 tenant marker read failed" (S3Get bucket key);
  match output with
  | None => mret None
  | Some object =>
      assert (is_some_and (fun length => (0 <=? length)%Z && (length <=? 4096)%Z)
                (so_content_length object)) "S3 tenant marker exceeds safety limit" ;;
      bytes ← pure (context "S3 tenant marker body failed" (so_body object));
      mret (Some bytes)
  end.
Definition write (relative payload : string) : io unit :=
  key ← pure (key relative);
  sys_context "S3 tenant marker write failed" (S3Put bucket key payload).

(** The loop ends when a listing is empty; the fuel bounds its iterations. *)
Fixpoint purge_loop (fuel : nat) (prefix : string) : io unit :=
  match fuel with
  | 0 => Ret (Err (Foreign "fuel"))
  | S fuel =>
      listed ← sys_context "S3 tenant object listing failed" (S3List bucket prefix 1000);
      match listed with
      | [] => mret tt
      | _ =>
          objects ← pure (mapM (with_context "S3 returned an object without a key") listed);
          errors ← sys_context "S3 tenant object purge failed" (S3Delete bucket objects);
          assert (Nat.eqb errors 0) "S3 tenant object purge failed" ;;
          purge_loop fuel prefix
      end
  end.
Definition purge_prefix (fuel : nat) (relative_prefix : string) : io unit :=
  prefix ← pure (key relative_prefix);
  purge_loop fuel prefix.

(** ** Tenant markers *)
Definition decode_marker (payload : string) : result TenantMarker :=
  ensure (len_le payload 4096) "tenant marker exceeds safety limit" ;;
  context "invalid tenant marker" (v ← json_from_slice payload; de_marker v).
Definition validate_marker (tenant_id : string) (marker : TenantMarker) : result unit :=
  matching ← (if (tm_version marker =? TENANT_MARKER_VERSION)%Z &&
                 String.eqb (tm_tenant_id marker) tenant_id
              then repository ← repository_for_tenant tenant_id;
                   Ok (String.eqb (tm_repository marker) repository)
              else Ok false);
  ensure matching "tenant marker integrity check failed".

Definition marker (tenant_id : string) : io (option TenantMarker) :=
  assert (valid_tenant tenant_id) "invalid tenant ID" ;;
  cached ← sys (CacheGet tenant_id);
  match cached with
  | Some marker => mret marker
  | None =>
      key ← pure (marker_key tenant_id);
      payload ← read key;
      match payload with
      | None => sys (CacheInsert tenant_id None) ;; mret None
      | Some payload =>
          marker ← pure (decode_marker payload);
          pure (validate_marker tenant_id marker) ;;
          sys (CacheInsert tenant_id (Some marker)) ;;
          mret (Some marker)
      end
  end.
Definition require_tenant (tenant_id : string) : io TenantMarker :=
  marker ← marker tenant_id;
  needs "tenant unavailable" marker.

Definition lock_stripe (tenant_id : string) : N := (hash_one tenant_id mod TENANT_LOCK_STRIPES)%N.
Definition tenant_lock (tenant_id : string) : io unit :=
  assert (valid_tenant tenant_id) "invalid tenant ID" ;;
  assert (lock_stripe tenant_id <? TENANT_LOCK_STRIPES)%N "tenant lock stripe unavailable" ;;
  sys (Lock (lock_stripe tenant_id)).

(** ** lakeFS *)
Definition branch : string := lc_branch (ls_config self).
Definition ensure_repository (tenant_id : string) : io string :=
  repository ← pure (repository_for_tenant tenant_id);
  found ← sys (Lakefs (GetBranch repository branch));
  if is_success (status found) then mret repository
  else
    assert (status found =? NOT_FOUND)%N "lakeFS branch lookup failed" ;;
    namespace ← pure (namespace_for_tenant tenant_id);
    create ← sys (Lakefs (CreateRepository repository namespace branch));
    assert (is_success (status create) || (status create =? CONFLICT)%N)
      "lakeFS repository provisioning failed" ;;
    mret repository.
Definition lake_delete_repository (repository : string) : io unit :=
  response ← sys (Lakefs (DeleteRepository repository));
  assert (is_success (status response) || (status response =? NOT_FOUND)%N)
    "lakeFS repository deletion failed".
Definition branch_head (repository : string) : io string :=
  response ← sys (Lakefs (GetBranch repository branch));
  assert (is_success (status response)) "lakeFS branch lookup failed" ;;
  head ← pure (json_member "commit_id" response);
  assert (valid_revision head) "lakeFS returned invalid branch head" ;;
  mret head.

Fixpoint read_chunks (chunks : list (result string)) (payload : string) : result string :=
  match chunks with
  | [] => Ok payload
  | chunk :: chunks =>
      chunk ← chunk;
      let next_length := N.of_nat (String.length payload + String.length chunk) in
      ensure (next_length <=? USIZE_MAX)%N "registry state size overflow" ;;
      ensure (next_length <=? MAX_STATE_BYTES)%N "registry state exceeds safety limit" ;;
      read_chunks chunks (payload +:+ chunk)
  end.
Definition read_artifact {T} (empty : T) (decode : value -> result T)
    (repository reference path : string) : io T :=
  response ← sys (Lakefs (GetObject repository reference path));
  if (status response =? NOT_FOUND)%N then mret empty
  else
    assert (is_success (status response)) "lakeFS artifact read failed" ;;
    length ← needs "lakeFS artifact response length is required" (content_length response);
    assert (length <=? MAX_STATE_BYTES)%N "registry state exceeds safety limit" ;;
    assert (length <=? USIZE_MAX)%N "registry state response length is unsupported" ;;
    payload ← pure (read_chunks (chunks response) EmptyString);
    pure (context "invalid Registry state artifact" (v ← json_from_slice payload; decode v)).
Definition read_state (repository reference : string) : io TenantState :=
  pipeline ← read_artifact {| ps_pipelines := ∅; ps_bindings := ∅ |} de_pipeline_state
    repository reference PIPELINE_STATE_PATH;
  ontology ← read_artifact {| os_ontologies := ∅ |} de_ontology_state
    repository reference ONTOLOGY_STATE_PATH;
  mret {| pipelines := ps_pipelines pipeline; ontologies := os_ontologies ontology;
          bindings := ps_bindings pipeline |}.
Definition stage_artifact (repository path : string) (v : value) : io unit :=
  payload ← pure (json_to_vec v);
  assert (N.of_nat (String.length payload) <=? MAX_STATE_BYTES)%N
    "registry state exceeds safety limit" ;;
  upload ← sys (Lakefs (UploadObject repository branch path payload));
  assert (is_success (status upload)) "lakeFS artifact staging failed".

(** ** The trait *)
Definition lake_tenant_exists (tenant_id : string) : io bool :=
  assert (valid_tenant tenant_id) "invalid tenant ID" ;;
  marker ← marker tenant_id;
  mret (option_is_some marker).

Definition lake_ensure_tenant (tenant_id : string) : io TenantSnapshot :=
  assert (valid_tenant tenant_id) "invalid tenant ID" ;;
  tenant_lock tenant_id ;;
  existing ← marker tenant_id;
  match existing with
  | Some marker => branch_head (tm_repository marker)
  | None =>
      repository ← ensure_repository tenant_id;
      revision_id ← branch_head repository;
      let marker := {| tm_version := TENANT_MARKER_VERSION; tm_tenant_id := tenant_id;
                       tm_repository := repository |} in
      key ← pure (marker_key tenant_id);
      payload ← pure (json_to_vec (json_marker marker));
      write key payload ;;
      sys (CacheInsert tenant_id (Some marker)) ;;
      mret revision_id
  end.

Definition lake_delete_tenant (fuel : nat) (tenant_id : string) : io unit :=
  assert (valid_tenant tenant_id) "invalid tenant ID" ;;
  tenant_lock tenant_id ;;
  marker ← require_tenant tenant_id;
  lake_delete_repository (tm_repository marker) ;;
  purge_prefix fuel (tenant_id +:+ "/") ;;
  sys (CacheInvalidate tenant_id).

Definition lake_load (tenant_id : string) (revision_id : option string) : io Snapshot :=
  assert (valid_tenant tenant_id) "invalid tenant ID" ;;
  assert (is_none_or valid_revision revision_id) "invalid revision ID" ;;
  marker ← require_tenant tenant_id;
  let repository := tm_repository marker in
  revision ← match revision_id with
             | Some value => mret value
             | None => branch_head repository
             end;
  state ← read_state repository revision;
  mret {| sn_revision_id := revision; sn_state := state |}.

Definition lake_commit (tenant_id expected_revision_id : string) (state : TenantState)
    (author message : string) : io string :=
  assert (valid_revision expected_revision_id) "invalid expected revision ID" ;;
  assert (negb (is_empty author) && len_le author 256) "invalid author" ;;
  assert (negb (is_empty message) && len_le message 4096) "invalid message" ;;
  tenant_lock tenant_id ;;
  marker ← require_tenant tenant_id;
  let repository := tm_repository marker in
  head ← branch_head repository;
  assert (String.eqb head expected_revision_id) "registry revision changed" ;;
  stage_artifact repository PIPELINE_STATE_PATH (json_pipeline_state state) ;;
  stage_artifact repository ONTOLOGY_STATE_PATH (json_ontology_state state) ;;
  response ← sys (Lakefs (CommitBranch repository branch message author repository));
  assert (negb ((status response =? PRECONDITION_FAILED)%N || (status response =? CONFLICT)%N))
    "registry revision changed" ;;
  assert (is_success (status response)) "lakeFS commit failed" ;;
  revision ← pure (json_member "id" response);
  assert (valid_revision revision) "lakeFS returned invalid commit ID" ;;
  mret revision.

(** The methods by the calls of the contract; the clock is the system's. *)
Definition lake_call (fuel : nat) {B} (o : op B) : io B :=
  match o in op B return io B with
  | TenantExists t => lake_tenant_exists t
  | EnsureTenant t => lake_ensure_tenant t
  | DeleteTenant t => lake_delete_tenant fuel t
  | Load t revision => lake_load t revision
  | Commit t expected state author message => lake_commit t expected state author message
  | Now => sys Clock
  end.
End methods.
End store.
