(* ===== verification/Services.v ===== *)
(** * Services: what LakeFsStore relies on

    The documented behaviour of lakeFS and S3 as step relations on a view of
    their state, the class of services that have it, and the execution of the
    programs of LakeFs.v against such services. *)

From S2P Require Import Prelude Text Json Authoring State Store Serde StateJson LakeFs.

(** ** The observable state *)
Record LakeCommit : Type := {
  lk_parent : option string;
  lk_objects : gmap string string;
  lk_message : string;
  lk_author : string;
}.
Record LakeRepo : Type := {
  lr_namespace : string;
  lr_branch : string;
  lr_head : string;
  lr_staged : gmap string string;
  lr_commits : gmap string LakeCommit;
}.
(** Repositories by name, the commit ids issued in repositories of a name so
    far, and the S3 objects by bucket and key. *)
Record View : Type := {
  v_repos : gmap string LakeRepo;
  v_issued : gset (string * string);
  v_objects : gmap (string * string) string;
}.

Definition initial_commit : LakeCommit :=
  {| lk_parent := None; lk_objects := ∅; lk_message := "Repository created"; lk_author := EmptyString |}.
Definition created (name namespace branch id : string) (v : View) (objects : gmap (string * string) string)
    : View :=
  {| v_repos := <[name := {| lr_namespace := namespace; lr_branch := branch; lr_head := id;
                             lr_staged := ∅; lr_commits := {[id := initial_commit]} |}]> (v_repos v);
     v_issued := {[(name, id)]} ∪ v_issued v; v_objects := objects |}.
Definition removed (name : string) (v : View) (objects : gmap (string * string) string) : View :=
  {| v_repos := delete name (v_repos v); v_issued := v_issued v; v_objects := objects |}.
Definition staged (name path payload : string) (repo : LakeRepo) (v : View)
    (objects : gmap (string * string) string) : View :=
  {| v_repos := <[name := {| lr_namespace := lr_namespace repo; lr_branch := lr_branch repo;
       lr_head := lr_head repo; lr_staged := <[path := payload]> (lr_staged repo);
       lr_commits := lr_commits repo |}]> (v_repos v);
     v_issued := v_issued v; v_objects := objects |}.
(** A commit adds the staged objects to those of the head. *)
Definition next_commit (repo : LakeRepo) (message author : string) : LakeCommit :=
  {| lk_parent := Some (lr_head repo);
     lk_objects := lr_staged repo ∪ from_option lk_objects ∅ (lr_commits repo !! lr_head repo);
     lk_message := message; lk_author := author |}.
Definition committed_to (name id message author : string) (repo : LakeRepo) (v : View)
    (objects : gmap (string * string) string) : View :=
  {| v_repos := <[name := {| lr_namespace := lr_namespace repo; lr_branch := lr_branch repo;
       lr_head := id; lr_staged := ∅;
       lr_commits := <[id := next_commit repo message author]> (lr_commits repo) |}]> (v_repos v);
     v_issued := {[(name, id)]} ∪ v_issued v; v_objects := objects |}.

(** lakeFS stores its data under the namespace of the repository only. *)
Definition in_namespace (namespace : string) (k : string * string) : Prop :=
  starts_with namespace ("s3://" +:+ k.1 +:+ "/" +:+ k.2) = true.
Definition same_outside (namespace : string) (objects objects' : gmap (string * string) string) : Prop :=
  forall k, ~ in_namespace namespace k -> objects' !! k = objects !! k.

Definition find_object (v : View) (name reference path : string) : option string :=
  repo ← v_repos v !! name; commit ← lr_commits repo !! reference; lk_objects commit !! path.

Section services.
Context `{StorageExternals}.

(** A body delivers the given bytes, or breaks off. *)
Definition delivers (resp : response) (payload : string) : Prop :=
  forall bytes, read_all (chunks resp) = Ok bytes -> bytes = payload.
(** A body delivers a JSON object with the given member, or breaks off. *)
Definition delivers_member (key val : string) (resp : response) : Prop :=
  forall s, json_member key resp = Ok s -> s = val.

(** The answer of a mutating request that was carried out may get lost. *)
Definition answered {A} (P : A -> Prop) (res : result A) : Prop :=
  forall a, res = Ok a -> P a.

(** A refusal, without an effect; 404 means that the object is not there. *)
Definition absent (c : lakefs) (v : View) : Prop :=
  match c with
  | GetObject name reference path => find_object v name reference path = None
  | DeleteRepository name => v_repos v !! name = None
  | GetBranch name _ => v_repos v !! name = None
  | _ => True
  end.
Definition refused (c : lakefs) (v : View) (code : N) : Prop :=
  is_success code = false /\ (code = NOT_FOUND -> absent c v).

Definition succeeded (resp : response) : Prop := is_success (status resp) = true.

(** New commit ids were never used in a repository of this name. *)
Definition fresh_commit (name id : string) (v : View) : Prop :=
  (name, id) ∉ v_issued v /\ valid_revision id = true.

Inductive lakefs_step : lakefs -> View -> result response -> View -> Prop :=
  | lf_fail c v e : lakefs_step c v (Err e) v
  | lf_refused c v resp : refused c v (status resp) -> lakefs_step c v (Ok resp) v
  | lf_branch name branch v repo resp :
      v_repos v !! name = Some repo -> lr_branch repo = branch -> succeeded resp ->
      delivers_member "commit_id" (lr_head repo) resp ->
      lakefs_step (GetBranch name branch) v (Ok resp) v
  | lf_create name namespace branch id v objects res :
      v_repos v !! name = None -> fresh_commit name id v ->
      same_outside namespace (v_objects v) objects ->
      answered succeeded res ->
      lakefs_step (CreateRepository name namespace branch) v res (created name namespace branch id v objects)
  | lf_delete name v repo objects res :
      v_repos v !! name = Some repo -> same_outside (lr_namespace repo) (v_objects v) objects ->
      answered succeeded res ->
      lakefs_step (DeleteRepository name) v res (removed name v objects)
  | lf_object name reference path payload v resp :
      find_object v name reference path = Some payload -> succeeded resp -> delivers resp payload ->
      lakefs_step (GetObject name reference path) v (Ok resp) v
  | lf_upload name branch path payload v repo objects res :
      v_repos v !! name = Some repo -> lr_branch repo = branch ->
      same_outside (lr_namespace repo) (v_objects v) objects -> answered succeeded res ->
      lakefs_step (UploadObject name branch path payload) v res (staged name path payload repo v objects)
  | lf_commit name branch message author digest id v repo objects res :
      v_repos v !! name = Some repo -> lr_branch repo = branch -> fresh_commit name id v ->
      same_outside (lr_namespace repo) (v_objects v) objects ->
      answered (fun resp => succeeded resp /\ delivers_member "id" id resp) res ->
      lakefs_step (CommitBranch name branch message author digest) v res
        (committed_to name id message author repo v objects).

(** ** S3 *)
Definition with_objects (objects : gmap (string * string) string) (v : View) : View :=
  {| v_repos := v_repos v; v_issued := v_issued v; v_objects := objects |}.
Definition listable (v : View) (bucket prefix key : string) : Prop :=
  is_Some (v_objects v !! (bucket, key)) /\ starts_with prefix key = true.

(** What a request may answer, and what it may do.  The cache, the locks and
    the clock belong to the process. *)
Definition service_step {B} (c : syscall B) : View -> result B -> View -> Prop :=
  match c in syscall B return View -> result B -> View -> Prop with
  | Lakefs c => lakefs_step c
  | S3Get bucket key => fun v res v' =>
      v' = v /\ answered (fun found =>
        match found, v_objects v !! (bucket, key) with
        | None, None => True
        | Some object, Some payload => answered (.= payload) (so_body object)
        | _, _ => False
        end) res
  | S3Put bucket key payload => fun v res v' =>
      v' = with_objects (<[(bucket, key) := payload]> (v_objects v)) v \/
      (v' = v /\ is_Ok res = false)
  | S3List bucket prefix max_keys => fun v res v' =>
      v' = v /\ answered (fun listed => exists keys, listed = Some <$> keys /\
        length keys <= max_keys /\ Forall (listable v bucket prefix) keys /\
        (keys = [] -> forall key, ~ listable v bucket prefix key)) res
  | S3Delete bucket keys => fun v res v' =>
      exists gone, gone ⊆ keys /\ answered (fun errors => errors = 0 -> keys ⊆ gone) res /\
        v' = with_objects (filter (fun kv => kv.1 ∉ (pair bucket <$> gone)) (v_objects v)) v
  | CacheGet _ | CacheInsert _ _ | CacheInvalidate _ | Lock _ | Clock => fun _ _ _ => True
  end.
End services.

(** ** Services and their clients *)
Class Services (Srv : Type) `{StorageExternals} := {
  send : forall {B}, syscall B -> Srv -> result B * Srv;
  view : Srv -> View;
  service_law {B} (c : syscall B) s : service_step c (view s) (send c s).1 (view (send c s).2);
}.

(** The process: the services and the marker cache, calls one at a time. *)
Record machine (Srv : Type) : Type := {
  m_services : Srv;
  m_cache : gmap string (option TenantMarker);
  m_clock : Z;
}.
Arguments m_services {_} _.
Arguments m_cache {_} _.
Arguments m_clock {_} _.

Section run.
Context {Srv : Type} `{Services Srv}.
Definition with_cache (cache : gmap string (option TenantMarker)) (m : machine Srv) : machine Srv :=
  {| m_services := m_services m; m_cache := cache; m_clock := m_clock m |}.
Definition syscall_run {B} (c : syscall B) (m : machine Srv) : result B * machine Srv :=
  match c in syscall B return result B * machine Srv with
  | CacheGet t => (Ok (m_cache m !! t), m)
  | CacheInsert t marker => (Ok tt, with_cache (<[t := marker]> (m_cache m)) m)
  | CacheInvalidate t => (Ok tt, with_cache (delete t (m_cache m)) m)
  | Lock _ => (Ok tt, m)
  | Clock => (Ok (m_clock m),
      {| m_services := m_services m; m_cache := m_cache m; m_clock := m_clock m + 1 |})
  | c => let '(res, srv) := send c (m_services m) in
         (res, {| m_services := srv; m_cache := m_cache m; m_clock := m_clock m |})
  end.
Fixpoint run {A} (p : io A) (m : machine Srv) : result A * machine Srv :=
  match p with
  | Ret r => (r, m)
  | Call c k => let '(res, m) := syscall_run c m in run (k res) m
  end.
End run.

(** ** Reasoning about programs

    [iwp p v cache Q]: from the view [v] and the cache, whatever the services
    answer, [p] ends with a result, a view and a cache that satisfy [Q]. *)
Section iwp.
Context `{StorageExternals}.
Notation Cache := (gmap string (option TenantMarker)).
Implicit Types (v : View) (cache : Cache).

Definition syscall_wp {B} (c : syscall B) : View -> Cache -> (result B -> View -> Cache -> Prop) -> Prop :=
  match c in syscall B return View -> Cache -> (result B -> View -> Cache -> Prop) -> Prop with
  | CacheGet t => fun v cache Φ => Φ (Ok (cache !! t)) v cache
  | CacheInsert t marker => fun v cache Φ => Φ (Ok tt) v (<[t := marker]> cache)
  | CacheInvalidate t => fun v cache Φ => Φ (Ok tt) v (delete t cache)
  | Lock _ => fun v cache Φ => Φ (Ok tt) v cache
  | Clock => fun v cache Φ => forall z, Φ (Ok z) v cache
  | c => fun v cache Φ => forall res v', service_step c v res v' -> Φ res v' cache
  end.
Fixpoint iwp {A} (p : io A) v cache (Q : result A -> View -> Cache -> Prop) : Prop :=
  match p with
  | Ret r => Q r v cache
  | Call c k => syscall_wp c v cache (fun res v' cache' => iwp (k res) v' cache' Q)
  end.

Lemma syscall_wp_mono {B} (c : syscall B) v cache (Φ Ψ : result B -> View -> Cache -> Prop) :
  (forall r v' cache', Φ r v' cache' -> Ψ r v' cache') -> syscall_wp c v cache Φ -> syscall_wp c v cache Ψ.
Proof. intros Hi. destruct c; simpl; auto. Qed.

Lemma iwp_mono {A} (p : io A) v cache (Q R : result A -> View -> Cache -> Prop) :
  (forall r v' cache', Q r v' cache' -> R r v' cache') -> iwp p v cache Q -> iwp p v cache R.
Proof.
  intros Hi. revert v cache. induction p as [r|B c k IH]; intros v cache; simpl; [apply Hi|].
  apply syscall_wp_mono. intros r v' cache'. apply IH.
Qed.

Lemma iwp_bind {A B} (p : io A) (f : A -> io B) v cache (Q : result B -> View -> Cache -> Prop) :
  iwp p v cache (fun r v' cache' =>
    match r with Ok a => iwp (f a) v' cache' Q | Err e => Q (Err e) v' cache' end) ->
  iwp (p ≫= f) v cache Q.
Proof.
  revert v cache. induction p as [[a|e]|C c k IH]; intros v cache; simpl; [done..|].
  apply syscall_wp_mono. intros r v' cache'. apply IH.
Qed.

Lemma iwp_pure {A} (r : result A) v cache (Q : result A -> View -> Cache -> Prop) :
  Q r v cache -> iwp (pure r) v cache Q.
Proof. done. Qed.
End iwp.

Lemma run_iwp {Srv} `{Services Srv} {A} (p : io A) (m : machine Srv) Q :
  iwp p (view (m_services m)) (m_cache m) Q ->
  Q (run p m).1 (view (m_services (run p m).2)) (m_cache (run p m).2).
Proof.
  revert m. induction p as [r|B c k IH]; intros m; simpl; [done|].
  assert (forall res srv, send c (m_services m) = (res, srv) ->
    service_step c (view (m_services m)) res (view srv)) as Hlaw.
  { intros res srv E. pose proof (service_law c (m_services m)) as Hl. by rewrite E in Hl. }
  destruct c; cbn [syscall_wp syscall_run]; 
    try (intros Hq; first [exact (IH _ m Hq) | exact (IH _ (with_cache _ m) Hq)
      | exact (IH _ {| m_services := m_services m; m_cache := m_cache m; m_clock := m_clock m + 1 |}
          (Hq (m_clock m)))]).
  all: destruct (send _ (m_services m)) as [res srv] eqn:E; intros Hq.
  all: exact (IH _ {| m_services := srv; m_cache := m_cache m; m_clock := m_clock m |}
    (Hq res (view srv) (Hlaw _ _ eq_refl))).
Qed.
