(* ===== verification/LakeFsFacts.v ===== *)
(** * LakeFsFacts: LakeFsStore implements the store contract

    Against services with the documented behaviour, every method of
    [LakeFsStore] is a step of the contract [store_step], also when requests
    fail or lose their acknowledgement in the middle of a method. *)

From S2P Require Import Prelude Text RustStr Json Authoring State Store StoreLogic Serde StateJson.
From S2P Require Import LakeFs Services.
From Stdlib Require Import Ascii.

(** ** Prefixes of byte strings *)
Lemma starts_with_iff p s : starts_with p s = true <-> exists k, s = p +:+ k.
Proof.
  unfold starts_with. revert s. induction p as [|c p IH]; intros s; simpl.
  - split; [by exists s|by destruct s].
  - destruct s as [|d s]; simpl; [split; [done|by intros [k [=]]]|].
    destruct (ascii_dec c d) as [->|Hne]; [|split; [done|intros [k [=]]; by subst]].
    rewrite IH. split; [intros [k ->]; by exists k|intros [k [= ->]]; by exists k].
Qed.

Lemma starts_with_app p q s : starts_with (p +:+ q) (p +:+ s) = starts_with q s.
Proof.
  apply eq_true_iff_eq. rewrite !starts_with_iff. split; intros [k E]; exists k.
  - rewrite string_app_assoc in E. by apply (inj (String.append p)) in E.
  - by rewrite E, string_app_assoc.
Qed.

(** A tenant identity holds no slash: it is determined by any path below it. *)
Definition tenant_byte (c : ascii) : bool := is_ascii_alphanumeric c || one_of "_-" c.
Lemma tenant_path t t' r r' :
  valid_tenant t = true -> valid_tenant t' = true ->
  t +:+ String "/" r = t' +:+ String "/" r' -> t = t' /\ r = r'.
Proof.
  intros Ht Ht'. apply (split_at_separator tenant_byte); [done|..].
  - by apply andb_prop in Ht as [_ ?].
  - by apply andb_prop in Ht' as [_ ?].
Qed.

Lemma store_new_namespace `{StorageExternals} config s3 self :
  store_new config s3 = Ok self ->
  lc_storage_namespace (ls_config self) =
    "s3://" +:+ sd_bucket (ls_directory self) +:+ "/" +:+ sd_prefix (ls_directory self).
Proof.
  unfold store_new, directory_new. intros Hn. res_inv.
  repeat match goal with
  | E : ensure _ _ = Ok _ |- _ => apply ensure_Ok_inv in E
  | E : with_context _ _ = Ok _ |- _ => apply context_Ok_inv in E
  | E : (let '(_, _) := ?p in _) = Ok _ |- _ => destruct p as [b p0]; simpl in E; res_inv
  end. simpl.
  match goal with E : strip_prefix _ _ = Some _ |- _ => apply strip_prefix_Some in E as -> end.
  match goal with E : split_once _ _ = Some _ |- _ => apply split_once_Some in E as -> end. done.
Qed.

(** The round trip serde_json documents, for every document Rust can hold. *)
Class StorageLaws `{Externals} `{StorageExternals} := {
  serde_json_round_trip v bytes :
    json_to_vec v = Ok bytes -> value_rep v = true -> json_from_slice bytes = Ok v;
}.

(** ** The simulation relation *)
Section coordinates.
Context `{Externals} (self : LakeFsStore).
Definition repo_name (t : string) : string :=
  take_bytes 63 (lc_repository_prefix (ls_config self) +:+ "-" +:+ sha256_hex t).
Definition repo_namespace (t : string) : string :=
  lc_storage_namespace (ls_config self) +:+ t +:+ "/_lakefs/".
Definition marker_object (t : string) : string * string :=
  (bucket self, sd_prefix (ls_directory self) +:+ t +:+ "/_registry/tenant.json").
Definition tenant_marker (t : string) : TenantMarker :=
  {| tm_version := TENANT_MARKER_VERSION; tm_tenant_id := t; tm_repository := repo_name t |}.

(** A commit holds the artifacts of a state, or none for the empty state. *)
Definition stores (commit : LakeCommit) (s : TenantState) : Prop :=
  (lk_objects commit = ∅ /\ s = ∅) \/
  (exists p o, lk_objects commit !! PIPELINE_STATE_PATH = Some p /\
    lk_objects commit !! ONTOLOGY_STATE_PATH = Some o /\
    json_to_vec (json_pipeline_state s) = Ok p /\ json_to_vec (json_ontology_state s) = Ok o /\
    state_rep s /\ value_rep (json_pipeline_state s) = true /\ value_rep (json_ontology_state s) = true).

(** One tenant: it exists when its marker and its repository do.  A marker alone
    is a deletion that was interrupted, a repository alone a creation that was;
    the cache may be older than the marker in S3, but not than the repository. *)
Record tenant_sim (v : View) (cache : gmap string (option TenantMarker)) (w : World) (t : string)
    : Prop := {
  ts_cached m : cache !! t = Some (Some m) -> m = tenant_marker t;
  ts_cached_none : cache !! t = Some None -> is_Some (v_objects v !! marker_object t) ->
    is_Some (v_repos v !! repo_name t);
  ts_cached_some m : cache !! t = Some (Some m) -> v_objects v !! marker_object t = None ->
    v_repos v !! repo_name t = None;
  ts_repo repo : v_repos v !! repo_name t = Some repo ->
    lr_namespace repo = repo_namespace t /\ lr_branch repo = branch self /\
    is_Some (lr_commits repo !! lr_head repo);
  ts_orphan repo : v_objects v !! marker_object t = None -> v_repos v !! repo_name t = Some repo ->
    lr_commits repo = {[lr_head repo := initial_commit]} /\ log w !! (t, lr_head repo) = None /\
    (repo_name t, lr_head repo) ∈ v_issued v /\ valid_revision (lr_head repo) = true;
  ts_absent : v_objects v !! marker_object t = None \/ v_repos v !! repo_name t = None ->
    repos w !! t = None;
  ts_present repo : is_Some (v_objects v !! marker_object t) -> v_repos v !! repo_name t = Some repo ->
    repos w !! t = Some {| repo_head := lr_head repo; repo_live := dom (lr_commits repo) |};
  ts_commits repo id commit : is_Some (v_objects v !! marker_object t) ->
    v_repos v !! repo_name t = Some repo -> lr_commits repo !! id = Some commit ->
    exists en, log w !! (t, id) = Some en /\ stores commit (en_state en);
  ts_issued id : is_Some (log w !! (t, id)) -> (repo_name t, id) ∈ v_issued v;
}.
End coordinates.

Lemma validate_marker_Ok `{Externals} self t m :
  validate_marker self t m = Ok tt -> m = tenant_marker self t.
Proof.
  unfold validate_marker. intros Hm. apply bind_Ok_inv in Hm as (b & Hb & Hm%ensure_Ok_inv). subst b.
  destruct ((tm_version m =? TENANT_MARKER_VERSION)%Z && String.eqb (tm_tenant_id m) t) eqn:E; [|done].
  apply andb_prop in E as [Hv%Z.eqb_eq Ht%String.eqb_eq]. apply bind_Ok_inv in Hb as (r & Hr & [= Hb]).
  apply bind_Ok_inv in Hr as ([] & _ & [= <-]). apply String.eqb_eq in Hb.
  destruct m. simpl in *. unfold tenant_marker. by rewrite Hv, Ht, Hb.
Qed.

Lemma tenant_sim_ext `{Externals} self v v' cache cache' w w' t :
  v_objects v' !! marker_object self t = v_objects v !! marker_object self t ->
  v_repos v' !! repo_name self t = v_repos v !! repo_name self t ->
  v_issued v ⊆ v_issued v' -> cache' !! t = cache !! t -> repos w' !! t = repos w !! t ->
  (forall id, log w' !! (t, id) = log w !! (t, id)) ->
  tenant_sim self v cache w t -> tenant_sim self v' cache' w' t.
Proof.
  intros Ho Hr Hi Hc Hw Hl [H1 H2 H3 H4 H5 H6 H7 H8 H9].
  constructor; rewrite ?Ho, ?Hr, ?Hc, ?Hw; try done.
  - intros repo Hn Hs. rewrite Hl. destruct (H5 repo Hn Hs) as (? & ? & ? & ?). split_and!; auto.
  - intros repo id commit. rewrite Hl. apply H8.
  - intros id. rewrite Hl. auto.
Qed.

(** The tenant of a call, and arguments Rust can represent. *)
Definition call_on (t : string) {B} (o : op B) : Prop :=
  match o with
  | TenantExists t' | EnsureTenant t' | DeleteTenant t' | Load t' _ | Commit t' _ _ _ _ => t' = t
  | Now => True
  end.
Definition call_rep {B} (o : op B) : Prop :=
  match o with
  | Commit _ _ s _ _ => state_rep s /\ value_rep (json_pipeline_state s) = true /\
      value_rep (json_ontology_state s) = true
  | _ => True
  end.

Lemma store_step_local {B} (o : op B) w r w' t t' :
  store_step o w r w' -> call_on t o -> t' <> t ->
  repos w' !! t' = repos w !! t' /\ forall id, log w' !! (t', id) = log w !! (t', id).
Proof.
  intros Hs Hon Hne. destruct Hs; simpl in *; subst; try done;
    rewrite ?lookup_insert_ne, ?lookup_delete_ne by done; (split; [done|]); intros id;
    try done; by rewrite lookup_insert_ne by congruence.
Qed.

Section refinement.
Context `{Externals} `{StorageExternals} `{!StorageLaws}.
Context (self : LakeFsStore) (config : LakeFsConfig) (s3 : S3Config).
Context (Hnew : store_new config s3 = Ok self).
Context (tenants : gset string) (Hvalid : forall t, t ∈ tenants -> valid_tenant t = true).
Context (Hcollision : forall t t', t ∈ tenants -> t' ∈ tenants ->
  repo_name self t = repo_name self t' -> t = t').

Notation Cache := (gmap string (option TenantMarker)).
Implicit Types (v : View) (cache c : Cache) (w : World) (t : string).

(** What a method of the tenant [t] leaves alone. *)
Definition frame t v cache v' (cache' : Cache) : Prop :=
  v_issued v ⊆ v_issued v' /\
  forall t', t' ∈ tenants -> t' <> t ->
    v_objects v' !! marker_object self t' = v_objects v !! marker_object self t' /\
    v_repos v' !! repo_name self t' = v_repos v !! repo_name self t' /\ cache' !! t' = cache !! t'.

Lemma frame_refl t v cache : frame t v cache v cache.
Proof. by split. Qed.
Lemma frame_trans t v1 c1 v2 c2 v3 c3 :
  frame t v1 c1 v2 c2 -> frame t v2 c2 v3 c3 -> frame t v1 c1 v3 c3.
Proof.
  intros [Hi H12] [Hi' H23]. split; [by etrans|]. intros t' Ht' Hne.
  destruct (H12 t' Ht' Hne) as (<- & <- & <-). by apply H23.
Qed.

Lemma namespace_avoids_marker t t' :
  t ∈ tenants -> t' ∈ tenants -> ~ in_namespace (repo_namespace self t) (marker_object self t').
Proof.
  intros Ht Ht'. unfold in_namespace, repo_namespace, marker_object.
  rewrite (store_new_namespace _ _ _ Hnew), !string_app_assoc.
  change (fst (bucket self, ?x)) with (bucket self). cbn [fst snd]. unfold bucket.
  rewrite !starts_with_app. intros [k E]%starts_with_iff. rewrite string_app_assoc in E.
  apply tenant_path in E as [_ E]; [|by apply Hvalid..]. done.
Qed.

Lemma same_outside_marker t t' objects objects' :
  t ∈ tenants -> t' ∈ tenants -> same_outside (repo_namespace self t) objects objects' ->
  objects' !! marker_object self t' = objects !! marker_object self t'.
Proof. intros Ht Ht' Hs. by apply Hs, namespace_avoids_marker. Qed.

Lemma key_Ok relative k : key self relative = Ok k -> k = sd_prefix (ls_directory self) +:+ relative.
Proof. unfold key. by intros (_ & _ & [= <-])%bind_Ok_inv. Qed.

Lemma read_iwp relative v c (Q : result (option string) -> View -> Cache -> Prop) :
  (forall e, Q (Err e) v c) ->
  (let object := v_objects v !! (bucket self, sd_prefix (ls_directory self) +:+ relative) in
   Q (Ok object) v c) -> iwp (read self relative) v c Q.
Proof.
  intros Herr Hok. unfold read. apply iwp_bind. simpl.
  destruct (key self relative) as [k|e] eqn:Ek; [|apply Herr]. apply key_Ok in Ek as ->.
  simpl. intros res v' [-> Hres]. destruct res as [found|e]; simpl; [|apply Herr].
  specialize (Hres found eq_refl). destruct found as [object|]; simpl.
  - destruct (v_objects v !! _) as [payload|]; [|done].
    destruct (is_some_and _ _); simpl; [|apply Herr].
    destruct (so_body object) as [bytes|e]; simpl; [|apply Herr].
    by rewrite (Hres bytes eq_refl).
  - by destruct (v_objects v !! _).
Qed.

Lemma branch_head_iwp name v c (Q : result string -> View -> Cache -> Prop) :
  (forall e, Q (Err e) v c) ->
  (forall repo, v_repos v !! name = Some repo -> valid_revision (lr_head repo) = true ->
    Q (Ok (lr_head repo)) v c) ->
  iwp (branch_head self name) v c Q.
Proof.
  intros Herr Hok. unfold branch_head. simpl. intros res v' Hstep.
  inversion Hstep as [|cc v1 resp Href|n b v1 repo resp Hr Hb Hs Hd| | | | |]; subst; simpl.
  - apply Herr.
  - destruct Href as [-> _]. apply Herr.
  - rewrite Hs. simpl. destruct (json_member "commit_id" resp) as [h|e] eqn:E; simpl; [|apply Herr].
    rewrite (Hd h E). destruct (valid_revision (lr_head repo)) eqn:Ev; simpl; [|apply Herr].
    by apply Hok.
Qed.

Lemma read_chunks_all chunks payload bytes :
  read_chunks chunks payload = Ok bytes -> exists rest, read_all chunks = Ok rest /\ bytes = payload +:+ rest.
Proof.
  revert payload. induction chunks as [|chunk chunks IH]; intros payload; simpl.
  - intros [= <-]. exists EmptyString. by rewrite string_app_nil_r.
  - intros (chunk' & -> & Hr)%bind_Ok_inv. res_inv. apply IH in Hr as (rest & -> & ->).
    exists (chunk' +:+ rest). by rewrite string_app_assoc.
Qed.

Lemma read_artifact_iwp {T} (empty : T) decode name reference path v c
    (Q : result T -> View -> Cache -> Prop) :
  (forall e, Q (Err e) v c) ->
  (find_object v name reference path = None -> Q (Ok empty) v c) ->
  (forall payload doc a, find_object v name reference path = Some payload ->
    json_from_slice payload = Ok doc -> decode doc = Ok a -> Q (Ok a) v c) ->
  iwp (read_artifact empty decode name reference path) v c Q.
Proof.
  intros Herr Hnone Hok. unfold read_artifact. simpl. intros res v' Hstep.
  inversion Hstep as [|cc v1 resp Href| | | |n r p payload v1 resp Hf Hs Hd| |]; subst; simpl.
  - apply Herr.
  - destruct Href as [Hns Habs]. destruct (status resp =? NOT_FOUND)%N eqn:E.
    + apply N.eqb_eq in E. by apply Hnone, Habs.
    + simpl. rewrite Hns. apply Herr.
  - destruct (status resp =? NOT_FOUND)%N eqn:E.
    { apply N.eqb_eq in E. unfold succeeded in Hs. by rewrite E in Hs. }
    rewrite Hs. simpl. destruct (content_length resp) as [len|]; simpl; [|apply Herr].
    destruct (len <=? MAX_STATE_BYTES)%N; simpl; [|apply Herr].
    destruct (len <=? USIZE_MAX)%N; simpl; [|apply Herr].
    destruct (read_chunks (chunks resp) EmptyString) as [bytes|e] eqn:Er; simpl; [|apply Herr].
    apply read_chunks_all in Er as (rest & Hall & ->).
    change (EmptyString +:+ rest) with rest. rewrite (Hd rest Hall).
    destruct (json_from_slice payload) as [doc|e] eqn:Ed; simpl; [|apply Herr].
    destruct (decode doc) as [a|e] eqn:Ea; simpl; [|apply Herr]. by eapply Hok.
Qed.

(** What a commit stores is what reading it returns. *)
Definition commit_at v (name reference : string) : option LakeCommit :=
  repo ← v_repos v !! name; lr_commits repo !! reference.
Lemma find_object_at v name reference path :
  find_object v name reference path = commit ← commit_at v name reference; lk_objects commit !! path.
Proof. unfold find_object, commit_at. by destruct (v_repos v !! name). Qed.

Lemma read_empty_iwp name reference v c (Q : result TenantState -> View -> Cache -> Prop) :
  (forall path, find_object v name reference path = None) -> (forall e, Q (Err e) v c) ->
  Q (Ok ∅) v c -> iwp (read_state name reference) v c Q.
Proof.
  intros Hnone Herr Hok. unfold read_state.
  apply iwp_bind, read_artifact_iwp; [done| |by intros ???; rewrite Hnone]. intros _.
  apply iwp_bind, read_artifact_iwp; [done| |by intros ???; rewrite Hnone]. done.
Qed.

Lemma read_state_iwp name reference v c (Q : result TenantState -> View -> Cache -> Prop) :
  (forall e, Q (Err e) v c) ->
  (commit_at v name reference = None -> Q (Ok ∅) v c) ->
  (forall commit, commit_at v name reference = Some commit -> exists s, stores commit s /\ Q (Ok s) v c) ->
  iwp (read_state name reference) v c Q.
Proof.
  intros Herr Hnone Hsome. destruct (commit_at v name reference) as [commit|] eqn:Ec.
  - destruct (Hsome commit eq_refl) as (s & [[He ->]|(p & o & Hp & Ho & Ep & Eo & Hrep & Rp & Ro)] & HQ).
    + apply read_empty_iwp; [|done..]. intros path. by rewrite find_object_at, Ec; simpl; rewrite He.
    + assert (find_object v name reference PIPELINE_STATE_PATH = Some p) as Fp
        by (rewrite find_object_at, Ec; exact Hp).
      assert (find_object v name reference ONTOLOGY_STATE_PATH = Some o) as Fo
        by (rewrite find_object_at, Ec; exact Ho).
      unfold read_state. apply iwp_bind, read_artifact_iwp; [done|by rewrite Fp|].
      rewrite Fp. intros payload doc a [= <-] Hdoc Ha.
      rewrite (serde_json_round_trip _ _ Ep Rp) in Hdoc. injection Hdoc as <-.
      rewrite de_pipeline_state_json in Ha by done. injection Ha as <-.
      apply iwp_bind, read_artifact_iwp; [done|by rewrite Fo|].
      rewrite Fo. intros payload doc a [= <-] Hdoc Ha.
      rewrite (serde_json_round_trip _ _ Eo Ro) in Hdoc. injection Hdoc as <-.
      rewrite de_ontology_state_json in Ha by done. injection Ha as <-. simpl. by destruct s.
  - apply read_empty_iwp; [|by auto..]. intros path. by rewrite find_object_at, Ec.
Qed.

Lemma iwp_assert {A} b m (f : unit -> io A) v c (Q : result A -> View -> Cache -> Prop) :
  (forall e, Q (Err e) v c) -> (b = true -> iwp (f tt) v c Q) -> iwp (assert b m ≫= f) v c Q.
Proof. intros Herr Hok. apply iwp_bind. destruct b; simpl; auto. Qed.

Lemma tenant_lock_iwp {A} t (f : unit -> io A) v c (Q : result A -> View -> Cache -> Prop) :
  (forall e, Q (Err e) v c) -> iwp (f tt) v c Q -> iwp (tenant_lock t ≫= f) v c Q.
Proof.
  intros Herr Hok. apply iwp_bind. unfold tenant_lock. do 2 (apply iwp_assert; [done|intros _]). done.
Qed.

Lemma marker_object_inj t t' :
  t ∈ tenants -> t' ∈ tenants -> marker_object self t = marker_object self t' -> t = t'.
Proof.
  intros Ht Ht' [= E]. apply (inj (String.append _)) in E.
  apply tenant_path in E as [-> _]; [done|by apply Hvalid..].
Qed.

Lemma mapM_some {A} m (l : list A) : mapM (with_context m) (Some <$> l) = Ok l.
Proof. apply mapM_Ok_Forall2. induction l; constructor; done. Qed.

Section method.
Context (t : string) (Ht : t ∈ tenants) (v0 : View) (c0 : Cache) (w : World).

(** In the middle of a method the world is still [w]; at its end it has made
    one step. *)
Definition inv v c : Prop := frame t v0 c0 v c /\ tenant_sim self v c w t.
Definition post {B} (o : op B) (r : result B) v c : Prop :=
  frame t v0 c0 v c /\ exists w', store_step o w r w' /\ tenant_sim self v c w' t.

Lemma inv_fail {B} (o : op B) e v c : inv v c -> post o (Err e) v c.
Proof. intros [Hf Hs]. split; [done|]. exists w. split; [constructor|done]. Qed.

Lemma inv_cache v c m :
  inv v c -> (forall m', m = Some m' -> m' = tenant_marker self t) ->
  (m = None -> is_Some (v_objects v !! marker_object self t) -> is_Some (v_repos v !! repo_name self t)) ->
  (m <> None -> v_objects v !! marker_object self t = None -> v_repos v !! repo_name self t = None) ->
  inv v (<[t := m]> c).
Proof.
  intros [[Hi Hf] [S1 S2 S3 S4 S5 S6 S7 S8 S9]] Hm Hn Hs. split.
  - split; [done|]. intros t' Ht' Hne. rewrite lookup_insert_ne by done. auto.
  - constructor; rewrite ?lookup_insert_eq; try done.
    + intros m' [= ->]. auto.
    + intros [= ->]. auto.
    + intros m' [= ->]. auto.
Qed.

Lemma marker_iwp v c Q :
  inv v c -> (forall e, Q (Err e) v c) ->
  (forall c', inv v c' -> c' !! t = Some (Some (tenant_marker self t)) ->
    Q (Ok (Some (tenant_marker self t))) v c') ->
  (forall c', inv v c' -> c' !! t = Some None -> Q (Ok None) v c') ->
  iwp (marker self t) v c Q.
Proof.
  intros Hinv Herr Hsome Hnone. unfold marker. apply iwp_bind. simpl.
  rewrite (Hvalid t Ht). simpl. destruct (c !! t) as [[m|]|] eqn:Ec; simpl.
  - assert (m = tenant_marker self t) as -> by exact (ts_cached _ _ _ _ _ (proj2 Hinv) m Ec).
    by apply Hsome.
  - by apply Hnone.
  - unfold marker_key. rewrite (Hvalid t Ht). cbn [ensure mbind result_bind io_bind pure].
    apply iwp_bind, read_iwp; [done|]. cbv zeta. fold (marker_object self t).
    destruct (v_objects v !! marker_object self t) as [payload|] eqn:Eo; simpl.
    + destruct (decode_marker payload) as [m|e]; simpl; [|done].
      destruct (validate_marker self t m) as [[]|e] eqn:Ev; simpl; [|done].
      apply validate_marker_Ok in Ev as ->. apply Hsome; [|by rewrite lookup_insert_eq].
      apply inv_cache; [done|by intros m' [= ->]|done|]. by rewrite Eo.
    + apply Hnone; [|by rewrite lookup_insert_eq].
      apply inv_cache; [done..| |done]. rewrite Eo. by intros _ [? [=]].
Qed.

(** The requests of a method only touch the tenant's repository and namespace. *)
Lemma inv_lakefs v v' c :
  inv v c -> v_issued v ⊆ v_issued v' ->
  (forall name, name <> repo_name self t -> v_repos v' !! name = v_repos v !! name) ->
  same_outside (repo_namespace self t) (v_objects v) (v_objects v') -> frame t v0 c0 v' c.
Proof.
  intros [Hf _] Hi Hr Ho. eapply frame_trans; [exact Hf|]. split; [done|]. intros t' Ht' Hne. split_and!.
  - by apply (same_outside_marker t).
  - apply Hr. intros E. by apply Hne, Hcollision.
  - done.
Qed.

Lemma stage_iwp path doc v c repo (Q : result unit -> View -> Cache -> Prop) :
  inv v c -> v_repos v !! repo_name self t = Some repo ->
  (forall e v', inv v' c -> Q (Err e) v' c) ->
  (forall payload v' repo', json_to_vec doc = Ok payload -> inv v' c ->
    v_objects v' !! marker_object self t = v_objects v !! marker_object self t ->
    v_repos v' !! repo_name self t = Some repo' -> lr_head repo' = lr_head repo ->
    lr_commits repo' = lr_commits repo -> lr_staged repo' = <[path := payload]> (lr_staged repo) ->
    Q (Ok tt) v' c) ->
  iwp (stage_artifact self (repo_name self t) path doc) v c Q.
Proof.
  intros Hinv Hrepo Herr Hok. unfold stage_artifact. simpl.
  destruct (json_to_vec doc) as [payload|e]; simpl; [|by apply Herr].
  destruct (N.of_nat (String.length payload) <=? MAX_STATE_BYTES)%N; simpl; [|by apply Herr].
  intros res v' Hstep.
  inversion Hstep as [|cc v1 resp [Href _]| | | | |n b p pl v1 repo1 objects res' Hr Hb Ho Hres|];
    subst; simpl; [by apply Herr|rewrite Href; by apply Herr|].
  rewrite Hrepo in Hr. injection Hr as <-. destruct Hinv as [Hf Hs].
  destruct (ts_repo _ _ _ _ _ Hs repo Hrepo) as (Hns & Hbr & Hhead). rewrite Hns in Ho.
  pose proof (same_outside_marker t t _ _ Ht Ht Ho) as Hmark.
  set (v' := staged (repo_name self t) path payload repo v objects).
  assert (inv v' c) as Hinv'.
  { split.
    - apply (inv_lakefs v); [by split|done| |done]. intros name Hne. simpl. by rewrite lookup_insert_ne.
    - destruct Hs as [S1 S2 S3 S4 S5 S6 S7 S8 S9].
      constructor; simpl; rewrite ?Hmark, ?lookup_insert_eq; try done.
      + intros m Hm Hn. rewrite (S3 m Hm Hn) in Hrepo. done.
      + intros repo' [= <-]. simpl. by apply S4.
      + intros repo' Hn [= <-]. simpl. by apply S5.
      + intros [Hn|[=]]. apply S6. by left.
      + intros repo' Hp [= <-]. simpl. by apply S7.
      + intros repo' id commit Hp [= <-]. simpl. by apply S8. }
  destruct res as [resp|e]; simpl; [|by apply Herr].
  rewrite (Hres resp eq_refl). simpl.
  eapply Hok; [done|done|exact Hmark|simpl; by rewrite lookup_insert_eq|done..].
Qed.

Lemma require_tenant_iwp v c (Q : result TenantMarker -> View -> Cache -> Prop) :
  inv v c -> (forall e c', inv v c' -> Q (Err e) v c') ->
  (forall c', inv v c' -> c' !! t = Some (Some (tenant_marker self t)) ->
    Q (Ok (tenant_marker self t)) v c') ->
  iwp (require_tenant self t) v c Q.
Proof.
  intros Hinv Herr Hok. unfold require_tenant. apply iwp_bind, marker_iwp; [done|by auto|..].
  - intros c' Hinv' Hc. by apply Hok.
  - intros c' Hinv' _. by apply Herr.
Qed.

(** A cached marker and a repository: the tenant exists. *)
Lemma cached_present v c w' m repo :
  tenant_sim self v c w' t -> c !! t = Some (Some m) -> v_repos v !! repo_name self t = Some repo ->
  is_Some (v_objects v !! marker_object self t).
Proof.
  intros Hs Hc Hr. destruct (v_objects v !! marker_object self t) eqn:E; [done|].
  by rewrite (ts_cached_some _ _ _ _ _ Hs m Hc E) in Hr.
Qed.

(** The commit request itself: the world moves to the new revision. *)
Lemma commit_step_post v c repo id expected s author message objects p o r :
  let o' := Commit t expected s author message in
  let v' := committed_to (repo_name self t) id message author repo v objects in
  inv v c -> c !! t = Some (Some (tenant_marker self t)) -> v_repos v !! repo_name self t = Some repo ->
  lr_head repo = expected -> fresh_commit (repo_name self t) id v ->
  same_outside (repo_namespace self t) (v_objects v) objects ->
  lr_staged repo !! PIPELINE_STATE_PATH = Some p -> lr_staged repo !! ONTOLOGY_STATE_PATH = Some o ->
  json_to_vec (json_pipeline_state s) = Ok p -> json_to_vec (json_ontology_state s) = Ok o ->
  state_rep s -> value_rep (json_pipeline_state s) = true -> value_rep (json_ontology_state s) = true ->
  r = Ok id \/ (exists e, r = Err e) -> post o' r v' c.
Proof.
  intros o' v' Hinv Hc Hrepo Hexp [Hfresh Hvid] Ho Hp Hon Ep Eo Hrep Rp Ro Hr.
  pose proof (same_outside_marker t t _ _ Ht Ht Ho) as Hmark.
  split.
  { apply (inv_lakefs v); [done|simpl; set_solver| |done]. intros name Hne. simpl.
    by rewrite lookup_insert_ne. }
  destruct Hinv as [_ Hs]. pose proof (cached_present _ _ _ _ _ Hs Hc Hrepo) as Hpres.
  pose proof Hs as [S1 S2 S3 S4 S5 S6 S7 S8 S9].
  assert (log w !! (t, id) = None) as Hlog.
  { destruct (log w !! (t, id)) eqn:E; [|done]. destruct Hfresh. apply S9. by rewrite E. }
  eexists. split.
  { eapply step_commit; [by apply S7|done|exact Hlog|done|done]. }
  constructor; simpl; rewrite ?Hmark, ?lookup_insert_eq; try done.
  - intros m _ Hn. rewrite Hn in Hpres. by destruct Hpres.
  - intros repo' [= <-]. simpl. destruct (S4 repo Hrepo) as (-> & -> & _).
    split_and!; [done..|]. by rewrite lookup_insert_eq.
  - intros repo' Hn. rewrite Hn in Hpres. by destruct Hpres.
  - intros [Hn|[=]]. rewrite Hn in Hpres. by destruct Hpres.
  - intros repo' _ [= <-]. simpl. by rewrite dom_insert_L.
  - intros repo' id' commit _ [= <-]. simpl. rewrite lookup_insert. case_decide as E.
    + subst id'. intros [= <-]. rewrite lookup_insert_eq. eexists. split; [done|]. simpl. right.
      exists p, o. split_and!; try done; simpl; by apply lookup_union_Some_l.
    + intros Hcm. rewrite lookup_insert_ne by congruence. by apply (S8 repo).
  - intros id'. rewrite lookup_insert. case_decide as E; [injection E as ->; set_solver|].
    intros Hl. apply S9 in Hl. set_solver.
Qed.

Lemma lake_commit_iwp expected s author message :
  tenant_sim self v0 c0 w t -> state_rep s -> value_rep (json_pipeline_state s) = true ->
  value_rep (json_ontology_state s) = true ->
  iwp (lake_commit self t expected s author message) v0 c0 (post (Commit t expected s author message)).
Proof.
  intros Hs Hrep Rp Ro. assert (inv v0 c0) as Hinv by (split; [apply frame_refl|done]).
  assert (forall e, post (Commit t expected s author message) (Err e) v0 c0) as Herr
    by (intros; by apply inv_fail).
  unfold lake_commit. do 3 (apply iwp_assert; [exact Herr|intros _]).
  apply tenant_lock_iwp; [exact Herr|].
  apply iwp_bind, require_tenant_iwp; [done|by intros; apply inv_fail|]. intros c Hc Hcached.
  apply iwp_bind, branch_head_iwp; [by intros; apply inv_fail|]. intros repo Hrepo _.
  apply iwp_assert; [by intros; apply inv_fail|]. intros Eh.
  apply String.eqb_eq in Eh.
  apply iwp_bind, (stage_iwp _ _ _ _ repo); [done..|by intros; apply inv_fail|].
  intros p v1 repo1 Ep Hinv1 _ Hr1 Hh1 Hc1 Hst1.
  apply iwp_bind, (stage_iwp _ _ _ _ repo1); [done..|by intros; apply inv_fail|].
  intros o v2 repo2 Eo Hinv2 _ Hr2 Hh2 Hc2 Hst2.
  simpl. intros res v' Hstep.
  inversion Hstep as [|cc vv resp [Href _]| | | | | |n b m a d id vv repo3 objects res' Hr3 _ Hfr Hout Hans];
    subst; simpl; [by apply inv_fail|rewrite Href|].
  - destruct (negb _); simpl; by apply inv_fail.
  - rewrite Hr2 in Hr3. injection Hr3 as <-.
    destruct (ts_repo _ _ _ _ _ (proj2 Hinv2) repo2 Hr2) as (Hns & _ & _). rewrite Hns in Hout.
    assert (forall r, r = Ok id \/ (exists e, r = Err e) ->
      post (Commit t (lr_head repo) s author message) r
        (committed_to (repo_name self t) id message author repo2 v2 objects) c) as Hpost.
    { intros r Hr. eapply (commit_step_post v2 c repo2 id _ s author message objects p o r); try done.
      - congruence.
      - rewrite Hst2, lookup_insert_ne, Hst1, lookup_insert_eq by done. done.
      - by rewrite Hst2, lookup_insert_eq. }
    destruct res as [resp|e]; simpl; [|apply Hpost; eauto].
    destruct (Hans resp eq_refl) as [Hsucc Hid]. destruct (negb _); simpl; [|apply Hpost; eauto].
    rewrite Hsucc. simpl. destruct (json_member "id" resp) as [rev|e] eqn:Er; simpl; [|apply Hpost; eauto].
    rewrite (Hid rev Er). destruct (valid_revision id); simpl; apply Hpost; eauto.
Qed.

Lemma lake_exists_iwp : inv v0 c0 -> iwp (lake_tenant_exists self t) v0 c0 (post (TenantExists t)).
Proof.
  intros Hinv. assert (forall e c, inv v0 c -> post (TenantExists t) (Err e) v0 c) as Herr
    by (intros; by apply inv_fail).
  unfold lake_tenant_exists. apply iwp_assert; [by auto|intros _].
  apply iwp_bind, marker_iwp; [done|by auto|..]; intros c [Hf Hs] _; simpl;
    (split; [done|]; exists w; split; [constructor|done]).
Qed.

(** The world knows exactly the tenants and the revisions the services have. *)
Lemma pinned_absent v c r :
  tenant_sim self v c w t -> commit_at v (repo_name self t) r = None -> pinned_state t r w = ∅.
Proof.
  intros Hs Hc. unfold pinned_state. destruct (repos w !! t) as [repo|] eqn:E; [|done].
  destruct (v_objects v !! marker_object self t) as [o|] eqn:Eo;
    [|by rewrite (ts_absent _ _ _ _ _ Hs (or_introl Eo)) in E].
  unfold commit_at in Hc. destruct (v_repos v !! repo_name self t) as [lr|] eqn:Er;
    [|by rewrite (ts_absent _ _ _ _ _ Hs (or_intror Er)) in E].
  rewrite (ts_present _ _ _ _ _ Hs lr) in E by (rewrite ?Eo; done). injection E as <-. simpl in *.
  rewrite bool_decide_eq_false_2; [done|]. by apply not_elem_of_dom.
Qed.

Lemma pinned_present v c r m repo commit :
  tenant_sim self v c w t -> c !! t = Some (Some m) -> v_repos v !! repo_name self t = Some repo ->
  lr_commits repo !! r = Some commit ->
  exists en, log w !! (t, r) = Some en /\ stores commit (en_state en) /\ pinned_state t r w = en_state en.
Proof.
  intros Hs Hc Hr Hcm. pose proof (cached_present _ _ _ _ _ Hs Hc Hr) as Hp.
  destruct (ts_commits _ _ _ _ _ Hs repo r commit Hp Hr Hcm) as (en & Hen & Hst).
  exists en. split_and!; [done..|]. unfold pinned_state. rewrite (ts_present _ _ _ _ _ Hs repo Hp Hr).
  simpl. rewrite bool_decide_eq_true_2, Hen by (apply elem_of_dom; eauto). done.
Qed.

Lemma lake_load_iwp rev : inv v0 c0 -> iwp (lake_load self t rev) v0 c0 (post (Load t rev)).
Proof.
  intros Hinv. assert (forall e c, inv v0 c -> post (Load t rev) (Err e) v0 c) as Herr
    by (intros; by apply inv_fail).
  unfold lake_load. do 2 (apply iwp_assert; [by auto|intros _]).
  apply iwp_bind, require_tenant_iwp; [done|by auto|]. intros c Hc Hcached.
  cbv zeta. change (tm_repository (tenant_marker self t)) with (repo_name self t).
  pose proof Hc as [Hf Hs]. apply iwp_bind. destruct rev as [r|].
  - cbn [iwp mret io_ret]. apply iwp_bind, read_state_iwp; [by auto|..].
    + intros Hn. cbn [iwp mret io_ret]. split; [done|]. exists w. split; [|done].
      rewrite <-(pinned_absent _ _ _ Hs Hn). constructor.
    + intros commit (repo & Hr & Hcm)%bind_Some.
      destruct (pinned_present _ _ _ _ _ _ Hs Hcached Hr Hcm) as (en & _ & Hst & Hpin).
      exists (en_state en). split; [done|]. cbn [iwp mret io_ret]. split; [done|]. exists w. split; [|done].
      rewrite <-Hpin. constructor.
  - apply branch_head_iwp; [by auto|]. intros repo Hr _.
    destruct (ts_repo _ _ _ _ _ Hs repo Hr) as (_ & _ & [head Hhead]).
    destruct (pinned_present _ _ _ _ _ _ Hs Hcached Hr Hhead) as (en & Hen & Hst & _).
    assert (commit_at v0 (repo_name self t) (lr_head repo) = Some head) as Hat
      by (unfold commit_at; by rewrite Hr).
    apply iwp_bind, read_state_iwp; [by auto|by rewrite Hat|].
    intros commit Hcm. rewrite Hat in Hcm. injection Hcm as <-. exists (en_state en). split; [done|].
    cbn [iwp mret io_ret]. split; [done|]. exists w. split; [|done].
    eapply (step_load_head t w {| repo_head := lr_head repo; repo_live := dom (lr_commits repo) |});
      [|exact Hen]. eapply ts_present; [exact Hs| |exact Hr]. by eapply cached_present.
Qed.

(** ** Creation *)
Lemma created_inv v c id objects :
  inv v c -> c !! t = Some None -> v_repos v !! repo_name self t = None ->
  fresh_commit (repo_name self t) id v ->
  same_outside (repo_namespace self t) (v_objects v) objects ->
  inv (created (repo_name self t) (repo_namespace self t) (branch self) id v objects) c.
Proof.
  intros Hinv Hc Hr [Hfresh Hid] Ho. pose proof (same_outside_marker t t _ _ Ht Ht Ho) as Hmark. split.
  - apply (inv_lakefs v); [done|simpl; set_solver| |done]. intros name Hne. simpl.
    by rewrite lookup_insert_ne.
  - destruct Hinv as [_ [S1 S2 S3 S4 S5 S6 S7 S8 S9]].
    assert (v_objects v !! marker_object self t = None) as Hnone.
    { destruct (v_objects v !! marker_object self t) eqn:E; [|done].
      destruct S2 as [repo Hrepo]; [done|done|congruence]. }
    constructor; simpl; rewrite ?Hmark, ?lookup_insert_eq, ?Hnone; try done.
    + intros m Hm. by rewrite Hc in Hm.
    + intros repo [= <-]. simpl. by rewrite lookup_singleton_eq.
    + intros repo _ [= <-]. simpl. split_and!; [done| |set_solver|done].
      destruct (log w !! (t, id)) eqn:E; [|done]. destruct Hfresh. apply S9. by rewrite E.
    + intros _. apply S6. by left.
    + intros id' Hl. apply S9 in Hl. set_solver.
Qed.

Lemma ensure_repository_iwp v c (Q : result string -> View -> Cache -> Prop) :
  inv v c -> c !! t = Some None -> (forall e v', inv v' c -> Q (Err e) v' c) ->
  (forall v', inv v' c -> Q (Ok (repo_name self t)) v' c) ->
  iwp (ensure_repository self t) v c Q.
Proof.
  intros Hinv Hc Herr Hok. unfold ensure_repository, repository_for_tenant, namespace_for_tenant.
  rewrite (Hvalid t Ht). simpl. intros res v' Hstep.
  inversion Hstep as [|cc vv resp [Href Habs]|n b vv repo resp Hr Hb Hs Hd| | | | |]; subst; simpl;
    [by apply Herr| |rewrite Hs; by apply Hok].
  rewrite Href. destruct (status resp =? NOT_FOUND)%N; simpl; [|by apply Herr].
  intros res v'' Hstep'.
  inversion Hstep' as [|cc vv resp' Href'| |n ns b id vv objects res' Hr Hfr Ho Hans| | | |]; subst; simpl;
    [by apply Herr|destruct (is_success _ || _); simpl; auto|].
  fold (repo_name self t) in *. fold (repo_namespace self t) in *.
  pose proof (created_inv _ _ _ _ Hinv Hc Hr Hfr Ho) as Hinv'.
  destruct res as [resp'|e]; simpl; [|by apply Herr].
  rewrite (Hans resp' eq_refl). simpl. by apply Hok.
Qed.

(** Writing the marker brings the tenant into existence, unless it was there. *)
Lemma marker_written v c payload repo r :
  inv v c -> c !! t = Some None -> v_repos v !! repo_name self t = Some repo ->
  r = Ok (lr_head repo) \/ (exists e, r = Err e) ->
  let v' := with_objects (<[marker_object self t := payload]> (v_objects v)) v in
  post (EnsureTenant t) r v' c /\ post (EnsureTenant t) r v' (<[t := Some (tenant_marker self t)]> c).
Proof.
  intros [[Hi Hf] [S1 S2 S3 S4 S5 S6 S7 S8 S9]] Hc Hr Hres v'.
  assert (forall c', (forall t', t' <> t -> c' !! t' = c !! t') -> frame t v0 c0 v' c') as Hframe.
  { intros c' Hc'. split; [done|]. intros t' Ht' Hne. simpl.
    rewrite lookup_insert_ne by (intros E; by apply Hne, marker_object_inj).
    rewrite (Hc' t' Hne). auto. }
  enough (exists w', store_step (EnsureTenant t) w r w' /\
    forall c' m, c' !! t = Some m -> (forall m', m = Some m' -> m' = tenant_marker self t) ->
      tenant_sim self v' c' w' t) as (w' & Hstep & Hsim).
  { split; (split; [apply Hframe|exists w'; split; [done|]]).
    - done.
    - by apply (Hsim c None).
    - intros t' Hne. by rewrite lookup_insert_ne.
    - apply (Hsim _ (Some (tenant_marker self t))); [by rewrite lookup_insert_eq|by intros m' [= ->]]. }
  destruct (v_objects v !! marker_object self t) as [old|] eqn:Eo.
  - exists w. split.
    { destruct Hres as [->|[e ->]]; [|constructor].
      apply (step_ensure_present t w {| repo_head := lr_head repo; repo_live := dom (lr_commits repo) |}).
      by apply S7. }
    intros c' m Hc' Hm. constructor; simpl; rewrite ?lookup_insert_eq; try done.
    + intros m' Hm'. rewrite Hc' in Hm'. injection Hm' as ->. by apply Hm.
    + intros [[=]|Hn]. congruence.
    + intros repo' _. apply S7. done.
    + intros repo' id commit _. apply S8. done.
  - destruct (S5 repo eq_refl Hr) as (Hcommits & Hlog & Hiss & Hval).
    exists (create_repository t (lr_head repo) w). split.
    { apply step_ensure_create; [apply S6; by left|done..]. }
    intros c' m Hc' Hm. constructor; simpl; rewrite ?lookup_insert_eq; try done.
    + intros m' Hm'. rewrite Hc' in Hm'. injection Hm' as ->. by apply Hm.
    + intros [[=]|Hn]. congruence.
    + intros repo' _ Hr'. rewrite Hr in Hr'. injection Hr' as <-. by rewrite Hcommits, dom_singleton_L.
    + intros repo' id commit _ Hr'. rewrite Hr in Hr'. injection Hr' as <-. rewrite Hcommits.
      intros [<- <-]%lookup_singleton_Some. rewrite lookup_insert_eq. eexists. split; [done|]. by left.
    + intros id. rewrite lookup_insert. case_decide as E; [by injection E as <-|apply S9].
Qed.

Lemma lake_ensure_iwp : inv v0 c0 -> iwp (lake_ensure_tenant self t) v0 c0 (post (EnsureTenant t)).
Proof.
  intros Hinv. assert (forall e v c, inv v c -> post (EnsureTenant t) (Err e) v c) as Herr
    by (intros; by apply inv_fail).
  unfold lake_ensure_tenant. apply iwp_assert; [by auto|intros _]. apply tenant_lock_iwp; [by auto|].
  apply iwp_bind, marker_iwp; [done|by auto|..]; intros c Hc Hcached.
  - change (tm_repository (tenant_marker self t)) with (repo_name self t).
    apply branch_head_iwp; [by auto|]. intros repo Hr _. destruct Hc as [Hf Hs].
    split; [done|]. exists w. split; [|done].
    apply (step_ensure_present t w {| repo_head := lr_head repo; repo_live := dom (lr_commits repo) |}).
    eapply ts_present; [exact Hs| |exact Hr]. by eapply cached_present.
  - apply iwp_bind, ensure_repository_iwp; [done|done|by auto|]. intros v Hv.
    apply iwp_bind, branch_head_iwp; [by auto|]. intros repo Hr _. cbv zeta.
    unfold marker_key. rewrite (Hvalid t Ht). cbn [ensure mbind result_bind io_bind pure].
    destruct (json_to_vec _) as [payload|e]; cbn [io_bind mbind]; [|by apply Herr].
    unfold write. destruct (key self _) as [k|e] eqn:Ek; [|by apply Herr]. apply key_Ok in Ek as ->.
    simpl. intros res v' [->|[-> Hfail]].
    + fold (marker_object self t). destruct res as [[]|e]; simpl.
      * apply (marker_written v c payload repo); auto.
      * apply (marker_written v c payload repo); eauto.
    + destruct res as [u|e]; [done|]. by apply Herr.
Qed.

(** ** Deletion: once the repository is gone, the world has made its step *)
Definition gone v c : Prop :=
  frame t v0 c0 v c /\ v_repos v !! repo_name self t = None /\
  (forall id, is_Some (log w !! (t, id)) -> (repo_name self t, id) ∈ v_issued v) /\
  c !! t <> Some None /\ (forall m, c !! t = Some (Some m) -> m = tenant_marker self t).

Lemma gone_post r v c : gone v c -> r = Ok tt \/ (exists e, r = Err e) -> post (DeleteTenant t) r v c.
Proof.
  intros (Hf & Hr & Hi & Hn & Hm) Hres. split; [done|]. exists (delete_repository t w).
  split; [by apply step_delete|]. constructor; rewrite ?Hr; try done.
  intros _. simpl. by rewrite lookup_delete_eq.
Qed.

Lemma delete_repository_iwp v c (Q : result unit -> View -> Cache -> Prop) :
  inv v c -> c !! t = Some (Some (tenant_marker self t)) ->
  (forall e v', inv v' c \/ gone v' c -> Q (Err e) v' c) ->
  (forall v', gone v' c -> Q (Ok tt) v' c) ->
  iwp (lake_delete_repository (repo_name self t)) v c Q.
Proof.
  intros Hinv Hc Herr Hok. unfold lake_delete_repository. simpl. intros res v' Hstep.
  assert (c !! t <> Some None /\ forall m, c !! t = Some (Some m) -> m = tenant_marker self t) as Hcache
    by (rewrite Hc; split; [done|by intros m [= <-]]).
  inversion Hstep as [|cc vv resp [Href Habs]| | |n vv repo objects res' Hr Ho Hans| | |]; subst; simpl.
  - apply Herr. by left.
  - rewrite Href. simpl. destruct (status resp =? NOT_FOUND)%N eqn:E; simpl; [|apply Herr; by left].
    apply N.eqb_eq in E. apply Hok. destruct Hinv as [Hf Hs].
    split_and!; [done|by apply Habs|apply Hs|apply Hcache..].
  - destruct (ts_repo _ _ _ _ _ (proj2 Hinv) repo Hr) as (Hns & _ & _). rewrite Hns in Ho.
    assert (gone (removed (repo_name self t) v objects) c) as Hgone.
    { split_and!; [|simpl; by rewrite lookup_delete_eq|apply Hinv|apply Hcache..].
      apply (inv_lakefs v); [done|done| |done]. intros name Hne. simpl. by rewrite lookup_delete_ne. }
    destruct res as [resp|e]; simpl; [|apply Herr; by right].
    rewrite (Hans resp eq_refl). simpl. by apply Hok.
Qed.

(** Every deleted object lies below the tenant's prefix. *)
Lemma purge_keeps_gone v c keys deleted :
  gone v c ->
  Forall (listable v (bucket self) (sd_prefix (ls_directory self) +:+ t +:+ "/")) keys -> deleted ⊆ keys ->
  gone (with_objects (filter (fun kv => kv.1 ∉ (pair (bucket self) <$> deleted)) (v_objects v)) v) c.
Proof.
  intros (Hf & Hr & Hi & Hn & Hm) Hkeys Hsub. split_and!; try done.
  eapply frame_trans; [exact Hf|]. split; [done|]. intros t' Ht' Hne. split_and!; [|done..]. simpl.
  apply option_eq. intros o. rewrite map_lookup_filter_Some. split; [by intros [? _]|]. intros Ho.
  split; [done|]. simpl. intros (k & E & Hk)%list_elem_of_fmap. injection E as <-.
  rewrite Forall_forall in Hkeys. destruct (Hkeys _ (Hsub _ Hk)) as [_ Hpre].
  rewrite starts_with_app in Hpre. apply starts_with_iff in Hpre as [rest E].
  rewrite string_app_assoc in E. apply tenant_path in E as [-> _]; [done|by apply Hvalid..].
Qed.

Lemma purge_loop_iwp fuel v c (Q : result unit -> View -> Cache -> Prop) :
  gone v c -> (forall e v', gone v' c -> Q (Err e) v' c) -> (forall v', gone v' c -> Q (Ok tt) v' c) ->
  iwp (purge_loop self fuel (sd_prefix (ls_directory self) +:+ t +:+ "/")) v c Q.
Proof.
  intros Hg Herr Hok. revert v Hg. induction fuel as [|fuel IH]; intros v Hg; [by apply Herr|].
  cbn [purge_loop]. apply iwp_bind. intros res v1 [-> Hlist]. cbn [iwp].
  destruct res as [listed|e]; cbn [context]; [|by apply Herr].
  destruct (Hlist listed eq_refl) as (keys & -> & _ & Hkeys & _). clear Hlist.
  destruct (Some <$> keys) as [|o l] eqn:El; [by apply Hok|]. rewrite <-El, mapM_some. clear o l El.
  apply iwp_bind. cbn [pure iwp]. apply iwp_bind. intros res v1 (deleted & Hsub & _ & ->). cbn [iwp].
  pose proof (purge_keeps_gone _ _ _ _ Hg Hkeys Hsub) as Hg'.
  destruct res as [errors|e]; cbn [context]; [|by apply Herr].
  apply iwp_assert; [by auto|intros _]. by apply IH.
Qed.

Lemma lake_delete_iwp fuel : inv v0 c0 -> iwp (lake_delete_tenant self fuel t) v0 c0 (post (DeleteTenant t)).
Proof.
  intros Hinv. assert (forall e v c, inv v c -> post (DeleteTenant t) (Err e) v c) as Herr
    by (intros; by apply inv_fail).
  assert (forall e v c, gone v c -> post (DeleteTenant t) (Err e) v c) as Hgone
    by (intros e v c Hg; apply gone_post; eauto).
  unfold lake_delete_tenant. apply iwp_assert; [by auto|intros _]. apply tenant_lock_iwp; [by auto|].
  apply iwp_bind, require_tenant_iwp; [done|by auto|]. intros c Hc Hcached.
  change (tm_repository (tenant_marker self t)) with (repo_name self t).
  apply iwp_bind, delete_repository_iwp; [done|done|intros e v [?|?]; by auto|]. intros v Hg.
  apply iwp_bind. unfold purge_prefix. apply iwp_bind. cbn [pure iwp].
  destruct (key self _) as [k|e] eqn:Ek; [|by auto]. apply key_Ok in Ek as ->.
  apply purge_loop_iwp; [done|by auto|]. intros v' Hg'. cbn [iwp sys syscall_wp]. apply gone_post; [|by left].
  destruct Hg' as ([Hi Hf] & Hr & Hlog & Hn & Hm). split_and!; [|done..| |].
  - split; [done|]. intros t' Ht' Hne. rewrite lookup_delete_ne by done. auto.
  - by rewrite lookup_delete_eq.
  - intros m. by rewrite lookup_delete_eq.
Qed.

Lemma lake_call_iwp fuel {B} (o : op B) :
  call_on t o -> call_rep o -> inv v0 c0 -> iwp (lake_call self fuel o) v0 c0 (post o).
Proof.
  intros Ho Hrep Hinv. destruct o as [t'|t'|t'|t' rev|t' expected s author message|];
    simpl in Ho, Hrep; subst.
  - by apply lake_exists_iwp.
  - by apply lake_ensure_iwp.
  - by apply lake_delete_iwp.
  - by apply lake_load_iwp.
  - destruct Hrep as (? & ? & ?). by apply lake_commit_iwp; [apply Hinv|..].
  - cbn. intros z. destruct Hinv as [Hf Hs]. split; [done|]. exists w. split; [constructor|done].
Qed.
End method.

(** ** The whole process *)
Section process.
Context {Srv : Type} `{!Services Srv}.
Definition lake_sim (m : machine Srv) (w : World) : Prop :=
  forall t, t ∈ tenants -> tenant_sim self (view (m_services m)) (m_cache m) w t.

Lemma lake_call_sim fuel {B} (o : op B) (m : machine Srv) w t :
  t ∈ tenants -> call_on t o -> call_rep o -> lake_sim m w ->
  exists w', store_step o w (run (lake_call self fuel o) m).1 w' /\
    lake_sim (run (lake_call self fuel o) m).2 w'.
Proof.
  intros Ht Hon Hrep Hsim.
  pose proof (run_iwp (lake_call self fuel o) m (post t (view (m_services m)) (m_cache m) w o)) as Hrun.
  destruct Hrun as ([Hi Hf] & w' & Hstep & Hsim').
  { apply lake_call_iwp; [done..|]. split; [apply frame_refl|by apply Hsim]. }
  exists w'. split; [done|]. intros t' Ht'. destruct (decide (t' = t)) as [->|Hne]; [done|].
  destruct (Hf t' Ht' Hne) as (Ho & Hr & Hc).
  destruct (store_step_local _ _ _ _ _ t' Hstep Hon Hne) as (Hw & Hl).
  eapply tenant_sim_ext; [exact Ho|exact Hr|exact Hi|exact Hc|exact Hw|exact Hl|by apply Hsim].
Qed.

Lemma lake_sim_expire (m : machine Srv) w t :
  lake_sim m w -> lake_sim (with_cache (delete t (m_cache m)) m) w.
Proof.
  intros Hsim t' Ht'. destruct (decide (t' = t)) as [->|Hne].
  - destruct (Hsim t Ht') as [S1 S2 S3 S4 S5 S6 S7 S8 S9].
    constructor; simpl; rewrite ?lookup_delete_eq; done.
  - eapply tenant_sim_ext; [..|by apply Hsim]; try done. simpl. by rewrite lookup_delete_ne.
Qed.

Lemma lake_sim_initial (m : machine Srv) :
  m_cache m = ∅ -> (forall t, t ∈ tenants ->
    v_objects (view (m_services m)) !! marker_object self t = None /\
    v_repos (view (m_services m)) !! repo_name self t = None) ->
  lake_sim m {| repos := ∅; log := ∅ |}.
Proof.
  intros Hc Hempty t Ht. destruct (Hempty t Ht) as [Ho Hr].
  constructor; rewrite ?Hc, ?Ho, ?Hr, ?lookup_empty; try done.
  intros id. simpl. by rewrite lookup_empty; intros [? [=]].
Qed.
End process.
End refinement.

(** ** Traces

    A history of the process: calls with their results, and cache entries that
    expire between them.  A history of the contract. *)
Inductive event : Type :=
  | Event {B : Type} (o : op B) (r : result B).
Definition event_ok (tenants : gset string) (e : event) : Prop :=
  match e with Event o _ => call_rep o /\ exists t, t ∈ tenants /\ call_on t o end.

Inductive store_trace : World -> list event -> World -> Prop :=
  | st_nil w : store_trace w [] w
  | st_call {B} (o : op B) w r w1 events w' :
      store_step o w r w1 -> store_trace w1 events w' -> store_trace w (Event o r :: events) w'.

Section traces.
Context `{Externals} `{StorageExternals} {Srv : Type} `{!Services Srv} (self : LakeFsStore).
Inductive lake_trace : machine Srv -> list event -> machine Srv -> Prop :=
  | lt_nil m : lake_trace m [] m
  | lt_expire t m events m' :
      lake_trace (with_cache (delete t (m_cache m)) m) events m' -> lake_trace m events m'
  | lt_call {B} (o : op B) fuel m events m' :
      lake_trace (run (lake_call self fuel o) m).2 events m' ->
      lake_trace m (Event o (run (lake_call self fuel o) m).1 :: events) m'.

(** Nothing of the tenants is left from before. *)
Definition pristine (tenants : gset string) (m : machine Srv) : Prop :=
  m_cache m = ∅ /\ forall t, t ∈ tenants ->
    v_objects (view (m_services m)) !! marker_object self t = None /\
    v_repos (view (m_services m)) !! repo_name self t = None.
End traces.

Lemma lake_trace_sim `{Externals} `{StorageExternals} `{!StorageLaws} {Srv} `{!Services Srv}
    config s3 self (tenants : gset string) (m m' : machine Srv) events w :
  store_new config s3 = Ok self -> (forall t, t ∈ tenants -> valid_tenant t = true) ->
  (forall t t', t ∈ tenants -> t' ∈ tenants -> repo_name self t = repo_name self t' -> t = t') ->
  lake_trace self m events m' -> Forall (event_ok tenants) events -> lake_sim self tenants m w ->
  exists w', store_trace w events w' /\ lake_sim self tenants m' w'.
Proof.
  intros Hnew Hvalid Hcoll Htrace. revert w.
  induction Htrace as [m|t m events m' _ IH|B o fuel m events m' _ IH]; intros w Hok Hsim.
  - exists w. by split; [constructor|].
  - by apply IH, lake_sim_expire.
  - apply Forall_cons in Hok as [(Hrep & t & Ht & Hon) Hok].
    destruct (lake_call_sim self config s3 Hnew tenants Hvalid Hcoll fuel o m w t Ht Hon Hrep Hsim)
      as (w1 & Hstep & Hsim1).
    destruct (IH w1 Hok Hsim1) as (w' & Hst & Hsim'). exists w'. split; [by econstructor|done].
Qed.

