(* ===== verification/ErasureFacts.v ===== *)
(** * ErasureFacts: deletion of a tenant and the names of repositories

    A successful deletion leaves nothing of the tenant and touches nothing else;
    its loop ends.  What the truncated repository names distinguish. *)

From S2P Require Import Prelude Text RustStr Json Authoring State Store StoreLogic Serde StateJson.
From S2P Require Import LakeFs Services LakeFsFacts.
From Stdlib Require Import Ascii.

(** ** The purge loop ends *)
Definition below (bucket prefix : string) (kv : (string * string) * string) : Prop :=
  kv.1.1 = bucket /\ starts_with prefix kv.1.2 = true.
#[export] Instance below_dec bucket prefix kv : Decision (below bucket prefix kv).
Proof. apply _. Defined.
Definition purgeable (v : View) (bucket prefix : string) : nat :=
  size (filter (below bucket prefix) (v_objects v)).

Lemma purge_progress v bucket prefix keys deleted :
  Forall (listable v bucket prefix) keys -> keys <> [] -> keys ⊆ deleted ->
  purgeable (with_objects (filter (fun kv => kv.1 ∉ (pair bucket <$> deleted)) (v_objects v)) v)
    bucket prefix < purgeable v bucket prefix.
Proof.
  intros Hkeys Hne Hsub. unfold purgeable. simpl. destruct keys as [|key keys]; [done|].
  apply Forall_cons in Hkeys as [([payload Hp] & Hpre) _].
  apply map_subset_size. split.
  - apply map_subseteq_spec. intros k o. rewrite !map_lookup_filter_Some. naive_solver.
  - intros Hs. assert (filter (below bucket prefix) (v_objects v) !! (bucket, key) = Some payload) as Hk
      by (apply map_lookup_filter_Some; done).
    apply (lookup_weaken _ _ _ _ Hk) in Hs.
    apply map_lookup_filter_Some in Hs as [Hs _]. apply map_lookup_filter_Some in Hs as [_ Hs].
    destruct Hs. simpl. apply list_elem_of_fmap. exists key. split; [done|]. apply Hsub. left.
Qed.

Section erasure.
Context `{Externals} `{StorageExternals} {Srv : Type} `{!Services Srv} (self : LakeFsStore).

Lemma run_bind {A B} (p : io A) (f : A -> io B) (m : machine Srv) :
  run (p ≫= f) m = match run p m with
                   | (Ok a, m') => run (f a) m'
                   | (Err e, m') => (Err e, m')
                   end.
Proof.
  revert m. induction p as [[a|e]|C c k IH]; intros m; simpl; [done..|].
  destruct (syscall_run c m) as [res m']. apply IH.
Qed.

(** One iteration, as the services answer it. *)
Inductive purge_round (prefix : string) (m : machine Srv) : (result bool * machine Srv) -> Prop :=
  | round_error e m' : purge_round prefix m (Err e, m')
  | round_done m' : purge_round prefix m (Ok false, m')
  | round_more m' :
      purgeable (view (m_services m')) (bucket self) prefix <
        purgeable (view (m_services m)) (bucket self) prefix ->
      purge_round prefix m (Ok true, m').
Definition purge_iteration (prefix : string) : io bool :=
  listed ← sys_context "S3 tenant object listing failed" (S3List (bucket self) prefix 1000);
  match listed with
  | [] => mret false
  | _ =>
      objects ← pure (mapM (with_context "S3 returned an object without a key") listed);
      errors ← sys_context "S3 tenant object purge failed" (S3Delete (bucket self) objects);
      assert (Nat.eqb errors 0) "S3 tenant object purge failed" ;;
      mret true
  end.

Lemma purge_loop_unfold fuel prefix m :
  run (purge_loop self (S fuel) prefix) m =
    match run (purge_iteration prefix) m with
    | (Ok true, m') => run (purge_loop self fuel prefix) m'
    | (Ok false, m') => (Ok tt, m')
    | (Err e, m') => (Err e, m')
    end.
Proof.
  cbn [purge_loop]. unfold purge_iteration. rewrite !run_bind.
  destruct (run (sys_context _ _) m) as [[[|o l]|e] m1]; [done| |done].
  rewrite !run_bind. cbn [pure run]. destruct (mapM _ (o :: l)) as [objects|e]; [|done].
  rewrite !run_bind. destruct (run (sys_context _ _) m1) as [[errors|e] m2]; [|done].
  rewrite !run_bind. by destruct (run (assert _ _) m2) as [[u|e] m3].
Qed.

Lemma purge_iteration_round prefix m : purge_round prefix m (run (purge_iteration prefix) m).
Proof.
  unfold purge_iteration. rewrite run_bind. cbn [sys_context run syscall_run].
  pose proof (service_law (S3List (bucket self) prefix 1000) (m_services m)) as [Hv Hlist].
  destruct (send (S3List _ _ _) (m_services m)) as [res srv]. simpl in Hv, Hlist |- *.
  destruct res as [listed|e]; simpl; [|constructor].
  destruct (Hlist listed eq_refl) as (keys & -> & _ & Hkeys & _). clear Hlist.
  destruct (Some <$> keys) as [|o l] eqn:El; [constructor|]. rewrite <-El, mapM_some.
  assert (keys <> []) as Hne by (by intros ->). clear o l El.
  cbn [run syscall_run m_services].
  pose proof (service_law (S3Delete (bucket self) keys) srv) as (deleted & Hsub & Hdel & Hv').
  destruct (send (S3Delete _ _) srv) as [res srv']. simpl in Hdel, Hv' |- *.
  destruct res as [errors|e]; simpl; [|constructor].
  destruct (Nat.eqb errors 0) eqn:E; simpl; [|constructor]. apply Nat.eqb_eq in E.
  constructor. simpl. rewrite Hv', Hv. apply (purge_progress _ _ _ keys); [done..|].
  exact (Hdel errors eq_refl E).
Qed.

(** The loop that purges a tenant's objects ends: with fuel for one more
    iteration than there are objects below the prefix, more fuel changes
    neither the result nor the effects, whatever the services answer. *)
Theorem purge_terminates fuel k prefix (m : machine Srv) :
  purgeable (view (m_services m)) (bucket self) prefix < fuel ->
  run (purge_loop self (fuel + k) prefix) m = run (purge_loop self fuel prefix) m.
Proof.
  revert m. induction fuel as [|fuel IH]; intros m Hfuel; [lia|].
  rewrite Nat.add_succ_l, !purge_loop_unfold.
  destruct (purge_iteration_round prefix m) as [e m'|m'|m' Hless]; [done..|]. apply IH. lia.
Qed.

(** ** What a purge removes *)
Notation Cache := (gmap string (option TenantMarker)).
Definition only_below (prefix : string) (v v' : View) : Prop :=
  v_repos v' = v_repos v /\
  forall key, starts_with prefix key = false ->
    v_objects v' !! (bucket self, key) = v_objects v !! (bucket self, key).
Lemma purge_loop_exact fuel prefix v c (Q : result unit -> View -> Cache -> Prop) :
  (forall e v', Q (Err e) v' c) ->
  (forall v', only_below prefix v v' -> (forall key, ~ listable v' (bucket self) prefix key) ->
    Q (Ok tt) v' c) ->
  iwp (purge_loop self fuel prefix) v c Q.
Proof.
  intros Herr Hok. assert (only_below prefix v v) as Hv by done. revert Hv.
  generalize v at 2 3. induction fuel as [|fuel IH]; intros v1 Hv1; [by apply Herr|].
  cbn [purge_loop]. apply iwp_bind. intros res v2 [-> Hlist]. cbn [iwp].
  destruct res as [listed|e]; cbn [context]; [|by apply Herr].
  destruct (Hlist listed eq_refl) as (keys & -> & _ & Hkeys & Hnone). clear Hlist.
  destruct (Some <$> keys) as [|o l] eqn:El.
  { apply Hok; [done|]. apply Hnone. by destruct keys. }
  rewrite <-El, mapM_some. clear o l El Hnone.
  apply iwp_bind. cbn [pure iwp]. apply iwp_bind. intros res v2 (deleted & Hsub & _ & ->). cbn [iwp].
  destruct res as [errors|e]; cbn [context]; [|by apply Herr].
  apply iwp_assert; [by auto|intros _]. apply IH. destruct Hv1 as [Hr Ho]. split; [done|].
  intros key Hkey. rewrite <-(Ho key Hkey). simpl. apply option_eq. intros p.
  rewrite map_lookup_filter_Some. split; [by intros [? _]|]. intros Hp. split; [done|]. simpl.
  intros (k & E & Hk)%list_elem_of_fmap. injection E as <-. rewrite Forall_forall in Hkeys.
  destruct (Hkeys _ (Hsub _ Hk)) as [_ Hpre]. by rewrite Hpre in Hkey.
Qed.

Lemma delete_exact t v c (Q : result unit -> View -> Cache -> Prop) :
  (forall repo, v_repos v !! repo_name self t = Some repo -> lr_namespace repo = repo_namespace self t) ->
  (forall e v', Q (Err e) v' c) ->
  (forall v', v_repos v' = delete (repo_name self t) (v_repos v) ->
    same_outside (repo_namespace self t) (v_objects v) (v_objects v') -> Q (Ok tt) v' c) ->
  iwp (lake_delete_repository (repo_name self t)) v c Q.
Proof.
  intros Hns Herr Hok. unfold lake_delete_repository. simpl. intros res v' Hstep.
  inversion Hstep as [|cc vv resp [Href Habs]| | |n vv repo objects res' Hr Ho Hans| | |]; subst; simpl.
  - apply Herr.
  - rewrite Href. simpl. destruct (status resp =? NOT_FOUND)%N eqn:E; simpl; [|apply Herr].
    apply N.eqb_eq in E. apply Hok; [|by intros k]. symmetry. by apply delete_id, Habs.
  - rewrite (Hns repo Hr) in Ho. destruct res as [resp|e]; simpl; [|apply Herr].
    rewrite (Hans resp eq_refl). simpl. by apply Hok.
Qed.

Lemma in_namespace_below config s3 t key :
  store_new config s3 = Ok self -> in_namespace (repo_namespace self t) (bucket self, key) ->
  starts_with (sd_prefix (ls_directory self) +:+ t +:+ "/") key = true.
Proof.
  intros Hnew. unfold in_namespace, repo_namespace.
  rewrite (store_new_namespace _ _ _ Hnew), !string_app_assoc. cbn [fst snd]. unfold bucket.
  rewrite !starts_with_app. intros [k ->]%starts_with_iff. apply starts_with_iff.
  exists ("_lakefs/" +:+ k). by rewrite !string_app_assoc.
Qed.
End erasure.


(** ** Repository names *)
Lemma take_bytes_app n p d : take_bytes (String.length p + n) (p +:+ d) = p +:+ take_bytes n d.
Proof.
  induction p as [|c p IH]; [done|].
  change (String c (take_bytes (String.length p + n) (p +:+ d)) = String c (p +:+ take_bytes n d)).
  by rewrite IH.
Qed.
Lemma take_bytes_short n p d : n <= String.length p -> take_bytes n (p +:+ d) = take_bytes n p.
Proof.
  revert n. induction p as [|c p IH]; intros [|n] Hn; simpl in *; try lia; [by destruct d|done|].
  change (String c (take_bytes n (p +:+ d)) = String c (take_bytes n p)). by rewrite IH by lia.
Qed.

Definition long_prefix : string := "galadril-registry-production-eu-central-1-tenant-repositories0".

(** A repository name keeps the digest of the tenant only as far as 63
    characters allow: two tenants share a repository exactly when the digests
    agree on the digits left over by the configured prefix.  A prefix of 62
    characters, which [LakeFsStore::new] accepts, leaves none: all tenants
    share one repository. *)
Theorem repository_names_truncated `{Externals} self :
  (forall t t', valid_tenant t = true -> valid_tenant t' = true ->
    let kept := 62 - String.length (lc_repository_prefix (ls_config self)) in
    repository_for_tenant self t = repository_for_tenant self t' <->
    take_bytes kept (sha256_hex t) = take_bytes kept (sha256_hex t')) /\
  valid_segment long_prefix = true /\ 62 - String.length long_prefix = 0.
Proof.
  split; [|done]. intros t t' Ht Ht' kept. unfold repository_for_tenant. rewrite Ht, Ht'.
  cbn [ensure mbind result_bind]. set (p := lc_repository_prefix (ls_config self)) in *.
  rewrite <-!string_app_assoc. assert (String.length (p +:+ "-") = S (String.length p)) as Hlen.
  { clear. induction p as [|c p IH]; [done|]. change (S (String.length (p +:+ "-")) = S (S (String.length p))).
    by rewrite IH. }
  destruct (decide (63 <= String.length (p +:+ "-"))) as [Hl|Hl].
  - rewrite !(take_bytes_short 63 (p +:+ "-")) by done. split; [|done]. intros _.
    replace kept with 0 by (unfold kept; lia). by destruct (sha256_hex t), (sha256_hex t').
  - replace 63 with (String.length (p +:+ "-") + kept) by (unfold kept; lia).
    rewrite !take_bytes_app. split; [|by intros ->].
    intros [= E]. by apply (inj (String.append _)) in E.
Qed.

(** ** Request routes *)
Definition no_slash (c : ascii) : bool := negb (Ascii.eqb c "/").
Definition segments (c : lakefs) : list string :=
  match c with
  | GetBranch repository branch => [repository; branch]
  | CreateRepository _ _ _ => []
  | DeleteRepository repository => [repository]
  | GetObject repository reference _ => [repository; reference]
  | UploadObject repository branch _ _ => [repository; branch]
  | CommitBranch repository branch _ _ _ => [repository; branch]
  end.
(** What a request addresses: the request without its body. *)
Definition addressed (c : lakefs) : lakefs :=
  match c with
  | CreateRepository _ _ _ => CreateRepository EmptyString EmptyString EmptyString
  | UploadObject repository branch path _ => UploadObject repository branch path EmptyString
  | CommitBranch repository branch _ _ _ => CommitBranch repository branch EmptyString EmptyString EmptyString
  | c => c
  end.

Lemma segment_eq a b r r' :
  bytes_all no_slash a = true -> bytes_all no_slash b = true ->
  a +:+ String "/" r = b +:+ String "/" r' -> a = b /\ r = r'.
Proof. by apply split_at_separator. Qed.
Lemma valid_revision_segment r : valid_revision r = true -> bytes_all no_slash r = true.
Proof.
  intros [_ Hb]%andb_prop. revert Hb. apply bytes_all_impl. intros c. unfold no_slash.
  destruct (Ascii.eqb_spec c "/") as [->|]; done.
Qed.
Lemma valid_segment_segment r : valid_segment r = true -> bytes_all no_slash r = true.
Proof.
  intros [_ Hb]%andb_prop. revert Hb. apply bytes_all_impl. intros c. unfold no_slash.
  destruct (Ascii.eqb_spec c "/") as [->|]; done.
Qed.

Lemma url_inj self p q : url self p = url self q -> p = q.
Proof. unfold url. intros E. apply (inj (String.append _)) in E. by apply (inj (String.append _)) in E. Qed.
(** Two segments with a word between them and behind them. *)
Lemma two_segments w u a b a' b' :
  bytes_all no_slash a = true -> bytes_all no_slash a' = true ->
  bytes_all no_slash b = true -> bytes_all no_slash b' = true ->
  a +:+ String "/" (w +:+ (b +:+ String "/" u)) = a' +:+ String "/" (w +:+ (b' +:+ String "/" u)) ->
  a = a' /\ b = b'.
Proof.
  intros Ha Ha' Hb Hb' E. apply segment_eq in E as [-> E]; [|done..].
  apply (inj (String.append w)) in E. by apply segment_eq in E as [-> _]; [|done..].
Qed.

(** Requests are addressed unambiguously: two requests with the same method,
    URL and query address the same branch, repository or object, for all
    repositories, branches and references without a slash, which revisions and
    branches that pass the validators are. *)
Theorem routes_unambiguous self c c' :
  Forall (fun s => bytes_all no_slash s = true) (segments c) ->
  Forall (fun s => bytes_all no_slash s = true) (segments c') ->
  route self c = route self c' -> addressed c = addressed c'.
Proof.
  intros Hs Hs' E. pose proof (f_equal (fun r => r.1.1) E) as Em. pose proof (f_equal snd E) as Eq.
  pose proof (f_equal (fun r => r.1.2) E) as Eu. clear E.
  destruct c, c'; try discriminate Em; clear Em; cbn [route fst snd segments] in *; apply url_inj in Eu;
    repeat match goal with E : Forall _ (_ :: _) |- _ => apply Forall_cons in E as [? E] end;
    try (apply (inj (String.append "repositories/")) in Eu); cbn [addressed]; try done.
  - apply segment_eq in Eu as [-> Eu]; [|done..]. apply (inj (String.append "branches/")) in Eu as ->. done.
  - by rewrite Eu.
  - apply (two_segments "refs/" "objects") in Eu as [-> ->]; [|done..]. by injection Eq as ->.
  - apply (two_segments "branches/" "objects") in Eu as [-> ->]; [|done..]. by injection Eq as ->.
  - by apply (two_segments "branches/" "commits") in Eu as [-> ->]; [|done..].
Qed.

Lemma routes_unambiguous_witness :
  exists self : LakeFsStore, route self (GetBranch "reg-a" "main") = route self (GetBranch "reg-a" "main") /\
    addressed (GetBranch "reg-a" "main") = addressed (GetBranch "reg-a" "main").
Proof.
  exists {| ls_config := {| lc_endpoint := "http://lakefs/"; lc_access_key := "k"; lc_secret_key := "s";
       lc_repository_prefix := "reg"; lc_storage_namespace := "s3://data/"; lc_branch := "main" |};
     ls_directory := {| sd_bucket := "data"; sd_prefix := EmptyString |} |}.
  split; [reflexivity|]. apply (routes_unambiguous {| ls_config := {| lc_endpoint := "http://lakefs/";
       lc_access_key := "k"; lc_secret_key := "s"; lc_repository_prefix := "reg";
       lc_storage_namespace := "s3://data/"; lc_branch := "main" |};
     ls_directory := {| sd_bucket := "data"; sd_prefix := EmptyString |} |});
    [repeat constructor|repeat constructor|reflexivity].
Defined.
