(* ===== verification/MemServices.v ===== *)
(** * MemServices: in-memory lakeFS and S3

    Services with the behaviour Services.v asks for, and a text form of JSON
    documents with the round trip serde_json has: the theorems about
    [LakeFsStore] apply to a process that can be run. *)

From S2P Require Import Prelude Text RustStr Json Authoring State Store StoreLogic Serde StateJson.
From S2P Require Import LakeFs Services LakeFsFacts ErasureFacts.
From Stdlib Require Import Ascii.

(** ** Documents as text: the bits of their encoding as trees *)
Notation leaf := (option bool + (N + Z + Z) + string)%type.
Definition number_leaf (n : number) : N + Z + Z :=
  match n with PosInt n => inl (inl n) | NegInt z => inl (inr z) | Float b => inr b end.
Definition leaf_number (l : N + Z + Z) : number :=
  match l with inl (inl n) => PosInt n | inl (inr z) => NegInt z | inr b => Float b end.
Fixpoint to_tree (v : value) : gen_tree leaf :=
  match v with
  | JNull => GenLeaf (inl (inl None))
  | JBool b => GenLeaf (inl (inl (Some b)))
  | JNumber n => GenLeaf (inl (inr (number_leaf n)))
  | JString s => GenLeaf (inr s)
  | JArray l => GenNode 0 (List.map to_tree l)
  | JObject m => GenNode 1 (List.map (fun kv => GenNode 2 [GenLeaf (inr kv.1); to_tree kv.2]) m)
  end.
Fixpoint of_tree (t : gen_tree leaf) : value :=
  match t with
  | GenLeaf (inl (inl None)) => JNull
  | GenLeaf (inl (inl (Some b))) => JBool b
  | GenLeaf (inl (inr n)) => JNumber (leaf_number n)
  | GenLeaf (inr s) => JString s
  | GenNode 0 l => JArray (List.map of_tree l)
  | GenNode _ m => JObject (List.map (fun t =>
      match t with
      | GenNode _ [GenLeaf (inr k); v] => (k, of_tree v)
      | _ => (EmptyString, JNull)
      end) m)
  end.
Lemma of_to_tree v : of_tree (to_tree v) = v.
Proof.
  induction v as [|b|n|s|l IH|m IH] using value_ind'; simpl; try done.
  - by destruct n.
  - f_equal. rewrite List.map_map. induction IH as [|x l Hx _ IHl]; simpl; [done|]. by rewrite Hx, IHl.
  - f_equal. rewrite List.map_map. induction IH as [|[k x] m Hx _ IHm]; simpl in *; [done|].
    by rewrite Hx, IHm.
Qed.

Fixpoint bits (p : positive) : string :=
  match p with
  | xH => EmptyString
  | xO p => String "0" (bits p)
  | xI p => String "1" (bits p)
  end.
Fixpoint unbits (s : string) : positive :=
  match s with
  | EmptyString => xH
  | String c s => if Ascii.eqb c "1" then xI (unbits s) else xO (unbits s)
  end.
Lemma unbits_bits p : unbits (bits p) = p.
Proof. induction p; simpl; congruence. Qed.

Definition document_text (v : value) : string := bits (encode (to_tree v)).
Definition text_document (s : string) : result value :=
  match decode (unbits s) with Some t => Ok (of_tree t) | None => serde_error end.
Lemma text_document_text v : text_document (document_text v) = Ok v.
Proof. unfold text_document, document_text. by rewrite unbits_bits, decode_encode, of_to_tree. Qed.

#[export] Instance mem_externals : Externals :=
  {| json_to_vec v := Ok (document_text v); sha256_hex s := s |}.
#[export] Instance mem_storage : StorageExternals :=
  {| url_parse _ := Ok {| url_scheme := "http"; url_host := Some "localhost"; url_username := EmptyString;
       url_password := None; url_path := "/"; url_query := None; url_fragment := None |};
     http_client := Ok tt; json_from_slice := text_document; hash_one _ := 0%N |}.
#[export] Instance mem_laws : StorageLaws.
Proof. constructor. intros v bytes [= <-] _. apply text_document_text. Qed.

(** ** The services *)
Record Mem : Type := {
  mem_view : View;
  mem_next : nat;
}.
Definition respond (code : N) (body : string) : result response :=
  Ok {| status := code; content_length := Some (N.of_nat (String.length body)); chunks := [Ok body] |}.
Definition answer (key val : string) : string := document_text (JObject [(key, JString val)]).
Definition fresh_id (name id : string) (v : View) : bool :=
  bool_decide ((name, id) ∉ v_issued v) && valid_revision id.

Definition mem_lakefs (c : lakefs) (s : Mem) : result response * View :=
  let v := mem_view s in
  let id := revision_name (mem_next s) in
  match c with
  | GetBranch name branch =>
      match v_repos v !! name with
      | None => (respond 404 EmptyString, v)
      | Some repo =>
          if String.eqb (lr_branch repo) branch then (respond 200 (answer "commit_id" (lr_head repo)), v)
          else (respond 400 EmptyString, v)
      end
  | CreateRepository name namespace branch =>
      match v_repos v !! name with
      | Some _ => (respond 409 EmptyString, v)
      | None =>
          if fresh_id name id v
          then (respond 201 EmptyString, created name namespace branch id v (v_objects v))
          else (respond 500 EmptyString, v)
      end
  | DeleteRepository name =>
      match v_repos v !! name with
      | None => (respond 404 EmptyString, v)
      | Some _ => (respond 204 EmptyString, removed name v (v_objects v))
      end
  | GetObject name reference path =>
      match find_object v name reference path with
      | None => (respond 404 EmptyString, v)
      | Some payload => (respond 200 payload, v)
      end
  | UploadObject name branch path payload =>
      match v_repos v !! name with
      | Some repo =>
          if String.eqb (lr_branch repo) branch
          then (respond 201 EmptyString, staged name path payload repo v (v_objects v))
          else (respond 400 EmptyString, v)
      | None => (respond 404 EmptyString, v)
      end
  | CommitBranch name branch message author digest =>
      match v_repos v !! name with
      | Some repo =>
          if String.eqb (lr_branch repo) branch && fresh_id name id v
          then (respond 201 (answer "id" id), committed_to name id message author repo v (v_objects v))
          else (respond 400 EmptyString, v)
      | None => (respond 404 EmptyString, v)
      end
  end.

Definition listed_keys (v : View) (bucket prefix : string) : list string :=
  omap (fun kv => if decide (below bucket prefix kv) then Some kv.1.2 else None) (map_to_list (v_objects v)).
Definition mem_send {B} (c : syscall B) (s : Mem) : result B * Mem :=
  let v := mem_view s in
  let next v := {| mem_view := v; mem_next := S (mem_next s) |} in
  match c in syscall B return result B * Mem with
  | Lakefs c => let '(res, v) := mem_lakefs c s in (res, next v)
  | S3Get bucket key =>
      (Ok ((fun payload => {| so_content_length := Some (Z.of_nat (String.length payload));
                              so_body := Ok payload |}) <$> v_objects v !! (bucket, key)), s)
  | S3Put bucket key payload =>
      (Ok tt, next (with_objects (<[(bucket, key) := payload]> (v_objects v)) v))
  | S3List bucket prefix max_keys =>
      match max_keys with
      | 0 => (Err (Foreign "s3"), s)
      | _ => (Ok (Some <$> take max_keys (listed_keys v bucket prefix)), s)
      end
  | S3Delete bucket keys =>
      (Ok 0, next (with_objects
        (filter (fun kv => kv.1 ∉ (pair bucket <$> keys)) (v_objects v)) v))
  | CacheGet _ | CacheInsert _ _ | CacheInvalidate _ | Lock _ | Clock => (Err (Foreign "local"), s)
  end.

Lemma delivers_answer key val code :
  delivers_member key val {| status := code; content_length := Some (N.of_nat (String.length (answer key val)));
    chunks := [Ok (answer key val)] |}.
Proof.
  intros s. unfold json_member. simpl. unfold answer. rewrite string_app_nil_r, text_document_text.
  simpl. unfold required. simpl. rewrite String.eqb_refl. by intros [= <-].
Qed.

Lemma fresh_id_commit name id v : fresh_id name id v = true -> fresh_commit name id v.
Proof. by intros [Hi%bool_decide_eq_true Hv]%andb_prop. Qed.
Lemma answered_status code body :
  is_success code = true -> answered succeeded (respond code body).
Proof. by intros Hc resp [= <-]. Qed.

Lemma mem_lakefs_law c s : lakefs_step c (mem_view s) (mem_lakefs c s).1 (mem_lakefs c s).2.
Proof.
  destruct c as [name branch|name ns branch|name|name reference path|name branch path payload
    |name branch message author digest]; cbn [mem_lakefs].
  - destruct (v_repos (mem_view s) !! name) as [repo|] eqn:Er; [|by apply lf_refused].
    destruct (String.eqb_spec (lr_branch repo) branch); [|by apply lf_refused].
    eapply lf_branch; [done..|apply delivers_answer].
  - destruct (v_repos (mem_view s) !! name) as [repo|] eqn:Er; [by apply lf_refused|].
    destruct (fresh_id _ _ _) eqn:Ef; [|by apply lf_refused].
    apply lf_create; [done|by apply fresh_id_commit|done|by apply answered_status].
  - destruct (v_repos (mem_view s) !! name) as [repo|] eqn:Er; [|by apply lf_refused].
    by eapply lf_delete; [done..|apply answered_status].
  - destruct (find_object _ _ _ _) as [payload|] eqn:Ef; [|by apply lf_refused].
    eapply lf_object; [done|done|]. intros bytes [= <-]. apply string_app_nil_r.
  - destruct (v_repos (mem_view s) !! name) as [repo|] eqn:Er; [|by apply lf_refused].
    destruct (String.eqb_spec (lr_branch repo) branch); [|by apply lf_refused].
    by eapply lf_upload; [done..|apply answered_status].
  - destruct (v_repos (mem_view s) !! name) as [repo|] eqn:Er; [|by apply lf_refused].
    destruct (String.eqb (lr_branch repo) branch && fresh_id _ _ _) eqn:E; [|by apply lf_refused].
    apply andb_prop in E as [Eb%String.eqb_eq Ef].
    eapply lf_commit; [done|done|by apply fresh_id_commit|done|].
    intros resp [= <-]. split; [done|apply delivers_answer].
Qed.

Lemma elem_of_listed_keys v bucket prefix key :
  key ∈ listed_keys v bucket prefix <-> listable v bucket prefix key.
Proof.
  unfold listed_keys, listable. rewrite list_elem_of_omap. split.
  - intros ([[b k] p] & Hin%elem_of_map_to_list & E). case_decide as Hb; [|done].
    injection E as <-. destruct Hb as [Hb Hp]. simpl in *. subst b. eauto.
  - intros [[p Hp] Hpre]. exists ((bucket, key), p). rewrite elem_of_map_to_list. split; [done|].
    by rewrite decide_True.
Qed.

Lemma mem_law {B} (c : syscall B) s :
  service_step c (mem_view s) (mem_send c s).1 (mem_view (mem_send c s).2).
Proof.
  destruct c as [c|bucket key|bucket key payload|bucket prefix max_keys|bucket keys|t|t m|t|n|]; try done.
  - pose proof (mem_lakefs_law c s) as Hl. simpl. by destruct (mem_lakefs c s).
  - split; [done|]. intros found [= <-]. destruct (v_objects _ !! _); simpl; [|done].
    by intros p [= <-].
  - by left.
  - destruct max_keys as [|n]; [by split|]. split; [done|]. intros listed [= <-].
    exists (take (S n) (listed_keys (mem_view s) bucket prefix)). split_and!; [done| | |].
    + rewrite length_take. lia.
    + apply Forall_forall. intros key Hin. apply elem_of_listed_keys.
      apply (subseteq_take _ _ _ Hin).
    + intros Hnil key Hk%elem_of_listed_keys. destruct (listed_keys _ _ _); [by apply elem_of_nil in Hk|done].
  - exists keys. split_and!; [done| |done]. by intros errors [= <-].
Qed.
#[export] Instance mem_services : Services Mem :=
  {| send := @mem_send; view := mem_view; service_law := @mem_law |}.

(** ** A process *)
Definition demo_lake : LakeFsStore :=
  {| ls_config := {| lc_endpoint := "http://localhost/"; lc_access_key := "k"; lc_secret_key := "s";
       lc_repository_prefix := "reg"; lc_storage_namespace := "s3://data/registry/"; lc_branch := "main" |};
     ls_directory := {| sd_bucket := "data"; sd_prefix := "registry/" |} |}.
Definition demo_s3 : S3Config :=
  {| sc_endpoint := "http://localhost/"; sc_region := "eu"; sc_access_key := "k"; sc_secret_key := "s" |}.
Definition demo_tenants : gset string := {["acme"; "beta"]}.
Definition demo_machine : machine Mem :=
  {| m_services := {| mem_view := {| v_repos := ∅; v_issued := ∅; v_objects := ∅ |}; mem_next := 0 |};
     m_cache := ∅; m_clock := 0 |}.
Definition then_call {B} (o : op B) (m : machine Mem) : machine Mem :=
  (run (lake_call demo_lake 10 o) m).2.
Definition demo_created : machine Mem := then_call (EnsureTenant "acme") demo_machine.
Definition demo_commit : op string :=
  Commit "acme" (revision_name 1) stored_demo "ada" "store".
Definition demo_stored : machine Mem := then_call demo_commit demo_created.
Definition demo_events : list event :=
  [Event (EnsureTenant "acme") (run (lake_call demo_lake 10 (EnsureTenant "acme")) demo_machine).1;
   Event demo_commit (run (lake_call demo_lake 10 demo_commit) demo_created).1;
   Event (Load "acme" None) (run (lake_call demo_lake 10 (Load "acme" None)) demo_stored).1].
Definition demo_loaded : machine Mem := then_call (Load "acme" None) demo_stored.

Lemma demo_trace : lake_trace demo_lake demo_machine demo_events demo_loaded.
Proof. do 3 apply lt_call. constructor. Qed.
Lemma demo_trace_stored : lake_trace demo_lake demo_machine (take 2 demo_events) demo_stored.
Proof. do 2 apply lt_call. constructor. Qed.
Lemma demo_lake_new : store_new (ls_config demo_lake) demo_s3 = Ok demo_lake.
Proof. reflexivity. Qed.
Lemma demo_tenants_valid t : t ∈ demo_tenants -> valid_tenant t = true.
Proof. intros [->%elem_of_singleton| ->%elem_of_singleton]%elem_of_union; reflexivity. Qed.
Lemma demo_tenants_apart t t' :
  t ∈ demo_tenants -> t' ∈ demo_tenants -> repo_name demo_lake t = repo_name demo_lake t' -> t = t'.
Proof.
  intros [->%elem_of_singleton| ->%elem_of_singleton]%elem_of_union
    [->%elem_of_singleton| ->%elem_of_singleton]%elem_of_union; intros E; try reflexivity;
    vm_compute in E; discriminate E.
Qed.
Lemma demo_pristine : pristine demo_lake demo_tenants demo_machine.
Proof. split; [reflexivity|]. intros t _. split; apply lookup_empty. Qed.
Lemma demo_events_ok : Forall (event_ok demo_tenants) demo_events.
Proof.
  assert ("acme" ∈ demo_tenants) as Ht by (apply elem_of_union; left; by apply elem_of_singleton).
  assert (call_rep demo_commit) as Hrep
    by (split; [exact stored_demo_rep|split; vm_compute; reflexivity]).
  apply Forall_cons; split; [by split; [|exists "acme"]|].
  apply Forall_cons; split; [by split; [exact Hrep|exists "acme"]|].
  apply Forall_cons; split; [by split; [|exists "acme"]|constructor].
Qed.



Lemma purge_terminates_witness :
  purgeable (view (m_services demo_stored)) (bucket demo_lake) "registry/acme/" = 1 /\
  run (purge_loop demo_lake (2 + 40) "registry/acme/") demo_stored =
    run (purge_loop demo_lake 2 "registry/acme/") demo_stored.
Proof.
  assert (purgeable (view (m_services demo_stored)) (bucket demo_lake) "registry/acme/" = 1) as E
    by (vm_compute; reflexivity).
  split; [exact E|]. apply (purge_terminates demo_lake 2 40 "registry/acme/" demo_stored). rewrite E. lia.
Defined.
