(* ===== verification/Grpc.v ===== *)
(** * Grpc: the gRPC boundary of the Registry (grpc.rs)

    Every handler decodes a request, runs one method of the Registry and encodes
    its result; errors become a [Status].  A handler is a program over the store
    that returns a [reply]; an error of the Registry ends it, and [finish] maps
    it with [domain_status]. *)

From S2P Require Import Prelude Text Json Ontology DiffMerge Authoring State Store Domain.
From S2P Require Import AuthoringService OntologyAuthoring Serde StateJson LakeFs.

(** ** Status *)
Inductive Code : Type :=
  | InvalidArgument
  | NotFound
  | Aborted
  | Unavailable
  | DataLoss
  | Internal.
#[export] Instance code_eq_dec : EqDecision Code.
Proof. solve_decision. Defined.
Record Status : Type := {
  st_code : Code;
  st_message : string;
}.
Inductive reply (A : Type) : Type :=
  | Reply (a : A)
  | Fail (s : Status).
Arguments Reply {_} _.
Arguments Fail {_} _.
#[export] Instance reply_ret : MRet reply := fun _ a => Reply a.
#[export] Instance reply_fmap : FMap reply := fun _ _ f r =>
  match r with Reply a => Reply (f a) | Fail s => Fail s end.
#[export] Instance reply_bind : MBind reply := fun _ _ f r =>
  match r with Reply a => f a | Fail s => Fail s end.

(** [error.to_string()]: the outermost message, or the text of a library's error
    that the code forwards as it is. *)
Definition error_text (e : error) : string :=
  match e with Msg message => message | Foreign text => text end.
Definition domain_status (e : error) : Status :=
  let message := error_text e in
  if contains "integrity check failed" message || contains "invalid Registry state artifact" message then
    {| st_code := DataLoss; st_message := "Registry persisted state failed validation" |}
  else if contains "S3" message || contains "lakeFS" message || contains "lock poisoned" message then
    {| st_code := Unavailable; st_message := "Registry storage is unavailable" |}
  else
    {| st_code := if contains "changed" message then Aborted
                  else if contains "unavailable" message || contains "missing" message then NotFound
                  else InvalidArgument;
       st_message := message |}.
Definition invalid_status (message : string) : Status :=
  {| st_code := InvalidArgument; st_message := message |}.
Definition internal_status : Status :=
  {| st_code := Internal; st_message := "Registry response serialization failed" |}.

Definition finish {A} (r : result (reply A)) : reply A :=
  match r with Ok r => r | Err e => Fail (domain_status e) end.

(** ** Messages *)
Record TenantMessage : Type := { tg_tenant_id : string; tg_head_revision_id : string }.
Record TenantValidation : Type := { vg_tenant_id : string; vg_exists : bool }.
Record PutPipelineRequest : Type := {
  ppq_tenant_id : string; ppq_pipeline_id : string; ppq_name : string; ppq_owner_id : string;
  ppq_definition_json : string; ppq_author_id : string; ppq_message : string;
  ppq_expected_revision_id : option string; ppq_create_only : bool;
  ppq_authoring_command_json : option string;
}.
Record PipelineMessage : Type := {
  pg_authoring_json : string; pg_previous_revision_id : option string; pg_pipeline_id : string;
  pg_name : string; pg_owner_id : string; pg_head_revision_id : string;
  pg_published_revision_id : option string; pg_definition_json : string; pg_author_id : string;
  pg_message : string; pg_created_at_ms : Z; pg_updated_at_ms : Z; pg_deleted_at_ms : option Z;
}.
Record PutOntologyRequest : Type := {
  poq_tenant_id : string; poq_ontology_id : string; poq_display_name : string;
  poq_ontology_json : string; poq_author : string; poq_message : string;
  poq_expected_revision_id : option string; poq_create_only : bool;
  poq_authoring_command_json : option string;
}.
Record OntologyRevision : Type := {
  og_authoring_json : string; og_ontology_id : string; og_display_name : string;
  og_revision_id : string; og_ontology_json : string; og_author : string; og_message : string;
  og_created_at_ms : Z;
}.
Record PublishOntologyRequest : Type := {
  pbq_tenant_id : string; pbq_ontology_id : string; pbq_display_name : string;
  pbq_publication_id : string; pbq_revision_id : string; pbq_metadata_json : string;
  pbq_create_only : bool;
}.
Record PublicationMessage : Type := {
  ug_ontology_id : string; ug_display_name : string; ug_publication_id : string;
  ug_revision_id : string; ug_lifecycle : string; ug_metadata_json : string;
  ug_base_version : string; ug_base_hash : string; ug_effective_hash : string; ug_author : string;
  ug_message : string; ug_published_at_ms : Z; ug_retired_at_ms : option Z;
}.
Record CatalogEntry : Type := {
  cg_ontology_id : string; cg_display_name : string;
  cg_production_publication : option PublicationMessage;
}.
Record BindingMessage : Type := {
  bg_pipeline_id : string; bg_block_id : string; bg_ontology_id : string;
  bg_resource_ids : list string; bg_resource_kinds : list string; bg_include_dependencies : bool;
  bg_metadata_json : string; bg_updated_at_ms : Z; bg_head_revision_id : string;
}.
Record SliceMessage : Type := {
  sg_ontology_id : string; sg_publication_id : string; sg_revision_id : string;
  sg_ontology_json : string; sg_publication_metadata_json : string;
  sg_binding_metadata_json : string; sg_published_at_ms : Z; sg_base_version : string;
  sg_base_hash : string; sg_effective_hash : string;
}.
Record ChangeMessage : Type := {
  dg_resource_id : string; dg_operation : string; dg_path : list string;
  dg_before_json : string; dg_after_json : string;
}.
Record ConflictMessage : Type := {
  mg_resource_id : string; mg_path : list string; mg_base_json : string; mg_left_json : string;
  mg_right_json : string;
}.
Record MergeMessage : Type := {
  ng_revision : option OntologyRevision; ng_conflicts : list ConflictMessage;
}.

(** Commands arrive as tagged JSON documents, which serde decodes. *)
Class GrpcExternals := {
  authoring_command_from : string -> option AuthoringCommand;
  ontology_command_from : value -> option OntologyCommand;
}.

Section grpc.
Context `{Externals} `{StorageExternals} `{GrpcExternals}.

(** ** Encoding and decoding *)
Definition MAX_JSON_BYTES : N := 16777216.
Definition json_from_bytes (payload : string) : reply value :=
  if (MAX_JSON_BYTES <? N.of_nat (String.length payload))%N
  then Fail (invalid_status "JSON payload exceeds safety limit")
  else match json_from_slice payload with
       | Ok v => Reply (de_value v)
       | Err e => Fail (invalid_status (error_text e))
       end.
Definition json_bytes (v : value) : reply string :=
  match json_to_vec v with Ok bytes => Reply bytes | Err _ => Fail internal_status end.
Definition optional_json_bytes (v : option value) : reply string :=
  match v with Some v => json_bytes v | None => Reply EmptyString end.

Definition tenant_message (view : TenantView) : TenantMessage :=
  {| tg_tenant_id := tv_tenant_id view; tg_head_revision_id := tv_head_revision_id view |}.
Definition pipeline_message (view : PipelineView) : reply PipelineMessage :=
  let r := pv_record view in
  authoring_json ← match json_to_vec (json_authoring (pl_authoring r)) with
                   | Ok bytes => Reply bytes
                   | Err _ => Fail {| st_code := Internal; st_message := "authoring serialization failed" |}
                   end;
  definition_json ← json_bytes (pl_definition r);
  Reply {| pg_authoring_json := authoring_json; pg_previous_revision_id := pl_previous_revision_id r;
           pg_pipeline_id := pl_pipeline_id r; pg_name := pl_name r; pg_owner_id := pl_owner_id r;
           pg_head_revision_id := pv_head_revision_id view;
           pg_published_revision_id := pl_published_revision_id r;
           pg_definition_json := definition_json; pg_author_id := pl_author_id r;
           pg_message := pl_message r; pg_created_at_ms := pl_created_at_ms r;
           pg_updated_at_ms := pl_updated_at_ms r; pg_deleted_at_ms := pl_deleted_at_ms r |}.
(** [serde_json::to_value] of the workspace metadata cannot fail. *)
Definition ontology_message (view : OntologyView) : reply OntologyRevision :=
  let r := ov_record view in
  authoring_json ← json_bytes (json_ontology_authoring (or_authoring r));
  ontology_json ← json_bytes (or_ontology r);
  Reply {| og_authoring_json := authoring_json; og_ontology_id := or_ontology_id r;
           og_display_name := or_display_name r; og_revision_id := ov_revision_id view;
           og_ontology_json := ontology_json; og_author := or_author r; og_message := or_message r;
           og_created_at_ms := or_created_at_ms r |}.
Definition publication_message (ontology_id display_name : string) (p : OntologyPublicationRecord)
    : reply PublicationMessage :=
  metadata_json ← json_bytes (pub_metadata p);
  Reply {| ug_ontology_id := ontology_id; ug_display_name := display_name;
           ug_publication_id := pub_publication_id p; ug_revision_id := pub_revision_id p;
           ug_lifecycle := pub_lifecycle p; ug_metadata_json := metadata_json;
           ug_base_version := pub_base_version p; ug_base_hash := pub_base_hash p;
           ug_effective_hash := pub_effective_hash p; ug_author := pub_author p;
           ug_message := pub_message p; ug_published_at_ms := pub_published_at_ms p;
           ug_retired_at_ms := pub_retired_at_ms p |}.
Definition binding_record (b : BindingMessage) : reply OntologyBindingRecord :=
  metadata ← json_from_bytes (bg_metadata_json b);
  Reply {| bd_pipeline_id := bg_pipeline_id b; bd_block_id := bg_block_id b;
           bd_ontology_id := bg_ontology_id b; bd_resource_ids := bg_resource_ids b;
           bd_resource_kinds := bg_resource_kinds b;
           bd_include_dependencies := bg_include_dependencies b; bd_metadata := metadata;
           bd_updated_at_ms := bg_updated_at_ms b |}.
Definition binding_message (b : OntologyBindingRecord) (head_revision_id : string)
    : reply BindingMessage :=
  metadata_json ← json_bytes (bd_metadata b);
  Reply {| bg_pipeline_id := bd_pipeline_id b; bg_block_id := bd_block_id b;
           bg_ontology_id := bd_ontology_id b; bg_resource_ids := bd_resource_ids b;
           bg_resource_kinds := bd_resource_kinds b;
           bg_include_dependencies := bd_include_dependencies b; bg_metadata_json := metadata_json;
           bg_updated_at_ms := bd_updated_at_ms b; bg_head_revision_id := head_revision_id |}.

(** ** Handlers *)

(** A step of a handler that may fail with a status of its own. *)
Definition decoded {A B} (r : reply A) (k : A -> prog (reply B)) : prog (reply B) :=
  match r with Reply a => k a | Fail s => ok (Fail s) end.

Definition rpc_validate_tenants (tenant_ids : list string) : prog (reply (list TenantValidation)) :=
  existence ← validate_tenants tenant_ids;
  ok (Reply (zip_with (fun t b => {| vg_tenant_id := t; vg_exists := b |}) tenant_ids existence)).
Definition rpc_get_tenant (tenant_id : string) : prog (reply TenantMessage) :=
  view ← tenant tenant_id; ok (Reply (tenant_message view)).
Definition rpc_put_tenant (tenant_id : string) : prog (reply TenantMessage) :=
  view ← put_tenant tenant_id; ok (Reply (tenant_message view)).
Definition rpc_delete_tenant (tenant_id confirmation_tenant_id : string) : prog (reply unit) :=
  delete_tenant tenant_id confirmation_tenant_id ;; ok (Reply tt).

Definition pipeline_input (q : PutPipelineRequest) (definition : value) : PutPipeline :=
  {| pp_tenant_id := ppq_tenant_id q; pp_pipeline_id := ppq_pipeline_id q; pp_name := ppq_name q;
     pp_owner_id := ppq_owner_id q; pp_definition := definition; pp_author := ppq_author_id q;
     pp_message := ppq_message q; pp_expected_revision_id := ppq_expected_revision_id q;
     pp_create_only := ppq_create_only q |}.
Definition rpc_put_pipeline (q : PutPipelineRequest) : prog (reply PipelineMessage) :=
  decoded (json_from_bytes (ppq_definition_json q)) (fun definition =>
    let input := pipeline_input q definition in
    match ppq_authoring_command_json q with
    | Some command =>
        match authoring_command_from command with
        | Some command => view ← author_pipeline input command; ok (pipeline_message view)
        | None => ok (Fail (invalid_status "invalid authoring command"))
        end
    | None => view ← put_pipeline input; ok (pipeline_message view)
    end).
Definition rpc_get_pipeline (tenant_id pipeline_id : string) (revision_id : option string)
    : prog (reply PipelineMessage) :=
  view ← match revision_id with
         | Some revision => pipeline_revision tenant_id pipeline_id revision
         | None => current_pipeline tenant_id pipeline_id
         end;
  ok (pipeline_message view).
Definition rpc_list_pipelines (tenant_id : string) (limit : nat) : prog (reply (list PipelineMessage)) :=
  views ← list_pipelines tenant_id limit; ok (mapM pipeline_message views).
Definition rpc_publish_pipeline (tenant_id pipeline_id revision_id : string)
    : prog (reply PipelineMessage) :=
  view ← publish_pipeline tenant_id pipeline_id revision_id; ok (pipeline_message view).
Definition rpc_delete_pipeline (tenant_id pipeline_id expected_revision_id : string)
    : prog (reply string) :=
  revision_id ← delete_pipeline tenant_id pipeline_id expected_revision_id; ok (Reply revision_id).
Definition rpc_list_published_pipelines (tenant_id : string) (limit : nat)
    : prog (reply (list PipelineMessage)) :=
  views ← list_published_pipelines tenant_id limit; ok (mapM pipeline_message views).
Definition rpc_get_runtime_pipeline (tenant_id pipeline_id revision_id : string)
    : prog (reply PipelineMessage) :=
  record ← runtime_pipeline tenant_id pipeline_id revision_id;
  ok (pipeline_message {| pv_head_revision_id := revision_id; pv_record := record |}).

Definition ontology_input (q : PutOntologyRequest) (ontology : value) : PutOntology :=
  {| po_tenant_id := poq_tenant_id q; po_ontology_id := poq_ontology_id q;
     po_display_name := poq_display_name q; po_ontology := ontology; po_author := poq_author q;
     po_message := poq_message q; po_expected_revision_id := poq_expected_revision_id q;
     po_create_only := poq_create_only q |}.
Definition rpc_put_ontology (q : PutOntologyRequest) : prog (reply OntologyRevision) :=
  decoded (json_from_bytes (poq_ontology_json q)) (fun ontology =>
    let input := ontology_input q ontology in
    match poq_authoring_command_json q with
    | Some command =>
        decoded (json_from_bytes command) (fun command =>
          match ontology_command_from command with
          | Some command => view ← author_ontology input command; ok (ontology_message view)
          | None => ok (Fail (invalid_status "invalid ontology command"))
          end)
    | None => view ← put_ontology input; ok (ontology_message view)
    end).
(** Entries are sent field by field; the limit fits every [usize]. *)
Definition rpc_list_ontology_history (tenant_id ontology_id : string) (after : option string)
    (limit : nat) : prog (reply OntologyHistoryPage) :=
  page ← ontology_history tenant_id ontology_id after limit; ok (Reply page).
Definition rpc_get_ontology (tenant_id ontology_id revision_id : string)
    : prog (reply OntologyRevision) :=
  view ← (if is_empty revision_id then current_ontology tenant_id ontology_id
          else ontology_at tenant_id ontology_id revision_id);
  ok (ontology_message view).
Definition rpc_publish_ontology (q : PublishOntologyRequest) : prog (reply PublicationMessage) :=
  decoded (json_from_bytes (pbq_metadata_json q)) (fun metadata =>
    publication ← publish_ontology (pbq_tenant_id q) (pbq_ontology_id q) (pbq_display_name q)
      (pbq_publication_id q) (pbq_revision_id q) metadata (pbq_create_only q);
    ok (publication_message (pbq_ontology_id q) (pbq_display_name q) publication)).
Definition rpc_retire_ontology (tenant_id ontology_id publication_id revision_id : string)
    : prog (reply string) :=
  head ← retire_ontology tenant_id ontology_id publication_id revision_id; ok (Reply head).
Definition catalog_entry (r : OntologyRecord) : reply CatalogEntry :=
  production ← match or_production_publication r with
               | Some p => Some <$> publication_message (or_ontology_id r) (or_display_name r) p
               | None => Reply None
               end;
  Reply {| cg_ontology_id := or_ontology_id r; cg_display_name := or_display_name r;
           cg_production_publication := production |}.
Definition rpc_list_ontologies (tenant_id : string) (limit : nat) : prog (reply (list CatalogEntry)) :=
  records ← list_ontologies tenant_id limit; ok (mapM catalog_entry records).
Definition rpc_put_binding (tenant_id expected_revision_id : string) (binding : option BindingMessage)
    : prog (reply BindingMessage) :=
  match binding with
  | None => ok (Fail (invalid_status "ontology binding is required"))
  | Some binding =>
      decoded (binding_record binding) (fun record =>
        '(record, head) ← put_binding tenant_id expected_revision_id record;
        ok (binding_message record head))
  end.
Definition rpc_list_bindings (tenant_id : string) (pipeline_id revision_id : option string) (limit : nat)
    : prog (reply (list BindingMessage)) :=
  records ← list_bindings tenant_id pipeline_id revision_id limit;
  ok (mapM (fun b => binding_message b EmptyString) records).
Definition slice_message (slice : OntologySliceView) : reply SliceMessage :=
  let p := sv_publication slice in
  ontology_json ← json_bytes (sv_ontology slice);
  publication_metadata_json ← json_bytes (pub_metadata p);
  binding_metadata_json ← json_bytes (bd_metadata (sv_binding slice));
  Reply {| sg_ontology_id := bd_ontology_id (sv_binding slice); sg_publication_id := pub_publication_id p;
           sg_revision_id := pub_revision_id p; sg_ontology_json := ontology_json;
           sg_publication_metadata_json := publication_metadata_json;
           sg_binding_metadata_json := binding_metadata_json;
           sg_published_at_ms := pub_published_at_ms p; sg_base_version := pub_base_version p;
           sg_base_hash := pub_base_hash p; sg_effective_hash := pub_effective_hash p |}.
Definition rpc_get_ontology_slice (tenant_id pipeline_id pipeline_revision_id block_id : string)
    : prog (reply SliceMessage) :=
  slice ← ontology_slice tenant_id pipeline_id pipeline_revision_id block_id; ok (slice_message slice).
Definition change_message (c : SemanticChange) : reply ChangeMessage :=
  before_json ← optional_json_bytes (sc_before c);
  after_json ← optional_json_bytes (sc_after c);
  Reply {| dg_resource_id := sc_resource_id c; dg_operation := sc_operation c; dg_path := sc_path c;
           dg_before_json := before_json; dg_after_json := after_json |}.
Definition rpc_diff_ontology (tenant_id ontology_id base_revision_id target_revision_id : string)
    : prog (reply (list ChangeMessage)) :=
  changes ← diff_ontology tenant_id ontology_id base_revision_id target_revision_id;
  ok (mapM change_message changes).
Definition conflict_message (c : DiffMerge.MergeConflict) : reply ConflictMessage :=
  base_json ← optional_json_bytes (DiffMerge.mc_base c);
  left_json ← optional_json_bytes (DiffMerge.mc_left c);
  right_json ← optional_json_bytes (DiffMerge.mc_right c);
  Reply {| mg_resource_id := DiffMerge.mc_resource_id c; mg_path := DiffMerge.mc_path c;
           mg_base_json := base_json; mg_left_json := left_json; mg_right_json := right_json |}.
Definition merge_message (result : MergeResult) (view : option OntologyView) : reply MergeMessage :=
  revision ← match view with Some view => Some <$> ontology_message view | None => Reply None end;
  conflicts ← mapM conflict_message (mr_conflicts result);
  Reply {| ng_revision := revision; ng_conflicts := conflicts |}.
Definition rpc_merge_ontology
    (tenant_id ontology_id base_revision_id left_revision_id right_revision_id expected_revision_id
     author message : string) : prog (reply MergeMessage) :=
  '(result, view) ← Domain.merge_ontology tenant_id ontology_id base_revision_id left_revision_id
    right_revision_id expected_revision_id author message;
  ok (merge_message result view).
End grpc.
