(* ===== verification/GrpcFacts.v ===== *)
(** * GrpcFacts: the Registry through its gRPC boundary (grpc.rs)

    A pipeline written through the API is read back as it was written, and the
    status of a refused ontology depends on the names its author chose. *)

From S2P Require Import Prelude Text Json Ontology MergeFacts Authoring AuthoringFacts State Store Domain.
From S2P Require Import AuthoringService OntologyAuthoring StoreLogic RegistryInv DomainSafe.
From S2P Require Import AuthoringSafe RegistryFacts Serde StateJson LakeFs MemServices Grpc.

Section grpc.
Context `{Externals} `{StorageExternals} `{GrpcExternals}.

(** A reply that carries a stored pipeline. *)
Definition put_reply (q : PutPipelineRequest) (L : History) (r : reply PipelineMessage) : Prop :=
  forall msg, r = Reply msg -> exists v, pipeline_message v = Reply msg /\
    pipeline_at L (ppq_tenant_id q) (ppq_pipeline_id q) (pv_head_revision_id v) (pv_record v) /\
    (ppq_authoring_command_json q = None ->
      json_from_bytes (ppq_definition_json q) = Reply (pl_definition (pv_record v))).

Lemma committed_pipeline_at L t rev parent before after id r :
  committed L t rev parent before after -> pipelines after !! id = Some r -> pipeline_at L t id rev r.
Proof. intros (pe & en & _ & _ & Hen & _ & <-) Hr. by exists en. Qed.

Lemma rpc_put_pipeline_wp q L :
  history_ok registry_inv L -> wp registry_inv (rpc_put_pipeline q) L (put_reply q).
Proof.
  intros Hok. unfold rpc_put_pipeline, decoded.
  destruct (json_from_bytes (ppq_definition_json q)) as [definition|s] eqn:Ed; [|by intros msg [=]].
  destruct (ppq_authoring_command_json q) as [command|] eqn:Ec.
  - destruct (authoring_command_from command) as [command'|]; [|by intros msg [=]].
    apply wp_bind; [done|]. eapply wp_conseq; [done| |by apply author_pipeline_wp].
    intros L' v _ _ (parent & before & after & Hc & Hp & _) msg Hmsg. exists v.
    split_and!; [done| |by rewrite Ec].
    eapply committed_pipeline_at; [exact Hc|]. rewrite Hp. apply lookup_insert_eq.
  - apply wp_bind; [done|]. eapply wp_conseq; [done| |by apply put_pipeline_wp].
    intros L' v _ _ [(parent & before & Hc & _) (_ & _ & _ & Hdef & _) _] msg Hmsg. exists v.
    split_and!; [done| |intros _; by rewrite Hdef].
    eapply committed_pipeline_at; [exact Hc|]. simpl. apply lookup_insert_eq.
Qed.
Lemma put_reply_stable q : stable (put_reply q).
Proof.
  intros L L' r HL Hr msg Hmsg. destruct (Hr msg Hmsg) as (v & ? & ? & ?). exists v.
  split_and!; [done|by eapply stored_mono|done].
Qed.

(** C29: a pipeline written through the API can be read back: after a successful
    [PutPipeline], with or without an authoring command, any later successful
    [GetPipeline] of the returned revision, among any other requests, replies
    with the same message; without a command its definition is the submitted
    document. *)
Theorem rpc_put_then_get q w msg w1 w2 msg' w3 :
  reachable request w -> runs others (rpc_put_pipeline q) w (Ok (Reply msg)) w1 -> others w1 w2 ->
  runs others (rpc_get_pipeline (ppq_tenant_id q) (ppq_pipeline_id q) (Some (pg_head_revision_id msg)))
    w2 (Ok (Reply msg')) w3 ->
  msg' = msg /\
  (ppq_authoring_command_json q = None -> exists definition,
    json_from_bytes (ppq_definition_json q) = Reply definition /\
    json_bytes definition = Reply (pg_definition_json msg)).
Proof.
  intros Hw Hput Ho Hget.
  destruct (runs_reached _ _ _ _ _ (put_reply_stable q) Hw (rpc_put_pipeline_wp q) Hput)
    as (Hw1 & _ & Hr). destruct (Hr msg eq_refl) as (v & Hmsg & Hat & Hdef).
  destruct (others_ok _ _ Hw1 Ho) as [Hw2 HL2].
  assert (pg_head_revision_id msg = pv_head_revision_id v /\
    json_bytes (pl_definition (pv_record v)) = Reply (pg_definition_json msg)) as [Hhead Hjson].
  { revert Hmsg. unfold pipeline_message. destruct (json_to_vec _); [|done].
    destruct (json_bytes _); [|done]. by intros [= <-]. }
  set (Q := fun L r => forall msg', r = Reply msg' -> exists v', pipeline_message v' = Reply msg' /\
    pv_head_revision_id v' = pg_head_revision_id msg /\
    pipeline_at L (ppq_tenant_id q) (ppq_pipeline_id q) (pg_head_revision_id msg) (pv_record v')).
  eapply (runs_wp _ w2 _ w3 Q) in Hget as (_ & HL3 & Hpost); [| |done|].
  - destruct (Hpost _ eq_refl msg' eq_refl) as (v' & Hmsg' & Hh & Hat').
    apply (stored_mono _ (log w3)) in Hat; [|by etrans].
    rewrite Hhead in Hat'. destruct Hat as (en & Hen & Hrec), Hat' as (en' & Hen' & Hrec').
    rewrite Hen in Hen'. injection Hen' as <-. rewrite Hrec in Hrec'. injection Hrec' as Hrec'.
    assert (v' = v) as -> by (destruct v, v'; simpl in *; congruence).
    split; [congruence|]. intros Hc. exists (pl_definition (pv_record v)). by split; [apply Hdef|].
  - intros L L' r HL Hq msg2 Hm. destruct (Hq msg2 Hm) as (v' & ? & ? & ?). exists v'.
    split_and!; [done..|by eapply stored_mono].
  - unfold rpc_get_pipeline. apply wp_bind; [apply Hw2|]. apply pipeline_revision_wp; [apply Hw2|].
    intros L' v' _ _ Hh' Hat' _ msg2 Hm. exists v'. split_and!; [done..|]. done.
Qed.

(** ** Errors *)

(** An ontology that [validate_ontology] refuses: its only resource, [name],
    refers to a resource that does not exist. *)
Definition dangling (name : string) : value :=
  demo_version "1" [JObject [("resource_id", JString name); ("kind", JString "object_type");
    ("display_name", JString "Item"); ("attributes", JObject []); ("references", JString "other")]].
Definition named_codes : list (string * Code) :=
  [("ship", InvalidArgument); ("S3_bucket", Unavailable); ("lakeFS_repository", Unavailable);
   ("price_changed", Aborted); ("missing_part", NotFound)].
Lemma named_codes_status name code :
  (name, code) ∈ named_codes ->
  exists e, validate_ontology (dangling name) = Err e /\ st_code (domain_status e) = code.
Proof.
  unfold named_codes. rewrite !elem_of_cons, elem_of_nil.
  intros [[= -> ->]|[[= -> ->]|[[= -> ->]|[[= -> ->]|[[= -> ->]|[]]]]]];
    eexists; (split; [vm_compute; reflexivity|reflexivity]).
Qed.
(** A refused document ends [PutOntology] before any store call. *)
Lemma rpc_put_ontology_refused q ontology e :
  json_from_bytes (poq_ontology_json q) = Reply ontology -> poq_authoring_command_json q = None ->
  validate_identity (poq_tenant_id q) (poq_ontology_id q) = Ok tt ->
  is_empty (poq_display_name q) = false -> is_empty (poq_author q) = false ->
  is_empty (poq_message q) = false -> validate_ontology ontology = Err e ->
  rpc_put_ontology q = Done (Err e).
Proof.
  intros Hj Hc Hi Hd Ha Hm He. unfold rpc_put_ontology, decoded. rewrite Hj, Hc.
  unfold put_ontology. simpl. by rewrite Hi, Hd, Ha, Hm, He.
Qed.

End grpc.

(** ** Witnesses: requests on the in-memory store *)
#[local] Instance demo_commands : GrpcExternals :=
  {| authoring_command_from _ := None; ontology_command_from _ := None |}.
Definition demo_put : PutPipelineRequest :=
  {| ppq_tenant_id := "acme"; ppq_pipeline_id := "mail"; ppq_name := "main"; ppq_owner_id := "ann";
     ppq_definition_json := document_text demo_main; ppq_author_id := "ann"; ppq_message := "edit";
     ppq_expected_revision_id := None; ppq_create_only := true; ppq_authoring_command_json := None |}.

(** A successful call on the in-memory store, known by one field of its reply. *)
Definition replies {A B} `{EqDecision B} (field : A -> B) (expected : B) (r : result (reply A)) : bool :=
  match r with Ok (Reply a) => bool_decide (field a = expected) | _ => false end.
Lemma exec_reply {A B} `{EqDecision B} (p : prog (reply A)) (field : A -> B) expected (s : MemoryStore) :
  replies field expected (exec p s).1 = true ->
  exists a, runs others p (ms_world s) (Ok (Reply a)) (ms_world (after p s)) /\ field a = expected.
Proof.
  destruct (exec p s).1 as [[a|]|] eqn:E; try done. intros Ha. exists a.
  split; [by apply exec_others|by apply bool_decide_eq_true in Ha].
Qed.

Lemma rpc_put_then_get_witness :
  exists msg w1 w3 definition,
    runs others (rpc_put_pipeline demo_put) (ms_world empty_store) (Ok (Reply msg)) w1 /\
    runs others (rpc_get_pipeline "acme" "mail" (Some (pg_head_revision_id msg))) w1 (Ok (Reply msg)) w3 /\
    json_from_bytes (ppq_definition_json demo_put) = Reply definition /\
    json_bytes definition = Reply (pg_definition_json msg).
Proof.
  destruct (exec_reply (rpc_put_pipeline demo_put) pg_head_revision_id (revision_name 1) empty_store)
    as (msg & Hr & Hh); [vm_compute; reflexivity|].
  destruct (exec_reply (rpc_get_pipeline "acme" "mail" (Some (revision_name 1))) pg_head_revision_id
    (revision_name 1) (after (rpc_put_pipeline demo_put) empty_store)) as (msg' & Hr' & _);
    [vm_compute; reflexivity|].
  rewrite <-Hh in Hr'.
  destruct (rpc_put_then_get demo_put _ _ _ _ _ _ reachable_empty Hr (rtc_refl _ _) Hr')
    as [-> Hdef].
  destruct (Hdef eq_refl) as (definition & Hd & Hb).
  exists msg. eexists _, _, definition. split; [exact Hr|]. split; [exact Hr'|]. split; [exact Hd|exact Hb].
Defined.

Definition demo_refused : PutOntologyRequest :=
  {| poq_tenant_id := "acme"; poq_ontology_id := "fleet"; poq_display_name := "Fleet";
     poq_ontology_json := document_text (dangling "S3_bucket"); poq_author := "ann";
     poq_message := "edit"; poq_expected_revision_id := None; poq_create_only := true;
     poq_authoring_command_json := None |}.
