(* ===== verification/Proc.v ===== *)
(** * Proc: programs that call ports

    An [async] method that talks to other services is a program: a tree of the
    calls it makes, whose answers, errors included, it sees one by one.  A call
    may be answered with an error at any time; a dropped or timed-out future is a
    call whose answer never reaches the program, which an error answer covers.
    Runs list the calls with their answers; [safe] is a logic for statements about
    every run. *)

From S2P Require Import Prelude.

Inductive proc (E : Type -> Type) (A : Type) : Type :=
  | Done (r : result A)
  | Do {B : Type} (c : E B) (k : result B -> proc E A).
Arguments Done {_ _} _.
Arguments Do {_ _ _} _ _.
Fixpoint proc_then {E A C} (p : proc E A) (f : result A -> proc E C) : proc E C :=
  match p with
  | Done r => f r
  | Do c k => Do c (fun b => proc_then (k b) f)
  end.
(** [?] and [.await?] *)
#[export] Instance proc_bind {E} : MBind (proc E) := fun A B f p =>
  proc_then p (fun r => match r with Ok a => f a | Err e => Done (Err e) end).
#[export] Instance proc_ret {E} : MRet (proc E) := fun A a => Done (Ok a).

Section combinators.
Context {E : Type -> Type}.
Definition await {B} (c : E B) : proc E B := Do c Done.
Definition lift {A} (r : result A) : proc E A := Done r.
Definition ok {A} (a : A) : proc E A := Done (Ok a).
Definition check (b : bool) (message : string) : proc E unit := lift (ensure b message).
Definition require {A} (message : string) (o : option A) : proc E A := lift (with_context message o).
(** [match p.await { Ok(a) => .., Err(_) => .. }] *)
Definition attempt {A} (p : proc E A) : proc E (option A) :=
  proc_then p (fun r => Done (Ok (match r with Ok a => Some a | Err _ => None end))).
End combinators.

(** ** Runs *)
Inductive event (E : Type -> Type) : Type :=
  | Event {B : Type} (c : E B) (answer : result B).
Arguments Event {_ _} _ _.
Inductive runs {E A} : proc E A -> list (event E) -> result A -> Prop :=
  | runs_done r : runs (Done r) [] r
  | runs_do {B} (c : E B) k answer es r :
      runs (k answer) es r -> runs (Do c k) (Event c answer :: es) r.

(** ** A logic of calls

    [safe G pre p Q]: after the events [pre], every call of [p] and its answer
    satisfy [G] on the events before them, and [p] ends in [Q]. *)
Fixpoint safe {E A} (G : list (event E) -> event E -> Prop) (pre : list (event E)) (p : proc E A)
    (Q : list (event E) -> result A -> Prop) : Prop :=
  match p with
  | Done r => Q pre r
  | Do c k => forall answer, G pre (Event c answer) /\ safe G (pre ++ [Event c answer]) (k answer) Q
  end.

Section logic.
Context {E : Type -> Type} {G : list (event E) -> event E -> Prop}.
Lemma safe_runs {A} (p : proc E A) Q pre es r :
  safe G pre p Q -> runs p es r ->
  Q (pre ++ es) r /\ forall before e after, es = before ++ e :: after -> G (pre ++ before) e.
Proof.
  intros Hs Hr. revert pre Hs. induction Hr as [r|B c k answer es r Hr IH]; intros pre Hs.
  - rewrite app_nil_r. split; [exact Hs|]. by intros [].
  - destruct (Hs answer) as [Hg Hs']. destruct (IH _ Hs') as [HQ HG]. rewrite <-app_assoc in HQ.
    split; [exact HQ|]. intros [|e before] e' after; simpl.
    + intros [= <- _]. by rewrite app_nil_r.
    + intros [= <- He]. specialize (HG before e' after He). by rewrite <-app_assoc in HG.
Qed.
Lemma safe_conseq {A} (p : proc E A) pre (Q Q' : list (event E) -> result A -> Prop) :
  (forall es r, Q (pre ++ es) r -> Q' (pre ++ es) r) -> safe G pre p Q -> safe G pre p Q'.
Proof.
  revert pre. induction p as [r|B c k IH]; intros pre HQ; simpl.
  - intros Hr. rewrite <-(app_nil_r pre). apply HQ. by rewrite app_nil_r.
  - intros Hs answer. destruct (Hs answer) as [Hg Hs']. split; [done|]. apply (IH answer); [|done].
    intros es r. rewrite <-!app_assoc. apply HQ.
Qed.
Lemma safe_weaken {A} (G' : list (event E) -> event E -> Prop) (p : proc E A) pre Q :
  (forall es e, G (pre ++ es) e -> G' (pre ++ es) e) -> safe G pre p Q -> safe G' pre p Q.
Proof.
  revert pre. induction p as [r|B c k IH]; intros pre HG; simpl; [done|].
  intros Hs answer. destruct (Hs answer) as [Hg Hs']. split.
  - rewrite <-(app_nil_r pre). apply HG. by rewrite app_nil_r.
  - apply IH; [|done]. intros es e. rewrite <-!app_assoc. apply HG.
Qed.
(** The events a program added are a run of it. *)
Lemma safe_run_of {A} (p : proc E A) pre Q :
  safe G pre p Q -> safe G pre p (fun es r => Q es r /\ exists es', es = pre ++ es' /\ runs p es' r).
Proof.
  revert pre. induction p as [r|B c k IH]; intros pre; simpl.
  - intros Hq. split; [done|]. exists []. rewrite app_nil_r. split; [done|constructor].
  - intros Hs answer. destruct (Hs answer) as [Hg Hs']. split; [done|].
    eapply safe_conseq; [|by apply IH]. intros es r (Hq & es' & Heq & Hr). split; [done|].
    exists (Event c answer :: es'). split; [by rewrite Heq, <-app_assoc|by constructor].
Qed.
Lemma safe_then {A C} (p : proc E A) (f : result A -> proc E C) pre Q :
  safe G pre p (fun es r => safe G es (f r) Q) -> safe G pre (proc_then p f) Q.
Proof.
  revert pre. induction p as [r|B c k IH]; intros pre; simpl; [done|].
  intros Hs answer. destruct (Hs answer) as [Hg Hs']. split; [done|]. by apply IH.
Qed.
(** A step whose errors end the program. *)
Lemma safe_bind {A C} (p : proc E A) (f : A -> proc E C) pre Q :
  safe G pre p (fun es r => match r with Ok a => safe G es (f a) Q | Err e => Q es (Err e) end) ->
  safe G pre (p ≫= f) Q.
Proof. intros Hs. apply safe_then. eapply safe_conseq; [|exact Hs]. by intros es [a|e]. Qed.
End logic.

(** Q that only constrains success. *)
Definition succeeds {E A} (Q : list (event E) -> A -> Prop) (es : list (event E)) (r : result A) : Prop :=
  match r with Ok a => Q es a | Err _ => True end.
Section steps.
Context {E : Type -> Type} {G : list (event E) -> event E -> Prop}.
Lemma safe_seq {A C} (p : proc E A) (f : A -> proc E C) pre Q :
  safe G pre p (succeeds (fun es a => safe G es (f a) (succeeds Q))) ->
  safe G pre (p ≫= f) (succeeds Q).
Proof. intros Hs. apply safe_bind. eapply safe_conseq; [|exact Hs]. by intros es [a|e]. Qed.
Lemma safe_await {B C} (c : E B) (f : B -> proc E C) pre Q :
  (forall answer, G pre (Event c answer)) ->
  (forall b, safe G (pre ++ [Event c (Ok b)]) (f b) (succeeds Q)) ->
  safe G pre (await c ≫= f) (succeeds Q).
Proof. intros HG Hs. apply safe_seq. intros [b|e]; (split; [apply HG|]); [apply Hs|done]. Qed.
Lemma safe_call {B} (c : E B) pre (Q : list (event E) -> B -> Prop) :
  (forall answer, G pre (Event c answer)) -> (forall b, Q (pre ++ [Event c (Ok b)]) b) ->
  safe G pre (await c) (succeeds Q).
Proof. intros HG HQ [b|e]; (split; [apply HG|]); [apply HQ|done]. Qed.
Lemma safe_lift {A C} (r : result A) (f : A -> proc E C) pre Q :
  (forall a, r = Ok a -> safe G pre (f a) (succeeds Q)) -> safe G pre (lift r ≫= f) (succeeds Q).
Proof. intros Hs. destruct r as [a|e]; [by apply Hs|done]. Qed.
Lemma safe_check {C} b m (f : unit -> proc E C) pre Q :
  (b = true -> safe G pre (f tt) (succeeds Q)) -> safe G pre (check b m ≫= f) (succeeds Q).
Proof. intros Hs. apply safe_lift. intros [] Hb%ensure_Ok_inv. by apply Hs. Qed.
Lemma safe_require {A C} m (o : option A) (f : A -> proc E C) pre Q :
  (forall a, o = Some a -> safe G pre (f a) (succeeds Q)) -> safe G pre (require m o ≫= f) (succeeds Q).
Proof. intros Hs. apply safe_lift. intros a Ha%context_Ok_inv. by apply Hs. Qed.
Lemma safe_mono {A} (p : proc E A) pre (Q Q' : list (event E) -> A -> Prop) :
  (forall es a, Q (pre ++ es) a -> Q' (pre ++ es) a) ->
  safe G pre p (succeeds Q) -> safe G pre p (succeeds Q').
Proof. intros HQ. apply safe_conseq. intros es [a|e]; [apply HQ|done]. Qed.
Lemma safe_attempt {A C} (p : proc E A) (f : option A -> proc E C) pre Q :
  safe G pre p (fun es r => safe G es (f (match r with Ok a => Some a | Err _ => None end)) (succeeds Q)) ->
  safe G pre (attempt p ≫= f) (succeeds Q).
Proof. intros Hs. apply safe_bind. unfold attempt. apply safe_then. exact Hs. Qed.
End steps.

(** No condition on the result. *)
Definition any {E A} (es : list (event E)) (a : A) : Prop := True.
Lemma elem_of_before {A} (x : A) l k : x ∈ l -> x ∈ l ++ k.
Proof. intros Hx. apply elem_of_app. by left. Qed.

(** A run in which every call is answered by a fixed state of the ports. *)
Fixpoint eval {E A} (answers : forall B, E B -> result B) (p : proc E A) : result A :=
  match p with
  | Done r => r
  | Do c k => eval answers (k (answers _ c))
  end.
Section fixed.
Context {E : Type -> Type} (answers : forall B, E B -> result B).
Lemma eval_then {A C} (p : proc E A) (f : result A -> proc E C) :
  eval answers (proc_then p f) = eval answers (f (eval answers p)).
Proof. induction p as [r|B c k IH]; simpl; [done|apply IH]. Qed.
Lemma fixed_bind {A C} (p : proc E A) (f : A -> proc E C) :
  eval answers (p ≫= f) = (eval answers p ≫= fun a => eval answers (f a)).
Proof. unfold mbind at 1, proc_bind. rewrite eval_then. by destruct (eval answers p). Qed.

Lemma eval_step {A C} (p : proc E A) (f : A -> proc E C) a :
  eval answers p = Ok a -> eval answers (p ≫= f) = eval answers (f a).
Proof. intros Hp. by rewrite fixed_bind, Hp. Qed.
Lemma eval_await {B C} (c : E B) (f : B -> proc E C) b :
  answers _ c = Ok b -> eval answers (await c ≫= f) = eval answers (f b).
Proof. intros Hc. by apply eval_step. Qed.
Lemma eval_lift {A C} (r : result A) (f : A -> proc E C) a :
  r = Ok a -> eval answers (lift r ≫= f) = eval answers (f a).
Proof. intros ->. by apply eval_step. Qed.
Lemma eval_check {C} m (f : unit -> proc E C) :
  eval answers (check true m ≫= f) = eval answers (f tt).
Proof. done. Qed.
End fixed.
Fixpoint trace {E A} (answers : forall B, E B -> result B) (p : proc E A) : list (event E) :=
  match p with
  | Done _ => []
  | Do c k => Event c (answers _ c) :: trace answers (k (answers _ c))
  end.
Lemma trace_runs {E A} (answers : forall B, E B -> result B) (p : proc E A) : runs p (trace answers p) (eval answers p).
Proof. induction p as [r|B c k IH]; simpl; [constructor|]. constructor. apply IH. Qed.

(** ** Composition

    [interp h p] answers every call of [p] with the program [h] gives for it. *)
Fixpoint interp {E F A} (h : forall B, E B -> proc F B) (p : proc E A) : proc F A :=
  match p with
  | Done r => Done r
  | Do c k => proc_then (h _ c) (fun answer => interp h (k answer))
  end.
Lemma runs_inv {E A} (p : proc E A) es r :
  runs p es r ->
  match p with
  | Done r' => es = [] /\ r = r'
  | Do c k => exists answer es', es = Event c answer :: es' /\ runs (k answer) es' r
  end.
Proof. destruct 1; eauto. Qed.
Lemma runs_then {E A C} (p : proc E A) (f : result A -> proc E C) es r :
  runs (proc_then p f) es r -> exists es1 es2 r1, es = es1 ++ es2 /\ runs p es1 r1 /\ runs (f r1) es2 r.
Proof.
  revert es. induction p as [r1|B c k IH]; intros es; simpl.
  - intros Hr. exists [], es, r1. split_and!; [done|constructor|done].
  - intros (answer & es' & -> & Hr)%runs_inv. destruct (IH _ _ Hr) as (es1 & es2 & r1 & -> & H1 & H2). exists (Event c answer :: es1), es2, r1.
    split_and!; [done| |done]. by constructor.
Qed.
Lemma runs_bind {E A C} (p : proc E A) (f : A -> proc E C) es c :
  runs (p ≫= f) es (Ok c) -> exists es1 es2 a, es = es1 ++ es2 /\ runs p es1 (Ok a) /\ runs (f a) es2 (Ok c).
Proof.
  intros (es1 & es2 & [a|e] & -> & H1 & H2)%runs_then; [by exists es1, es2, a|]. by apply runs_inv in H2 as [_ ?].
Qed.
Lemma runs_lift {E A C} (r : result A) (f : A -> proc E C) es c :
  runs (lift r ≫= f) es (Ok c) -> exists a, r = Ok a /\ runs (f a) es (Ok c).
Proof.
  destruct r as [a|e]; [by exists a|]. intros Hr. by apply runs_inv in Hr as [_ ?].
Qed.
Lemma runs_await {E B} (c : E B) es r : runs (await c) es r -> es = [Event c r].
Proof. by intros (answer & es' & -> & [-> ->]%runs_inv)%runs_inv. Qed.
(** A run of the composition is a run of the program, with a run of the handler in
    the place of each call. *)
Definition served {E F} (h : forall B, E B -> proc F B) (segment : event E * list (event F)) : Prop :=
  let '@Event _ B c answer := segment.1 in runs (h B c) segment.2 answer.
Lemma runs_interp {E F A} (h : forall B, E B -> proc F B) (p : proc E A) es r :
  runs (interp h p) es r ->
  exists segments, runs p segments.*1 r /\ es = concat segments.*2 /\ Forall (served h) segments.
Proof.
  revert es. induction p as [r'|B c k IH]; intros es; simpl.
  - intros [-> ->]%runs_inv. exists []. split_and!; constructor.
  - intros (es1 & es2 & answer & -> & H1 & H2)%runs_then. destruct (IH _ _ H2) as (segments & Hs & -> & Hf).
    exists ((Event c answer, es1) :: segments). split_and!; [by constructor|done|by constructor].
Qed.
(** An event of the composition is in the run of one handler. *)
Lemma concat_split {A B} (segments : list (A * list B)) before x after :
  concat segments.*2 = before ++ x :: after ->
  exists earlier segment later s1 s2, segments = earlier ++ segment :: later /\ segment.2 = s1 ++ x :: s2 /\
    before = concat earlier.*2 ++ s1.
Proof.
  revert before. induction segments as [|[a l] segments IH]; intros before; simpl; [by destruct before|].
  intros [(k & Hl & Hk)|(k & -> & Hk)]%app_eq_inv.
  - destruct k as [|y k]; simplify_eq/=; rewrite ?app_nil_r in *.
    + destruct (IH [] (eq_sym Hk)) as (earlier & segment & later & s1 & s2 & -> & Hs & Hb).
      exists ((a, before) :: earlier), segment, later, s1, s2. split_and!; [done..|]. simpl.
      symmetry in Hb. apply app_nil in Hb as [Hb ->]. by rewrite app_nil_r; change (before = before ++ concat earlier.*2); rewrite Hb, app_nil_r.
    + by exists [], (a, before ++ y :: k), segments, before, k.
  - destruct (IH k Hk) as (earlier & segment & later & s1 & s2 & -> & Hs & ->).
    exists ((a, l) :: earlier), segment, later, s1, s2. split_and!; [done..|]. simpl. by rewrite <-app_assoc.
Qed.
Lemma run_split {E} (es : list (event E)) n e : es !! n = Some e -> es = take n es ++ e :: drop (S n) es.
Proof. intros He. by rewrite take_drop_middle. Qed.
