(* ===== verification/Template.v ===== *)
(** * Template: document templates (platform/document-compiler, domain.rs)

    A template is a small TeX project with typed variables.  It is validated,
    sealed (its version is the digest of its content) and rendered: placeholders
    of the TeX sources are replaced by escaped values.  The worker that runs the
    TeX engine checks the rendered project again (worker.rs). *)

From S2P Require Import Prelude Text Json Authoring RustStr.
From Stdlib Require Import Ascii.

Definition MAX_PROJECT_BYTES : N := 2 * 1024 * 1024.
Definition MAX_PDF_BYTES : N := 16 * 1024 * 1024.

Inductive Scope : Type := Personal | Project | Tenant | Plugin.
#[export] Instance scope_eq_dec : EqDecision Scope.
Proof. solve_decision. Defined.

Record Asset : Type := {
  as_path : string;
  as_data : string;
}.
Inductive VariableKind : Type := Text | Integer | Boolean | Choice.
Record TemplateVariable : Type := {
  va_kind : VariableKind;
  va_required : bool;
  va_choices : list string;
}.
Record Template : Type := {
  tm_id : string;
  tm_version : string;
  tm_name : string;
  tm_description : string;
  tm_scope : Scope;
  tm_owner : string;
  tm_project : option string;
  tm_plugin : option string;
  tm_entrypoint : string;
  tm_assets : list Asset;
  tm_variables : gmap string TemplateVariable;
}.
Record Document : Type := {
  dc_variables : gmap string value;
  dc_source : option string;
}.
Record Rendered : Type := {
  rd_entrypoint : string;
  rd_assets : list Asset;
}.
#[export] Instance variable_kind_eq_dec : EqDecision VariableKind.
Proof. solve_decision. Defined.
#[export] Instance variable_eq_dec : EqDecision TemplateVariable.
Proof. solve_decision. Defined.
#[export] Instance asset_eq_dec : EqDecision Asset.
Proof. solve_decision. Defined.
#[export] Instance template_eq_dec : EqDecision Template.
Proof. solve_decision. Defined.

(** ** Identifiers and paths *)
Definition validate_id (value : string) (length : nat) : result unit :=
  ensure ((String.length value =? length) &&
          bytes_all (fun c => is_ascii_hexdigit c && negb (is_ascii_uppercase c)) value)
    "Invalid immutable identifier".
Definition validate_tenant (value : string) : result unit :=
  ensure (negb (is_empty value) && len_le value 64 &&
          bytes_all (fun c => is_ascii_alphanumeric c || one_of "_-" c) value)
    "Invalid tenant identifier".

Definition path_part (part : string) : bool :=
  negb (is_empty part) && negb (str_in part ["."; ".."]) && negb (starts_with "." part).
Definition EXTENSIONS : list string :=
  ["tex"; "cls"; "sty"; "bib"; "bst"; "png"; "jpg"; "jpeg"; "pdf"; "ttf"; "otf"].
Definition extension (path : string) : option string := snd <$> rsplit_once "."%char path.
Definition validate_path (path : string) : result unit :=
  ensure (negb (is_empty path) && len_le path 192 && forallb path_part (split_byte "/" path))
    "Invalid asset path" ;;
  ensure (bytes_all (fun c => is_ascii_alphanumeric c || one_of "_-./" c) path)
    "Invalid asset alphabet" ;;
  extension ← with_context "Asset requires an extension" (extension path);
  ensure (str_in extension EXTENSIONS) "Unsupported asset type".

(** ** Values *)
Definition escape_char (c : ascii) : string :=
  match c with
  | "\"%char => "\textbackslash{}"
  | "{"%char => "\{"
  | "}"%char => "\}"
  | "%"%char => "\%"
  | "&"%char => "\&"
  | "#"%char => "\#"
  | "_"%char => "\_"
  | "$"%char => "\$"
  | "^"%char => "\textasciicircum{}"
  | "~"%char => "\textasciitilde{}"
  | "009"%char | "010"%char => String c EmptyString
  | c => if control1 c then EmptyString else String c EmptyString
  end.
(** The control characters above 0x7F take two bytes. *)
Fixpoint escape_text (value : string) : string :=
  match value with
  | EmptyString => EmptyString
  | String a s1 =>
      match s1 with
      | String b s2 => if control2 a b then escape_text s2 else escape_char a +:+ escape_text s1
      | EmptyString => escape_char a
      end
  end.

Definition variable_render (var : TemplateVariable) (v : value) : result string :=
  match va_kind var with
  | Text =>
      text ← with_context "Text variable required" (as_str v);
      ensure (byte_len text <=? 32768)%N "Text variable exceeds limit" ;;
      Ok (escape_text text)
  | Integer => i ← with_context "Integer variable required" (as_i64 v); Ok (pretty i)
  | Boolean =>
      b ← with_context "Boolean variable required" (as_bool v);
      Ok (if b : bool then "true" else "false")
  | Choice =>
      text ← with_context "Choice variable required" (as_str v);
      ensure (str_in text (va_choices var)) "Unknown choice" ;;
      Ok (escape_text text)
  end.

(** ** Validation *)
Definition scope_consistent (t : Template) : bool :=
  match tm_scope t with
  | Personal | Tenant => option_is_none (tm_project t) && option_is_none (tm_plugin t)
  | Project =>
      is_some_and (fun id => is_Ok (validate_id id 32)) (tm_project t) &&
      option_is_none (tm_plugin t)
  | Plugin =>
      option_is_none (tm_project t) &&
      is_some_and (fun id => negb (is_empty id) && len_le id 64 &&
        bytes_all (fun c => is_ascii_alphanumeric c || one_of "-_" c) id) (tm_plugin t)
  end.
(** The loop over the assets: distinct valid paths and a bounded total.  Sizes
    stay far below 2^64, so [saturating_add] adds. *)
Fixpoint check_assets (assets : list Asset) (paths : gset string) (size : N) : result (gset string) :=
  match assets with
  | [] => Ok paths
  | asset :: assets =>
      validate_path (as_path asset) ;;
      ensure (bool_decide (as_path asset ∉ paths)) "Duplicate asset path" ;;
      let size := (size + byte_len (as_data asset))%N in
      ensure (size <=? MAX_PROJECT_BYTES)%N "Project exceeds limit" ;;
      check_assets assets ({[as_path asset]} ∪ paths) size
  end.
Definition check_variable (entry : string * TemplateVariable) : result unit :=
  let '(name, var) := entry in
  ensure (negb (is_empty name) && len_le name 64 &&
          bytes_all (fun c => is_ascii_alphanumeric c || one_of "_" c) name)
    "Invalid variable name" ;;
  ensure ((length (va_choices var) <=? 64) && forallb (fun s => len_le s 256) (va_choices var))
    "Invalid variable choices".
Definition validate (t : Template) : result unit :=
  validate_id (tm_id t) 32 ;;
  ensure (negb (trim_is_empty (tm_name t)) && len_le (tm_name t) 256 &&
          (byte_len (tm_description t) <=? 4096)%N &&
          negb (is_empty (tm_owner t)) && len_le (tm_owner t) 256)
    "Invalid template metadata" ;;
  ensure (scope_consistent t) "Inconsistent template scope" ;;
  ensure (negb (match tm_assets t with [] => true | _ => false end) &&
          (length (tm_assets t) <=? 64) && (size (tm_variables t) <=? 64))
    "Template cardinality exceeds limit" ;;
  validate_path (tm_entrypoint t) ;;
  ensure (ends_with ".tex" (tm_entrypoint t)) "Entrypoint must be TeX" ;;
  paths ← check_assets (tm_assets t) ∅ 0;
  ensure (bool_decide (tm_entrypoint t ∈ paths)) "Missing entrypoint" ;;
  for_each check_variable (btree_entries (tm_variables t)).

(** ** Sealing *)
Definition scope_name (s : Scope) : string :=
  match s with
  | Personal => "personal" | Project => "project" | Tenant => "tenant" | Plugin => "plugin"
  end.
Definition kind_name (k : VariableKind) : string :=
  match k with Text => "text" | Integer => "integer" | Boolean => "boolean" | Choice => "choice" end.
Fixpoint json_bytes_of (s : string) : list value :=
  match s with
  | EmptyString => []
  | String c s => JNumber (PosInt (code c)) :: json_bytes_of s
  end.
Definition json_option (o : option string) : value := default JNull (JString <$> o).
Definition json_asset (a : Asset) : value :=
  JObject [("path", JString (as_path a)); ("data", JArray (json_bytes_of (as_data a)))].
Definition json_variable (v : TemplateVariable) : value :=
  JObject [("kind", JString (kind_name (va_kind v))); ("required", JBool (va_required v));
           ("choices", json_strings (va_choices v))].
Definition json_template (t : Template) : value :=
  JObject [("id", JString (tm_id t)); ("version", JString (tm_version t)); ("name", JString (tm_name t));
           ("description", JString (tm_description t)); ("scope", JString (scope_name (tm_scope t)));
           ("owner", JString (tm_owner t)); ("project", json_option (tm_project t));
           ("plugin", json_option (tm_plugin t)); ("entrypoint", JString (tm_entrypoint t));
           ("assets", JArray (json_asset <$> tm_assets t));
           ("variables", JObject (prod_map id json_variable <$> btree_entries (tm_variables t)))].

(** [self.assets.sort_by(|a, b| a.path.cmp(&b.path))], a stable sort. *)
Definition path_le (a b : Asset) : Prop := String.le (as_path a) (as_path b).
#[export] Instance path_le_dec : RelDecision path_le.
Proof. intros a b. unfold path_le. apply _. Defined.
Definition with_content (t : Template) (assets : list Asset) (version : string) : Template :=
  {| tm_id := tm_id t; tm_version := version; tm_name := tm_name t;
     tm_description := tm_description t; tm_scope := tm_scope t; tm_owner := tm_owner t;
     tm_project := tm_project t; tm_plugin := tm_plugin t; tm_entrypoint := tm_entrypoint t;
     tm_assets := assets; tm_variables := tm_variables t |}.
Definition seal `{Externals} (t : Template) : result Template :=
  validate t ;;
  let assets := merge_sort path_le (tm_assets t) in
  bytes ← json_to_vec (json_template (with_content t assets EmptyString));
  Ok (with_content t assets (sha256_hex bytes)).

(** ** Rendering *)
Definition OPEN : string := "<<galadril:".
Definition CLOSE : string := ">>".
(** The [while let] loop; every round removes a placeholder from the rest. *)
Fixpoint substitute (fuel : nat) (values : gmap string string) (acc remainder : string)
    : option (result string) :=
  match fuel with
  | 0 => None
  | S fuel =>
      match split_once OPEN remainder with
      | None => Some (
          let out := acc +:+ remainder in
          ensure (byte_len out <=? MAX_PROJECT_BYTES)%N "Rendered source exceeds limit" ;;
          Ok out)
      | Some (prefix, suffix) =>
          match split_once CLOSE suffix with
          | None => Some (Err (Msg "Unclosed variable placeholder"))
          | Some (name, rest) =>
              match values !! name with
              | None => Some (Err (Msg "Unknown template placeholder"))
              | Some v =>
                  let acc := acc +:+ prefix +:+ v in
                  if (byte_len acc <=? MAX_PROJECT_BYTES)%N then substitute fuel values acc rest
                  else Some (Err (Msg "Rendered source exceeds limit"))
              end
          end
      end
  end.
Definition render_text (values : gmap string string) (source : string) : result string :=
  ensure (is_utf8 source) "TeX must be UTF-8" ;;
  default (Err (Foreign "fuel")) (substitute (S (String.length source)) values EmptyString source).

Definition render_value (d : Document) (entry : string * TemplateVariable) : result (string * string) :=
  let '(name, var) := entry in
  match dc_variables d !! name with
  | Some v => text ← variable_render var v; Ok (name, text)
  | None => if va_required var then Err (Msg "Missing required variable") else Ok (name, EmptyString)
  end.
Definition is_source (path : string) : bool :=
  match extension path with Some e => str_in e ["tex"; "cls"; "sty"] | None => false end.
Fixpoint render_assets (values : gmap string string) (assets : list Asset) (total : N)
    : result (list Asset) :=
  match assets with
  | [] => Ok []
  | asset :: assets =>
      data ← (if is_source (as_path asset) then render_text values (as_data asset)
              else Ok (as_data asset));
      let total := (total + byte_len data)%N in
      ensure (total <=? MAX_PROJECT_BYTES)%N "Rendered project exceeds limit" ;;
      rest ← render_assets values assets total;
      Ok ({| as_path := as_path asset; as_data := data |} :: rest)
  end.
Definition is_entrypoint (t : Template) (asset : Asset) : bool :=
  String.eqb (as_path asset) (tm_entrypoint t).
Definition render_values (t : Template) (d : Document) : result (gmap string string) :=
  entries ← mapM (render_value d) (btree_entries (tm_variables t)); Ok (btree_collect entries).
Definition render (t : Template) (d : Document) : result Rendered :=
  validate t ;;
  ensure (forallb (fun name => option_is_some (tm_variables t !! name)) (btree_keys (dc_variables d)))
    "Unknown variable" ;;
  values ← render_values t d;
  original ← with_context "Missing entrypoint" (List.find (is_entrypoint t) (tm_assets t));
  let source := default (as_data original) (dc_source d) in
  ensure (byte_len source <=? MAX_PROJECT_BYTES)%N "Source exceeds limit" ;;
  entrypoint ← render_text values source;
  assets ← render_assets values (List.filter (fun a => negb (is_entrypoint t a)) (tm_assets t))
    (byte_len entrypoint);
  Ok {| rd_entrypoint := entrypoint; rd_assets := assets |}.

(** ** The worker (worker.rs): the checks before the engine runs *)
Fixpoint worker_files (assets : list Asset) (files : gmap string string) (total : N)
    : result (gmap string string) :=
  match assets with
  | [] => Ok files
  | asset :: assets =>
      validate_path (as_path asset) ;;
      let total := (total + byte_len (as_data asset))%N in
      ensure ((total <=? MAX_PROJECT_BYTES)%N && option_is_none (files !! as_path asset))
        "Invalid worker assets" ;;
      worker_files assets (<[as_path asset := as_data asset]> files) total
  end.
Definition worker_accept (project : Rendered) : result (gmap string string) :=
  ensure ((length (rd_assets project) <=? 63) &&
          (byte_len (rd_entrypoint project) <=? MAX_PROJECT_BYTES)%N) "Invalid worker project" ;;
  worker_files (rd_assets project) ∅ (byte_len (rd_entrypoint project)).
(** [ProjectBundle::input_open_name]: a project file, or the offline bundle. *)
Definition input_open_name (files : gmap string string) (bundle : string -> option string)
    (name : string) : option string :=
  if starts_with "/" name || contains "\" name || existsb (String.eqb "..") (split_byte "/" name)
  then None
  else match files !! name with Some data => Some data | None => bundle name end.
