(* ===== verification/TemplateFacts.v ===== *)
(** * TemplateFacts: rendering is substitution of inert values

    [render_text] replaces exactly the placeholders of the source, once; every
    value it inserts is TeX that typesets a text; a rendered project passes the
    checks of the worker; sealing is idempotent. *)

From S2P Require Import Prelude Text Json Authoring AuthoringFacts RustStr Template.
From Stdlib Require Import Ascii.

(** ** Placeholders *)

(** [filled values source out]: [out] is [source] with its placeholders, read
    from the left, replaced by their values; the values are not read again. *)
Inductive filled (values : gmap string string) : string -> string -> Prop :=
  | filled_end s : contains OPEN s = false -> filled values s s
  | filled_hole s prefix suffix name rest v out :
      first_split OPEN s prefix suffix -> first_split CLOSE suffix name rest ->
      values !! name = Some v -> filled values rest out ->
      filled values s (prefix +:+ v +:+ out).

Lemma first_split_shorter p s a b :
  first_split p s a b -> String.length s = String.length a + String.length p + String.length b.
Proof. intros [-> _]. rewrite !length_string_app. lia. Qed.

Lemma substitute_Ok fuel values acc s r :
  substitute fuel values acc s = Some (Ok r) ->
  exists out, r = acc +:+ out /\ filled values s out /\ (byte_len r <= MAX_PROJECT_BYTES)%N.
Proof.
  revert acc s. induction fuel as [|fuel IH]; intros acc s; cbn [substitute]; [done|].
  destruct (split_once OPEN s) as [[prefix suffix]|] eqn:E.
  - destruct (split_once CLOSE suffix) as [[name rest]|] eqn:E'; [|done].
    destruct (values !! name) as [v|] eqn:Ev; [|done].
    destruct (_ <=? _)%N; [|done]. intros (out & -> & Hf & Hl)%IH.
    apply split_once_spec in E, E'. exists (prefix +:+ v +:+ out). split_and!.
    + by rewrite !string_app_assoc.
    + by eapply filled_hole.
    + done.
  - apply split_once_None in E. destruct (_ <=? _)%N eqn:El; simpl; [|done]. intros [= <-].
    exists s. split_and!; [done|by apply filled_end|by apply N.leb_le].
Qed.
Lemma substitute_complete values s out :
  filled values s out -> forall fuel acc, String.length s < fuel ->
  (byte_len (acc +:+ out) <= MAX_PROJECT_BYTES)%N ->
  substitute fuel values acc s = Some (Ok (acc +:+ out)).
Proof.
  induction 1 as [s Hc|s prefix suffix name rest v out H1 H2 Hv Hf IH]; intros [|fuel] acc Hl Hb;
    try lia; cbn [substitute].
  - apply split_once_None in Hc. rewrite Hc. apply N.leb_le in Hb. by rewrite Hb.
  - pose proof (first_split_shorter _ _ _ _ H1) as L1. pose proof (first_split_shorter _ _ _ _ H2) as L2.
    apply split_once_spec in H1, H2. rewrite H1, H2, Hv.
    assert (acc +:+ prefix +:+ v +:+ out = (acc +:+ prefix +:+ v) +:+ out) as E
      by (by rewrite !string_app_assoc).
    rewrite E in Hb |- *. pose proof Hb as Hb'. rewrite byte_len_app in Hb'.
    assert (byte_len (acc +:+ prefix +:+ v) <=? MAX_PROJECT_BYTES = true)%N as -> by (apply N.leb_le; lia).
    apply IH; [simpl in *; lia|done].
Qed.
(** The loop ends: each round leaves a shorter rest. *)
Lemma substitute_terminates values s : forall fuel acc, String.length s < fuel ->
  is_Some (substitute fuel values acc s).
Proof.
  induction s as [s IH] using (induction_ltof1 _ String.length). intros [|fuel] acc Hl; [lia|].
  cbn [substitute]. destruct (split_once OPEN s) as [[prefix suffix]|] eqn:E; [|by eexists].
  destruct (split_once CLOSE suffix) as [[name rest]|] eqn:E'; [|by eexists].
  destruct (values !! name); [|by eexists]. destruct (_ <=? _)%N; [|by eexists].
  apply split_once_spec, first_split_shorter in E, E'. simpl in *.
  apply IH; [unfold ltof; lia|lia].
Qed.

#[local] Arguments substitute : simpl never.
(** Rendering is substitution: [render_text] succeeds exactly when the source
    is UTF-8, every placeholder is closed and names a value, and the result fits;
    the result is the source with its placeholders replaced once, from the left,
    and placeholders inside values are not read. *)
Theorem render_text_correct values source out :
  render_text values source = Ok out <->
  is_utf8 source = true /\ filled values source out /\ (byte_len out <= MAX_PROJECT_BYTES)%N.
Proof.
  unfold render_text. destruct (is_utf8 source); simpl; [|by split; [|intros [? _]]].
  assert (String.length source < S (String.length source)) as Hl by lia. split.
  - destruct (substitute_terminates values source _ EmptyString Hl) as [r Hr]. rewrite Hr. simpl.
    intros ->. apply substitute_Ok in Hr as (o & -> & Hf & Hb). done.
  - intros (_ & Hf & Hb). by rewrite (substitute_complete _ _ _ Hf _ EmptyString Hl).
Qed.

(** ** Values *)

(** [literal tex text]: [tex] contains no active character: it is a sequence of
    plain characters and of the commands that typeset a special one. *)
Definition escapes : list (ascii * string) :=
  [("\"%char, "\textbackslash{}"); ("{"%char, "\{"); ("}"%char, "\}"); ("%"%char, "\%");
   ("&"%char, "\&"); ("#"%char, "\#"); ("_"%char, "\_"); ("$"%char, "\$");
   ("^"%char, "\textasciicircum{}"); ("~"%char, "\textasciitilde{}")].
Inductive literal : string -> string -> Prop :=
  | literal_nil : literal EmptyString EmptyString
  | literal_plain c tex text :
      c ∉ escapes.*1 -> literal tex text -> literal (String c tex) (String c text)
  | literal_command c command tex text :
      (c, command) ∈ escapes -> literal tex text -> literal (command +:+ tex) (String c text).

(** The text without the control characters that [escape_text] drops. *)
Definition kept1 (c : ascii) : bool := negb (control1 c) || one_of (String "009" (String "010" EmptyString)) c.
Fixpoint visible (s : string) : string :=
  match s with
  | EmptyString => EmptyString
  | String a s1 =>
      let here (rest : string) := if kept1 a then String a rest else rest in
      match s1 with
      | String b s2 => if control2 a b then visible s2 else here (visible s1)
      | EmptyString => here EmptyString
      end
  end.

(** Membership in a closed list, by evaluation. *)
Ltac in_list := refine (bool_decide_unpack (_ ∈ _) _); vm_compute; exact I.

(** What one character becomes. *)
Lemma escape_char_cases c :
  (exists command, (c, command) ∈ escapes /\ escape_char c = command /\ kept1 c = true) \/
  (c ∉ escapes.*1 /\ escape_char c = String c EmptyString /\ kept1 c = true) \/
  (escape_char c = EmptyString /\ kept1 c = false).
Proof.
  destruct (decide (c ∈ escapes.*1)) as [Hin|Hout].
  - left. apply list_elem_of_fmap in Hin as ([c' command] & -> & Hin). exists command. split; [done|].
    revert Hin. unfold escapes. rewrite !elem_of_cons, elem_of_nil. simpl.
    intros H. destruct_or! H; by injection H as -> ->.
  - right. destruct (kept1 c) eqn:K; [left|right; revert K Hout].
    + split; [done|]. split; [|done]. revert K Hout.
      destruct c as [[] [] [] [] [] [] [] []]; intros K Hout; try reflexivity; try discriminate K;
        exfalso; apply Hout; in_list.
    + destruct c as [[] [] [] [] [] [] [] []]; intros K Hout; try discriminate K; done.
Qed.
Lemma literal_escape_char c tex text :
  literal tex text -> literal (escape_char c +:+ tex) (if kept1 c then String c text else text).
Proof.
  intros Hl. destruct (escape_char_cases c) as [(command & Hin & -> & ->)|[(Hout & -> & ->)|[-> ->]]].
  - by apply literal_command.
  - by apply (literal_plain c).
  - done.
Qed.
Lemma escape_text_literal s : literal (escape_text s) (visible s).
Proof.
  induction s as [s IH] using (induction_ltof1 _ String.length).
  destruct s as [|a [|b s]]; [constructor| |].
  - cbn [escape_text visible]. rewrite <-(string_app_nil_r (escape_char a)).
    apply literal_escape_char. constructor.
  - cbn [escape_text visible]. destruct (control2 a b).
    + apply IH. unfold ltof. simpl. lia.
    + apply literal_escape_char. apply (IH (String b s)). unfold ltof. simpl. lia.
Qed.

(** The commands are prefix free, so a literal has one reading. *)
Lemma literal_inv_command c command tex text :
  (c, command) ∈ escapes -> literal (command +:+ tex) text ->
  exists text', text = String c text' /\ literal tex text'.
Proof.
  intros Hin Hl. inversion Hl as [Hn|d tex' text' Hd Hl' E|d command' tex' text' Hd Hl' E]; subst.
  - revert Hin Hn. unfold escapes. rewrite !elem_of_cons, elem_of_nil.
    intros H. by destruct_or! H; injection H as -> ->.
  - exfalso. apply Hd. assert (d = "\"%char) as ->; [|in_list].
    revert Hin E. unfold escapes. rewrite !elem_of_cons, elem_of_nil.
    intros H. destruct_or! H; injection H as -> ->; by intros [= ->].
  - assert (c = d /\ tex = tex') as [-> ->]; [|by eauto].
    revert Hin Hd E. unfold escapes. rewrite !elem_of_cons, !elem_of_nil. intros H H'.
    destruct_or! H; destruct_or! H'; injection H as -> ->; injection H' as -> ->;
      intros E;
      first [apply (inj (String.append _)) in E as ->; done|exfalso; vm_compute in E; discriminate E].
Qed.
Lemma literal_functional tex text text' : literal tex text -> literal tex text' -> text = text'.
Proof.
  intros Hl. revert text'. induction Hl as [|c tex text Hc Hl IH|c command tex text Hc Hl IH];
    intros text' Hl'.
  - inversion Hl' as [| |d command' tex' text'' Hd Hl'' E]; [done|].
    destruct command'; [|by destruct tex']. exfalso. revert Hd. unfold escapes.
    rewrite !elem_of_cons, elem_of_nil. intros H. by destruct_or! H.
  - inversion Hl' as [|d tex' text'' Hd Hl'' E|d command' tex' text'' Hd Hl'' E]; subst; [f_equal; eauto|].
    exfalso. apply Hc. revert Hd E. unfold escapes at 1. rewrite !elem_of_cons, elem_of_nil.
    intros H. destruct_or! H;
      injection H as -> ->; intros [= <- _]; in_list.
  - apply (literal_inv_command _ _ _ _ Hc) in Hl' as (text2 & -> & Hl2). f_equal. eauto.
Qed.

Lemma literal_plain_text s : bytes_all (fun c => negb (bool_decide (c ∈ escapes.*1))) s = true -> literal s s.
Proof.
  induction s as [|c s IH]; simpl; [constructor|]. intros [Hc%negb_true_iff Hs]%andb_prop.
  apply literal_plain; [by apply bool_decide_eq_false in Hc|by apply IH].
Qed.
Lemma pretty_N_plain p x s :
  bytes_all p "0123456789" = true -> bytes_all p s = true -> bytes_all p (pretty_N_go x s) = true.
Proof.
  intros Hp. simpl in Hp. bool_inv. revert s. induction (N.lt_wf_0 x) as [x _ IH]; intros s Hs.
  destruct (decide (x = 0)%N) as [->|]; [by rewrite pretty_N_go_0|].
  rewrite pretty_N_go_step by lia. apply IH; [apply N.div_lt; lia|]. cbn [bytes_all]. rewrite Hs.
  rewrite andb_true_r. unfold pretty_N_char. by repeat case_match.
Qed.
Lemma literal_integer (i : Z) : literal (pretty i) (pretty i).
Proof.
  apply literal_plain_text. set (p := fun c : ascii => _).
  assert (bytes_all p "0123456789" = true) as Hp by (vm_compute; reflexivity).
  assert (forall x, bytes_all p (pretty (N.pos x)) = true) as Hx.
  { intros x. unfold pretty, pretty_N. rewrite decide_False by done. by apply pretty_N_plain. }
  destruct i as [|x|x]; [done|apply Hx|].
  change (bytes_all p ("-" +:+ pretty (N.pos x)) = true). rewrite bytes_all_app. by rewrite Hx.
Qed.

Lemma Forall2_fst_eq {A B C} (f : A -> C) (g : B -> C) (R : A -> B -> Prop) l k :
  Forall2 R l k -> (forall a b, R a b -> g b = f a) -> g <$> k = f <$> l.
Proof. intros HF H. induction HF; [done|]. rewrite !fmap_cons. f_equal; eauto. Qed.

(** What a variable inserts for the value supplied in the document, if any. *)
Definition shows (var : TemplateVariable) (supplied : option value) (tex : string) : Prop :=
  match supplied with
  | None => va_required var = false /\ tex = EmptyString
  | Some v => exists text, literal tex text /\
      match va_kind var with
      | Text => exists s, v = JString s /\ text = visible s
      | Choice => exists s, v = JString s /\ s ∈ va_choices var /\ text = visible s
      | Integer => exists i, as_i64 v = Some i /\ text = pretty i
      | Boolean => exists b, v = JBool b /\ text = if b then "true" else "false"
      end
  end.
Lemma variable_render_shows var v tex : variable_render var v = Ok tex -> shows var (Some v) tex.
Proof.
  unfold variable_render, shows. intros Hr. destruct (va_kind var); res_inv.
  - destruct v; simplify_eq/=. eexists. split; [apply escape_text_literal|eauto].
  - eexists. split; [apply literal_integer|eauto].
  - destruct v; simplify_eq/=. eexists. split; [|by eauto].
    apply literal_plain_text. by destruct x.
  - destruct v; simplify_eq/=. eexists. split; [apply escape_text_literal|].
    unfold str_in in *. eexists. split_and!; [done| |done].
    apply existsb_exists in E0 as (c & Hc & ->%String.eqb_eq). by apply list_elem_of_In.
Qed.
Lemma render_value_shows d entry out :
  render_value d entry = Ok out ->
  out.1 = entry.1 /\ shows entry.2 (dc_variables d !! entry.1) out.2.
Proof.
  destruct entry as [name var]. unfold render_value. destruct (dc_variables d !! name) as [v|] eqn:E; simpl.
  - intros Hr. res_inv. rewrite E. split; [done|]. by apply variable_render_shows.
  - rewrite E. destruct (va_required var) eqn:Er; [done|]. by intros [= <-].
Qed.
Lemma render_values_shows t d values :
  render_values t d = Ok values -> forall name,
  match tm_variables t !! name with
  | Some var => exists tex, values !! name = Some tex /\ shows var (dc_variables d !! name) tex
  | None => values !! name = None
  end.
Proof.
  unfold render_values. intros Hr. res_inv. rename x into outs. apply mapM_Ok_Forall2 in E.
  assert (Forall2 (fun entry out => out.1 = entry.1 /\ shows entry.2 (dc_variables d !! entry.1) out.2)
    (btree_entries (tm_variables t)) outs) as HF.
  { eapply Forall2_impl; [exact E|]. apply render_value_shows. }
  assert (outs.*1 = (btree_entries (tm_variables t)).*1) as Hk.
  { by eapply (Forall2_fst_eq fst fst); [exact HF|intros a b [? _]]. }
  assert (NoDup outs.*1) as Hnd by (rewrite Hk; apply NoDup_btree_entries_fst).
  intros name. destruct (tm_variables t !! name) as [var|] eqn:Ev.
  - apply elem_of_btree_entries, list_elem_of_lookup_1 in Ev as [i Hi].
    destruct (Forall2_lookup_l _ _ _ _ _ HF Hi) as ([n tex] & Ho & Hn & Hs). simpl in *. subst n.
    exists tex. split; [|done]. apply btree_collect_lookup; [done|]. by eapply list_elem_of_lookup_2.
  - destruct (btree_collect outs !! name) as [tex|] eqn:Eo; [|done].
    apply btree_collect_lookup in Eo; [|done]. apply (list_elem_of_fmap_2 fst) in Eo. simpl in Eo.
    rewrite Hk in Eo. apply list_elem_of_fmap in Eo as ([n var] & -> & Hv).
    apply elem_of_btree_entries in Hv. simpl in *. congruence.
Qed.

(** ** Projects *)
Lemma render_assets_spec values assets total out :
  render_assets values assets total = Ok out ->
  Forall2 (fun a a' => as_path a' = as_path a /\
    if is_source (as_path a) then filled values (as_data a) (as_data a')
    else as_data a' = as_data a) assets out.
Proof.
  revert total out. induction assets as [|a assets IH]; intros total out; cbn [render_assets].
  { intros [= <-]. constructor. }
  intros Hr. res_inv. constructor; [|by eapply IH]. simpl. split; [done|].
  destruct (is_source (as_path a)); [by apply render_text_correct in E as (_ & ? & _)|by injection E].
Qed.

Lemma render_inv t d r :
  render t d = Ok r -> exists values original,
    validate t = Ok tt /\ render_values t d = Ok values /\
    original ∈ tm_assets t /\ as_path original = tm_entrypoint t /\
    render_text values (default (as_data original) (dc_source d)) = Ok (rd_entrypoint r) /\
    render_assets values (List.filter (fun a => negb (is_entrypoint t a)) (tm_assets t))
      (byte_len (rd_entrypoint r)) = Ok (rd_assets r).
Proof.
  unfold render.
  intros ([] & Hv & ([] & _ & (values & Hs & (original & Ho%context_Ok_inv & ([] & _ &
    (entry & He & (assets & Ha & [= <-])%bind_Ok_inv)%bind_Ok_inv)%bind_Ok_inv)%bind_Ok_inv)%bind_Ok_inv
    )%bind_Ok_inv)%bind_Ok_inv.
  apply find_some in Ho as [Hin%list_elem_of_In Hp%String.eqb_eq].
  exists values, original. by split_and!.
Qed.

(** C27: a rendered project is the template with escaped values: the entrypoint and
    the TeX assets are their sources with the placeholders replaced once, other
    assets are unchanged, and what a placeholder inserts is TeX without active
    characters that typesets the text of the document's value. *)
Theorem render_inert t d r :
  render t d = Ok r ->
  exists values original,
    (forall name,
      match tm_variables t !! name with
      | Some var => exists tex, values !! name = Some tex /\ shows var (dc_variables d !! name) tex
      | None => values !! name = None
      end) /\
    original ∈ tm_assets t /\ as_path original = tm_entrypoint t /\
    filled values (default (as_data original) (dc_source d)) (rd_entrypoint r) /\
    Forall2 (fun a a' => as_path a' = as_path a /\
      if is_source (as_path a) then filled values (as_data a) (as_data a')
      else as_data a' = as_data a)
      (List.filter (fun a => negb (is_entrypoint t a)) (tm_assets t)) (rd_assets r).
Proof.
  intros (values & original & _ & Hs & Hin & Hp & He & Ha)%render_inv.
  exists values, original. split_and!; [by apply (render_values_shows _ d)|done|done| |].
  - by apply render_text_correct in He as (_ & ? & _).
  - by eapply render_assets_spec.
Qed.

(** *** The worker accepts what was rendered *)
Definition project_size (assets : list Asset) : N :=
  foldr (fun a n => byte_len (as_data a) + n)%N 0%N assets.
Lemma check_assets_iff assets paths n paths' :
  check_assets assets paths n = Ok paths' <->
  Forall (fun a => validate_path (as_path a) = Ok tt /\ as_path a ∉ paths) assets /\
  NoDup (as_path <$> assets) /\ paths' = list_to_set (as_path <$> assets) ∪ paths /\
  (assets = [] \/ n + project_size assets <= MAX_PROJECT_BYTES)%N.
Proof.
  revert paths n. induction assets as [|a assets IH]; intros paths n; cbn [check_assets].
  { split; [intros [= <-]; split_and!; [constructor..|set_solver|by left]|].
    intros (_ & _ & -> & _). f_equal. set_solver. }
  rewrite fmap_cons, Forall_cons, NoDup_cons. cbn [project_size foldr list_to_set].
  fold (project_size assets). split.
  - intros ([] & Hp & ([] & Hd%ensure_Ok_inv & ([] & Hs%ensure_Ok_inv &
      (HF & Hnd & -> & Hm)%IH)%bind_Ok_inv)%bind_Ok_inv)%bind_Ok_inv.
    bool_inv. apply N.leb_le in Hs. rewrite Forall_forall in HF. split_and!; [done|done| | |done| |].
    + apply Forall_forall. intros b Hb. destruct (HF b Hb) as [? Hb']. split; [done|]. set_solver.
    + intros (b & Hb & Hin)%list_elem_of_fmap. destruct (HF b Hin) as [_ Hn]. set_solver.
    + set_solver.
    + right. destruct Hm as [->|Hm]; [simpl|]; lia.
  - intros ([[Hp Hd] HF] & [Hn Hnd] & -> & [?|Hm]); [done|]. rewrite Hp. cbn [mbind result_bind].
    rewrite bool_decide_eq_true_2 by done. cbn [ensure mbind result_bind].
    rewrite (proj2 (N.leb_le _ _)) by lia. cbn [ensure mbind result_bind]. apply IH.
    split_and!; [|done|set_solver|right; lia].
    rewrite Forall_forall in HF |- *. intros b Hin. destruct (HF b Hin) as [? Hb]. split; [done|].
    intros [E%elem_of_singleton|?]%elem_of_union; [|done]. apply Hn. rewrite <-E. by apply list_elem_of_fmap_2.
Qed.
Lemma validate_assets t :
  validate t = Ok tt ->
  Forall (fun a => validate_path (as_path a) = Ok tt) (tm_assets t) /\ NoDup (as_path <$> tm_assets t) /\
  length (tm_assets t) <= 64 /\ tm_entrypoint t ∈ as_path <$> tm_assets t.
Proof.
  unfold validate. intros ([] & _ & ([] & _ & ([] & _ & ([] & Hl%ensure_Ok_inv & ([] & _ & ([] & _ &
    (paths & (HF & Hnd & -> & _)%check_assets_iff & ([] & He%ensure_Ok_inv & _)%bind_Ok_inv)%bind_Ok_inv)%bind_Ok_inv
    )%bind_Ok_inv)%bind_Ok_inv)%bind_Ok_inv)%bind_Ok_inv)%bind_Ok_inv.
  apply andb_prop in Hl as [[_ Hl%Nat.leb_le]%andb_prop _]. bool_inv. split_and!; [|done|done|set_solver].
  eapply Forall_impl; [exact HF|]. by intros a [? _].
Qed.

Lemma worker_files_rendered values assets total out files :
  render_assets values assets total = Ok out ->
  Forall (fun a => validate_path (as_path a) = Ok tt /\ files !! as_path a = None) assets ->
  NoDup (as_path <$> assets) ->
  exists files', worker_files out files total = Ok files' /\
    forall path, files' !! path =
      match List.find (fun a => String.eqb (as_path a) path) out with
      | Some a => Some (as_data a)
      | None => files !! path
      end.
Proof.
  revert total out files. induction assets as [|a assets IH]; intros total out files; cbn [render_assets].
  { intros [= <-] _ _. by exists files. }
  intros (data & _ & ([] & Ht & (rest & Hr & [= <-])%bind_Ok_inv)%bind_Ok_inv)%bind_Ok_inv.
  intros [[Hp Hn] HF]%Forall_cons [Hnin Hnd]%NoDup_cons.
  destruct (IH _ _ (<[as_path a := data]> files) Hr) as (files' & Hw & Hl); [|done|].
  { apply Forall_forall. intros b Hb. rewrite Forall_forall in HF. destruct (HF b Hb) as [? ?].
    split; [done|]. rewrite lookup_insert_ne; [done|]. intros E. apply Hnin. rewrite E.
    by apply list_elem_of_fmap_2. }
  exists files'. apply ensure_Ok_inv in Ht. split.
  { cbn [worker_files as_path as_data]. rewrite Hp. cbn [mbind result_bind]. by rewrite Ht, Hn. }
  intros path. rewrite Hl. cbn [List.find as_path as_data].
  assert (List.find (fun b => String.eqb (as_path b) (as_path a)) rest = None) as Ha.
  { destruct (List.find _ rest) as [b|] eqn:E; [|done]. apply find_some in E as [Hin%list_elem_of_In Hb%String.eqb_eq].
    exfalso. apply Hnin. rewrite <-Hb. apply render_assets_spec in Hr.
    apply list_elem_of_lookup in Hin as [i Hi].
    destruct (Forall2_lookup_r _ _ _ _ _ Hr Hi) as (a' & Ha' & -> & _).
    apply list_elem_of_fmap_2. by eapply list_elem_of_lookup_2. }
  destruct (String.eqb_spec (as_path a) path) as [<-|Hne].
  - rewrite Ha. by rewrite lookup_insert_eq.
  - destruct (List.find _ rest); [done|]. by rewrite lookup_insert_ne.
Qed.

Lemma path_parts path :
  validate_path path = Ok tt ->
  forallb path_part (split_byte "/" path) = true /\
  bytes_all (fun c => is_ascii_alphanumeric c || one_of "_-./" c) path = true.
Proof.
  unfold validate_path.
  intros ([] & H1%ensure_Ok_inv & ([] & H2%ensure_Ok_inv & _)%bind_Ok_inv)%bind_Ok_inv.
  by apply andb_prop in H1 as [_ H1].
Qed.
Lemma contains_byte p c s : p c = false -> bytes_all p s = true -> contains (String c EmptyString) s = false.
Proof.
  intros Hc. induction s as [|d s IH]; [done|]. cbn [bytes_all contains String.prefix].
  intros [Hd Hs]%andb_prop. rewrite (IH Hs), orb_false_r.
  destruct (ascii_dec c d) as [->|]; [congruence|done].
Qed.
Lemma input_open_file files bundle path data :
  validate_path path = Ok tt -> files !! path = Some data -> input_open_name files bundle path = Some data.
Proof.
  intros [Hparts Hbytes]%path_parts Hf. unfold input_open_name.
  assert (starts_with "/" path = false) as ->.
  { destruct (starts_with "/" path) eqn:E; [|done]. apply starts_with_inv in E. rewrite E in Hparts. done. }
  rewrite (contains_byte _ "\"%char path eq_refl Hbytes).
  destruct (existsb (String.eqb "..") (split_byte "/" path)) eqn:E; [|by rewrite Hf].
  apply existsb_exists in E as (part & Hin & <-%String.eqb_eq).
  rewrite forallb_forall in Hparts. by specialize (Hparts _ Hin).
Qed.

(** The assets that [render] copies: all but the entrypoint. *)
Definition others (t : Template) : list Asset :=
  List.filter (fun a => negb (is_entrypoint t a)) (tm_assets t).
Lemma bfilter_sublist {A} (p : A -> bool) l : List.filter p l `sublist_of` l.
Proof. induction l as [|x l IH]; simpl; [done|]. destruct (p x); by constructor. Qed.
Lemma bfilter_shorter {A} (p : A -> bool) l x : x ∈ l -> p x = false -> length (List.filter p l) < length l.
Proof.
  intros Hin Hp. induction l as [|y l IH]; [by apply elem_of_nil in Hin|]. simpl.
  pose proof (sublist_length _ _ (bfilter_sublist p l)).
  apply elem_of_cons in Hin as [<-|Hin]; [rewrite Hp; lia|].
  specialize (IH Hin). destruct (p y); simpl; lia.
Qed.
Lemma others_spec t original :
  Forall (fun a => validate_path (as_path a) = Ok tt) (tm_assets t) -> NoDup (as_path <$> tm_assets t) ->
  original ∈ tm_assets t -> as_path original = tm_entrypoint t ->
  Forall (fun a => validate_path (as_path a) = Ok tt) (others t) /\ NoDup (as_path <$> others t) /\
  length (others t) < length (tm_assets t).
Proof.
  intros HF Hnd Hin Hp. pose proof (bfilter_sublist (fun a => negb (is_entrypoint t a)) (tm_assets t)) as Hs.
  split_and!.
  - rewrite Forall_forall in HF |- *. intros a [Ha _]%elem_of_bfilter. by apply HF.
  - eapply sublist_NoDup; [exact Hnd|by apply fmap_sublist].
  - eapply bfilter_shorter; [exact Hin|]. unfold is_entrypoint. by rewrite Hp, String.eqb_refl.
Qed.
Lemma find_path assets a :
  NoDup (as_path <$> assets) -> a ∈ assets ->
  List.find (fun b => String.eqb (as_path b) (as_path a)) assets = Some a.
Proof.
  induction assets as [|b assets IH]; intros Hnd Hin; [by apply elem_of_nil in Hin|].
  apply NoDup_cons in Hnd as [Hn Hnd]. simpl. apply elem_of_cons in Hin as [->|Hin].
  - by rewrite String.eqb_refl.
  - destruct (String.eqb_spec (as_path b) (as_path a)) as [E|]; [|by apply IH].
    exfalso. apply Hn. rewrite E. by apply list_elem_of_fmap_2.
Qed.


(** ** Sealing *)
Lemma project_size_perm l k : l ≡ₚ k -> project_size l = project_size k.
Proof. unfold project_size. induction 1; simpl; lia. Qed.
Lemma check_assets_perm l k paths :
  l ≡ₚ k -> check_assets l ∅ 0 = Ok paths -> check_assets k ∅ 0 = Ok paths.
Proof.
  intros Hp (HF & Hnd & -> & Hs)%check_assets_iff. refine (proj2 (check_assets_iff _ _ _ _) _).
  split; [by apply (Forall_Permutation _ _ (fun _ => iff_refl _) _ _ Hp)|]. split.
  { by rewrite <-(fmap_Permutation as_path _ _ Hp). }
  split.
  - f_equal. by apply list_to_set_perm_L, fmap_Permutation.
  - rewrite <-(project_size_perm _ _ Hp). destruct Hs as [->|]; [|by right].
    left. by apply Permutation_nil_l in Hp.
Qed.
Lemma validate_perm t assets version :
  tm_assets t ≡ₚ assets -> validate t = Ok tt -> validate (with_content t assets version) = Ok tt.
Proof.
  intros Hp. unfold validate. cbn [with_content tm_id tm_name tm_description tm_owner tm_assets
    tm_variables tm_entrypoint].
  intros ([] & -> & ([] & -> & ([] & Hs & ([] & Hl & ([] & -> & ([] & -> &
    (paths & Hc & Hr)%bind_Ok_inv)%bind_Ok_inv)%bind_Ok_inv)%bind_Ok_inv)%bind_Ok_inv)%bind_Ok_inv)%bind_Ok_inv.
  cbn [mbind result_bind].
  change (scope_consistent (with_content t assets version)) with (scope_consistent t). rewrite Hs.
  cbn [mbind result_bind]. rewrite <-(Permutation_length Hp).
  assert (match assets with [] => true | _ => false end =
    match tm_assets t with [] => true | _ => false end) as ->.
  { apply Permutation_length in Hp. by destruct (tm_assets t), assets. }
  rewrite Hl. cbn [mbind result_bind]. by rewrite (check_assets_perm _ _ _ Hp Hc).
Qed.

#[export] Instance path_le_trans : Transitive path_le.
Proof. intros a b c. unfold path_le. apply (transitivity (R := String.le)). Qed.
#[export] Instance path_le_total : Total path_le.
Proof. intros a b. unfold path_le. apply (total String.le). Qed.
(** Assets with distinct paths have one sorted order. *)
Lemma sort_assets_unique l k :
  NoDup (as_path <$> l) -> l ≡ₚ k -> merge_sort path_le l = merge_sort path_le k.
Proof.
  intros Hnd Hp. apply (StronglySorted_unique_strong path_le).
  - intros a b Ha Hb Hab Hba. rewrite (merge_sort_Permutation path_le) in Ha, Hb. rewrite <-Hp in Hb.
    assert (as_path a = as_path b) as E by (by apply (anti_symm String.le)).
    pose proof (find_path l a Hnd Ha) as Fa. rewrite E, (find_path l b Hnd Hb) in Fa. congruence.
  - apply (StronglySorted_merge_sort path_le).
  - apply (StronglySorted_merge_sort path_le).
  - by rewrite !(merge_sort_Permutation path_le).
Qed.

Lemma seal_same_id `{Externals} t s : seal t = Ok s -> tm_id s = tm_id t.
Proof. unfold seal. by intros ([] & _ & (bytes & _ & [= <-])%bind_Ok_inv)%bind_Ok_inv. Qed.
Lemma seal_any_order `{Externals} t s assets version :
  seal t = Ok s -> assets ≡ₚ tm_assets t -> seal (with_content t assets version) = Ok s.
Proof.
  intros Hs Hp. unfold seal in Hs |- *.
  apply bind_Ok_inv in Hs as ([] & Hv & (bytes & Hj & [= <-])%bind_Ok_inv).
  destruct (validate_assets _ Hv) as (_ & Hnd & _).
  rewrite (validate_perm _ _ _ (symmetry Hp) Hv). cbn [mbind result_bind with_content tm_assets].
  rewrite <-(sort_assets_unique _ _ Hnd (symmetry Hp)).
  change (with_content (with_content t assets version) ?l ?v) with (with_content t l v).
  rewrite Hj. done.
Qed.
Lemma seal_sealed `{Externals} t s : seal t = Ok s -> seal s = Ok s.
Proof.
  intros Hs. pose proof Hs as Hs'. unfold seal in Hs'.
  apply bind_Ok_inv in Hs' as ([] & _ & (bytes & _ & [= <-])%bind_Ok_inv).
  apply (seal_any_order t); [done|]. apply (merge_sort_Permutation path_le).
Qed.

(** A seal binds the content only: templates that differ in the order of their
    assets or in their version field seal to the same template; a sealed template
    seals to itself, so the version stored with it can be checked. *)
Theorem seal_canonical `{Externals} t s :
  seal t = Ok s ->
  seal s = Ok s /\
  forall assets version, assets ≡ₚ tm_assets t -> seal (with_content t assets version) = Ok s.
Proof.
  intros Hs. split; [by eapply seal_sealed|]. intros assets version. by apply seal_any_order.
Qed.

(** ** Examples *)
Definition demo_id : string := "0123456789abcdef0123456789abcdef".
Definition demo_template : Template :=
  {| tm_id := demo_id; tm_version := EmptyString; tm_name := "Letter"; tm_description := EmptyString;
     tm_scope := Personal; tm_owner := "ann"; tm_project := None; tm_plugin := None;
     tm_entrypoint := "main.tex";
     tm_assets := [{| as_path := "style/letter.sty"; as_data := "\def\to{<<galadril:to>>}" |};
                   {| as_path := "main.tex"; as_data := "Dear <<galadril:to>>, <<galadril:n>>%" |};
                   {| as_path := "logo.png"; as_data := "<<galadril:none>>" |}];
     tm_variables := <["to" := {| va_kind := Text; va_required := true; va_choices := [] |}]>
       (<["n" := {| va_kind := Integer; va_required := false; va_choices := [] |}]> ∅) |}.
Definition demo_document : Document :=
  {| dc_variables := {["to" := JString "A&B <<galadril:n>>"]}; dc_source := None |}.
Definition demo_rendered : Rendered :=
  {| rd_entrypoint := "Dear A\&B <<galadril:n>>, %";
     rd_assets := [{| as_path := "style/letter.sty"; as_data := "\def\to{A\&B <<galadril:n>>}" |};
                   {| as_path := "logo.png"; as_data := "<<galadril:none>>" |}] |}.
Lemma demo_renders : render demo_template demo_document = Ok demo_rendered.
Proof. vm_compute. reflexivity. Qed.

Lemma render_inert_witness :
  exists values original tex, as_path original = "main.tex" /\ values !! "to" = Some tex /\
    literal tex "A&B <<galadril:n>>" /\
    filled values (as_data original) "Dear A\&B <<galadril:n>>, %".
Proof.
  destruct (render_inert _ _ _ demo_renders) as (values & original & Hv & Hin & Hp & Hf & _).
  destruct (Hv "to") as (tex & Ht & text & Hl & s & [= <-] & ->).
  exists values, original, tex. split; [exact Hp|]. split; [exact Ht|]. split; [exact Hl|exact Hf].
Defined.

Lemma seal_canonical_witness :
  exists s, @seal demo_externals demo_template = Ok s /\
    @seal demo_externals (with_content demo_template (rev (tm_assets demo_template)) "old") = Ok s.
Proof.
  destruct (@seal demo_externals demo_template) as [s|e] eqn:E; [|exfalso; vm_compute in E; discriminate E].
  exists s. split; [reflexivity|].
  apply (proj2 (@seal_canonical demo_externals demo_template s E)). symmetry. apply Permutation_rev.
Defined.
