(* ===== verification/JobQueue.v ===== *)
(** * JobQueue: the queue of compilation jobs (services/document-compiler, queue.rs)

    The rows of [compilation_jobs] by id.  Every method is one statement or one
    transaction under the lock of [QueueHandle], so it is one atomic step; a
    database error rolls it back.  Times are milliseconds. *)

From S2P Require Import Prelude Text.

Record NewJob : Type := {
  nj_id : string;
  nj_tenant : string;
  nj_actor : string;
  nj_generation : string;
  nj_fingerprint : string;
  nj_capability : string;
  nj_template_id : string;
  nj_template_version : string;
}.
Record Job : Type := {
  jb_id : string;
  jb_tenant : string;
  jb_actor : string;
  jb_generation : string;
  jb_fingerprint : string;
  jb_capability : string;
  jb_template_id : string;
  jb_template_version : string;
  jb_status : string;
  jb_failure : string;
  jb_lease : string;
  jb_lease_until : Z;
  jb_attempts : Z;
  jb_created_at : Z;
}.
#[export] Instance job_eq_dec : EqDecision Job.
Proof. solve_decision. Defined.
Notation Queue := (gmap string Job).

(** ** Filters of the queries *)
Definition has_status (statuses : list string) (job : Job) : bool :=
  existsb (String.eqb (jb_status job)) statuses.
Definition ACTIVE : list string := ["queued"; "running"].
Definition TERMINAL : list string := ["completed"; "failed"; "cancelled"].
Definition active (job : Job) : bool := has_status ACTIVE job.
Definition terminal (job : Job) : bool := has_status TERMINAL job.
Definition rows (p : Job -> bool) (q : Queue) : list Job := List.filter p (map_to_list q).*2.
Definition count (p : Job -> bool) (q : Queue) : nat := length (rows p q).

Definition WEEK : Z := 7 * 24 * 60 * 60 * 1000.
Definition is_expired (now : Z) (job : Job) : bool :=
  terminal job && (jb_created_at job <=? Z.max (- 2 ^ 63) (now - WEEK))%Z.
(** [expired] takes at most 32 of these rows, in no specified order. *)
Definition expired (now : Z) (q : Queue) (found : list Job) : Prop :=
  found ⊆+ rows (is_expired now) q /\ length found = Nat.min 32 (count (is_expired now) q).
Definition forget (job : Job) (q : Queue) : Queue :=
  match q !! jb_id job with
  | Some row =>
      if String.eqb (jb_tenant row) (jb_tenant job) && String.eqb (jb_lease row) (jb_lease job) &&
         terminal row
      then delete (jb_id job) q else q
  | None => q
  end.

Definition new_row (item : NewJob) (now : Z) : Job :=
  {| jb_id := nj_id item; jb_tenant := nj_tenant item; jb_actor := nj_actor item;
     jb_generation := nj_generation item; jb_fingerprint := nj_fingerprint item;
     jb_capability := nj_capability item; jb_template_id := nj_template_id item;
     jb_template_version := nj_template_version item; jb_status := "queued";
     jb_failure := EmptyString; jb_lease := EmptyString; jb_lease_until := 0; jb_attempts := 0;
     jb_created_at := now |}.
Definition enqueue (item : NewJob) (now : Z) (q : Queue) : result Job * Queue :=
  match q !! nj_id item with
  | Some existing =>
      if String.eqb (jb_tenant existing) (nj_tenant item) &&
         String.eqb (jb_actor existing) (nj_actor item) &&
         String.eqb (jb_generation existing) (nj_generation item) &&
         String.eqb (jb_fingerprint existing) (nj_fingerprint item)
      then (Ok existing, q) else (Err (Msg "Idempotency conflict"), q)
  | None =>
      if (count active q <? 256) &&
         (count (fun job => String.eqb (jb_tenant job) (nj_tenant item) && active job) q <? 32)
      then let row := new_row item now in (Ok row, <[nj_id item := row]> q)
      else (Err (Msg "Compilation queue is full"), q)
  end.

Definition lookup_job (tenant id : string) (q : Queue) : result Job :=
  match q !! id with
  | Some job => if String.eqb (jb_tenant job) tenant then Ok job else Err (Foreign "not found")
  | None => Err (Foreign "not found")
  end.

(** ** Claims *)
Definition eligible (now : Z) (job : Job) : bool :=
  String.eqb (jb_status job) "queued" ||
  (String.eqb (jb_status job) "running" && (jb_lease_until job <? now)%Z).
(** [ORDER BY created_at, id] *)
Definition older (a b : Job) : Prop :=
  (jb_created_at a < jb_created_at b)%Z \/
  (jb_created_at a = jb_created_at b /\ String.le (jb_id a) (jb_id b)).
#[export] Instance older_dec : RelDecision older.
Proof. intros a b. unfold older. apply _. Defined.
Definition candidate (now : Z) (q : Queue) : option Job :=
  head (merge_sort older (rows (eligible now) q)).
Definition LEASE_MS : Z := 90000.
Definition with_status (job : Job) (status failure : string) : Job :=
  {| jb_id := jb_id job; jb_tenant := jb_tenant job; jb_actor := jb_actor job;
     jb_generation := jb_generation job; jb_fingerprint := jb_fingerprint job;
     jb_capability := jb_capability job; jb_template_id := jb_template_id job;
     jb_template_version := jb_template_version job; jb_status := status; jb_failure := failure;
     jb_lease := jb_lease job; jb_lease_until := jb_lease_until job; jb_attempts := jb_attempts job;
     jb_created_at := jb_created_at job |}.
Definition leased (job : Job) (lease : string) (now : Z) : Job :=
  {| jb_id := jb_id job; jb_tenant := jb_tenant job; jb_actor := jb_actor job;
     jb_generation := jb_generation job; jb_fingerprint := jb_fingerprint job;
     jb_capability := jb_capability job; jb_template_id := jb_template_id job;
     jb_template_version := jb_template_version job; jb_status := "running";
     jb_failure := jb_failure job; jb_lease := lease; jb_lease_until := now + LEASE_MS;
     jb_attempts := jb_attempts job + 1; jb_created_at := jb_created_at job |}.
(** The updates select the candidate's row again; inside the transaction it is
    the row that was read. *)
Definition claim (now : Z) (lease : string) (q : Queue) : option Job * Queue :=
  match candidate now q with
  | None => (None, q)
  | Some job =>
      if (3 <=? jb_attempts job)%Z
      then (None, <[jb_id job := with_status job "failed" "retry_limit"]> q)
      else let row := leased job lease now in (Some row, <[jb_id job := row]> q)
  end.

(** ** Results *)
Definition finish (job : Job) (status failure : string) (q : Queue) : result bool * Queue :=
  if existsb (String.eqb status) ["completed"; "failed"] then
    match q !! jb_id job with
    | Some row =>
        if String.eqb (jb_tenant row) (jb_tenant job) && String.eqb (jb_lease row) (jb_lease job) &&
           String.eqb (jb_status row) "running"
        then (Ok true, <[jb_id job := with_status row status failure]> q)
        else (Ok false, q)
    | None => (Ok false, q)
    end
  else (Err (Msg "Invalid terminal state"), q).
Definition finish_job (job : Job) (succeeded : bool) : Queue -> result bool * Queue :=
  finish job (if succeeded then "completed" else "failed")
    (if succeeded then EmptyString else "compilation_failed").
Definition cancel (tenant id : string) (q : Queue) : result Job * Queue :=
  let q := match q !! id with
           | Some row => if String.eqb (jb_tenant row) tenant && active row
                         then <[id := with_status row "cancelled" (jb_failure row)]> q else q
           | None => q
           end in
  (lookup_job tenant id q, q).
