(* ===== verification/JobQueueFacts.v ===== *)
(** * JobQueueFacts: the life of a job

    The queue as a transition system: any sequence of calls by any number of
    clients and workers, with arbitrary clocks and arbitrary (stale, forged) job
    records, where [claim] draws leases that were never used. *)

From S2P Require Import Prelude Text JobQueue.

Record System : Type := {
  s_queue : Queue;
  s_issued : gset string;
}.
Definition with_queue (s : System) (q : Queue) : System :=
  {| s_queue := q; s_issued := s_issued s |}.
Inductive step (s : System) : System -> Prop :=
  | step_enqueue item now : step s (with_queue s (enqueue item now (s_queue s)).2)
  | step_claim now lease :
      lease ∉ s_issued s -> lease <> EmptyString ->
      step s {| s_queue := (claim now lease (s_queue s)).2; s_issued := {[lease]} ∪ s_issued s |}
  | step_finish job succeeded : step s (with_queue s (finish_job job succeeded (s_queue s)).2)
  | step_cancel tenant id : step s (with_queue s (cancel tenant id (s_queue s)).2)
  | step_forget job : step s (with_queue s (forget job (s_queue s))).
Definition initial : System := {| s_queue := ∅; s_issued := ∅ |}.
Definition reachable (s : System) : Prop := rtc step initial s.

(** ** Counting rows *)
Definition weight (b : bool) : nat := if b then 1 else 0.
Lemma length_bfilter_perm {A} (p : A -> bool) l k :
  l ≡ₚ k -> length (List.filter p l) = length (List.filter p k).
Proof. induction 1; simpl; repeat case_match; simpl; lia. Qed.
Lemma count_insert p q id job :
  q !! id = None -> count p (<[id := job]> q) = weight (p job) + count p q.
Proof.
  intros Hn. unfold count, rows.
  rewrite (length_bfilter_perm p _ (job :: (map_to_list q).*2)).
  - simpl. by destruct (p job).
  - by rewrite (map_to_list_insert _ _ _ Hn).
Qed.
Lemma count_delete p q id job :
  q !! id = Some job -> count p q = weight (p job) + count p (delete id q).
Proof.
  intros Hj. rewrite <-(insert_delete_id q id job Hj) at 1. apply count_insert, lookup_delete_eq.
Qed.
Lemma count_update p q id old new :
  q !! id = Some old -> count p (<[id := new]> q) + weight (p old) = count p q + weight (p new).
Proof.
  intros Ho. rewrite (count_delete p q id old Ho), <-insert_delete_eq.
  rewrite (count_insert p (delete id q)) by apply lookup_delete_eq. lia.
Qed.
Lemma elem_of_rows p q job : job ∈ rows p q <-> (exists id, q !! id = Some job) /\ p job = true.
Proof.
  unfold rows. rewrite elem_of_bfilter, list_elem_of_fmap. split.
  - intros [([id j] & -> & Hin) Hp]. apply elem_of_map_to_list in Hin. eauto.
  - intros [[id Hj] Hp]. split; [|done]. exists (id, job). by rewrite elem_of_map_to_list.
Qed.

(** ** The candidate *)
#[export] Instance older_trans : Transitive older.
Proof.
  intros a b c [?|[? ?]] [?|[? ?]]; [left; lia..|]. right. split; [lia|]. by trans (jb_id b).
Qed.
#[export] Instance older_total : Total older.
Proof.
  intros a b. unfold older. destruct (Z.lt_trichotomy (jb_created_at a) (jb_created_at b)) as [?|[->|?]];
    [by left; left| |by right; left].
  destruct (total String.le (jb_id a) (jb_id b)); [left|right]; by right.
Qed.
Lemma candidate_spec now q job :
  candidate now q = Some job ->
  (exists id, q !! id = Some job) /\ eligible now job = true /\
  forall id other, q !! id = Some other -> eligible now other = true -> older job other.
Proof.
  unfold candidate. pose proof (merge_sort_Permutation older (rows (eligible now) q)) as Hp.
  pose proof (StronglySorted_merge_sort older (rows (eligible now) q)) as Hs.
  destruct (merge_sort older _) as [|j l] eqn:E; [done|]. intros [= ->].
  assert (job ∈ rows (eligible now) q) as [Hj He]%elem_of_rows by (rewrite <-Hp; left).
  split_and!; [done|done|]. intros id other Ho Heo.
  assert (other ∈ job :: l) as Hin by (rewrite Hp; apply elem_of_rows; eauto).
  apply elem_of_cons in Hin as [->|Hin].
  - right. split; [done|]. reflexivity.
  - apply StronglySorted_inv in Hs as [_ HF]. rewrite Forall_forall in HF. by apply HF.
Qed.

(** ** The invariant *)
Record row_ok (issued : gset string) (id : string) (job : Job) : Prop := {
  row_id : jb_id job = id;
  row_attempts : (0 <= jb_attempts job <= 3)%Z;
  row_status :
    (jb_status job = "queued" /\ jb_lease job = EmptyString /\ jb_attempts job = 0%Z) \/
    (jb_status job = "running" /\ jb_lease job ∈ issued /\ (1 <= jb_attempts job)%Z) \/
    (terminal job = true /\ (jb_lease job = EmptyString \/ jb_lease job ∈ issued));
}.
Record queue_ok (s : System) : Prop := {
  ok_rows : map_Forall (row_ok (s_issued s)) (s_queue s);
  ok_active : count active (s_queue s) <= 256;
  ok_tenant tenant :
    count (fun job => String.eqb (jb_tenant job) tenant && active job) (s_queue s) <= 32;
  ok_leases i j a b :
    s_queue s !! i = Some a -> s_queue s !! j = Some b ->
    jb_lease a <> EmptyString -> jb_lease a = jb_lease b -> i = j;
  ok_issued : EmptyString ∉ s_issued s;
}.

(** A row is rewritten to one with the same identity that is not newly active. *)
Definition same_identity (a b : Job) : Prop :=
  jb_id b = jb_id a /\ jb_tenant b = jb_tenant a /\ jb_actor b = jb_actor a /\
  jb_generation b = jb_generation a /\ jb_fingerprint b = jb_fingerprint a /\
  jb_capability b = jb_capability a /\ jb_template_id b = jb_template_id a /\
  jb_template_version b = jb_template_version a /\ jb_created_at b = jb_created_at a.
Lemma count_not_more p q id old new :
  q !! id = Some old -> (p new = true -> p old = true) -> count p (<[id := new]> q) <= count p q.
Proof.
  intros Ho Hp. pose proof (count_update p q id old new Ho) as E.
  destruct (p new), (p old); simpl in E; lia.
Qed.
Lemma queue_ok_update s id old new issued :
  queue_ok s -> s_queue s !! id = Some old -> same_identity old new -> s_issued s ⊆ issued ->
  EmptyString ∉ issued -> (active new = true -> active old = true) -> row_ok issued id new ->
  (jb_lease new = jb_lease old \/ jb_lease new ∉ s_issued s) ->
  queue_ok {| s_queue := <[id := new]> (s_queue s); s_issued := issued |}.
Proof.
  intros [Hr Ha Ht Hl Hi] Ho Hsame Hsub He Hact Hnew Hlease.
  assert (forall i job, s_queue s !! i = Some job -> jb_lease job = EmptyString \/ jb_lease job ∈ s_issued s) as Hissued.
  { intros i job Hj. destruct (Hr _ _ Hj) as [_ _ [(_ & ? & _)|[(_ & ? & _)|[_ ?]]]]; eauto. }
  split; simpl.
  - apply map_Forall_insert_2; [done|]. intros i job Hj. destruct (Hr i job Hj) as [? ? Hs].
    split; [done|done|]. destruct Hs as [?|[(? & ? & ?)|[? [?|?]]]]; [by left|right; left|right; right..]; set_solver.
  - etrans; [by apply (count_not_more _ _ _ old)|done].
  - intros tenant. etrans; [|apply (Ht tenant)]. apply (count_not_more _ _ _ old); [done|].
    destruct Hsame as (_ & -> & _). intros [-> ?]%andb_prop. simpl. by apply Hact.
  - intros i j a b Hia Hjb.
    apply lookup_insert_Some in Hia as [[-> <-]|[Hni Hia]], Hjb as [[-> <-]|[Hnj Hjb]]; [done| | |by eauto].
    + intros Hne E. destruct Hlease as [El|Hn].
      * eapply Hl; [exact Ho|exact Hjb| |]; congruence.
      * destruct (Hissued _ _ Hjb); [congruence|]. rewrite E in Hn. done.
    + intros Hne E. destruct Hlease as [El|Hn].
      * eapply Hl; [exact Hia|exact Ho| |]; congruence.
      * destruct (Hissued _ _ Hia); [congruence|]. rewrite <-E in Hn. done.
  - done.
Qed.

(** A row that ends keeps its lease. *)
Lemma row_ok_end issued id old status failure :
  row_ok issued id old -> status ∈ TERMINAL -> row_ok issued id (with_status old status failure).
Proof.
  intros [Hi Ha Hs] Hin. split; [done|done|]. right; right. split.
  - unfold terminal, has_status. cbn [jb_status with_status]. apply existsb_exists. exists status.
    split; [by apply list_elem_of_In|apply String.eqb_refl].
  - simpl. destruct Hs as [(_ & ? & _)|[(_ & ? & _)|[_ ?]]]; eauto.
Qed.
Lemma not_active_end old status failure : status ∈ TERMINAL -> active (with_status old status failure) = false.
Proof.
  unfold TERMINAL. rewrite !elem_of_cons, elem_of_nil. intros H. by destruct_or! H; subst.
Qed.
Lemma queue_ok_end s id old status failure :
  queue_ok s -> s_queue s !! id = Some old -> status ∈ TERMINAL ->
  queue_ok (with_queue s (<[id := with_status old status failure]> (s_queue s))).
Proof.
  intros Hok Ho Hin. eapply queue_ok_update; [done|done|by split_and!|done|apply Hok| | |by left].
  - by rewrite not_active_end.
  - apply row_ok_end; [by eapply (ok_rows s)|done].
Qed.
Lemma queue_ok_lease s id old now lease :
  queue_ok s -> s_queue s !! id = Some old -> active old = true -> (jb_attempts old < 3)%Z ->
  lease ∉ s_issued s -> lease <> EmptyString ->
  queue_ok {| s_queue := <[id := leased old lease now]> (s_queue s); s_issued := {[lease]} ∪ s_issued s |}.
Proof.
  intros Hok Ho Ha Hlt Hn Hne. pose proof (ok_issued s Hok). destruct (ok_rows s Hok id old Ho) as [Hi Hat _].
  eapply queue_ok_update; [done|done|by split_and!|set_solver|set_solver|done| |by right].
  split; simpl; [done|lia|]. right; left. split_and!; [done|set_solver|lia].
Qed.
Lemma queue_ok_insert s item now :
  queue_ok s -> s_queue s !! nj_id item = None -> count active (s_queue s) < 256 ->
  count (fun job => String.eqb (jb_tenant job) (nj_tenant item) && active job) (s_queue s) < 32 ->
  queue_ok (with_queue s (<[nj_id item := new_row item now]> (s_queue s))).
Proof.
  intros [Hr Ha Ht Hl Hi] Hn Hact Hten. split; simpl; [| | | |done].
  - apply map_Forall_insert_2; [|done]. split; simpl; [done|lia|by left].
  - rewrite count_insert by done. simpl. lia.
  - intros tenant. rewrite count_insert by done. cbn [jb_tenant new_row].
    destruct (String.eqb_spec (nj_tenant item) tenant) as [<-|]; simpl; [lia|apply (Ht tenant)].
  - intros i j a b Hia Hjb Hne E.
    apply lookup_insert_Some in Hia as [[<- <-]|[Hni Hia]]; [done|].
    apply lookup_insert_Some in Hjb as [[<- <-]|[Hnj Hjb]]; [by rewrite E in Hne|by eapply Hl].
Qed.
Lemma queue_ok_delete s id : queue_ok s -> queue_ok (with_queue s (delete id (s_queue s))).
Proof.
  intros [Hr Ha Ht Hl Hi].
  assert (forall p, count p (delete id (s_queue s)) <= count p (s_queue s)) as Hc.
  { intros p. destruct (s_queue s !! id) as [job|] eqn:E; [|by rewrite delete_id].
    rewrite (count_delete p _ _ _ E). lia. }
  split; simpl; [by apply map_Forall_delete|by etrans; [apply Hc|]|by intros; etrans; [apply Hc|]| |done].
  intros i j a b [_ Hi']%lookup_delete_Some [_ Hj']%lookup_delete_Some. by eapply Hl.
Qed.

(** What each call does to the rows. *)
Lemma claim_cases now lease s :
  queue_ok s ->
  (claim now lease (s_queue s)).2 = s_queue s \/
  exists id job, s_queue s !! id = Some job /\ eligible now job = true /\
    ((3 <= jb_attempts job)%Z /\
     claim now lease (s_queue s) = (None, <[id := with_status job "failed" "retry_limit"]> (s_queue s)) \/
     (jb_attempts job < 3)%Z /\
     claim now lease (s_queue s) = (Some (leased job lease now), <[id := leased job lease now]> (s_queue s))).
Proof.
  intros Hok. unfold claim. destruct (candidate now (s_queue s)) as [job|] eqn:E; [|by left]. right.
  apply candidate_spec in E as ([id Hj] & He & _). exists id, job.
  destruct (ok_rows s Hok id job Hj) as [Hid _ _]. rewrite Hid. split; [done|]. split; [done|].
  destruct (3 <=? jb_attempts job)%Z eqn:Ea; [apply Z.leb_le in Ea; by left|apply Z.leb_gt in Ea; by right].
Qed.
Lemma eligible_active now job : eligible now job = true -> active job = true.
Proof.
  unfold eligible, active, has_status, ACTIVE. simpl. intros [->|[-> _]%andb_prop]%orb_prop; [done|].
  apply orb_true_r.
Qed.
Lemma terminal_member : "failed" ∈ TERMINAL /\ "completed" ∈ TERMINAL /\ "cancelled" ∈ TERMINAL.
Proof. split_and!; refine (bool_decide_unpack (_ ∈ _) _); vm_compute; exact I. Qed.
Lemma finish_cases job succeeded q :
  (finish_job job succeeded q = (Ok false, q)) \/
  exists row status failure, status ∈ TERMINAL /\ q !! jb_id job = Some row /\
    jb_lease row = jb_lease job /\ jb_status row = "running" /\
    finish_job job succeeded q = (Ok true, <[jb_id job := with_status row status failure]> q).
Proof.
  unfold finish_job, finish. replace (existsb _ _) with true by (by destruct succeeded).
  destruct (q !! jb_id job) as [row|] eqn:E; [|by left].
  destruct (_ && _) eqn:C; [|by left]. right.
  apply andb_prop in C as [[_ Hl%String.eqb_eq]%andb_prop Hs%String.eqb_eq].
  eexists row, _, _. split; [|done]. destruct succeeded; apply terminal_member.
Qed.

Lemma queue_ok_step s s' : queue_ok s -> step s s' -> queue_ok s'.
Proof.
  intros Hok Hst. destruct Hst as [item now|now lease Hn Hne|job succeeded|tenant id|job].
  - unfold enqueue. destruct (s_queue s !! nj_id item) as [row|] eqn:E.
    { by destruct (_ && _); destruct s. }
    destruct (_ && _) eqn:C; [|by destruct s]. apply andb_prop in C as [C1%Nat.ltb_lt C2%Nat.ltb_lt].
    by apply queue_ok_insert.
  - destruct (claim_cases now lease s Hok) as [->|(id & job & Hj & He & [[Ha ->]|[Ha ->]])].
    + destruct Hok as [Hr ? ? ? Hi]. split; try done; simpl; [|set_solver].
      eapply map_Forall_impl; [exact Hr|]. intros i row [? ? Hs]. split; [done|done|].
      destruct Hs as [?|[(? & ? & ?)|[? [?|?]]]]; [by left|right; left|right; right..]; set_solver.
    + simpl. eapply queue_ok_update; [done|done|by split_and!|set_solver| | | |by left].
      * pose proof (ok_issued s Hok). set_solver.
      * rewrite not_active_end; [done|apply terminal_member].
      * apply row_ok_end; [|apply terminal_member]. destruct (ok_rows s Hok id job Hj) as [? ? Hs].
        split; [done|done|]. destruct Hs as [?|[(? & ? & ?)|[? [?|?]]]]; [by left|right; left|right; right..]; set_solver.
    + apply queue_ok_lease; try done. by eapply eligible_active.
  - destruct (finish_cases job succeeded (s_queue s)) as [->|(row & status & failure & Hin & Hr & _ & _ & ->)];
      [by destruct s|]. by apply queue_ok_end.
  - unfold cancel. simpl. destruct (s_queue s !! id) as [row|] eqn:E; [|by destruct s].
    destruct (_ && _); [|by destruct s]. apply queue_ok_end; [done|done|apply terminal_member].
  - unfold forget. destruct (s_queue s !! jb_id job) as [row|]; [|by destruct s].
    destruct (_ && _); [|by destruct s]. by apply queue_ok_delete.
Qed.
Lemma queue_ok_initial : queue_ok initial.
Proof. split; simpl; [apply map_Forall_empty|vm_compute; lia|intros; vm_compute; lia|by intros|set_solver]. Qed.

Lemma queue_ok_reachable s : reachable s -> queue_ok s.
Proof.
  intros Hr. unfold reachable in Hr. remember initial as s0 eqn:E0.
  assert (queue_ok s0) as H0 by (subst; apply queue_ok_initial). clear E0.
  induction Hr as [|a b c Hab _ IH]; [done|]. apply IH. by eapply queue_ok_step.
Qed.

(** ** Lives and leases *)
Inductive life : option Job -> option Job -> Prop :=
  | life_same o : life o o
  | life_queued job : jb_status job = "queued" -> jb_attempts job = 0%Z -> life None (Some job)
  | life_claimed a b :
      active a = true -> same_identity a b -> jb_status b = "running" ->
      jb_attempts b = (jb_attempts a + 1)%Z -> (jb_attempts b <= 3)%Z -> life (Some a) (Some b)
  | life_ended a b :
      active a = true -> same_identity a b -> terminal b = true -> jb_lease b = jb_lease a ->
      jb_attempts b = jb_attempts a -> life (Some a) (Some b)
  | life_forgotten a : terminal a = true -> life (Some a) None.
Lemma life_insert (q : Queue) id new other :
  life (q !! id) (Some new) -> life (q !! other) ((<[id := new]> q) !! other).
Proof.
  intros Hl. destruct (decide (id = other)) as [->|]; [by rewrite lookup_insert_eq|].
  rewrite lookup_insert_ne by done. constructor.
Qed.
Lemma terminal_end old status failure : status ∈ TERMINAL -> terminal (with_status old status failure) = true.
Proof. unfold TERMINAL. rewrite !elem_of_cons, elem_of_nil. intros H. by destruct_or! H; subst. Qed.
Lemma life_end (q : Queue) id old status failure other :
  q !! id = Some old -> active old = true -> status ∈ TERMINAL ->
  life (q !! other) (<[id := with_status old status failure]> q !! other).
Proof.
  intros Ho Ha Hs. apply life_insert. rewrite Ho.
  by apply life_ended; [|split_and!|apply terminal_end| |].
Qed.

(** The life of a job: in every step of the system a row is created queued,
    claimed (one more attempt), ended once, or forgotten after it ended; its
    tenant, actor, fingerprint and template never change, and a completed, failed
    or cancelled job stays as it is until it is forgotten. *)
Theorem job_lifecycle s s' id :
  reachable s -> step s s' -> life (s_queue s !! id) (s_queue s' !! id).
Proof.
  intros Hok%queue_ok_reachable Hst.
  destruct Hst as [item now|now lease Hn Hne|job succeeded|tenant id'|job]; cbn [s_queue with_queue].
  - unfold enqueue. destruct (s_queue s !! nj_id item) as [row|] eqn:E; [destruct (_ && _); constructor|].
    destruct (_ && _); [|constructor]. apply life_insert. rewrite E. by apply life_queued.
  - destruct (claim_cases now lease s Hok) as [->|(i & job & Hj & He%eligible_active & [[Ha ->]|[Ha ->]])];
      [constructor| |].
    + by apply life_end; [..|apply terminal_member].
    + apply life_insert. rewrite Hj. apply life_claimed; [done|by split_and!|done|done|simpl; lia].
  - destruct (finish_cases job succeeded (s_queue s)) as [->|(row & status & failure & Hin & Hr & _ & Hs & ->)];
      [constructor|]. apply life_end; [done| |done]. unfold active, has_status. by rewrite Hs.
  - unfold cancel. simpl. destruct (s_queue s !! id') as [row|] eqn:E; [|constructor].
    destruct (_ && _) eqn:C; [|constructor]. apply andb_prop in C as [_ C].
    by apply life_end; [..|apply terminal_member].
  - unfold forget. destruct (s_queue s !! jb_id job) as [row|] eqn:E; [|constructor].
    destruct (_ && _) eqn:C; [|constructor]. apply andb_prop in C as [_ C].
    destruct (decide (jb_id job = id)) as [<-|]; [|rewrite lookup_delete_ne by done; constructor].
    rewrite lookup_delete_eq, E. by apply life_forgotten.
Qed.

(** A lease is spent when it was issued and no running row carries it. *)
Definition spent (lease : string) (s : System) : Prop :=
  lease ∈ s_issued s /\
  forall id row, s_queue s !! id = Some row -> jb_lease row = lease -> jb_status row <> "running".
Lemma spent_insert lease s id new issued :
  spent lease s -> s_issued s ⊆ issued -> (jb_lease new = lease -> jb_status new <> "running") ->
  spent lease {| s_queue := <[id := new]> (s_queue s); s_issued := issued |}.
Proof.
  intros [Hi Hs] Hsub Hnew. split; simpl; [set_solver|].
  intros i row [[-> <-]|[_ Hr]]%lookup_insert_Some; [done|by eapply Hs].
Qed.
Lemma not_running_end old status failure : status ∈ TERMINAL -> jb_status (with_status old status failure) <> "running".
Proof. unfold TERMINAL. rewrite !elem_of_cons, elem_of_nil. intros H. by destruct_or! H; subst. Qed.
Lemma spent_step lease s s' : queue_ok s -> spent lease s -> step s s' -> spent lease s'.
Proof.
  intros Hok Hsp Hst. destruct Hst as [item now|now l Hn Hne|job succeeded|tenant id|job].
  - unfold enqueue. destruct (s_queue s !! nj_id item) as [row|]; [by destruct (_ && _), s|].
    destruct (_ && _); [|by destruct s]. by apply spent_insert.
  - destruct (claim_cases now l s Hok) as [->|(id & job & Hj & He & [[Ha ->]|[Ha ->]])].
    + destruct Hsp as [Hi Hs]. split; simpl; [set_solver|done].
    + apply spent_insert; [done|set_solver|]. intros _. apply not_running_end, terminal_member.
    + apply spent_insert; [done|set_solver|]. simpl. intros ->. by destruct Hsp as [? _].
  - destruct (finish_cases job succeeded (s_queue s)) as [->|(row & status & failure & Hin & Hr & _ & _ & ->)];
      [by destruct s|]. apply spent_insert; [done|done|]. intros _. by apply not_running_end.
  - unfold cancel. simpl. destruct (s_queue s !! id) as [row|]; [|by destruct s].
    destruct (_ && _); [|by destruct s]. by apply spent_insert.
  - unfold forget. destruct (s_queue s !! jb_id job) as [row|]; [|by destruct s].
    destruct (_ && _); [|by destruct s]. destruct Hsp as [Hi Hs]. split; [done|]. simpl.
    intros i r [_ Hr]%lookup_delete_Some. by eapply Hs.
Qed.

(** C25: late results are fenced: when the job of a lease was completed, failed,
    cancelled or claimed again, no later report with that lease, now or at any
    time, changes the queue; a successful report uses the lease up, so a claim is
    completed at most once. *)
Theorem lease_fenced s job succeeded :
  reachable s ->
  (spent (jb_lease job) s -> forall s', rtc step s s' ->
     finish_job job succeeded (s_queue s') = (Ok false, s_queue s')) /\
  ((finish_job job succeeded (s_queue s)).1 = Ok true ->
     spent (jb_lease job) (with_queue s (finish_job job succeeded (s_queue s)).2)).
Proof.
  intros Hok%queue_ok_reachable. split.
  - intros Hsp s' Hst.
    assert (spent (jb_lease job) s') as [_ Hs].
    { revert Hok Hsp. induction Hst as [|a b c Hab _ IH]; [done|]. intros Hok Hsp.
      apply IH; [by eapply queue_ok_step|by eapply spent_step]. }
    destruct (finish_cases job succeeded (s_queue s')) as [->|(row & ? & ? & _ & Hr & Hl & Hrun & _)]; [done|].
    by destruct (Hs _ _ Hr Hl).
  - destruct (finish_cases job succeeded (s_queue s)) as [->|(row & status & failure & Hin & Hr & Hl & Hrun & ->)];
      [done|]. intros _.
    assert (jb_lease row ∈ s_issued s) as Hi.
    { destruct (ok_rows s Hok _ _ Hr) as [_ _ [(Hq & _)|[(_ & ? & _)|[Ht _]]]]; [congruence|done|].
      exfalso. unfold terminal, has_status in Ht. by rewrite Hrun in Ht. }
    split; [by rewrite <-Hl|]. simpl. intros i r [[<- <-]|[Hne Hir]]%lookup_insert_Some.
    { intros _. by apply not_running_end. }
    intros E. exfalso. apply Hne. eapply (ok_leases s Hok); [exact Hr|exact Hir| |congruence].
    intros E0. rewrite E0 in Hi. by apply (ok_issued s Hok).
Qed.

(** C40: the queue stays within its limits: whatever is called, in any order and by
    anyone, at most 256 jobs and 32 of one tenant are queued or running, a job is
    attempted at most three times, its status agrees with its lease, and no two
    rows share a lease. *)
Theorem queue_invariant s : reachable s -> queue_ok s.
Proof. apply queue_ok_reachable. Qed.

(** ** Examples *)
Definition demo_job (id : string) : NewJob :=
  {| nj_id := id; nj_tenant := "acme"; nj_actor := "ann"; nj_generation := "g"; nj_fingerprint := "f";
     nj_capability := "c"; nj_template_id := "t"; nj_template_version := "v" |}.
Definition demo_queued : System := with_queue initial (enqueue (demo_job "a") 5 ∅).2.
Definition demo_claimed : System :=
  {| s_queue := (claim 10 "l1" (s_queue demo_queued)).2; s_issued := {["l1"]} ∪ ∅ |}.
Definition demo_running : Job := default (new_row (demo_job "a") 5) (s_queue demo_claimed !! "a").
Definition demo_finished : System :=
  with_queue demo_claimed (finish_job demo_running true (s_queue demo_claimed)).2.
Lemma demo_queued_reachable : reachable demo_queued.
Proof. apply rtc_once. apply (step_enqueue initial). Qed.
Lemma demo_claimed_reachable : reachable demo_claimed.
Proof.
  eapply rtc_r; [exact demo_queued_reachable|]. apply (step_claim demo_queued); [|done].
  apply not_elem_of_empty.
Qed.

Lemma queue_invariant_witness :
  exists row, s_queue demo_claimed !! "a" = Some row /\ jb_status row = "running" /\
    row_ok (s_issued demo_claimed) "a" row.
Proof.
  destruct (s_queue demo_claimed !! "a") as [row|] eqn:E; [|exfalso; vm_compute in E; discriminate E].
  exists row. split; [reflexivity|]. split.
  - change (jb_status row = "running"). assert (Hs : jb_status <$> s_queue demo_claimed !! "a" = Some "running")
      by (vm_compute; reflexivity). rewrite E in Hs. injection Hs as Hs. exact Hs.
  - exact (ok_rows _ (queue_invariant _ demo_claimed_reachable) _ _ E).
Defined.
Lemma job_lifecycle_witness :
  life (s_queue demo_claimed !! "a") (s_queue demo_finished !! "a") /\
  (jb_status <$> s_queue demo_finished !! "a") = Some "completed".
Proof.
  split; [|vm_compute; reflexivity].
  exact (job_lifecycle demo_claimed demo_finished "a" demo_claimed_reachable
    (step_finish demo_claimed demo_running true)).
Defined.
Lemma lease_fenced_witness :
  (finish_job demo_running true (s_queue demo_claimed)).1 = Ok true /\
  finish_job demo_running false (s_queue demo_finished) = (Ok false, s_queue demo_finished).
Proof.
  assert (E : (finish_job demo_running true (s_queue demo_claimed)).1 = Ok true) by (vm_compute; reflexivity).
  split; [exact E|].
  assert (Hr : reachable demo_finished).
  { eapply rtc_r; [exact demo_claimed_reachable|]. apply (step_finish demo_claimed). }
  apply (proj1 (lease_fenced demo_finished demo_running false Hr)); [|constructor].
  exact (proj2 (lease_fenced demo_claimed demo_running true demo_claimed_reachable) E).
Defined.
