(* ===== verification/Compiler.v ===== *)
(** * Compiler: the document compiler service (services/document-compiler, application.rs)

    Every method of [Compiler] is a program over its ports: the authorizer, the
    object store, the job queue and the sandbox.  A call may be answered with an
    error at any time; a dropped or timed-out future is a call whose answer never
    reaches the program, which an error answer covers. *)

From S2P Require Import Prelude Text Json Authoring RustStr Proc Template JobQueue.

(** ** Delegation (platform/document-compiler, delegation.rs) *)
Inductive Action : Type :=
  | Resolve | Create | View | Use | Edit | Publish | Delete | PublishPdf.
Record TemplatePolicy : Type := {
  tp_id : string;
  tp_scope : Scope;
  tp_owner : string;
  tp_project : option string;
  tp_plugin : option string;
}.
Record AuthorizationRequest : Type := {
  ar_action : Action;
  ar_template : option TemplatePolicy;
}.
Record Grant : Type := {
  gr_tenant : string;
  gr_actor : string;
  gr_generation : string;
  gr_project : option string;
  gr_temporary_session : option string;
}.
#[export] Instance action_eq_dec : EqDecision Action.
Proof. solve_decision. Defined.
#[export] Instance grant_eq_dec : EqDecision Grant.
Proof. solve_decision. Defined.
Definition policy_of (t : Template) : TemplatePolicy :=
  {| tp_id := tm_id t; tp_scope := tm_scope t; tp_owner := tm_owner t; tp_project := tm_project t;
     tp_plugin := tm_plugin t |}.

(** ** Ports *)
Inductive call : Type -> Type :=
  | Authorize (capability : string) (request : AuthorizationRequest) : call Grant
  | ObjectGet (key : string) (limit : N) : call string
  | ObjectExists (key : string) : call bool
  | ObjectPutNew (key data : string) : call unit
  | ObjectDelete (key : string) : call unit
  | ObjectList (prefix after : string) : call (list string * string)
  | QueueExpired (now : Z) : call (list Job)
  | QueueForget (job : Job) : call unit
  | QueueEnqueue (item : NewJob) (now : Z) : call Job
  | QueueClaim (now : Z) : call (option Job)
  | QueueGet (tenant id : string) : call Job
  | QueueCancel (tenant id : string) : call Job
  | QueueFinish (job : Job) (succeeded : bool) : call bool
  | Compile (project : Rendered) : call unit
  | Select : call (option string)
  | AuthorizationDue : call bool
  | Now : call Z
  | NewUuid : call string.

Notation prog := (proc call).

(** ** Keys *)
Definition root (tenant : string) : string := tenant +:+ "/document-compiler".
Definition template_key (tenant id version : string) : result string :=
  validate_id id 32 ;;
  validate_id version 64 ;;
  Ok (root tenant +:+ "/templates/" +:+ id +:+ "/" +:+ version +:+ ".json").
Definition deleted_key (tenant id : string) : string := root tenant +:+ "/deleted/" +:+ id.
Definition published_key (tenant id version : string) : string :=
  root tenant +:+ "/published/" +:+ id +:+ "/" +:+ version.
Definition job_key (tenant id extension : string) : string :=
  root tenant +:+ "/jobs/" +:+ id +:+ "." +:+ extension.

Record Submission : Type := {
  sb_grant : Grant;
  sb_template_id : string;
  sb_version : string;
  sb_document : Document;
}.
Record TemplateRef : Type := { ref_template_id : string; ref_version : string }.
Record CompileRequest : Type := {
  rq_idempotency_key : string;
  rq_document_json : string;
  rq_template : option TemplateRef;
}.
Record JobMessage : Type := { jm_job_id : string; jm_status : string; jm_failure_code : string }.
Definition projection (job : Job) : JobMessage :=
  {| jm_job_id := jb_id job; jm_status := jb_status job; jm_failure_code := jb_failure job |}.

(** Decoders of the derived formats, and the syntax of UUIDs. *)
Class CompilerExternals := {
  template_from_slice : string -> result Template;
  document_from_slice : string -> result Document;
  submission_from_slice : string -> result Submission;
  uuid_valid : string -> bool;
}.
Definition json_grant (g : Grant) : value :=
  JObject [("tenant", JString (gr_tenant g)); ("actor", JString (gr_actor g));
           ("generation", JString (gr_generation g)); ("project", json_option (gr_project g));
           ("temporary_session", json_option (gr_temporary_session g))].
Definition json_document (d : Document) : value :=
  JObject [("variables", JObject (btree_entries (dc_variables d))); ("source", json_option (dc_source d))].
Definition json_submission (s : Submission) : value :=
  JObject [("grant", json_grant (sb_grant s)); ("template_id", JString (sb_template_id s));
           ("version", JString (sb_version s)); ("document", json_document (sb_document s))].

Section compiler.
Context `{Externals} `{CompilerExternals}.

Definition resolve (capability : string) : prog Grant :=
  await (Authorize capability {| ar_action := Resolve; ar_template := None |}).
Definition authorize (capability : string) (grant : Grant) (action : Action) (policy : TemplatePolicy)
    : prog unit :=
  current ← await (Authorize capability {| ar_action := action; ar_template := Some policy |});
  check (bool_decide (current = grant)) "Delegation changed".

(** ** Templates *)
Definition structural (id : string) : TemplatePolicy :=
  {| tp_id := id; tp_scope := Tenant; tp_owner := EmptyString; tp_project := None; tp_plugin := None |}.
Definition template (capability : string) (grant : Grant) (id version : string) (action : Action)
    : prog Template :=
  key ← lift (template_key (gr_tenant grant) id version);
  authorize capability grant action (structural id) ;;
  deleted ← await (ObjectExists (deleted_key (gr_tenant grant) id));
  check (negb deleted) "Template unavailable" ;;
  bytes ← await (ObjectGet key (MAX_PROJECT_BYTES * 5));
  template ← lift (template_from_slice bytes);
  check (String.eqb (tm_id template) id && String.eqb (tm_version template) version)
    "Template identity mismatch" ;;
  template ← lift (seal template);
  check (String.eqb (tm_version template) version) "Template digest mismatch" ;;
  authorize capability grant action (policy_of template) ;;
  ok template.
Definition read_template (capability : string) (reference : TemplateRef) : prog Template :=
  grant ← resolve capability;
  template capability grant (ref_template_id reference) (ref_version reference) View.

Definition template_coordinates (prefix key : string) : option (string * string) :=
  (strip_prefix prefix key ≫= strip_suffix ".json") ≫= split_once "/".
Definition without_assets (t : Template) : Template := with_content t [] (tm_version t).
Fixpoint visible_templates (capability : string) (grant : Grant) (prefix : string) (keys : list string)
    : prog (list Template) :=
  match keys with
  | [] => ok []
  | key :: keys =>
      match template_coordinates prefix key with
      | None => visible_templates capability grant prefix keys
      | Some (id, version) =>
          found ← attempt (template capability grant id version View);
          rest ← visible_templates capability grant prefix keys;
          ok (match found with Some t => without_assets t :: rest | None => rest end)
      end
  end.
Definition list_templates (capability after : string) : prog (list Template * string) :=
  grant ← resolve capability;
  let prefix := root (gr_tenant grant) +:+ "/templates/" in
  start_after ← (if is_empty after then ok EmptyString else
    check (String.length after =? 96) "Invalid template cursor" ;;
    check (is_char_boundary 32 after) "Invalid template cursor" ;;
    lift (template_key (gr_tenant grant) (take_bytes 32 after) (skip 32 after)));
  '(keys, cursor) ← await (ObjectList prefix start_after);
  cursor ← (if is_empty cursor then ok EmptyString else
    '(id, version) ← require "Invalid catalog cursor" (template_coordinates prefix cursor);
    lift (validate_id id 32) ;;
    lift (validate_id version 64) ;;
    ok (id +:+ version));
  templates ← visible_templates capability grant prefix keys;
  ok (templates, cursor).

Definition with_identity (t : Template) (id owner : string) : Template :=
  {| tm_id := id; tm_version := tm_version t; tm_name := tm_name t;
     tm_description := tm_description t; tm_scope := tm_scope t; tm_owner := owner;
     tm_project := tm_project t; tm_plugin := tm_plugin t; tm_entrypoint := tm_entrypoint t;
     tm_assets := tm_assets t; tm_variables := tm_variables t |}.
Definition is_plugin (t : Template) : bool := bool_decide (tm_scope t = Plugin).
Definition new_template_id : prog string :=
  uuid ← await NewUuid;
  digits ← require "Invalid generated ID" (if len_ge uuid 31 then Some (take_bytes 31 uuid) else None);
  ok ("0" +:+ digits).
Definition put_template (capability : string) (t : Template) : prog TemplateRef :=
  grant ← resolve capability;
  let creating := is_empty (tm_id t) in
  id ← (if creating then new_template_id else ok (tm_id t));
  owner ← (if is_plugin t
           then plugin ← require "Plugin required" (tm_plugin t); ok ("plugin:" +:+ plugin)
           else if creating then ok (gr_actor grant)
           else lift (validate_id id 32) ;; ok (tm_owner t));
  lift (validate_id id 32) ;;
  let prefix := root (gr_tenant grant) +:+ "/templates/" +:+ id +:+ "/" in
  '(previous, _) ← await (ObjectList prefix EmptyString);
  t ← match previous with
      | first :: _ =>
          version ← require "Invalid prior revision" (strip_prefix prefix first ≫= strip_suffix ".json");
          existing ← template capability grant id version (if is_plugin t then View else Edit);
          check (bool_decide (tm_scope existing = tm_scope t) &&
                 bool_decide (tm_project existing = tm_project t) &&
                 bool_decide (tm_plugin existing = tm_plugin t)) "Template scope is immutable" ;;
          ok (with_identity t id (tm_owner existing))
      | [] =>
          check (creating || (is_plugin t && starts_with "f" id)) "Template does not exist" ;;
          let t := with_identity t id owner in
          lift (validate t) ;;
          authorize capability grant Create (policy_of t) ;;
          ok t
      end;
  t ← lift (seal t);
  deleted ← await (ObjectExists (deleted_key (gr_tenant grant) (tm_id t)));
  check (negb deleted) "Template deleted" ;;
  key ← lift (template_key (gr_tenant grant) (tm_id t) (tm_version t));
  bytes ← lift (json_to_vec (json_template t));
  await (ObjectPutNew key bytes) ;;
  ok {| ref_template_id := tm_id t; ref_version := tm_version t |}.
Definition mutate_template (capability : string) (reference : TemplateRef) (action : Action) : prog unit :=
  check (bool_decide (action = Publish) || bool_decide (action = Delete)) "Invalid mutation" ;;
  grant ← resolve capability;
  template capability grant (ref_template_id reference) (ref_version reference) action ;;
  await (ObjectPutNew
    (if bool_decide (action = Delete) then deleted_key (gr_tenant grant) (ref_template_id reference)
     else published_key (gr_tenant grant) (ref_template_id reference) (ref_version reference))
    EmptyString).

(** ** Jobs *)
Definition job_id (grant : Grant) (idempotency_key : string) : result string :=
  sha256_hex <$> json_to_vec (JArray (JString <$>
    [gr_tenant grant; gr_actor grant; gr_generation grant; idempotency_key])).
Definition submit (capability : string) (request : CompileRequest) : prog JobMessage :=
  grant ← resolve capability;
  check (uuid_valid (rq_idempotency_key request)) "Invalid idempotency key" ;;
  check (byte_len (rq_document_json request) <=? MAX_PROJECT_BYTES * 2)%N "Document exceeds limit" ;;
  reference ← require "Template is required" (rq_template request);
  t ← template capability grant (ref_template_id reference) (ref_version reference) Use;
  let published := published_key (gr_tenant grant) (tm_id t) (tm_version t) in
  is_published ← await (ObjectExists published);
  (if negb is_published then mutate_template capability reference Publish else ok tt) ;;
  is_published ← await (ObjectExists published);
  check is_published "Template publication unavailable" ;;
  document ← lift (document_from_slice (rq_document_json request));
  lift (render t document) ;;
  id ← lift (job_id grant (rq_idempotency_key request));
  let submission := {| sb_grant := grant; sb_template_id := tm_id t; sb_version := tm_version t;
                       sb_document := document |} in
  bytes ← lift (json_to_vec (json_submission submission));
  let fingerprint := sha256_hex bytes in
  await (ObjectPutNew (job_key (gr_tenant grant) id "json") bytes) ;;
  now ← await Now;
  job ← await (QueueEnqueue
    {| nj_id := id; nj_tenant := gr_tenant grant; nj_actor := gr_actor grant;
       nj_generation := gr_generation grant; nj_fingerprint := fingerprint;
       nj_capability := capability; nj_template_id := tm_id t; nj_template_version := tm_version t |} now);
  ok (projection job).
Definition own_job (capability id : string) : prog (Grant * Job) :=
  lift (validate_id id 64) ;;
  grant ← resolve capability;
  job ← await (QueueGet (gr_tenant grant) id);
  check (String.eqb (jb_actor job) (gr_actor grant) && String.eqb (jb_generation job) (gr_generation grant))
    "Job unavailable" ;;
  ok (grant, job).
Definition get_job (capability id : string) (cancel : bool) : prog JobMessage :=
  '(grant, job) ← own_job capability id;
  job ← (if cancel then await (QueueCancel (gr_tenant grant) (jb_id job)) else ok job);
  ok (projection job).
Definition pdf (capability id : string) : prog string :=
  '(grant, job) ← own_job capability id;
  fresh ← (if String.eqb (jb_status job) "completed"
           then now ← await Now; ok (now <? Z.min (2 ^ 63 - 1) (jb_created_at job + WEEK))%Z
           else ok false);
  check fresh "Compilation is incomplete or expired" ;;
  template capability grant (jb_template_id job) (jb_template_version job) Use ;;
  await (Authorize capability {| ar_action := PublishPdf; ar_template := None |}) ;;
  await (ObjectGet (job_key (gr_tenant grant) id "pdf") MAX_PDF_BYTES).

(** ** Execution *)

(** The [select!] loop: [Select] answers with the result of the sandbox, or
    [None] at a tick.  A tick is due every 500 ms and [run] drops the future after
    75 s, so there are at most [TICKS] of them. *)
Definition TICKS : nat := 151.
Fixpoint compile_loop (ticks : nat) (job : Job) (grant : Grant) (t : Template) : prog string :=
  match ticks with
  | 0 => Done (Err (Foreign "timeout"))
  | S ticks =>
      event ← await Select;
      match event with
      | Some pdf => ok pdf
      | None =>
          current ← await (QueueGet (jb_tenant job) (jb_id job));
          check (String.eqb (jb_status current) "running" && String.eqb (jb_lease current) (jb_lease job))
            "Compilation cancelled" ;;
          due ← await AuthorizationDue;
          (if due : bool then authorize (jb_capability job) grant Use (policy_of t) else ok tt) ;;
          compile_loop ticks job grant t
      end
  end.
Definition same_authority (grant : Grant) (job : Job) : bool :=
  String.eqb (gr_tenant grant) (jb_tenant job) && String.eqb (gr_actor grant) (jb_actor job) &&
  String.eqb (gr_generation grant) (jb_generation job).
Definition execute (job : Job) : prog unit :=
  authorized ← resolve (jb_capability job);
  check (same_authority authorized job) "Queued authority changed" ;;
  t ← template (jb_capability job) authorized (jb_template_id job) (jb_template_version job) Use;
  bytes ← await (ObjectGet (job_key (jb_tenant job) (jb_id job) "json") (MAX_PROJECT_BYTES * 5));
  check (String.eqb (sha256_hex bytes) (jb_fingerprint job)) "Queued input changed" ;;
  submission ← lift (submission_from_slice bytes);
  grant ← resolve (jb_capability job);
  check (bool_decide (grant = sb_grant submission) && same_authority grant job)
    "Queued delegation changed" ;;
  check (String.eqb (tm_id t) (sb_template_id submission) &&
         String.eqb (tm_version t) (sb_version submission)) "Queued template changed" ;;
  project ← lift (render t (sb_document submission));
  await (Compile project) ;;
  pdf ← compile_loop TICKS job grant t;
  check (starts_with "%PDF-" pdf && (byte_len pdf <=? MAX_PDF_BYTES)%N) "Invalid compiler output" ;;
  template (jb_capability job) grant (sb_template_id submission) (sb_version submission) Use ;;
  await (ObjectPutNew (job_key (jb_tenant job) (jb_id job) "pdf") pdf).

(** One job of [run]: claim, execute, report. *)
Definition work : prog unit :=
  now ← await Now;
  claimed ← await (QueueClaim now);
  match claimed with
  | None => ok tt
  | Some job =>
      done ← attempt (execute job);
      attempt (await (QueueFinish job (option_is_some done))) ;;
      ok tt
  end.
Fixpoint cleanup_jobs (jobs : list Job) : prog unit :=
  match jobs with
  | [] => ok tt
  | job :: jobs =>
      await (ObjectDelete (job_key (jb_tenant job) (jb_id job) "json")) ;;
      await (ObjectDelete (job_key (jb_tenant job) (jb_id job) "pdf")) ;;
      await (QueueForget job) ;;
      cleanup_jobs jobs
  end.
Definition cleanup : prog unit :=
  now ← await Now;
  jobs ← await (QueueExpired now);
  cleanup_jobs jobs.
End compiler.
