(* ===== verification/CompilerFacts.v ===== *)
(** * CompilerFacts: what the document compiler does with its ports

    Theorems about every run of a method: its calls in order with the answers the
    ports gave, for all answers, errors included. *)

From S2P Require Import Prelude Text Json Authoring RustStr Proc Template TemplateFacts JobQueue.
From S2P Require Import Compiler.

Notation event := (event call).

(** ** Reading templates *)
Section compiler.
Context `{Externals} `{CompilerExternals}.

Definition asks (capability : string) (action : Action) (policy : option TemplatePolicy) : call Grant :=
  Authorize capability {| ar_action := action; ar_template := policy |}.
(** What a successful [template] has seen. *)
Record template_seen (capability : string) (grant : Grant) (id version : string) (action : Action)
    (es : list event) (t : Template) : Prop := {
  seen_id : tm_id t = id;
  seen_version : tm_version t = version;
  seen_sealed : seal t = Ok t;
  seen_stored : exists key bytes stored,
    template_key (gr_tenant grant) id version = Ok key /\
    Event (ObjectGet key (MAX_PROJECT_BYTES * 5)) (Ok bytes) ∈ es /\
    template_from_slice bytes = Ok stored /\ seal stored = Ok t;
  seen_structural : Event (asks capability action (Some (structural id))) (Ok grant) ∈ es;
  seen_policy : Event (asks capability action (Some (policy_of t))) (Ok grant) ∈ es;
  seen_present : Event (ObjectExists (deleted_key (gr_tenant grant) id)) (Ok false) ∈ es;
}.

Lemma safe_authorize G capability grant action policy pre Q :
  (forall answer, G pre (Event (asks capability action (Some policy)) answer)) ->
  Q (pre ++ [Event (asks capability action (Some policy)) (Ok grant)]) tt ->
  safe G pre (authorize capability grant action policy) (succeeds Q).
Proof.
  intros HG HQ. unfold authorize. apply safe_await; [exact HG|]. intros g.
  unfold check, lift. simpl. case_bool_decide; simpl; by subst.
Qed.
Ltac in_events := rewrite ?elem_of_app, ?elem_of_cons; auto 10.

Lemma template_safe G capability grant id version action pre :
  (forall es policy answer, G (pre ++ es) (Event (asks capability action (Some policy)) answer)) ->
  (forall es answer, G (pre ++ es) (Event (ObjectExists (deleted_key (gr_tenant grant) id)) answer)) ->
  (forall es key answer, template_key (gr_tenant grant) id version = Ok key ->
     Event (asks capability action (Some (structural id))) (Ok grant) ∈ es ->
     G (pre ++ es) (Event (ObjectGet key (MAX_PROJECT_BYTES * 5)) answer)) ->
  safe G pre (template capability grant id version action)
    (succeeds (template_seen capability grant id version action)).
Proof.
  intros HA HE HG. unfold template. apply safe_lift. intros key Hkey.
  apply safe_seq, safe_authorize; [intros; rewrite <-(app_nil_r pre); apply HA|].
  apply safe_await; [intros; apply HE|]. intros deleted. rewrite <-app_assoc.
  apply safe_check. intros ->%negb_true_iff.
  apply safe_await; [intros; apply HG; [done|left]|]. intros bytes. rewrite <-app_assoc.
  apply safe_lift. intros stored Hst. apply safe_check. intros [Hi Hv]%andb_prop.
  apply safe_lift. intros t Ht. apply safe_check. intros Hvt.
  apply safe_seq, safe_authorize; [intros; apply HA|]. rewrite <-app_assoc. simpl.
  apply String.eqb_eq in Hi, Hv, Hvt. pose proof (seal_same_id _ _ Ht) as Hid.
  split; [by rewrite Hid|done|by eapply seal_sealed| | | |].
  - exists key, bytes, stored. split; [done|]. split; [|done]. in_events.
  - in_events.
  - in_events.
  - in_events.
Qed.

(** ** Confinement *)
Definition under (tenant key : string) : Prop := exists rest, key = root tenant +:+ "/" +:+ rest.
Definition granted (capability : string) (grant : Grant) (es : list event) : Prop :=
  Event (asks capability Resolve None) (Ok grant) ∈ es.
(** The gateway granted an action on a template under the same grant. *)
Definition cleared (capability : string) (grant : Grant) (es : list event) : Prop :=
  exists action policy, Event (asks capability action (Some policy)) (Ok grant) ∈ es.
Definition confined (capability : string) (before : list event) (e : event) : Prop :=
  match e with
  | Event c _ =>
      match c with
      | Authorize used _ => used = capability
      | ObjectGet key _ => exists g, granted capability g before /\ cleared capability g before /\
          under (gr_tenant g) key
      | ObjectPutNew key _ => exists g, granted capability g before /\ cleared capability g before /\
          under (gr_tenant g) key
      | ObjectExists key | ObjectList key _ => exists g, granted capability g before /\ under (gr_tenant g) key
      | QueueEnqueue item _ => exists g, granted capability g before /\ cleared capability g before /\
          nj_tenant item = gr_tenant g /\ nj_actor item = gr_actor g /\
          nj_generation item = gr_generation g /\ nj_capability item = capability
      | QueueGet tenant _ | QueueCancel tenant _ =>
          exists g, granted capability g before /\ tenant = gr_tenant g
      | Now | NewUuid => True
      | _ => False
      end
  end.
Lemma granted_app capability g es es' : granted capability g es -> granted capability g (es ++ es').
Proof. intros Hg. unfold granted. apply elem_of_app. by left. Qed.
Lemma cleared_app capability g es es' : cleared capability g es -> cleared capability g (es ++ es').
Proof. intros (action & policy & Hg). exists action, policy. apply elem_of_app. by left. Qed.
#[local] Hint Resolve granted_app cleared_app : core.

Lemma under_root tenant a : under tenant (root tenant +:+ "/" +:+ a).
Proof. by exists a. Qed.
Lemma under_template tenant id version key : template_key tenant id version = Ok key -> under tenant key.
Proof.
  unfold template_key. intros ([] & _ & ([] & _ & [= <-])%bind_Ok_inv)%bind_Ok_inv. by eexists.
Qed.
Lemma under_deleted tenant id : under tenant (deleted_key tenant id).
Proof. by eexists. Qed.
Lemma under_published tenant id version : under tenant (published_key tenant id version).
Proof. by eexists. Qed.
Lemma under_job tenant id ext : under tenant (job_key tenant id ext).
Proof. by eexists. Qed.
Lemma under_catalog tenant : under tenant (root tenant +:+ "/templates/").
Proof. by exists "templates/". Qed.
Lemma under_revisions tenant rest : under tenant (root tenant +:+ "/templates/" +:+ rest).
Proof. by exists ("templates/" +:+ rest). Qed.
#[local] Hint Resolve under_catalog under_revisions under_root under_template under_deleted under_published under_job : core.

Lemma template_confined capability g id version action pre :
  granted capability g pre ->
  safe (confined capability) pre (template capability g id version action)
    (succeeds (fun es t => template_seen capability g id version action es t /\
      granted capability g es /\ cleared capability g es)).
Proof.
  intros Hg. eapply safe_mono; [|apply template_safe].
  - intros es t Ht. split; [done|]. split; [eauto|]. exists action, (policy_of t). apply Ht.
  - done.
  - intros. exists g. eauto.
  - intros es key answer Hk Ha. exists g. split; [eauto|]. split; [|eauto].
    exists action, (structural id). apply elem_of_app. by right.
Qed.
Lemma resolve_confined {C} capability (f : Grant -> prog C) pre Q :
  (forall g es, granted capability g (pre ++ es) -> safe (confined capability) (pre ++ es) (f g) (succeeds Q)) ->
  safe (confined capability) pre (resolve capability ≫= f) (succeeds Q).
Proof.
  intros Hs. apply safe_await; [done|]. intros g. apply Hs. apply elem_of_app. right. left.
Qed.

Lemma mutate_confined capability reference action pre :
  safe (confined capability) pre (mutate_template capability reference action) (succeeds any).
Proof.
  unfold mutate_template. apply safe_check. intros _. apply resolve_confined. intros g es Hg.
  apply safe_seq. eapply safe_mono; [|by apply template_confined]. intros es' t (_ & Hg' & Hc).
  apply safe_call; [|done]. intros answer. exists g. split; [done|]. split; [done|].
  case_bool_decide; eauto.
Qed.
Lemma own_job_confined {C} capability id (f : Grant * Job -> prog C) pre Q :
  (forall g job es, granted capability g (pre ++ es) ->
     safe (confined capability) (pre ++ es) (f (g, job)) (succeeds Q)) ->
  safe (confined capability) pre (own_job capability id ≫= f) (succeeds Q).
Proof.
  intros Hs. apply safe_seq. unfold own_job. apply safe_lift. intros [] _.
  apply resolve_confined. intros g es Hg. apply safe_await; [intros; by exists g|]. intros job.
  apply safe_check. intros _. simpl. rewrite <-app_assoc. apply Hs. rewrite app_assoc. eauto.
Qed.
Lemma visible_confined capability g prefix keys pre :
  granted capability g pre ->
  safe (confined capability) pre (visible_templates capability g prefix keys) (succeeds any).
Proof.
  revert pre. induction keys as [|key keys IH]; intros pre Hg; [done|]. cbn [visible_templates].
  destruct (template_coordinates prefix key) as [[id version]|]; [|by apply IH].
  apply safe_attempt. eapply safe_conseq; [|by apply (template_confined capability g id version View)].
  intros es r _. apply safe_seq. eapply safe_mono; [|apply IH; eauto]. done.
Qed.
Lemma list_confined capability after pre :
  safe (confined capability) pre (list_templates capability after) (succeeds any).
Proof.
  unfold list_templates. apply resolve_confined. intros g es Hg.
  apply safe_seq. eapply (safe_mono _ _ (fun es' _ => es' = pre ++ es)).
  - intros es' start ->. apply safe_await; [intros; exists g; eauto|]. intros [keys cursor].
    apply safe_seq. eapply (safe_mono _ _ (fun es2 _ => granted capability g es2)).
    + intros es2 cursor' Hg'. apply safe_seq. eapply safe_mono; [|by apply visible_confined]. done.
    + destruct (is_empty cursor); [simpl; eauto|]. apply safe_require. intros [id version] _.
      apply safe_lift. intros [] _. apply safe_lift. intros [] _. simpl. eauto.
  - destruct (is_empty after); [done|]. apply safe_check. intros _. apply safe_check. intros _.
    simpl. by destruct (template_key _ _ _).
Qed.
Lemma put_confined capability t pre :
  safe (confined capability) pre (put_template capability t) (succeeds any).
Proof.
  unfold put_template. apply resolve_confined. intros g es Hg. apply safe_seq.
  eapply (safe_mono _ _ (fun es' _ => granted capability g es')).
  2: { destruct (is_empty (tm_id t)); [|done]. unfold new_template_id. apply safe_await; [done|].
       intros uuid. apply safe_require. intros digits _. simpl. eauto. }
  intros es1 id Hg1. apply safe_seq. eapply (safe_mono _ _ (fun es' _ => granted capability g es')).
  2: { destruct (is_plugin t); [by apply safe_require; intros plugin _|].
       destruct (is_empty (tm_id t)); [done|]. by apply safe_lift; intros [] _. }
  intros es2 owner Hg2. apply safe_lift. intros [] _. apply safe_await; [intros; exists g; eauto|].
  intros [previous cursor]. apply safe_seq.
  eapply (safe_mono _ _ (fun es' _ => granted capability g es' /\ cleared capability g es')).
  - intros es3 t' [Hg3 Hc3]. apply safe_lift. intros s _. apply safe_await; [intros; exists g; eauto|].
    intros deleted. apply safe_check. intros _. apply safe_lift. intros key Hk.
    apply safe_lift. intros bytes _. apply safe_await; [|done]. intros answer. exists g. split_and!; eauto.
  - destruct previous as [|first previous].
    + apply safe_check. intros _. apply safe_lift. intros [] _.
      apply safe_seq, safe_authorize; [done|]. split; [eauto|]. eexists _, _. apply elem_of_app. right. left.
    + apply safe_require. intros version _. apply safe_seq.
      eapply safe_mono; [|apply template_confined; eauto]. intros es3 existing (_ & Hg3 & Hc3).
      apply safe_check. by intros _.
Qed.
Lemma submit_confined capability request pre :
  safe (confined capability) pre (submit capability request) (succeeds any).
Proof.
  unfold submit. apply resolve_confined. intros g es Hg. do 2 (apply safe_check; intros _).
  apply safe_require. intros reference _. apply safe_seq.
  eapply safe_mono; [|by apply template_confined]. intros es1 t (Ht & Hg1 & Hc1).
  apply safe_await; [intros; exists g; eauto|]. intros published. apply safe_seq.
  eapply (safe_mono _ _ (fun es' _ => granted capability g es' /\ cleared capability g es')).
  - intros es2 _ [Hg2 Hc2]. apply safe_await; [intros; exists g; eauto|]. intros published'.
    apply safe_check. intros _. apply safe_lift. intros document _. apply safe_lift. intros rendered _.
    apply safe_lift. intros id _. apply safe_lift. intros bytes _.
    apply safe_await; [intros; exists g; eauto|]. intros []. apply safe_await; [done|]. intros now.
    apply safe_await; [|done]. intros answer. exists g. split_and!; eauto.
  - destruct (negb published); [|simpl; eauto].
    eapply safe_mono; [|apply mutate_confined]. intros es2 _ _. split; eauto.
Qed.

(** The requests of a client, who holds one capability. *)
Inductive request (capability : string) : forall A, prog A -> Prop :=
  | request_read reference : request capability _ (read_template capability reference)
  | request_list after : request capability _ (list_templates capability after)
  | request_put t : request capability _ (put_template capability t)
  | request_mutate reference action : request capability _ (mutate_template capability reference action)
  | request_submit r : request capability _ (submit capability r)
  | request_job id cancel : request capability _ (get_job capability id cancel)
  | request_pdf id : request capability _ (pdf capability id).
Lemma request_confined capability A (p : prog A) :
  request capability A p -> safe (confined capability) [] p (succeeds any).
Proof.
  intros []; [|apply list_confined|apply put_confined|apply mutate_confined|apply submit_confined| |].
  - unfold read_template. apply resolve_confined. intros g es Hg.
    eapply safe_mono; [|by apply template_confined]. done.
  - unfold get_job. apply own_job_confined. intros g job es Hg. simpl. destruct cancel.
    + apply safe_await; [|done]. intros answer. by exists g.
    + done.
  - unfold pdf. apply own_job_confined. intros g job es Hg. simpl. apply safe_seq.
    eapply (safe_mono _ _ (fun es' _ => granted capability g es')).
    2: { destruct (String.eqb _ _); [|done]. apply safe_await; [done|]. intros now. simpl. eauto. }
    intros es1 fresh Hg1. apply safe_check. intros _. apply safe_seq.
    eapply safe_mono; [|by apply template_confined]. intros es2 t (_ & Hg2 & Hc2).
    apply safe_await; [done|]. intros g'. apply safe_call; [|done]. intros answer. exists g. eauto.
Qed.

(** Requests are confined to their tenant: in every run of every request, an
    object is listed, read or written and a job is looked up, cancelled or enqueued
    only in the tenant the gateway resolved for the caller's capability, and
    contents are read and written only after the gateway granted an action on a
    template under that same grant. *)
Theorem requests_confined capability A (p : prog A) es r :
  request capability A p -> runs p es r ->
  forall before e after, es = before ++ e :: after -> confined capability before e.
Proof.
  intros Hp Hr before e after Hes.
  destruct (safe_runs _ _ _ _ _ (request_confined _ _ _ Hp) Hr) as [_ HG]. exact (HG _ _ _ Hes).
Qed.

(** ** The worker *)
Definition claimed (job : Job) (es : list event) : Prop :=
  exists now, Event (QueueClaim now) (Ok (Some job)) ∈ es.
(** What was checked before a project is handed to the sandbox. *)
Definition compilable (job : Job) (project : Rendered) (before : list event) : Prop :=
  exists g t bytes submission,
    same_authority g job = true /\
    template_seen (jb_capability job) g (jb_template_id job) (jb_template_version job) Use before t /\
    Event (ObjectGet (job_key (jb_tenant job) (jb_id job) "json") (MAX_PROJECT_BYTES * 5)) (Ok bytes) ∈ before /\
    sha256_hex bytes = jb_fingerprint job /\ submission_from_slice bytes = Ok submission /\
    granted (jb_capability job) (sb_grant submission) before /\
    same_authority (sb_grant submission) job = true /\
    sb_template_id submission = jb_template_id job /\ sb_version submission = jb_template_version job /\
    render t (sb_document submission) = Ok project.
Definition worker_guard (before : list event) (e : event) : Prop :=
  match e with
  | Event c _ =>
      match c with
      | Compile project => exists job, claimed job before /\ compilable job project before
      | ObjectPutNew key data => exists job project,
          claimed job before /\ key = job_key (jb_tenant job) (jb_id job) "pdf" /\
          Event (Compile project) (Ok tt) ∈ before /\ Event Select (Ok (Some data)) ∈ before /\
          starts_with "%PDF-" data = true /\ (byte_len data <= MAX_PDF_BYTES)%N
      | QueueFinish job succeeded =>
          claimed job before /\
          (succeeded = true -> exists data,
             Event (ObjectPutNew (job_key (jb_tenant job) (jb_id job) "pdf") data) (Ok tt) ∈ before)
      | ObjectDelete _ | ObjectList _ _ | QueueExpired _ | QueueForget _ | QueueEnqueue _ _
      | QueueCancel _ _ => False
      | _ => True
      end
  end.
Lemma claimed_app job es es' : claimed job es -> claimed job (es ++ es').
Proof. intros [now Hc]. exists now. by apply elem_of_before. Qed.
Lemma template_seen_app capability g id version action es es' t :
  template_seen capability g id version action es t ->
  template_seen capability g id version action (es ++ es') t.
Proof.
  intros [Hi Hv Hs (key & bytes & stored & Hk & He & Hst & Hse) Ha Hp Hd].
  split; eauto using @elem_of_before. exists key, bytes, stored. eauto using @elem_of_before.
Qed.
#[local] Hint Resolve @elem_of_before claimed_app template_seen_app : core.

Lemma compile_loop_safe ticks job grant t pre :
  safe worker_guard pre (compile_loop ticks job grant t)
    (succeeds (fun es pdf => Event Select (Ok (Some pdf)) ∈ es)).
Proof.
  revert pre. induction ticks as [|ticks IH]; intros pre; [done|]. cbn [compile_loop].
  apply safe_await; [done|]. intros [pdf|].
  { simpl. apply elem_of_app. right. left. }
  apply safe_await; [done|]. intros current. apply safe_check. intros _. apply safe_await; [done|].
  intros due. apply safe_seq. eapply (safe_mono _ _ any); [intros; apply IH|].
  destruct due; [|done]. by apply safe_authorize.
Qed.
Lemma template_worker capability g id version action pre :
  safe worker_guard pre (template capability g id version action)
    (succeeds (template_seen capability g id version action)).
Proof. by apply template_safe. Qed.
Lemma execute_safe job pre :
  claimed job pre ->
  safe worker_guard pre (execute job) (succeeds (fun es _ => exists data,
    Event (ObjectPutNew (job_key (jb_tenant job) (jb_id job) "pdf") data) (Ok tt) ∈ es)).
Proof.
  intros Hc. unfold execute. apply safe_await; [done|]. intros g. apply safe_check. intros Hg.
  apply safe_seq. eapply safe_mono; [|apply template_worker]. intros es1 t Ht.
  apply safe_await; [done|]. intros bytes. apply safe_check. intros Hf%String.eqb_eq.
  apply safe_lift. intros submission Hs. apply safe_await; [done|]. intros g'.
  apply safe_check. intros [Hg'%bool_decide_eq_true Ha]%andb_prop. subst g'.
  apply safe_check. intros [Hi%String.eqb_eq Hv%String.eqb_eq]%andb_prop.
  apply safe_lift. intros project Hr.
  set (before := (((pre ++ _) ++ es1) ++ _) ++ _).
  assert (claimed job before) as Hcb by (unfold before; eauto 10).
  assert (compilable job project before) as Hcomp.
  { exists g, t, bytes, submission. split; [done|]. split; [unfold before; eauto|].
    split; [unfold before; apply elem_of_before, elem_of_app; right; left|]. split_and!; try done.
    - unfold granted, before. apply elem_of_app. right. left.
    - rewrite <-Hi. apply Ht.
    - rewrite <-Hv. apply Ht. }
  clearbody before. apply safe_await; [by exists job|]. intros []. apply safe_seq.
  eapply safe_mono; [|apply compile_loop_safe]. intros es2 pdf Hp. apply safe_check.
  intros [Hpdf Hlen%N.leb_le]%andb_prop. apply safe_seq. eapply safe_mono; [|apply template_worker].
  intros es3 _ _. apply safe_call.
  - intros answer. exists job, project. split; [eauto 10|]. split; [done|]. split; [|eauto].
    do 2 apply elem_of_before. apply elem_of_app. right. left.
  - intros []. exists pdf. apply elem_of_app. right. left.
Qed.

Lemma work_safe : safe worker_guard [] work (succeeds any).
Proof.
  unfold work. apply safe_await; [done|]. intros now. apply safe_await; [done|].
  intros [job|]; [|done].
  assert (claimed job ([Event Now (Ok now)] ++ [Event (QueueClaim now) (Ok (Some job))])) as Hc.
  { exists now. right. left. }
  apply safe_attempt. eapply safe_conseq; [|by apply execute_safe]. intros es r Hr.
  apply safe_attempt. intros answer. split; [|done]. split; [eauto|]. by destruct r.
Qed.

(** C10: the worker compiles only what was submitted and authorized: a project
    reaches the sandbox only for a claimed job, rendered from the template version
    of the job (read and checked against its digest under a Use grant for the
    job's tenant, actor and generation) and the document whose stored bytes have
    the job's fingerprint, under the grant it was submitted with; the only object
    written is the job's PDF, with output of the sandbox that is a PDF within the
    limit; and a job is reported completed only after its PDF was stored. *)
Theorem worker_authorized es r :
  runs work es r -> forall before e after, es = before ++ e :: after -> worker_guard before e.
Proof.
  intros Hr before e after Hes. destruct (safe_runs _ _ _ _ _ work_safe Hr) as [_ HG]. exact (HG _ _ _ Hes).
Qed.

(** ** Stored templates *)

(** The ports hold the revision [s] of a tenant and allow the caller to view it. *)
Record holds (answers : forall B, call B -> result B) (capability : string) (g : Grant)
    (key bytes : string) (s : Template) : Prop := {
  holds_resolve : answers _ (asks capability Resolve None) = Ok g;
  holds_structural : answers _ (asks capability View (Some (structural (tm_id s)))) = Ok g;
  holds_policy : answers _ (asks capability View (Some (policy_of s))) = Ok g;
  holds_present : answers _ (ObjectExists (deleted_key (gr_tenant g) (tm_id s))) = Ok false;
  holds_object : answers _ (ObjectGet key (MAX_PROJECT_BYTES * 5)) = Ok bytes;
}.
Lemma eval_authorize (answers : forall B, call B -> result B) capability g action policy :
  answers _ (asks capability action (Some policy)) = Ok g ->
  eval answers (authorize capability g action policy) = Ok tt.
Proof.
  intros Ha. unfold authorize. rewrite fixed_bind. simpl. unfold asks in Ha. rewrite Ha. simpl.
  by rewrite bool_decide_eq_true_2.
Qed.
Lemma eval_read answers capability g key bytes s :
  holds answers capability g key bytes s -> seal s = Ok s -> template_from_slice bytes = Ok s ->
  template_key (gr_tenant g) (tm_id s) (tm_version s) = Ok key ->
  eval answers (read_template capability {| ref_template_id := tm_id s; ref_version := tm_version s |}) = Ok s.
Proof.
  intros [Hr Hs Hp He Ho] Hseal Hd Hk. unfold read_template, resolve.
  rewrite (eval_await _ _ _ g Hr). cbn [ref_template_id ref_version]. unfold template.
  rewrite (eval_lift _ _ _ key Hk), (eval_step _ _ _ tt (eval_authorize _ _ _ _ _ Hs)).
  rewrite (eval_await _ _ _ false He). cbn [negb]. rewrite eval_check, (eval_await _ _ _ bytes Ho).
  rewrite (eval_lift _ _ _ s Hd), !String.eqb_refl. cbn [andb].
  rewrite eval_check, (eval_lift _ _ _ s Hseal), String.eqb_refl, eval_check.
  by rewrite (eval_step _ _ _ tt (eval_authorize _ _ _ _ _ Hp)).
Qed.

(** The derived formats of templates round trip. *)
Class CompilerLaws : Prop := {
  template_round_trip t bytes :
    json_to_vec (json_template t) = Ok bytes -> template_from_slice bytes = Ok t;
}.

(** The revision that [put_template] stores. *)
Definition stored_revision (es : list event) (t s : Template) (g : Grant) (key bytes : string) : Prop :=
  template_key (gr_tenant g) (tm_id s) (tm_version s) = Ok key /\
  json_to_vec (json_template s) = Ok bytes /\ seal s = Ok s /\
  (exists owner, s = with_content (with_identity t (tm_id s) owner)
    (merge_sort path_le (tm_assets t)) (tm_version s)) /\
  Event (ObjectPutNew key bytes) (Ok tt) ∈ es.
Lemma seal_content t s :
  seal t = Ok s -> s = with_content t (merge_sort path_le (tm_assets t)) (tm_version s).
Proof. unfold seal. by intros ([] & _ & (bytes & _ & [= <-])%bind_Ok_inv)%bind_Ok_inv. Qed.
Lemma put_stores capability t :
  safe (fun _ _ => True) [] (put_template capability t) (succeeds (fun es reference =>
    exists g s key bytes, stored_revision es t s g key bytes /\
      reference = {| ref_template_id := tm_id s; ref_version := tm_version s |})).
Proof.
  unfold put_template. apply safe_await; [done|]. intros g. apply safe_seq.
  eapply (safe_mono _ _ any).
  2: { destruct (is_empty (tm_id t)); [|done]. unfold new_template_id. apply safe_await; [done|].
       intros uuid. by apply safe_require. }
  intros es1 id _. apply safe_seq. eapply (safe_mono _ _ any).
  2: { destruct (is_plugin t); [by apply safe_require|]. destruct (is_empty (tm_id t)); [done|].
       by apply safe_lift. }
  intros es2 owner _. apply safe_lift. intros [] _. apply safe_await; [done|].
  intros [previous cursor]. apply safe_seq.
  eapply (safe_mono _ _ (fun es' t' => exists owner, t' = with_identity t id owner)).
  - intros es3 t' [owner' ->]. apply safe_lift. intros s Hs. apply safe_await; [done|].
    intros deleted. apply safe_check. intros _. apply safe_lift. intros key Hk.
    apply safe_lift. intros bytes Hb. apply safe_await; [done|]. intros [].
    exists g, s, key, bytes. split; [|done]. split_and!; [done|done|by eapply seal_sealed| |].
    + exists owner'. pose proof (seal_content _ _ Hs) as Hc. rewrite (seal_same_id _ _ Hs). exact Hc.
    + apply elem_of_app. right. left.
  - destruct previous as [|first previous].
    + apply safe_check. intros _. apply safe_lift. intros [] _. apply safe_seq, safe_authorize; [done|].
      by exists owner.
    + apply safe_require. intros version _. apply safe_seq.
      eapply safe_mono; [|by apply template_safe]. intros es3 existing _. apply safe_check. intros _.
      by eexists.
Qed.

(** A stored template can be read back: when [put_template] succeeds it has
    stored one sealed revision with the submitted content; whoever may view it then
    reads that revision through the returned reference, while the object is there
    and the template was not deleted. *)
Theorem put_template_read_back `{CompilerLaws} capability t es reference :
  runs (put_template capability t) es (Ok reference) ->
  exists g s key bytes, stored_revision es t s g key bytes /\
    forall answers reader g', gr_tenant g' = gr_tenant g -> holds answers reader g' key bytes s ->
      eval answers (read_template reader reference) = Ok s.
Proof.
  intros Hr. destruct (safe_runs _ _ _ _ _ (put_stores capability t) Hr) as [Hs _].
  destruct Hs as (g & s & key & bytes & Hst & ->). exists g, s, key, bytes. split; [done|].
  destruct Hst as (Hk & Hb & Hseal & _). intros answers reader g' Ht Hh.
  eapply eval_read; [exact Hh|done|by apply template_round_trip|by rewrite Ht].
Qed.
End compiler.
