(* ===== verification/CompilerDemo.v ===== *)
(** * CompilerDemo: a document compiler that can be run

    Formats with the round trip the theorems ask for, and ports that answer like a
    gateway that grants, a store that holds one template and a sandbox that
    succeeds: the theorems of CompilerFacts.v apply to the runs they produce. *)

From S2P Require Import Prelude Text Json Authoring Serde StateJson RustStr Proc Template TemplateFacts.
From S2P Require Import JobQueue JobQueueFacts Compiler CompilerFacts MemServices.
From Stdlib Require Import Ascii.

(** ** Decoding templates *)
Definition scope_of (s : string) : Scope :=
  if String.eqb s "personal" then Personal else if String.eqb s "project" then Project
  else if String.eqb s "tenant" then Tenant else Plugin.
Definition kind_of (s : string) : VariableKind :=
  if String.eqb s "text" then Text else if String.eqb s "integer" then Integer
  else if String.eqb s "boolean" then Boolean else Choice.
Definition string_of (v : value) : string := default EmptyString (as_str v).
Fixpoint bytes_of (l : list value) : string :=
  match l with
  | JNumber (PosInt n) :: l => String (ascii_of_N n) (bytes_of l)
  | _ => EmptyString
  end.
Definition asset_of (v : value) : Asset :=
  match v with
  | JObject [(_, p); (_, JArray d)] => {| as_path := string_of p; as_data := bytes_of d |}
  | _ => {| as_path := EmptyString; as_data := EmptyString |}
  end.
Definition variable_of (v : value) : TemplateVariable :=
  match v with
  | JObject [(_, k); (_, JBool r); (_, JArray c)] =>
      {| va_kind := kind_of (string_of k); va_required := r; va_choices := string_of <$> c |}
  | _ => {| va_kind := Text; va_required := false; va_choices := [] |}
  end.
Definition template_of (v : value) : option Template :=
  match v with
  | JObject [(_, i); (_, ver); (_, n); (_, d); (_, s); (_, o); (_, pr); (_, pl); (_, e);
             (_, JArray a); (_, JObject vars)] =>
      Some {| tm_id := string_of i; tm_version := string_of ver; tm_name := string_of n;
              tm_description := string_of d; tm_scope := scope_of (string_of s);
              tm_owner := string_of o; tm_project := as_str pr; tm_plugin := as_str pl;
              tm_entrypoint := string_of e; tm_assets := asset_of <$> a;
              tm_variables := btree_collect (prod_map id variable_of <$> vars) |}
  | _ => None
  end.
Lemma bytes_of_json s : bytes_of (json_bytes_of s) = s.
Proof. induction s as [|c s IH]; simpl; [done|]. unfold code. by rewrite ascii_N_embedding, IH. Qed.
Lemma fmap_inverse {A B} (f : A -> B) (g : B -> A) (l : list A) : (forall x, g (f x) = x) -> g <$> (f <$> l) = l.
Proof. intros Hfg. rewrite <-list_fmap_compose. rewrite <-(list_fmap_id l) at 2. by apply list_fmap_ext; intros; apply Hfg. Qed.
Lemma asset_of_json a : asset_of (json_asset a) = a.
Proof. destruct a. simpl. by rewrite bytes_of_json. Qed.
Lemma variable_of_json v : variable_of (json_variable v) = v.
Proof.
  destruct v as [k r c]. unfold variable_of, json_variable, json_strings. simpl.
  rewrite fmap_inverse by done. by destruct k.
Qed.
Lemma template_of_json t : template_of (json_template t) = Some t.
Proof.
  destruct t as [i ver n d s o pr pl e a vars]. unfold template_of, json_template. cbn [tm_assets tm_variables].
  rewrite fmap_inverse by apply asset_of_json.
  rewrite (fmap_inverse (prod_map id json_variable) (prod_map id variable_of)), btree_collect_entries.
  - simpl. by destruct s, pr, pl.
  - intros [k v]. exact (f_equal (pair k) (variable_of_json v)).
Qed.

(** ** Ports *)
Definition demo_digest : string := "0000000000000000000000000000000000000000000000000000000000000000".
#[local] Instance demo_formats : Externals := {| json_to_vec v := Ok (document_text v); sha256_hex _ := demo_digest |}.
Definition demo_grant : Grant :=
  {| gr_tenant := "acme"; gr_actor := "ann"; gr_generation := "g"; gr_project := None;
     gr_temporary_session := None |}.
Definition demo_sealed : Template :=
  with_content demo_template (merge_sort path_le (tm_assets demo_template)) demo_digest.
Definition demo_submission : Submission :=
  {| sb_grant := demo_grant; sb_template_id := demo_id; sb_version := demo_digest;
     sb_document := demo_document |}.
#[local] Instance demo_decoders : CompilerExternals :=
  {| template_from_slice bytes := v ← text_document bytes; with_context "template" (template_of v);
     document_from_slice _ := Ok demo_document; submission_from_slice _ := Ok demo_submission;
     uuid_valid _ := true |}.
#[local] Instance demo_laws : CompilerLaws.
Proof.
  constructor. intros t bytes [= <-]. unfold template_from_slice, demo_decoders. rewrite text_document_text.
  cbn [mbind result_bind]. by rewrite template_of_json.
Qed.
Definition demo_row : Job := leased (new_row
  {| nj_id := demo_digest; nj_tenant := "acme"; nj_actor := "ann"; nj_generation := "g";
     nj_fingerprint := demo_digest; nj_capability := "cap"; nj_template_id := demo_id;
     nj_template_version := demo_digest |} 5) "lease" 10.
(** Ports that grant [g] and hold one object. *)
Definition ports (g : Grant) (object : string) (B : Type) (c : call B) : result B :=
  match c in call B return result B with
  | Authorize _ _ => Ok g
  | ObjectGet _ _ => Ok object
  | ObjectExists _ => Ok false
  | ObjectPutNew _ _ | ObjectDelete _ => Ok tt
  | ObjectList _ _ => Ok ([], EmptyString)
  | QueueExpired _ => Ok []
  | QueueForget _ => Ok tt
  | QueueEnqueue item now => Ok (new_row item now)
  | QueueClaim _ => Ok (Some demo_row)
  | QueueGet _ _ | QueueCancel _ _ => Ok demo_row
  | QueueFinish _ _ => Ok true
  | Compile _ => Ok tt
  | Select => Ok (Some "%PDF-1.7")
  | AuthorizationDue => Ok false
  | Now => Ok 20%Z
  | NewUuid => Ok demo_id
  end.
Definition demo_answers : forall B, call B -> result B :=
  ports demo_grant (document_text (json_template demo_sealed)).
Lemma requests_confined_witness :
  exists before e after, trace demo_answers (get_job "cap" demo_digest true) = before ++ e :: after /\
    e = Event (QueueCancel "acme" demo_digest) (Ok demo_row) /\ confined "cap" before e.
Proof.
  set (es := trace demo_answers (get_job "cap" demo_digest true)).
  assert (Hes : es = take 2 es ++ Event (QueueCancel "acme" demo_digest) (Ok demo_row) :: drop 3 es)
    by (apply run_split; vm_compute; reflexivity).
  eexists _, _, _. split; [exact Hes|]. split; [reflexivity|].
  exact (requests_confined "cap" _ _ es _ (request_job "cap" demo_digest true)
    (trace_runs demo_answers _) _ _ _ Hes).
Defined.

Lemma worker_authorized_witness :
  exists before after, trace demo_answers work =
    before ++ Event (QueueFinish demo_row true) (Ok true) :: after /\
    exists data, Event (ObjectPutNew (job_key "acme" demo_digest "pdf") data) (Ok tt) ∈ before.
Proof.
  set (es := trace demo_answers work).
  assert (Hes : es = take 16 es ++ Event (QueueFinish demo_row true) (Ok true) :: drop 17 es)
    by (apply run_split; vm_compute; reflexivity).
  eexists _, _. split; [exact Hes|].
  exact (proj2 (worker_authorized es _ (trace_runs demo_answers work) _ _ _ Hes) eq_refl).
Defined.

Definition demo_draft : Template := with_identity demo_template EmptyString EmptyString.
Lemma put_template_read_back_witness :
  exists reference g s bytes, eval demo_answers (put_template "cap" demo_draft) = Ok reference /\
    tm_name s = "Letter" /\ eval (ports g bytes) (read_template "reader" reference) = Ok s.
Proof.
  destruct (eval demo_answers (put_template "cap" demo_draft)) as [reference|e] eqn:E.
  2: { exfalso. assert (Hc : is_Ok (eval demo_answers (put_template "cap" demo_draft)) = true)
         by (vm_compute; reflexivity). rewrite E in Hc. discriminate Hc. }
  pose proof (trace_runs demo_answers (put_template "cap" demo_draft)) as Hr. rewrite E in Hr.
  destruct (put_template_read_back "cap" demo_draft _ _ Hr) as (g & s & key & bytes & Hst & Hread).
  exists reference, g, s, bytes. split; [reflexivity|].
  split; [destruct Hst as (_ & _ & _ & (owner & ->) & _); reflexivity|].
  apply (Hread (ports g bytes) "reader" g eq_refl). constructor; reflexivity.
Defined.
