(* ===== verification/Authorization.v ===== *)
(** * Authorization: the decisions of the gateway (usecases/authorization.rs)

    A permission is checked structurally in SpiceDB (through Loth) and then by the
    Cedar policy of the tenant.  [AuthService::is_authorized] is a program over
    Loth, the IAM store, the clock and the cache of compiled policies; the cache
    itself is a bounded map with an eviction queue. *)

From S2P Require Import Prelude Text RustStr Proc.
From Stdlib Require Import Ascii.

(** ** Identifiers *)

(** domain/tenant.rs *)
Definition validate_tenant_id (tenant_id : string) : result string :=
  let tenant_id := trim tenant_id in
  ensure (negb (is_empty tenant_id)) "tenant_id is empty" ;;
  ensure (len_le tenant_id 64) "tenant_id is too long" ;;
  ensure (bytes_all (fun byte => is_ascii_alphanumeric byte || one_of "_-" byte) tenant_id)
    "tenant_id contains invalid characters" ;;
  Ok tenant_id.
Definition tenant_qualified_resource_id (tenant_id resource_type resource_id : string) : result string :=
  tenant ← validate_tenant_id tenant_id;
  let id := trim resource_id in
  ensure (negb (is_empty id)) "resource identifier is required" ;;
  if String.eqb resource_type "tenant" then
    ensure (String.eqb id tenant) "tenant resource does not match security context" ;; Ok id
  else if starts_with (tenant +:+ "/") id then Ok id
  else ensure (negb (contains "/" id)) "cross-tenant resource identifier rejected" ;;
       Ok (tenant +:+ "/" +:+ id).

Definition supported (byte : ascii) : bool := is_ascii_alphanumeric byte || one_of "/_|-+" byte.
Definition HEX (n : N) : ascii :=
  if (n <? 10)%N then ascii_of_N (48 + n) else ascii_of_N (55 + n).
Fixpoint encode_object_id (value : string) : string :=
  match value with
  | EmptyString => EmptyString
  | String byte value =>
      if supported byte then String byte (encode_object_id value)
      else String "="%char (String (HEX (N.shiftr (code byte) 4)) (String (HEX (N.land (code byte) 15))
             (encode_object_id value)))
  end.
Definition canonical_spicedb_object_id (value : string) : string :=
  if bytes_all supported value then value else encode_object_id value.

Inductive Permission : Type :=
  | UseIt | View | Edit | DeleteIt | Share | Manage | Ingest | Execute | Materialize | Publish
  | CreateDocument | CreateOntology | CreatePipeline | CreateConversation.
Definition permission_str (p : Permission) : string :=
  match p with
  | UseIt => "use" | View => "view" | Edit => "edit" | DeleteIt => "delete" | Share => "share"
  | Manage => "manage" | Ingest => "ingest" | Execute => "execute" | Materialize => "materialize"
  | Publish => "publish" | CreateDocument => "create_document" | CreateOntology => "create_ontology"
  | CreatePipeline => "create_pipeline" | CreateConversation => "create_conversation"
  end.
Record QueryContext : Type := {
  qc_entity_id : option string;
  qc_modality : option string;
  qc_state_type : option string;
  qc_gis_zone : option string;
  qc_role : option string;
  qc_region : option string;
  qc_internal_device : bool;
  qc_hour_utc : Z;
  qc_request_id : string;
  qc_trace_id : option string;
}.
Definition default_context : QueryContext :=
  {| qc_entity_id := None; qc_modality := None; qc_state_type := None; qc_gis_zone := None;
     qc_role := None; qc_region := None; qc_internal_device := false; qc_hour_utc := 0;
     qc_request_id := EmptyString; qc_trace_id := None |}.

(** ** Cedar, as the gateway uses it *)
Inductive restricted : Type :=
  | RSet (items : list string)
  | RBool (b : bool)
  | RString (s : string)
  | RLong (z : Z).
(** [parse_policies] and [parse_uid] are the parsers; [cedar_decide] builds the
    request, which may be rejected, and answers whether the evaluation had errors
    and whether the decision was to allow. *)
Class Cedar := {
  PolicySet : Type;
  EntityUid : Type;
  parse_policies : string -> option PolicySet;
  parse_uid : string -> option EntityUid;
  cedar_decide : EntityUid -> EntityUid -> EntityUid -> list (string * restricted) -> PolicySet ->
    result (bool * bool);
}.

(** ** The cache of compiled policies *)
Section cache.
Context `{Cedar}.
Record CachedPolicy : Type := { cp_source : string; cp_policies : PolicySet }.
Record TenantPolicyCache : Type := {
  tc_entries : gmap string CachedPolicy;
  tc_insertion_order : list string;
  tc_source_bytes : N;
  tc_max_entries : nat;
  tc_max_source_bytes : N;
}.
Definition cache_new (max_entries : nat) (max_source_bytes : N) : TenantPolicyCache :=
  {| tc_entries := ∅; tc_insertion_order := []; tc_source_bytes := 0;
     tc_max_entries := max_entries; tc_max_source_bytes := max_source_bytes |}.
Definition with_entries (c : TenantPolicyCache) (entries : gmap string CachedPolicy) (order : list string)
    (bytes : N) : TenantPolicyCache :=
  {| tc_entries := entries; tc_insertion_order := order; tc_source_bytes := bytes;
     tc_max_entries := tc_max_entries c; tc_max_source_bytes := tc_max_source_bytes c |}.
Definition cache_remove (tenant_id : string) (c : TenantPolicyCache) : TenantPolicyCache :=
  match tc_entries c !! tenant_id with
  | Some previous =>
      with_entries c (delete tenant_id (tc_entries c))
        (List.filter (fun tenant => negb (String.eqb tenant tenant_id)) (tc_insertion_order c))
        (tc_source_bytes c - byte_len (cp_source previous))
  | None => c
  end.
(** The [while] loop: the oldest tenants leave until the new source fits; the flag
    is [false] when the queue is empty first. *)
Fixpoint evict (order : list string) (entries : gmap string CachedPolicy) (bytes : N)
    (max_entries : nat) (max_bytes needed : N) : bool * list string * gmap string CachedPolicy * N :=
  if (max_entries <=? size entries) || (max_bytes <? bytes + needed)%N then
    match order with
    | [] => (false, order, entries, bytes)
    | oldest :: order =>
        let bytes := match entries !! oldest with
                     | Some previous => (bytes - byte_len (cp_source previous))%N
                     | None => bytes
                     end in
        evict order (delete oldest entries) bytes max_entries max_bytes needed
    end
  else (true, order, entries, bytes).
Definition cache_insert (tenant_id source : string) (policies : PolicySet) (c : TenantPolicyCache)
    : TenantPolicyCache :=
  let c := cache_remove tenant_id c in
  if (tc_max_entries c =? 0) || (tc_max_source_bytes c <? byte_len source)%N then c else
  match evict (tc_insertion_order c) (tc_entries c) (tc_source_bytes c) (tc_max_entries c)
          (tc_max_source_bytes c) (byte_len source) with
  | (false, order, entries, bytes) => with_entries c entries order bytes
  | (true, order, entries, bytes) =>
      with_entries c (<[tenant_id := {| cp_source := source; cp_policies := policies |}]> entries)
        (order ++ [tenant_id]) (bytes + byte_len source)
  end.
End cache.

(** ** Ports of the service *)

(** What Loth answers: a decision, a gRPC status of SpiceDB, or another error. *)
Inductive grpc_code : Type := GUnavailable | GDeadlineExceeded | GResourceExhausted | GAborted | GOther.
Inductive check_answer : Type :=
  | Decision (allowed : bool)
  | SpiceDbStatus (status : grpc_code)
  | AuthErrorOther.
Section service.
Context `{Cedar}.
Inductive call : Type -> Type :=
  | Check (user_id permission resource_type resource_id : string) : call check_answer
  | Sleep (milliseconds : N) : call unit
  | ActivePolicies (tenant_id : string) : call (option string)
  | CacheLookup (tenant_id : string) : call (option CachedPolicy)
  | CacheInsert (tenant_id source : string) (policies : PolicySet) : call unit
  | CacheRemove (tenant_id : string) : call unit
  | RolesFor (tenant_id user_id : string) : call (list string)
  | HourUtc : call Z
  | RegisterRelation (resource_type resource_id relation subject_type subject_id : string) : call unit
  | RevokeRelation (resource_type resource_id relation subject_type subject_id : string) : call unit.

Definition upsert_relationship (resource_type resource_id relation subject_type subject_id : string)
    : proc call unit :=
  await (RegisterRelation resource_type (canonical_spicedb_object_id resource_id) relation
    subject_type (canonical_spicedb_object_id subject_id)).
Definition delete_relationship (resource_type resource_id relation subject_type subject_id : string)
    : proc call unit :=
  await (RevokeRelation resource_type (canonical_spicedb_object_id resource_id) relation
    subject_type (canonical_spicedb_object_id subject_id)).

Definition retriable (status : grpc_code) : bool :=
  match status with GOther => false | _ => true end.
(** [attempts_left] counts down the range 0..3: attempt 0 has two left after it. *)
Fixpoint structural_attempts (attempts_left : nat) (attempt : N) (check : call check_answer)
    : proc call check_answer :=
  match attempts_left with
  | 0 => ok AuthErrorOther
  | S attempts_left =>
      answer ← await check;
      match answer with
      | SpiceDbStatus status =>
          if (attempt <? 2)%N && retriable status
          then await (Sleep (100 * (attempt + 1))) ;; structural_attempts attempts_left (attempt + 1) check
          else ok answer
      | _ => ok answer
      end
  end.
Definition resilient_structural_check : call check_answer -> proc call check_answer :=
  structural_attempts 3 0.

Definition MAX_POLICY_BYTES : N := 128 * 8193.
Definition compiled_tenant_policy (tenant_id : string) (source : option string)
    : proc call (option PolicySet) :=
  match source with
  | None => await (CacheRemove tenant_id) ;; ok None
  | Some source =>
      check (byte_len source <=? MAX_POLICY_BYTES)%N
        "Active tenant policies exceed the evaluation budget" ;;
      cached ← await (CacheLookup tenant_id);
      match option_filter (fun cached => String.eqb (cp_source cached) source) cached with
      | Some cached => ok (Some (cp_policies cached))
      | None =>
          policies ← require "Cedar policy parse failed" (parse_policies source);
          await (CacheInsert tenant_id source policies) ;;
          ok (Some policies)
      end
  end.
Definition tenant_policy (tenant_id : string) : proc call (option PolicySet) :=
  source ← await (ActivePolicies tenant_id);
  compiled_tenant_policy tenant_id source.

Record CedarIdentity : Type := {
  ci_user_id : string;
  ci_roles : list string;
  ci_administrator : bool;
  ci_hour_utc : Z;
}.
Definition QUOTE : ascii := "034"%char.
Definition cedar_uid (kind id : string) : result EntityUid :=
  ensure (bytes_all (fun c => is_ascii_alphanumeric c || one_of "_" c) kind)
    "Cedar entity type contains invalid characters" ;;
  let escaped_id := replace_byte QUOTE (String "\"%char (String QUOTE EmptyString))
                      (replace_byte "\"%char "\\"%string id) in
  with_context "Cedar identifier rejected"
    (parse_uid (kind +:+ "::" +:+ String QUOTE (escaped_id +:+ String QUOTE EmptyString))).
Definition cedar_pairs (identity : CedarIdentity) (ctx : QueryContext) : list (string * restricted) :=
  [("roles", RSet (ci_roles identity));
   ("is_structural_allowed", RBool true);
   ("role", RString (default EmptyString (head (ci_roles identity))));
   ("region", RString (default EmptyString (qc_region ctx)));
   ("internal_device", RBool (qc_internal_device ctx));
   ("hour_utc", RLong (ci_hour_utc identity));
   ("entity_id", RString (default EmptyString (qc_entity_id ctx)));
   ("modality", RString (default EmptyString (qc_modality ctx)));
   ("state_type", RString (default EmptyString (qc_state_type ctx)));
   ("gis_zone", RString (default EmptyString (qc_gis_zone ctx)))].
Definition evaluate_cedar (structural : bool) (identity : CedarIdentity) (policies : PolicySet)
    (action resource_type resource_id : string) (ctx : QueryContext) : result bool :=
  if negb structural || ci_administrator identity then Ok structural else
  principal ← cedar_uid "User" (ci_user_id identity);
  action ← cedar_uid "Action" action;
  resource ← cedar_uid resource_type resource_id;
  '(errors, allowed) ← cedar_decide principal action resource (cedar_pairs identity ctx) policies;
  if errors : bool then Ok false else Ok allowed.

Definition decided (message : string) (answer : check_answer) : result bool :=
  match answer with Decision allowed => Ok allowed | _ => Err (Msg message) end.
Definition apply_tenant_policy (policy : result (option PolicySet)) (user_id tenant_id : string)
    (permission : Permission) (resource_type resource_id : string) (context : QueryContext)
    : proc call bool :=
  answer ← await (Check user_id (permission_str Manage) "tenant" tenant_id);
  administrator ← lift (decided "Failed to verify tenant administrator exemption" answer);
  if administrator : bool then ok true else
  policy ← lift policy;
  match policy with
  | None => ok true
  | Some policy =>
      roles ← await (RolesFor tenant_id user_id);
      hour ← await HourUtc;
      lift (evaluate_cedar true
        {| ci_user_id := user_id; ci_roles := roles; ci_administrator := false; ci_hour_utc := hour |}
        policy (permission_str permission) resource_type resource_id context)
  end.
(** [let policy = self.tenant_policy(..).await]: its error is kept for later. *)
Definition keep {A} (p : proc call A) : proc call (result A) := proc_then p (fun r => ok r).
Definition is_authorized (user_id tenant_id : string) (permission : Permission)
    (resource_type resource_id : string) (ctx : option QueryContext) : proc call bool :=
  rid ← lift (tenant_qualified_resource_id tenant_id resource_type resource_id);
  let rid := canonical_spicedb_object_id rid in
  answer ← resilient_structural_check (Check user_id (permission_str permission) resource_type rid);
  structural ← lift (decided "Loth check_permission failed" answer);
  if structural : bool then
    policy ← keep (tenant_policy tenant_id);
    match policy with
    | Ok None => ok true
    | policy => apply_tenant_policy policy user_id tenant_id permission resource_type rid
                  (default default_context ctx)
    end
  else ok false.
Fixpoint filter_authorized_resources (user_id tenant_id : string) (permission : Permission)
    (resource_type : string) (resource_ids : list string) : proc call (list string) :=
  match resource_ids with
  | [] => ok []
  | rid :: rids =>
      allowed ← is_authorized user_id tenant_id permission resource_type rid None;
      rest ← filter_authorized_resources user_id tenant_id permission resource_type rids;
      ok (if allowed : bool then rid :: rest else rest)
  end.
(** A poisoned lock is logged, and the method still returns. *)
Definition invalidate_tenant_cache (tenant_id : string) : proc call unit :=
  attempt (await (CacheRemove tenant_id)) ;; ok tt.
End service.
Definition validate_cedar_policy `{Cedar} (content : string) : result unit :=
  with_context "Invalid Cedar policy" (parse_policies content) ;; Ok tt.
