(* ===== verification/AuthorizationFacts.v ===== *)
(** * AuthorizationFacts: the gateway fails closed

    Object ids are injective and keep tenants apart; the policy cache is bounded
    and never changes a decision; an allowed request was allowed by SpiceDB and by
    the policy that is active. *)

From S2P Require Import Prelude Text RustStr Proc Authorization.
From Stdlib Require Import Ascii.

(** ** Object identifiers *)
Lemma canonical_encode value : canonical_spicedb_object_id value = encode_object_id value.
Proof.
  unfold canonical_spicedb_object_id. destruct (bytes_all supported value) eqn:E; [|done].
  induction value as [|c value IH]; [done|]. simpl in *. apply andb_prop in E as [Hc E].
  rewrite Hc. f_equal. by apply IH.
Qed.
Lemma HEX_inj n m : (n < 16)%N -> (m < 16)%N -> HEX n = HEX m -> n = m.
Proof.
  intros Hn Hm. unfold HEX.
  destruct (N.ltb_spec n 10), (N.ltb_spec m 10); intros E%(f_equal N_of_ascii);
    rewrite !N_ascii_embedding in E by lia; lia.
Qed.
Lemma nibbles_inj a b :
  N.shiftr (code a) 4 = N.shiftr (code b) 4 -> N.land (code a) 15 = N.land (code b) 15 -> a = b.
Proof.
  intros Hh Hl. assert (code a = code b) as E.
  { change 15%N with (N.ones 4) in Hl. rewrite !N.land_ones in Hl. rewrite !N.shiftr_div_pow2 in Hh.
    rewrite (N.div_mod' (code a) (2 ^ 4)), (N.div_mod' (code b) (2 ^ 4)). congruence. }
  unfold code in E. by rewrite <-(ascii_N_embedding a), <-(ascii_N_embedding b), E.
Qed.
Lemma code_bound c : (code c < 256)%N.
Proof. apply N_ascii_bounded. Qed.
Lemma encode_object_id_inj s t : encode_object_id s = encode_object_id t -> s = t.
Proof.
  revert t. induction s as [|a s IH]; intros [|b t]; cbn [encode_object_id]; [done| | |].
  - by destruct (supported b).
  - by destruct (supported a).
  - destruct (supported a) eqn:Ea, (supported b) eqn:Eb.
    + intros [= -> E]. f_equal. by apply IH.
    + intros [= -> E]. by vm_compute in Ea.
    + intros [= <- E]. by vm_compute in Eb.
    + intros [= Hh Hl E]. f_equal; [|by apply IH].
      pose proof (code_bound a). pose proof (code_bound b).
      assert (forall c, code c < 256 -> N.shiftr (code c) 4 < 16 /\ N.land (code c) 15 < 16)%N as Hb.
      { intros c Hc. change 15%N with (N.ones 4). rewrite N.land_ones, N.shiftr_div_pow2.
        split; [apply N.Div0.div_lt_upper_bound|apply N.mod_lt]; lia. }
      destruct (Hb a) as [? ?], (Hb b) as [? ?]; [done..|].
      apply nibbles_inj; by apply HEX_inj.
Qed.

Lemma validate_tenant_id_Ok tenant_id tenant :
  validate_tenant_id tenant_id = Ok tenant ->
  tenant = trim tenant_id /\ bytes_all (fun byte => is_ascii_alphanumeric byte || one_of "_-" byte) tenant = true.
Proof.
  unfold validate_tenant_id.
  by intros ([] & _ & ([] & _ & ([] & Hb%ensure_Ok_inv & [= <-])%bind_Ok_inv)%bind_Ok_inv)%bind_Ok_inv.
Qed.
Lemma qualified_shape tenant_id resource_type resource_id rid :
  tenant_qualified_resource_id tenant_id resource_type resource_id = Ok rid ->
  bytes_all (fun byte => is_ascii_alphanumeric byte || one_of "_-" byte) (trim tenant_id) = true /\
  if String.eqb resource_type "tenant" then rid = trim tenant_id
  else exists rest, rid = trim tenant_id +:+ "/" +:+ rest.
Proof.
  unfold tenant_qualified_resource_id.
  intros (tenant & [-> Hb]%validate_tenant_id_Ok & ([] & _ & Hr)%bind_Ok_inv)%bind_Ok_inv.
  split; [done|]. destruct (String.eqb resource_type "tenant").
  - apply bind_Ok_inv in Hr as ([] & He%ensure_Ok_inv & [= <-]). by apply String.eqb_eq in He.
  - destruct (starts_with _ (trim resource_id)) eqn:E.
    + injection Hr as <-. apply starts_with_inv in E. eexists. rewrite E at 1. by rewrite string_app_assoc.
    + apply bind_Ok_inv in Hr as ([] & _ & [= <-]). eauto.
Qed.

(** Tenants do not share SpiceDB objects: object ids are encoded injectively,
    and when two checks on the same type of resource name the same object, both
    were made for the same tenant. *)
Theorem tenant_objects_disjoint t1 t2 resource_type id1 id2 rid1 rid2 :
  tenant_qualified_resource_id t1 resource_type id1 = Ok rid1 ->
  tenant_qualified_resource_id t2 resource_type id2 = Ok rid2 ->
  canonical_spicedb_object_id rid1 = canonical_spicedb_object_id rid2 ->
  rid1 = rid2 /\ trim t1 = trim t2.
Proof.
  intros [Hb1 H1]%qualified_shape [Hb2 H2]%qualified_shape.
  rewrite !canonical_encode. intros E%encode_object_id_inj. split; [done|]. subst rid2.
  destruct (String.eqb resource_type "tenant"); [congruence|].
  destruct H1 as [r1 ->], H2 as [r2 H2]. 
  by destruct (fun p => split_at_separator _ "/"%char (trim t1) r1 (trim t2) r2 p Hb1 Hb2 H2).
Qed.
Lemma tenant_objects_disjoint_witness :
  tenant_qualified_resource_id " acme" "table" "a b" = Ok "acme/a b" /\ trim " acme" = trim "acme ".
Proof.
  split; [reflexivity|].
  apply (tenant_objects_disjoint " acme" "acme " "table" "a b" "acme/a b" "acme/a b" "acme/a b"); reflexivity.
Defined.

(** ** The cache of compiled policies *)
Section cache.
Context `{Cedar}.
Implicit Types (c : TenantPolicyCache) (entries : gmap string CachedPolicy) (order : list string).
Definition source_len entries (tenant : string) : N :=
  match entries !! tenant with Some cached => byte_len (cp_source cached) | None => 0 end.
Definition total entries order : N := foldr (fun tenant n => source_len entries tenant + n)%N 0%N order.

(** The queue lists the cached tenants once each, the counter is the size of
    their sources, and a cached policy is the parse of its source. *)
Record stored entries order (bytes : N) : Prop := {
  stored_dom : dom entries = list_to_set order;
  stored_nodup : NoDup order;
  stored_bytes : bytes = total entries order;
  stored_parsed tenant cached : entries !! tenant = Some cached ->
    parse_policies (cp_source cached) = Some (cp_policies cached);
}.
Record cache_ok c : Prop := {
  ok_stored : stored (tc_entries c) (tc_insertion_order c) (tc_source_bytes c);
  ok_entries : size (tc_entries c) <= tc_max_entries c;
  ok_bytes : (tc_source_bytes c <= tc_max_source_bytes c)%N;
}.

Lemma total_delete entries order tenant :
  tenant ∉ order -> total (delete tenant entries) order = total entries order.
Proof.
  induction order as [|t order IH]; [done|]. intros [Hne Hin]%not_elem_of_cons. simpl. rewrite IH by done.
  f_equal. unfold source_len. by rewrite lookup_delete_ne.
Qed.
Lemma total_insert entries order tenant cached :
  tenant ∉ order -> total (<[tenant := cached]> entries) order = total entries order.
Proof.
  induction order as [|t order IH]; [done|]. intros [Hne Hin]%not_elem_of_cons. simpl. rewrite IH by done.
  f_equal. unfold source_len. by rewrite lookup_insert_ne.
Qed.
Lemma total_app entries l k : total entries (l ++ k) = (total entries l + total entries k)%N.
Proof. induction l as [|t l IH]; simpl; [done|]. rewrite IH. lia. Qed.
Lemma total_split entries l tenant k :
  total entries (l ++ tenant :: k) = (source_len entries tenant + total entries (l ++ k))%N.
Proof. rewrite !total_app. simpl. lia. Qed.
Lemma filter_split l (tenant : string) k :
  NoDup (l ++ tenant :: k) ->
  List.filter (fun t => negb (String.eqb t tenant)) (l ++ tenant :: k) = l ++ k.
Proof.
  intros Hnd. assert (forall l', tenant ∉ l' -> List.filter (fun t => negb (String.eqb t tenant)) l' = l') as Hid.
  { induction l' as [|t l' IH]; [done|]. intros [Hne Hin]%not_elem_of_cons. simpl.
    destruct (String.eqb_spec t tenant); [by subst|]. simpl. f_equal. by apply IH. }
  apply NoDup_app in Hnd as (_ & Hl & [Hk _]%NoDup_cons). rewrite List.filter_app. simpl.
  rewrite String.eqb_refl. simpl. rewrite !Hid; [done|done|]. intros Hin. apply (Hl _ Hin). left.
Qed.
(** Removing one tenant from anywhere in the queue. *)
Lemma stored_remove entries l tenant k bytes :
  stored entries (l ++ tenant :: k) bytes ->
  stored (delete tenant entries) (l ++ k) (bytes - source_len entries tenant).
Proof.
  intros [Hd Hn -> Hp]. assert (tenant ∉ l ++ k /\ NoDup (l ++ k)) as [Hin Hn'].
  { rewrite <-Permutation_middle in Hn. by apply NoDup_cons in Hn. }
  split; [| |rewrite total_split, total_delete by done; lia|].
  - rewrite dom_delete_L, Hd. clear -Hin. rewrite !list_to_set_app_L. simpl.
    apply not_elem_of_app in Hin as []. set_solver.
  - done.
  - intros t cached [_ Ht]%lookup_delete_Some. by eapply Hp.
Qed.
Lemma source_len_Some entries tenant cached :
  entries !! tenant = Some cached -> source_len entries tenant = byte_len (cp_source cached).
Proof. unfold source_len. by intros ->. Qed.
Lemma stored_queued entries order bytes tenant cached :
  stored entries order bytes -> entries !! tenant = Some cached ->
  exists l k, order = l ++ tenant :: k.
Proof.
  intros Hst Ht. apply list_elem_of_split. apply elem_of_dom_2 in Ht. rewrite (stored_dom _ _ _ Hst) in Ht.
  by apply elem_of_list_to_set in Ht.
Qed.
Lemma cache_remove_ok tenant_id c :
  cache_ok c -> cache_ok (cache_remove tenant_id c) /\ tc_entries (cache_remove tenant_id c) !! tenant_id = None.
Proof.
  intros Hok. unfold cache_remove. destruct (tc_entries c !! tenant_id) as [previous|] eqn:E; [|done].
  split; [|apply lookup_delete_eq]. destruct Hok as [Hst He Hb].
  destruct (stored_queued _ _ _ _ _ Hst E) as (l & k & Ho). rewrite Ho in *.
  rewrite (filter_split _ _ _ (stored_nodup _ _ _ Hst)). split; simpl.
  - rewrite <-(source_len_Some _ _ _ E). by apply stored_remove.
  - rewrite map_size_delete, E. simpl. lia.
  - lia.
Qed.

(** The eviction loop: the queue is long enough, so the loop always ends with
    room for the new source. *)
Lemma evict_ok order entries bytes max_entries max_bytes needed tenant :
  stored entries order bytes -> entries !! tenant = None -> 0 < max_entries -> (needed <= max_bytes)%N ->
  exists order' entries' bytes',
    evict order entries bytes max_entries max_bytes needed = (true, order', entries', bytes') /\
    stored entries' order' bytes' /\ entries' !! tenant = None /\
    size entries' < max_entries /\ (bytes' + needed <= max_bytes)%N.
Proof.
  revert entries bytes. induction order as [|oldest order IH]; intros entries bytes Hst Ht Hm Hn; simpl.
  - assert (entries = ∅) as ->.
    { apply dom_empty_inv_L. by rewrite (stored_dom _ _ _ Hst). }
    rewrite (stored_bytes _ _ _ Hst). rewrite map_size_empty. simpl.
    rewrite (proj2 (Nat.leb_gt _ _)), (proj2 (N.ltb_ge _ _)) by lia. simpl.
    exists [], ∅, 0%N. rewrite map_size_empty. split_and!; [done| |done|lia..].
    by destruct Hst; split.
  - destruct (max_entries <=? size entries) eqn:E1, (max_bytes <? bytes + needed)%N eqn:E2; simpl.
    4: { exists (oldest :: order), entries, bytes. apply Nat.leb_gt in E1. apply N.ltb_ge in E2. done. }
    all: apply IH; [|by apply lookup_delete_None; right|done..].
    all: pose proof (stored_remove _ [] _ _ _ Hst) as Hr; simpl in Hr; unfold source_len in Hr.
    all: destruct (entries !! oldest); [done|]; by rewrite N.sub_0_r in Hr.
Qed.
Lemma stored_insert entries order bytes tenant source policies :
  stored entries order bytes -> entries !! tenant = None -> parse_policies source = Some policies ->
  stored (<[tenant := {| cp_source := source; cp_policies := policies |}]> entries) (order ++ [tenant])
    (bytes + byte_len source).
Proof.
  intros [Hd Hn -> Hp] Ht Hparse.
  assert (tenant ∉ order) as Hin.
  { intros Hin%(elem_of_list_to_set (C := gset string)). rewrite <-Hd in Hin. by apply elem_of_dom in Hin as [? [=]%(eq_trans (eq_sym Ht))]. }
  split.
  - rewrite dom_insert_L, Hd, list_to_set_app_L. set_solver.
  - rewrite NoDup_app. split_and!; [done| |apply NoDup_singleton]. set_solver.
  - rewrite total_app, total_insert by done. simpl. unfold source_len. rewrite lookup_insert_eq. simpl. lia.
  - intros t cached [[<- <-]|[_ Hc]]%lookup_insert_Some; [done|by eapply Hp].
Qed.
(** Inserting keeps the bounds, and a policy that fits at all is cached. *)
Lemma cache_insert_ok tenant_id source policies c :
  cache_ok c -> parse_policies source = Some policies ->
  cache_ok (cache_insert tenant_id source policies c) /\
  (0 < tc_max_entries c -> (byte_len source <= tc_max_source_bytes c)%N ->
   tc_entries (cache_insert tenant_id source policies c) !! tenant_id =
     Some {| cp_source := source; cp_policies := policies |}).
Proof.
  intros Hok Hp. unfold cache_insert.
  assert (tc_max_entries (cache_remove tenant_id c) = tc_max_entries c /\
          tc_max_source_bytes (cache_remove tenant_id c) = tc_max_source_bytes c) as [<- <-].
  { unfold cache_remove. by destruct (_ !! _). }
  destruct (cache_remove_ok tenant_id c Hok) as [Hok' Hnone]. revert Hok' Hnone.
  generalize (cache_remove tenant_id c). clear c Hok. intros c [Hst He Hb] Hnone.
  destruct (tc_max_entries c =? 0) eqn:E0; [apply Nat.eqb_eq in E0; simpl; split; [done|lia]|].
  destruct (tc_max_source_bytes c <? byte_len source)%N eqn:E1;
    [apply N.ltb_lt in E1; simpl; split; [done|lia]|].
  apply Nat.eqb_neq in E0. apply N.ltb_ge in E1. simpl.
  destruct (evict_ok _ _ _ (tc_max_entries c) _ _ tenant_id Hst Hnone ltac:(lia) E1)
    as (order' & entries' & bytes' & -> & Hst' & Hnone' & Hsz & Hby).
  split; [|intros _ _; apply lookup_insert_eq]. split; simpl; [by apply stored_insert| |done].
  rewrite map_size_insert, Hnone'. simpl. lia.
Qed.
End cache.

(** ** The cache does not change decisions *)
Section decisions.
Context `{Cedar}.
Notation world := (forall B, call B -> result B).

(** One cache serves the calls that concern it; the other ports answer as the
    world does. *)
Definition cache_answer {B} (q : call B) (c : TenantPolicyCache) : option (result B * TenantPolicyCache) :=
  match q in call B return option (result B * TenantPolicyCache) with
  | CacheLookup tenant_id => Some (Ok (tc_entries c !! tenant_id), c)
  | CacheInsert tenant_id source policies => Some (Ok tt, cache_insert tenant_id source policies c)
  | CacheRemove tenant_id => Some (Ok tt, cache_remove tenant_id c)
  | _ => None
  end.
Fixpoint with_cache {A} (w : world) (p : proc call A) (c : TenantPolicyCache) : result A * TenantPolicyCache :=
  match p with
  | Done r => (r, c)
  | Do q k =>
      match cache_answer q c with
      | Some (answer, c) => with_cache w (k answer) c
      | None => with_cache w (k (w _ q)) c
      end
  end.
(** The same ports with a cache that never holds anything. *)
Definition uncached (w : world) : world := fun B q =>
  match q in call B return result B with
  | CacheLookup _ => Ok None
  | CacheInsert _ _ _ | CacheRemove _ => Ok tt
  | q => w _ q
  end.

(** The policy that is active in a world. *)
Definition policy_of_source (source : option string) : result (option PolicySet) :=
  match source with
  | None => Ok None
  | Some source =>
      ensure (byte_len source <=? MAX_POLICY_BYTES)%N "Active tenant policies exceed the evaluation budget" ;;
      policies ← with_context "Cedar policy parse failed" (parse_policies source);
      Ok (Some policies)
  end.
Lemma uncached_policy w tenant_id :
  eval (uncached w) (tenant_policy tenant_id) = (w _ (ActivePolicies tenant_id) ≫= policy_of_source).
Proof.
  unfold tenant_policy. rewrite fixed_bind. simpl. destruct (w _ _) as [[source|]|e]; [|done..]. simpl.
  unfold compiled_tenant_policy, policy_of_source, check, lift. simpl.
  destruct (ensure _ _) as [[]|e]; [|done]. simpl. by destruct (parse_policies source).
Qed.

Lemma with_cache_then {A C} w (p : proc call A) (f : result A -> proc call C) c :
  with_cache w (proc_then p f) c = let '(r, c) := with_cache w p c in with_cache w (f r) c.
Proof.
  revert c. induction p as [r|B q k IH]; intros c; simpl; [done|].
  destruct (cache_answer q c) as [[answer c']|]; apply IH.
Qed.
Definition transparent {A} (p : proc call A) : Prop := forall w c, cache_ok c ->
  fst (with_cache w p c) = eval (uncached w) p /\ cache_ok (snd (with_cache w p c)).
Lemma transparent_then {A C} (p : proc call A) (f : result A -> proc call C) :
  transparent p -> (forall r, transparent (f r)) -> transparent (proc_then p f).
Proof.
  intros Hp Hf w c Hc. rewrite with_cache_then, eval_then. destruct (Hp w c Hc) as [<- Hc'].
  destruct (with_cache w p c) as [r c']. by apply Hf.
Qed.
Lemma transparent_done {A} (r : result A) : transparent (Done r).
Proof. by intros w c Hc. Qed.
Lemma transparent_bind {A C} (p : proc call A) (f : A -> proc call C) :
  transparent p -> (forall a, transparent (f a)) -> transparent (p ≫= f).
Proof. intros Hp Hf. apply transparent_then; [done|]. intros []; [apply Hf|apply transparent_done]. Qed.
(** A call to a port other than the cache. *)
Definition plain {B} (q : call B) : Prop :=
  forall c w, cache_answer q c = None /\ uncached w _ q = w _ q.
Lemma transparent_call {B} (q : call B) : plain q -> transparent (await q).
Proof. intros Hq w c Hc. destruct (Hq c w) as [E1 E2]. simpl. rewrite E1, E2. done. Qed.
Lemma transparent_structural n attempt (q : call check_answer) :
  plain q -> transparent (structural_attempts n attempt q).
Proof.
  intros Hq. revert attempt. induction n as [|n IH]; intros attempt; cbn [structural_attempts]; [apply transparent_done|].
  apply transparent_bind; [by apply transparent_call|]. intros []; try apply transparent_done.
  destruct (_ && _); [|apply transparent_done].
  apply transparent_bind; [by apply transparent_call|]. intros _. apply IH.
Qed.
Lemma transparent_policy tenant_id : transparent (tenant_policy tenant_id).
Proof.
  intros w c Hc. rewrite uncached_policy. unfold tenant_policy. simpl.
  destruct (w _ (ActivePolicies tenant_id)) as [[source|]|e]; simpl; [| |done].
  - unfold compiled_tenant_policy. unfold check, lift, policy_of_source. simpl.
    destruct (ensure _ _) as [[]|e]; [|done]. simpl.
    destruct (tc_entries c !! tenant_id) as [cached|] eqn:Hl; simpl.
    + destruct (String.eqb_spec (cp_source cached) source) as [<-|]; simpl.
      * by rewrite (stored_parsed _ _ _ (ok_stored _ Hc) _ _ Hl).
      * destruct (parse_policies source) eqn:Hp; simpl; [|done]. split; [done|by apply cache_insert_ok].
    + destruct (parse_policies source) eqn:Hp; simpl; [|done]. split; [done|by apply cache_insert_ok].
  - split; [done|]. by apply cache_remove_ok.
Qed.
Lemma transparent_is_authorized user_id tenant_id permission resource_type resource_id ctx :
  transparent (is_authorized user_id tenant_id permission resource_type resource_id ctx).
Proof.
  assert (forall policy rid context, transparent
    (apply_tenant_policy policy user_id tenant_id permission resource_type rid context)) as Ha.
  { intros policy rid context. unfold apply_tenant_policy.
    apply transparent_bind; [by apply transparent_call|]. intros answer.
    apply transparent_bind; [apply transparent_done|]. intros []; [apply transparent_done|].
    apply transparent_bind; [apply transparent_done|]. intros [p|]; [|apply transparent_done].
    apply transparent_bind; [by apply transparent_call|]. intros roles.
    apply transparent_bind; [by apply transparent_call|]. intros hour. apply transparent_done. }
  unfold is_authorized. apply transparent_bind; [apply transparent_done|]. intros rid.
  apply transparent_bind; [by apply transparent_structural|]. intros answer.
  apply transparent_bind; [apply transparent_done|]. intros []; [|apply transparent_done].
  apply transparent_bind.
  - apply transparent_then; [apply transparent_policy|]. intros r. apply transparent_done.
  - intros [[p|]|e]; [apply Ha|apply transparent_done|apply Ha].
Qed.

(** What one gateway process is asked over time. *)
Inductive request : Type :=
  | Decide (user_id tenant_id : string) (permission : Permission) (resource_type resource_id : string)
      (ctx : option QueryContext)
  | Invalidate (tenant_id : string).
Definition answer_to (q : request) : proc call bool :=
  match q with
  | Decide user_id tenant_id permission resource_type resource_id ctx =>
      is_authorized user_id tenant_id permission resource_type resource_id ctx
  | Invalidate tenant_id => invalidate_tenant_cache tenant_id ;; ok true
  end.
Fixpoint serve (requests : list (world * request)) (c : TenantPolicyCache)
    : list (result bool) * TenantPolicyCache :=
  match requests with
  | [] => ([], c)
  | (w, q) :: requests =>
      let '(r, c) := with_cache w (answer_to q) c in
      let '(rs, c) := serve requests c in (r :: rs, c)
  end.
Lemma transparent_answer q : transparent (answer_to q).
Proof.
  destruct q as [user_id tenant_id permission resource_type resource_id ctx|tenant_id].
  - apply transparent_is_authorized.
  - intros w c Hc. simpl. split; [done|]. by apply cache_remove_ok.
Qed.
Lemma cache_new_ok max_entries max_bytes : cache_ok (cache_new max_entries max_bytes).
Proof.
  split; simpl; [|rewrite map_size_empty; lia|lia].
  split; [by rewrite dom_empty_L|constructor|done|done].
Qed.
Lemma serve_transparent requests c : cache_ok c ->
  fst (serve requests c) = map (fun '(w, q) => eval (uncached w) (answer_to q)) requests /\
  cache_ok (snd (serve requests c)).
Proof.
  revert c. induction requests as [|[w q] requests IH]; intros c Hc; simpl; [done|].
  destruct (transparent_answer q w c Hc) as [<- Hc'].
  destruct (with_cache w (answer_to q) c) as [r c']. destruct (IH c' Hc') as [<- Hok].
  by destruct (serve requests c') as [rs c''].
Qed.
Notation limits c := (tc_max_entries c, tc_max_source_bytes c).
Lemma remove_limits tenant_id c : limits (cache_remove tenant_id c) = limits c.
Proof. unfold cache_remove. by destruct (_ !! _). Qed.
Lemma insert_limits tenant_id source policies c : limits (cache_insert tenant_id source policies c) = limits c.
Proof.
  rewrite <-(remove_limits tenant_id c). unfold cache_insert. destruct (_ || _); [done|].
  by destruct (evict _ _ _ _ _ _) as [[[[] ?] ?] ?].
Qed.
Lemma with_cache_limits {A} w (p : proc call A) c : limits (snd (with_cache w p c)) = limits c.
Proof.
  revert c. induction p as [r|B q k IH]; intros c; simpl; [done|].
  destruct q; simpl; rewrite IH; auto using remove_limits, insert_limits.
Qed.
Lemma serve_limits requests c : limits (snd (serve requests c)) = limits c.
Proof.
  revert c. induction requests as [|[w q] requests IH]; intros c; simpl; [done|].
  rewrite <-(with_cache_limits w (answer_to q) c). destruct (with_cache w (answer_to q) c) as [r c']. simpl.
  rewrite <-(IH c'). by destruct (serve requests c').
Qed.

(** C26: the cache of compiled policies never changes a decision: whatever requests
    and invalidations a gateway process serves, in whatever states of SpiceDB, the
    policy store and the clock, it answers each of them (its errors included) as a
    process that compiles the active policy afresh every time. *)
Theorem cache_transparent max_entries max_source_bytes requests :
  fst (serve requests (cache_new max_entries max_source_bytes)) =
  map (fun '(w, q) => eval (uncached w) (answer_to q)) requests.
Proof. by apply serve_transparent, cache_new_ok. Qed.

(** The cache stays within its bounds: after any requests it holds at most
    [max_entries] tenants and [max_source_bytes] bytes of source, its byte counter
    is the exact sum of the cached sources (so no subtraction underflows), its
    queue lists the cached tenants exactly once, and inserting a policy that fits
    always caches it: the eviction loop does not give up. *)
Theorem policy_cache_bounded max_entries max_source_bytes requests :
  let c := snd (serve requests (cache_new max_entries max_source_bytes)) in
  size (tc_entries c) <= max_entries /\ (tc_source_bytes c <= max_source_bytes)%N /\
  tc_source_bytes c = total (tc_entries c) (tc_insertion_order c) /\
  NoDup (tc_insertion_order c) /\ dom (tc_entries c) = list_to_set (tc_insertion_order c) /\
  forall tenant_id source policies,
    parse_policies source = Some policies -> 0 < max_entries -> (byte_len source <= max_source_bytes)%N ->
    tc_entries (cache_insert tenant_id source policies c) !! tenant_id =
      Some {| cp_source := source; cp_policies := policies |}.
Proof.
  intros c. pose proof (serve_limits requests (cache_new max_entries max_source_bytes)) as Hl. fold c in Hl.
  injection Hl as Hn Hb. assert (cache_ok c) as Hok by apply serve_transparent, cache_new_ok.
  rewrite <-Hn, <-Hb. destruct (Hok) as [[] ? ?]. split_and!; try done.
  intros. by apply cache_insert_ok.
Qed.

(** ** Who is allowed *)
Notation event := (event call).
Definition all_calls (es : list event) (e : event) : Prop := True.
Lemma structural_seen n attempt (q : call check_answer) pre :
  safe all_calls pre (structural_attempts n attempt q)
    (succeeds (fun es answer => forall b, answer = Decision b -> Event q (Ok (Decision b)) ∈ es)).
Proof.
  revert attempt pre. induction n as [|n IH]; intros attempt pre; cbn [structural_attempts]; [done|].
  apply safe_await; [done|]. intros [b|status|]; [|destruct (_ && _)|].
  - intros b' [= <-]. set_solver.
  - apply safe_await; [done|]. intros slept. apply IH.
  - done.
  - done.
Qed.
(** What a decision of the tenant's policy has seen. *)
Definition policy_seen (tenant_id : string) (es : list event) (policies : PolicySet) : Prop :=
  exists source, Event (ActivePolicies tenant_id) (Ok (Some source)) ∈ es /\
    (parse_policies source = Some policies \/
     exists cached, Event (CacheLookup tenant_id) (Ok (Some cached)) ∈ es /\
       cp_source cached = source /\ cp_policies cached = policies).
Lemma tenant_policy_seen tenant_id pre :
  safe all_calls pre (tenant_policy tenant_id) (succeeds (fun es policy =>
    match policy with
    | None => Event (ActivePolicies tenant_id) (Ok None) ∈ es
    | Some policies => policy_seen tenant_id es policies
    end)).
Proof.
  unfold tenant_policy. apply safe_await; [done|]. intros [source|]; simpl.
  - apply safe_check. intros _. apply safe_await; [done|]. intros cached. simpl.
    destruct (option_filter _ cached) as [hit|] eqn:Hf.
    + destruct cached as [cached|]; simpl in Hf; [|done].
      destruct (String.eqb_spec (cp_source cached) source) as [Hs|]; [|done]. injection Hf as ->.
      exists source. split; [set_solver|]. right. exists hit. split; [set_solver|done].
    + apply safe_require. intros policies Hp. apply safe_await; [done|]. intros []. exists source.
      split; [set_solver|by left].
  - apply safe_await; [done|]. intros []. set_solver.
Qed.

(** Cedar evaluated the request without errors and allowed it. *)
Definition cedar_allows (user_id : string) (roles : list string) (hour : Z) (policies : PolicySet)
    (permission : Permission) (resource_type rid : string) (ctx : QueryContext) : Prop :=
  exists principal action resource,
    cedar_uid "User" user_id = Ok principal /\
    cedar_uid "Action" (permission_str permission) = Ok action /\
    cedar_uid resource_type rid = Ok resource /\
    cedar_decide principal action resource
      (cedar_pairs {| ci_user_id := user_id; ci_roles := roles; ci_administrator := false; ci_hour_utc := hour |} ctx)
      policies = Ok (false, true).
Lemma evaluate_cedar_allows user_id roles hour policies permission resource_type rid ctx :
  evaluate_cedar true
    {| ci_user_id := user_id; ci_roles := roles; ci_administrator := false; ci_hour_utc := hour |}
    policies (permission_str permission) resource_type rid ctx = Ok true ->
  cedar_allows user_id roles hour policies permission resource_type rid ctx.
Proof.
  intros (principal & Hp & (action & Ha & (resource & Hr & ([errors allowed] & Hd & He)%bind_Ok_inv)
    %bind_Ok_inv)%bind_Ok_inv)%bind_Ok_inv.
  destruct errors; [done|]. injection He as ->. by exists principal, action, resource.
Qed.
(** The three reasons for which the policy of a tenant does not deny. *)
Inductive unrestricted (user_id tenant_id : string) (permission : Permission) (resource_type rid : string)
    (ctx : QueryContext) (es : list event) : Prop :=
  | no_policy : Event (ActivePolicies tenant_id) (Ok None) ∈ es -> unrestricted _ _ _ _ _ _ _
  | administrator :
      Event (Check user_id (permission_str Manage) "tenant" tenant_id) (Ok (Decision true)) ∈ es ->
      unrestricted _ _ _ _ _ _ _
  | policy_allows source policies roles hour :
      Event (ActivePolicies tenant_id) (Ok (Some source)) ∈ es ->
      parse_policies source = Some policies ->
      Event (RolesFor tenant_id user_id) (Ok roles) ∈ es ->
      Event HourUtc (Ok hour) ∈ es ->
      cedar_allows user_id roles hour policies permission resource_type rid ctx ->
      unrestricted _ _ _ _ _ _ _.
(** The cache answered with parsed sources: [cache_ok] gives it. *)
Definition looked_up (e : event) : option CachedPolicy :=
  let '@Event _ B q answer := e in
  match q in call B return result B -> option CachedPolicy with
  | CacheLookup _ => fun answer => match answer with Ok cached => cached | Err _ => None end
  | _ => fun _ => None
  end answer.
Definition cache_faithful (es : list event) : Prop := Forall (fun e =>
  from_option (fun cached => parse_policies (cp_source cached) = Some (cp_policies cached)) True (looked_up e)) es.
Lemma cache_faithful_lookup es tenant_id cached :
  cache_faithful es -> Event (CacheLookup tenant_id) (Ok (Some cached)) ∈ es ->
  parse_policies (cp_source cached) = Some (cp_policies cached).
Proof. intros Hf Hin. by apply (proj1 (Forall_forall _ _) Hf) in Hin. Qed.
Lemma apply_tenant_policy_allows policy user_id tenant_id permission resource_type rid ctx pre :
  (policy = Ok None -> Event (ActivePolicies tenant_id) (Ok None) ∈ pre) ->
  (forall policies, policy = Ok (Some policies) -> policy_seen tenant_id pre policies) ->
  safe all_calls pre (apply_tenant_policy policy user_id tenant_id permission resource_type rid ctx)
    (succeeds (fun es (allowed : bool) => allowed = true -> cache_faithful es ->
      unrestricted user_id tenant_id permission resource_type rid ctx es)).
Proof.
  intros Hnone Hsome. unfold apply_tenant_policy. apply safe_await; [done|]. intros answer.
  apply safe_lift. intros [] Hd.
  { destruct answer as [b|b|]; simpl in Hd; [injection Hd as ->|done..]. intros _ _. apply administrator. set_solver. }
  apply safe_lift. intros [policies|] ->.
  - destruct (Hsome policies eq_refl) as (source & Hs & Hparse).
    apply safe_await; [done|]. intros roles. apply safe_await; [done|]. intros hour.
    unfold lift. simpl. destruct (evaluate_cedar _ _ _ _ _ _ _) as [b|e] eqn:Hev; [|done]. simpl.
    intros -> Hf. apply (policy_allows _ _ _ _ _ _ _ source policies roles hour); [set_solver| |set_solver..|].
    + destruct Hparse as [?|(cached & Hc & <- & <-)]; [done|]. apply (cache_faithful_lookup _ tenant_id _ Hf). set_solver.
    + by apply evaluate_cedar_allows.
  - intros _ _. apply no_policy. set_solver.
Qed.

(** SpiceDB granted the permission on the object of the tenant, and the tenant's
    policy does not deny. *)
Definition justified (user_id tenant_id : string) (permission : Permission) (resource_type resource_id : string)
    (ctx : option QueryContext) (es : list event) : Prop :=
  exists rid, tenant_qualified_resource_id tenant_id resource_type resource_id = Ok rid /\
    Event (Check user_id (permission_str permission) resource_type (canonical_spicedb_object_id rid))
      (Ok (Decision true)) ∈ es /\
    unrestricted user_id tenant_id permission resource_type (canonical_spicedb_object_id rid)
      (default default_context ctx) es.
Lemma is_authorized_seen user_id tenant_id permission resource_type resource_id ctx :
  safe all_calls [] (is_authorized user_id tenant_id permission resource_type resource_id ctx)
    (succeeds (fun es (allowed : bool) => allowed = true -> cache_faithful es ->
      justified user_id tenant_id permission resource_type resource_id ctx es)).
Proof.
  unfold is_authorized. apply safe_lift. intros rid Hrid. apply safe_seq.
  eapply safe_mono; [|apply structural_seen]. intros es1 answer Hans. cbn [app] in *.
  apply safe_lift. intros [] Hd; [|done].
  destruct answer as [b|b|]; simpl in Hd; [injection Hd as ->|done..]. specialize (Hans true eq_refl).
  apply safe_seq. unfold keep. apply safe_then. eapply safe_conseq; [|apply tenant_policy_seen].
  intros es2 policy Hp. destruct policy as [[policies|]|e]; cbn [safe succeeds ok] in *.
  2: { intros _ _. exists rid. split; [done|]. split; [set_solver|by apply no_policy]. }
  all: eapply safe_mono; [|apply apply_tenant_policy_allows; [done|]].
  all: try (intros es3 allowed Hu -> Hf; exists rid; split; [done|]; split; [set_solver|by apply Hu]).
  - by intros ? [= <-].
  - done.
Qed.

End decisions.

(** ** A gateway with a toy policy language *)
Instance demo_cedar : Cedar := {
  PolicySet := bool;
  EntityUid := string;
  parse_policies := fun source => if String.eqb source "permit" then Some true else None;
  parse_uid := Some;
  cedar_decide := fun _ _ _ _ policies => Ok (false, policies);
}.
Definition demo_world (B : Type) (q : call B) : result B :=
  match q in call B return result B with
  | Check _ permission _ _ => Ok (Decision (negb (String.eqb permission "manage")))
  | ActivePolicies _ => Ok (Some "permit"%string)
  | CacheLookup _ => Ok (Some {| cp_source := "permit"; cp_policies := true |})
  | RolesFor _ _ => Ok ["analyst"%string]
  | HourUtc => Ok 12%Z
  | Sleep _ | CacheInsert _ _ _ | CacheRemove _ | RegisterRelation _ _ _ _ _ | RevokeRelation _ _ _ _ _ => Ok tt
  end.
Definition demo_check : proc call bool := is_authorized "ana" "acme" View "table" "entity states" None.
