(* ===== verification/Pengolo.v ===== *)
(** * Pengolo: the records of the workspace (gateway domain/pengolo.rs)

    Projects, chats, files, generations and agents are [Record]s whose [data] is a
    JSON object.  This file holds the inputs with their checks and the rules that
    need no service: which documents a conversation may use, which uploads are
    acceptable, how a name is made free, who sees a project, and which tools an
    agent gets. *)

From S2P Require Import Prelude Text RustStr Json Serde Authoring.
From Stdlib Require Import Ascii.

(** ** Records *)
Record PengoloRecord : Type := {
  rc_id : string;
  rc_owner_id : string;
  rc_project_id : option string;
  rc_expires_at : option Z;
  rc_revision : Z;
  rc_updated_at : Z;
  rc_data : value;
}.
Definition with_data (r : PengoloRecord) (data : value) : PengoloRecord :=
  {| rc_id := rc_id r; rc_owner_id := rc_owner_id r; rc_project_id := rc_project_id r;
     rc_expires_at := rc_expires_at r; rc_revision := rc_revision r; rc_updated_at := rc_updated_at r;
     rc_data := data |}.
Definition json_opt {A} (f : A -> value) (o : option A) : value := from_option f JNull o.
Definition json_record (r : PengoloRecord) : value :=
  JObject [("id", JString (rc_id r)); ("ownerId", JString (rc_owner_id r));
           ("projectId", json_opt JString (rc_project_id r)); ("expiresAt", json_opt json_i64 (rc_expires_at r));
           ("revision", json_i64 (rc_revision r)); ("updatedAt", json_i64 (rc_updated_at r));
           ("data", rc_data r)].
Record OutputEvent : Type := { oe_sequence : Z; oe_kind : string; oe_content : string }.
Definition json_event (e : OutputEvent) : value :=
  JObject [("sequence", json_i64 (oe_sequence e)); ("kind", JString (oe_kind e)); ("content", JString (oe_content e))].
(** ports/conversation_store.rs *)
Record EvidenceSource : Type := {
  ev_resource_type : string;
  ev_resource_id : string;
  ev_manage : bool;
  ev_entity_id : option string;
  ev_modality : option string;
  ev_state_type : option string;
}.
Definition de_evidence (v : value) : result EvidenceSource :=
  m ← struct_members (plain <$> ["resource_type"; "resource_id"; "manage"; "entity_id"; "modality"; "state_type"]) v;
  resource_type ← required de_string "resource_type" m;
  resource_id ← required de_string "resource_id" m;
  manage ← required de_bool "manage" m;
  entity_id ← optional de_string "entity_id" m;
  modality ← optional de_string "modality" m;
  state_type ← optional de_string "state_type" m;
  Ok {| ev_resource_type := resource_type; ev_resource_id := resource_id; ev_manage := manage;
        ev_entity_id := entity_id; ev_modality := modality; ev_state_type := state_type |}.

Definition MAX_FILE_BYTES : Z := 25 * 1024 * 1024.
Definition STAGING_TTL_MS : Z := 60 * 60 * 1000.

(** ** Inputs *)

(** [s.chars().count()] of UTF-8: the bytes that are not continuation bytes. *)
Fixpoint chars_count (s : string) : nat :=
  match s with
  | EmptyString => 0
  | String c s => (if cont c then 0 else 1) + chars_count s
  end.
Definition LINE_BREAKS : string := String "010" (String "013" (String "009" EmptyString)).
(** [s.chars().any(|c| c.is_control() && !allowed.contains(&c))] *)
Fixpoint any_control_but (allowed s : string) : bool :=
  match s with
  | EmptyString => false
  | String a s1 =>
      control1 a && negb (one_of allowed a) ||
      match s1 with String b _ => control2 a b | EmptyString => false end ||
      any_control_but allowed s1
  end.
Definition any_forbidden_control : string -> bool := any_control_but LINE_BREAKS.
(** [s.chars().take(n).collect::<String>()] *)
Fixpoint take_chars (n : nat) (s : string) : string :=
  match s with
  | EmptyString => EmptyString
  | String c rest =>
      if cont c then String c (take_chars n rest)
      else match n with 0 => EmptyString | S n => String c (take_chars n rest) end
  end.
Definition validate_instructions (v : string) : result unit :=
  ensure ((chars_count v <=? 2000) && len_le v 8000 && negb (any_forbidden_control v))
    "Invalid Pengolo instructions".

Record PreferencesInput : Type := { pi_revision : Z; pi_instructions : string }.
Definition de_preferences (v : value) : result PreferencesInput :=
  m ← struct_members (plain <$> ["revision"; "instructions"]) v;
  revision ← required de_i64 "revision" m;
  instructions ← required de_string "instructions" m;
  Ok {| pi_revision := revision; pi_instructions := instructions |}.
Definition parse_preferences (v : value) : result PreferencesInput :=
  input ← de_preferences v;
  ensure (0 <=? pi_revision input)%Z "Invalid preferences revision" ;;
  validate_instructions (pi_instructions input) ;;
  Ok input.

Record GraphContext : Type := { gc_kind : string; gc_id : string }.
Definition de_graph_context (v : value) : result GraphContext :=
  m ← struct_members (plain <$> ["kind"; "id"]) v;
  kind ← required de_string "kind" m;
  id ← required de_string "id" m;
  Ok {| gc_kind := kind; gc_id := id |}.
Definition validate_graph_context (c : GraphContext) : result unit :=
  ensure (str_in (gc_kind c) ["entity"; "event"; "relation"]) "Unsupported graph context kind" ;;
  ensure (negb (trim_is_empty (gc_id c)) && len_le (gc_id c) 256) "Invalid graph context identifier".

Record SendInput : Type := {
  si_idempotency_key : string;
  si_chat_id : option string;
  si_project_id : option string;
  si_prompt : string;
  si_model_alias : string;
  si_agent_ids : list string;
  si_file_ids : list string;
  si_graph_context : option GraphContext;
  si_web_query : option string;
  si_web_search : bool;
  si_temporary : bool;
  si_with_library : bool;
}.
Definition de_send (v : value) : result SendInput :=
  m ← struct_members [plain "idempotencyKey"; plain "chatId"; plain "projectId"; plain "prompt"; plain "modelAlias";
        dflt "agentIds"; dflt "fileIds"; plain "graphContext"; plain "webQuery"; dflt "webSearch"; dflt "temporary";
        dflt "withLibrary"] v;
  idempotency_key ← required de_string "idempotencyKey" m;
  chat_id ← optional de_string "chatId" m;
  project_id ← optional de_string "projectId" m;
  prompt ← required de_string "prompt" m;
  model_alias ← required de_string "modelAlias" m;
  agent_ids ← defaulted (de_vec de_string) [] "agentIds" m;
  file_ids ← defaulted (de_vec de_string) [] "fileIds" m;
  graph_context ← optional de_graph_context "graphContext" m;
  web_query ← optional de_string "webQuery" m;
  web_search ← defaulted de_bool false "webSearch" m;
  temporary ← defaulted de_bool false "temporary" m;
  with_library ← defaulted de_bool false "withLibrary" m;
  Ok {| si_idempotency_key := idempotency_key; si_chat_id := chat_id; si_project_id := project_id;
        si_prompt := prompt; si_model_alias := model_alias; si_agent_ids := agent_ids; si_file_ids := file_ids;
        si_graph_context := graph_context; si_web_query := web_query; si_web_search := web_search;
        si_temporary := temporary; si_with_library := with_library |}.
(** [skip_serializing_if] leaves out an empty [agentIds] and a false [webSearch]. *)
Definition json_send (i : SendInput) : value :=
  JObject ([("idempotencyKey", JString (si_idempotency_key i)); ("chatId", json_opt JString (si_chat_id i));
    ("projectId", json_opt JString (si_project_id i)); ("prompt", JString (si_prompt i));
    ("modelAlias", JString (si_model_alias i))] ++
    (if si_agent_ids i is [] then [] else [("agentIds", json_strings (si_agent_ids i))]) ++
    [("fileIds", json_strings (si_file_ids i));
     ("graphContext", json_opt (fun c => JObject [("kind", JString (gc_kind c)); ("id", JString (gc_id c))])
        (si_graph_context i));
     ("webQuery", json_opt JString (si_web_query i))] ++
    (if si_web_search i then [("webSearch", JBool true)] else []) ++
    [("temporary", JBool (si_temporary i)); ("withLibrary", JBool (si_with_library i))]).

Definition valid_record_id (id : string) : bool :=
  (String.length id =? 32) &&
  bytes_all (fun byte => is_ascii_hexdigit byte && negb (is_ascii_uppercase byte)) id.
(** [map_err(|_| anyhow!(message))] *)
Definition or_message {A} (message : string) (r : result A) : result A :=
  match r with Ok a => Ok a | Err _ => Err (Msg message) end.

(** The syntax of UUIDs and their compact form (the crate uuid). *)
Class Uuids := {
  uuid_parse : string -> option string;
}.
Section inputs.
Context `{Uuids}.
Definition parse_send (v : value) : result SendInput :=
  input ← or_message "Invalid Pengolo send" (de_send v);
  ensure ((length (si_agent_ids input) <=? 8) && forallb valid_record_id (si_agent_ids input) &&
          (size (list_to_set (si_agent_ids input) : gset string) =? length (si_agent_ids input)))
    "Invalid agent selection" ;;
  with_context "Invalid idempotency key" (uuid_parse (si_idempotency_key input)) ;;
  ensure (negb (trim_is_empty (si_prompt input)) && len_le (si_prompt input) 32768)
    "A bounded prompt is required" ;;
  ensure (negb (is_empty (si_model_alias input)) && len_le (si_model_alias input) 128)
    "A model alias is required" ;;
  ensure ((length (si_file_ids input) <=? 8) && forallb (fun id => String.length id =? 32) (si_file_ids input))
    "Invalid attachments" ;;
  ensure (negb (si_temporary input) || option_is_none (si_project_id input))
    "Temporary chats cannot belong to projects" ;;
  (if si_graph_context input is Some context then validate_graph_context context else Ok tt) ;;
  ensure (is_none_or (fun query => negb (trim_is_empty query) && len_le query 512) (si_web_query input))
    "Invalid public web query" ;;
  Ok input.
End inputs.

Record AgentInput : Type := {
  ai_id : option string;
  ai_revision : option Z;
  ai_name : string;
  ai_mission : string;
  ai_project_id : option string;
  ai_skill_ids : list string;
}.
Definition de_agent (v : value) : result AgentInput :=
  m ← struct_members [plain "id"; plain "revision"; plain "name"; plain "mission"; plain "projectId"; dflt "skillIds"] v;
  id ← optional de_string "id" m;
  revision ← optional de_i64 "revision" m;
  name ← required de_string "name" m;
  mission ← required de_string "mission" m;
  project_id ← optional de_string "projectId" m;
  skill_ids ← defaulted (de_vec de_string) [] "skillIds" m;
  Ok {| ai_id := id; ai_revision := revision; ai_name := name; ai_mission := mission;
        ai_project_id := project_id; ai_skill_ids := skill_ids |}.
Definition skill_segment (segment : string) : bool :=
  match segment with
  | EmptyString => false
  | String first _ => is_ascii_lowercase first &&
      bytes_all (fun byte => is_ascii_lowercase byte || is_ascii_digit byte || one_of "_-" byte) segment
  end.
Definition skill_identifier (id : string) : bool :=
  len_le id 128 && contains "." id && forallb skill_segment (split_byte "."%char id).
Definition parse_agent `{Externals} (v : value) : result AgentInput :=
  bytes ← json_to_vec v;
  ensure (len_le bytes 16384) "Agent exceeds limit" ;;
  input ← or_message "Invalid agent" (de_agent v);
  ensure (is_none_or valid_record_id (ai_id input) && is_none_or valid_record_id (ai_project_id input))
    "Invalid agent scope" ;;
  ensure (Bool.eqb (option_is_some (ai_id input)) (option_is_some (ai_revision input)) &&
          is_none_or (fun revision => 0 <? revision)%Z (ai_revision input)) "Agent revision required for edits" ;;
  ensure (negb (trim_is_empty (ai_name input)) && len_le (ai_name input) 128 &&
          negb (trim_is_empty (ai_mission input)) && len_le (ai_mission input) 8192)
    "Agent requires a bounded name and mission" ;;
  ensure ((length (ai_skill_ids input) <=? 8) &&
          (size (list_to_set (ai_skill_ids input) : gset string) =? length (ai_skill_ids input)))
    "Invalid Skill selection" ;;
  for_each (fun id => ensure (skill_identifier id) "Invalid Skill identifier") (ai_skill_ids input) ;;
  Ok input.

Record ProjectInput : Type := {
  pj_id : option string;
  pj_revision : option Z;
  pj_name : string;
  pj_icon : string;
  pj_color : string;
  pj_shared : bool;
  pj_roles : list string;
  pj_context_mode : string;
  pj_instructions : option string;
}.
Definition de_project (v : value) : result ProjectInput :=
  m ← struct_members [plain "id"; plain "revision"; plain "name"; plain "icon"; plain "color"; dflt "shared";
        dflt "roles"; dflt "contextMode"; dflt "instructions"] v;
  id ← optional de_string "id" m;
  revision ← optional de_i64 "revision" m;
  name ← required de_string "name" m;
  icon ← required de_string "icon" m;
  color ← required de_string "color" m;
  shared ← defaulted de_bool false "shared" m;
  roles ← defaulted (de_vec de_string) [] "roles" m;
  context_mode ← defaulted de_string "project"%string "contextMode" m;
  instructions ← optional de_string "instructions" m;
  Ok {| pj_id := id; pj_revision := revision; pj_name := name; pj_icon := icon; pj_color := color;
        pj_shared := shared; pj_roles := roles; pj_context_mode := context_mode; pj_instructions := instructions |}.
Definition json_project (p : ProjectInput) : value :=
  JObject ([("id", json_opt JString (pj_id p)); ("revision", json_opt json_i64 (pj_revision p));
    ("name", JString (pj_name p)); ("icon", JString (pj_icon p)); ("color", JString (pj_color p));
    ("shared", JBool (pj_shared p)); ("roles", json_strings (pj_roles p));
    ("contextMode", JString (pj_context_mode p))] ++
    (if pj_instructions p is Some instructions then [("instructions", JString instructions)] else [])).
Definition hex_color (color : string) : bool :=
  (String.length color =? 7) && starts_with "#" color && bytes_all is_ascii_hexdigit (skip 1 color).
Definition parse_project (v : value) : result ProjectInput :=
  input ← or_message "Invalid project" (de_project v);
  (if pj_instructions input is Some instructions then validate_instructions instructions else Ok tt) ;;
  ensure (negb (trim_is_empty (pj_name input)) && len_le (pj_name input) 128 &&
          negb (is_empty (pj_icon input)) && len_le (pj_icon input) 32) "Invalid project name or icon" ;;
  ensure (hex_color (pj_color input)) "Invalid project color" ;;
  ensure (str_in (pj_context_mode input) ["personal"; "project"]) "Invalid document context" ;;
  ensure (negb (pj_shared input) ||
          (String.eqb (pj_context_mode input) "project" && negb (Nat.eqb (length (pj_roles input)) 0)))
    "Shared projects require their own library and roles" ;;
  ensure (pj_shared input || Nat.eqb (length (pj_roles input)) 0)
    "Personal projects cannot have shared roles" ;;
  ensure ((length (pj_roles input) <=? 32) &&
          forallb (fun role => negb (is_empty role) && len_le role 128) (pj_roles input)) "Invalid project roles" ;;
  Ok input.

(** ** Documents and files *)
Definition opt_eqb (a b : option string) : bool := bool_decide (a = b).
Definition document_scope_allows (chat_project : option string) (actor : string) (temporary_chat : option string)
    (with_library : bool) (file_project : option string) (file_owner : string) (temporary_file : option string)
    : bool :=
  match temporary_file with
  | Some file_session => opt_eqb temporary_chat (Some file_session) && String.eqb file_owner actor
  | None =>
      if option_is_some temporary_chat
      then with_library && option_is_none file_project && String.eqb file_owner actor
      else match chat_project with
           | Some project => opt_eqb file_project (Some project)
           | None => option_is_none file_project && String.eqb file_owner actor
           end
  end.
Definition file_available (status : string) (expires_at now : Z) : bool :=
  String.eqb status "ready" && (now <? expires_at)%Z.
Definition FORMATS : list (string * string) :=
  [("application/pdf", "pdf"); ("application/zip", "zip"); ("text/plain", "txt"); ("text/csv", "csv");
   ("image/png", "png"); ("image/jpeg", "jpg"); ("image/webp", "webp")]%string.
Definition validate_upload (name mime : string) (size : Z) : result string :=
  ensure (negb (trim_is_empty name) && len_le name 256 && negb (any_control name) &&
          bytes_all (fun c => negb (one_of "/\" c)) name && negb (str_in name ["."; ".."]))
    "Invalid file name" ;;
  ensure ((1 <=? size)%Z && (size <=? MAX_FILE_BYTES)%Z) "File size exceeds the upload limit" ;;
  with_context "Unsupported file format"
    (snd <$> List.find (fun format => String.eqb format.1 mime) FORMATS).

(** Bytes from their codes. *)
Definition bytes_of (l : list nat) : string := foldr (fun n s => String (ascii_of_nat n) s) EmptyString l.
(** [from_utf8(bytes)] is fine, or fails only because the last character is cut. *)
Definition utf8_so_far (bytes : string) : bool :=
  is_utf8 bytes ||
  existsb (fun n => let kept := String.length bytes - n in
    is_utf8 (take_bytes kept bytes) && negb (is_empty (skip kept bytes)) &&
    existsb (fun tail => is_utf8 (skip kept bytes +:+ tail))
      [bytes_of [128]; bytes_of [160]; bytes_of [144];
       bytes_of [128; 128]; bytes_of [160; 128]; bytes_of [144; 128];
       bytes_of [128; 128; 128]; bytes_of [144; 128; 128]]) [1; 2; 3].
Definition validate_file_prefix (mime bytes : string) : result unit :=
  let valid :=
    if String.eqb mime "application/pdf" then starts_with "%PDF-" bytes
    else if String.eqb mime "application/zip" then
      starts_with (bytes_of [80; 75; 3; 4]) bytes || starts_with (bytes_of [80; 75; 5; 6]) bytes
    else if String.eqb mime "image/png" then starts_with (bytes_of [137; 80; 78; 71; 13; 10; 26; 10]) bytes
    else if String.eqb mime "image/jpeg" then starts_with (bytes_of [255; 216; 255]) bytes
    else if String.eqb mime "image/webp" then
      starts_with "RIFF" bytes && len_ge bytes 12 && String.eqb (take_bytes 4 (skip 8 bytes)) "WEBP"
    else if str_in mime ["text/plain"; "text/csv"] then
      negb (is_empty bytes) && bytes_all (fun c => negb (code c =? 0)%N) bytes && utf8_so_far bytes
    else false in
  ensure valid "File content does not match its format".

(** ** Free names

    [to_lowercase] is the case folding of the names. *)
Section names.
Context (to_lowercase : string -> string).
(** The last character boundary of [stem] that is at most [budget]. *)
Fixpoint last_boundary (budget : nat) (stem : string) : nat :=
  match budget with
  | 0 => 0
  | S below => match skip budget stem with
               | String c _ => if cont c then last_boundary below stem else budget
               | EmptyString => last_boundary below stem
               end
  end.
Definition numbered (stem extension : string) (index : nat) : result string :=
  let suffix := " (" +:+ pretty index +:+ ")" +:+ extension in
  ensure (String.length suffix <? 256) "File name exceeds limit" ;;
  let budget := 256 - String.length suffix in
  let end_ := if String.length stem <=? budget then String.length stem else last_boundary budget stem in
  Ok (take_bytes end_ stem +:+ suffix).
Fixpoint first_free (indices : list nat) (stem extension : string) (occupied : gset string) : result string :=
  match indices with
  | [] => Err (Msg "File name collision limit reached")
  | index :: indices =>
      candidate ← numbered stem extension index;
      if bool_decide (to_lowercase candidate ∈ occupied)
      then first_free indices stem extension occupied
      else Ok candidate
  end.
Definition name_parts (name : string) : string * string :=
  match rsplit_once "."%char name with
  | Some (stem, extension) => if is_empty stem then (name, EmptyString) else (stem, "." +:+ extension)
  | None => (name, EmptyString)
  end.
Definition available_file_name (name : string) (occupied : gset string) : result string :=
  if bool_decide (to_lowercase name ∉ occupied) then Ok name else
  let '(stem, extension) := name_parts name in
  first_free (seq 1 9999) stem extension occupied.
End names.

(** ** Projects *)
Definition project_visible (project : PengoloRecord) (user : string) (roles : list string) : bool :=
  if bool_decide (get_bool (rc_data project) "deleted" = Some true) then false else
  String.eqb (rc_owner_id project) user ||
  (bool_decide (get_bool (rc_data project) "shared" = Some true) &&
   is_some_and (fun allowed => existsb (fun role => str_in role roles) (omap as_str allowed))
     (get_array (rc_data project) "roles")).
Definition insert_member (message key : string) (v data : value) : result value :=
  members ← with_context message (as_object data);
  Ok (JObject (jinsert key v members)).
Definition project_deletion (project : PengoloRecord) (user : string) (revision : Z) : result value :=
  ensure (String.eqb (rc_owner_id project) user && (rc_revision project =? revision)%Z)
    "Project deletion unavailable" ;;
  insert_member "Invalid project metadata" "deleted" (JBool true) (rc_data project).

(** ** Views of records *)
Definition file_projection (r : PengoloRecord) : PengoloRecord :=
  match rc_data r with
  | JObject data => with_data r (JObject (jremove "stagingKey" (jremove "key" data)))
  | _ => r
  end.
Definition or_null (o : option value) : value := default JNull o.
Definition generation_projection (r : PengoloRecord) : PengoloRecord :=
  with_data r (JObject [("chatId", or_null (get (rc_data r) "chatId")); ("status", or_null (get (rc_data r) "status"));
                        ("sequence", or_null (get (rc_data r) "sequence"))]).
Definition file_url (id : string) (session : option string) : string :=
  "/pengolo/files/" +:+ id +:+ from_option (fun session => "?session=" +:+ session) EmptyString session.
Definition download_projection (file : PengoloRecord) (session : option string) : value :=
  JObject [("url", JString (file_url (rc_id file) session)); ("name", or_null (get (rc_data file) "name"));
           ("mime", or_null (get (rc_data file) "mime")); ("size", or_null (get (rc_data file) "size"))].
Definition TERMINAL_KINDS : list string := ["completed"; "failed"; "cancelled"].
Definition is_answer_to (generation_id : string) (message : value) : bool :=
  opt_eqb (get_str message "role") (Some "assistant"%string) &&
  opt_eqb (get_str message "generationId") (Some generation_id).
Definition replay_projection (chat : PengoloRecord) (generation_id status : string) (events : list OutputEvent)
    : value :=
  let status := match option_filter (fun e => str_in (oe_kind e) TERMINAL_KINDS) (last events) with
                | Some e => oe_kind e
                | None => status
                end in
  let terminal := str_in status TERMINAL_KINDS in
  let message := if terminal
                 then get_array (rc_data chat) "messages" ≫= List.find (is_answer_to generation_id)
                 else None in
  JObject [("events", JArray (json_event <$> events)); ("status", JString status);
           ("generationId", JString generation_id); ("message", or_null message);
           ("chatRevision", if terminal then json_i64 (rc_revision chat) else JNull);
           ("chatUpdatedAt", if terminal then json_i64 (rc_updated_at chat) else JNull)].

Definition metadata (v : value) (key : string) : result string :=
  with_context "Invalid workspace metadata" (get_str v key).
Record StagedFile : Type := {
  sf_generated : bool;
  sf_tenant : string;
  sf_owner : string;
  sf_source : string;
  sf_destination : string;
  sf_mime : string;
  sf_size : Z;
  sf_name : string;
  sf_checksum : string;
}.
Definition staged_file (tenant : string) (file : PengoloRecord) : result StagedFile :=
  source ← metadata (rc_data file) "stagingKey";
  destination ← metadata (rc_data file) "key";
  mime ← metadata (rc_data file) "mime";
  size ← with_context "Invalid file size" (get (rc_data file) "size" ≫= as_i64);
  name ← metadata (rc_data file) "name";
  checksum ← metadata (rc_data file) "checksum";
  Ok {| sf_generated := bool_decide (get (rc_data file) "artifactTtlMs" ≫= as_i64 = Some (7 * 24 * 60 * 60 * 1000)%Z);
        sf_tenant := tenant; sf_owner := rc_owner_id file; sf_source := source; sf_destination := destination;
        sf_mime := mime; sf_size := size; sf_name := name; sf_checksum := checksum |}.

(** ** Task lists in answers *)
Record TaskCheck : Type := { tk_index : Z; tk_checked : bool }.
Definition json_check (c : TaskCheck) : value :=
  JObject [("index", json_i64 (tk_index c)); ("checked", JBool (tk_checked c))].
Fixpoint update_first {A} (p : A -> bool) (f : A -> result A) (l : list A) : option (result (list A)) :=
  match l with
  | [] => None
  | a :: l => if p a then Some (b ← f a; Ok (b :: l))
              else (fun r => rest ← r; Ok (a :: rest)) <$> update_first p f l
  end.
Definition check_message (checks : list TaskCheck) (message : value) : result value :=
  ensure (opt_eqb (get_str message "role") (Some "assistant"%string) &&
          opt_str_in (get_str message "status") TERMINAL_KINDS) "Message cannot be edited" ;;
  insert_member "Invalid message" "taskChecks" (JArray (json_check <$> checks)) message.
Definition save_task_checks (data : value) (id : string) (checks : list TaskCheck) : result value :=
  ensure (length checks <=? 256) "Too many task selections" ;;
  ensure (forallb (fun c => (0 <=? tk_index c)%Z && (tk_index c <? 256)%Z) checks &&
          bool_decide (NoDup (tk_index <$> checks))) "Invalid task selection" ;;
  messages ← with_context "Message unavailable" (get_array data "messages");
  updated ← with_context "Message unavailable"
    (update_first (fun message => opt_eqb (get_str message "id") (Some id)) (check_message checks) messages);
  messages ← updated;
  insert_member "Message unavailable" "messages" (JArray messages) data.
