(* ===== verification/Agents.v ===== *)
(** * Agents: the capabilities of specialists (gateway domain/capabilities.rs and
    usecases/pengolo.rs)

    Agents carry Skills; a Skill requires other capabilities of the deployment's
    catalog.  The searches over the requirements are loops with a stack, given fuel
    for every entry they can push. *)

From S2P Require Import Prelude Text RustStr Json Serde Authoring Pengolo.
From Stdlib Require Import Ascii.

Inductive CapabilityKind : Type := Input | Output | Model | Mcp | Skill | Algorithm.
Inductive CapabilityTarget : Type := TargetPipeline | TargetScribe.
Inductive CapabilityOrigin : Type := OriginPlugin | OriginUser.
Inductive CapabilityExecution : Type := Registered | Declared.
#[export] Instance kind_eq_dec : EqDecision CapabilityKind.
Proof. solve_decision. Defined.
#[export] Instance target_eq_dec : EqDecision CapabilityTarget.
Proof. solve_decision. Defined.
#[export] Instance execution_eq_dec : EqDecision CapabilityExecution.
Proof. solve_decision. Defined.
Record Capability : Type := {
  cb_id : string;
  cb_plugin_id : option string;
  cb_plugin_version : option string;
  cb_origin : CapabilityOrigin;
  cb_execution : CapabilityExecution;
  cb_allowed_models : list string;
  cb_requires : list string;
  cb_kind : CapabilityKind;
  cb_targets : list CapabilityTarget;
  cb_name : string;
  cb_description : string;
  cb_parameters_schema : value;
  cb_step_type : option string;
  cb_model_class : option string;
}.
(** The capabilities of a [CapabilityCatalog]; its schema version is checked where
    the catalog is read. *)
Definition catalog : Type := list Capability.
Definition find_capability (c : catalog) (id : string) : option Capability :=
  List.find (fun item => String.eqb (cb_id item) id) c.
(** The entries a search can push: its starting points and, for each capability it
    expands, the requirements. *)
Definition search_fuel (c : catalog) (start : nat) : nat :=
  S (start + sum_list (length <$> (cb_requires <$> c))).

(** ** agent_tools *)
Definition usable (model : option string) (item : Capability) : bool :=
  bool_decide (cb_execution item = Registered) && bool_decide (TargetScribe ∈ cb_targets item) &&
  is_none_or (fun model => Nat.eqb (length (cb_allowed_models item)) 0 || str_in model (cb_allowed_models item)) model.
Definition is_skill (item : Capability) : bool := bool_decide (cb_kind item = Skill).
(** One popped capability: its checks, and the tool it adds. *)
Definition admit_capability (model : option string) (skills : list string) (item : Capability) (tools : list string)
    : result (list string) :=
  ensure (usable model item) "Skill or dependency is incompatible with this model" ;;
  if is_skill item then
    ensure (str_in (cb_id item) skills) "Select the required Skill" ;; Ok tools
  else
    ensure (bool_decide (cb_kind item = Mcp) || bool_decide (cb_kind item = Algorithm))
      "Unsupported Skill dependency" ;;
    Ok (if starts_with "core." (cb_id item) then tools else tools ++ [cb_id item]).
Fixpoint tools_loop (fuel : nat) (c : catalog) (model : option string) (skills : list string)
    (pending : list Capability) (visited : gset string) (tools : list string) : option (result (list string)) :=
  match fuel with
  | 0 => None
  | S fuel =>
      match pending with
      | [] => Some (Ok tools)
      | item :: pending =>
          if bool_decide (cb_id item ∈ visited) then tools_loop fuel c model skills pending visited tools else
          match admit_capability model skills item tools with
          | Err e => Some (Err e)
          | Ok tools =>
              match mapM (fun id => with_context "Skill dependency unavailable" (find_capability c id))
                      (cb_requires item) with
              | Err e => Some (Err e)
              | Ok required =>
                  tools_loop fuel c model skills (rev required ++ pending) ({[cb_id item]} ∪ visited) tools
              end
          end
      end
  end.
Definition start_skill (c : catalog) (id : string) : result Capability :=
  skill ← with_context "Skill unavailable" (find_capability c id);
  ensure (is_skill skill) "Skill unavailable" ;;
  Ok skill.
Definition agent_tools (c : catalog) (skills : list string) (model : option string) : result (list string) :=
  start ← mapM (start_skill c) skills;
  match tools_loop (search_fuel c (length skills)) c model skills (rev start) ∅ [] with
  | None => Err (Foreign "out of fuel")
  | Some r =>
      tools ← r;
      ensure (length tools <=? 32) "Too many agent tools" ;;
      Ok tools
  end.
Definition validate_agent_skills (c : catalog) (skills : list string) (model : option string) : result unit :=
  (fun _ => tt) <$> agent_tools c skills model.

(** ** plugin_specialists *)
Fixpoint specialist_loop (fuel : nat) (c : catalog) (pending : list string) (visited : gset string)
    (skills : list string) : option (result (list string)) :=
  match fuel with
  | 0 => None
  | S fuel =>
      match pending with
      | [] => Some (Ok skills)
      | id :: pending =>
          if bool_decide (id ∈ visited) then specialist_loop fuel c pending visited skills else
          let visited := {[id]} ∪ visited in
          if 256 <? size visited then Some (Err (Msg "Specialist dependencies exceed limit")) else
          match find_capability c id with
          | None => Some (Err (Msg "Missing specialist dependency"))
          | Some item =>
              specialist_loop fuel c (rev (cb_requires item) ++ pending) visited
                (if is_skill item then skills ++ [cb_id item] else skills)
          end
      end
  end.
Definition offered (skill : Capability) : bool :=
  option_is_some (cb_plugin_id skill) && is_skill skill && bool_decide (cb_execution skill = Registered) &&
  bool_decide (TargetScribe ∈ cb_targets skill).
Section specialists.
Context `{Externals}.
Definition specialist_record (skill : Capability) (skills : list string) : PengoloRecord :=
  {| rc_id := take_bytes 32 (sha256_hex ("galadril-plugin-specialist-v1:" +:+ cb_id skill));
     rc_owner_id := EmptyString; rc_project_id := None; rc_expires_at := None; rc_revision := 1; rc_updated_at := 0;
     rc_data := JObject [("name", JString (cb_name skill)); ("mission", JString (cb_description skill));
       ("skillIds", json_strings skills); ("readOnly", JBool true); ("pluginId", json_opt JString (cb_plugin_id skill))] |}.
Definition specialist (c : catalog) (skill : Capability) : result PengoloRecord :=
  match specialist_loop (search_fuel c 1) c [cb_id skill] ∅ [] with
  | None => Err (Foreign "out of fuel")
  | Some r =>
      skills ← r;
      ensure (length skills <=? 8) "Specialist has too many Skills" ;;
      Ok (specialist_record skill skills)
  end.
Definition plugin_specialists (c : catalog) : result (list PengoloRecord) :=
  mapM (specialist c) (List.filter offered c).
End specialists.
