(* ===== verification/AgentsFacts.v ===== *)
(** * AgentsFacts: an agent gets exactly the tools its Skills require *)

From S2P Require Import Prelude Text RustStr Json Serde Authoring Pengolo Agents.

Lemma elem_of_rev {A} (x : A) l : x ∈ rev l <-> x ∈ l.
Proof. rewrite !list_elem_of_In. symmetry. apply in_rev. Qed.

Lemma Forall2_elem_r {A B} (P : A -> B -> Prop) l k y : Forall2 P l k -> y ∈ k -> exists x, x ∈ l /\ P x y.
Proof.
  induction 1 as [|x z l k HP _ IH]; [by intros ?%not_elem_of_nil|]. intros [->|Hin]%elem_of_cons; [set_solver|].
  destruct (IH Hin) as (x' & ? & ?). exists x'. set_solver.
Qed.
(** An error of the code itself. *)
Definition own_error (e : error) : Prop := exists message, e = Msg message.

Section agents.
Context (c : catalog) (model : option string) (skills : list string).

(** What the Skills require, directly or not. *)
Inductive needed : string -> Prop :=
  | needed_skill id : id ∈ skills -> needed id
  | needed_step id item dep :
      needed id -> find_capability c id = Some item -> dep ∈ cb_requires item -> needed dep.
(** The conditions on one required capability. *)
Definition capability_ok (item : Capability) : Prop :=
  usable model item = true /\
  if is_skill item then cb_id item ∈ skills else cb_kind item = Mcp \/ cb_kind item = Algorithm.
Definition admissible : Prop :=
  (forall id, id ∈ skills -> exists item, find_capability c id = Some item /\ is_skill item = true) /\
  forall id, needed id -> exists item, find_capability c id = Some item /\ capability_ok item.
Definition is_tool (id : string) : Prop :=
  exists item, find_capability c id = Some item /\ is_skill item = false /\ starts_with "core." id = false.

Lemma find_capability_Some id item :
  find_capability c id = Some item -> item ∈ c /\ cb_id item = id.
Proof.
  intros [Hin Hid]%List.find_some. split; [by apply list_elem_of_In|]. by apply String.eqb_eq.
Qed.
(** The requirements of the capabilities that are not expanded yet. *)
Fixpoint weight (visited : gset string) (l : catalog) : nat :=
  match l with
  | [] => 0
  | item :: l => (if bool_decide (cb_id item ∈ visited) then 0 else length (cb_requires item)) + weight visited l
  end.
Lemma weight_start l : weight ∅ l = sum_list (length <$> (cb_requires <$> l)).
Proof. induction l as [|item l IH]; [done|]. csimpl. rewrite IH. by case_bool_decide. Qed.
Lemma weight_mono visited visited' l : visited ⊆ visited' -> weight visited' l <= weight visited l.
Proof.
  intros Hsub. induction l as [|item l IH]; [done|]. simpl. repeat case_bool_decide; try lia. exfalso; set_solver.
Qed.
Lemma weight_expand visited l item :
  item ∈ l -> cb_id item ∉ visited ->
  length (cb_requires item) + weight ({[cb_id item]} ∪ visited) l <= weight visited l.
Proof.
  intros Hin Hv. induction l as [|x l IH]; [by apply not_elem_of_nil in Hin|].
  pose proof (weight_mono visited ({[cb_id item]} ∪ visited) l ltac:(set_solver)) as Hm.
  simpl. apply elem_of_cons in Hin as [->|Hin].
  - rewrite (bool_decide_eq_false_2 (cb_id x ∈ visited)) by done.
    rewrite (bool_decide_eq_true_2 (cb_id x ∈ _)) by set_solver. lia.
  - specialize (IH Hin). repeat case_bool_decide; try lia. exfalso; set_solver.
Qed.

Record search_ok (pending : list Capability) (visited : gset string) (tools : list string) : Prop := {
  so_pending item : item ∈ pending -> find_capability c (cb_id item) = Some item /\ needed (cb_id item);
  so_visited id : id ∈ visited -> needed id /\ exists item, find_capability c id = Some item /\ capability_ok item /\
    forall dep, dep ∈ cb_requires item -> dep ∈ visited \/ dep ∈ cb_id <$> pending;
  so_skills id : id ∈ skills -> id ∈ visited \/ id ∈ cb_id <$> pending;
  so_nodup : NoDup tools;
  so_tools id : id ∈ tools <-> id ∈ visited /\ is_tool id;
}.
Lemma admit_capability_spec item tools :
  match admit_capability model skills item tools with
  | Ok tools' => capability_ok item /\
      tools' = if is_skill item || starts_with "core." (cb_id item) then tools else tools ++ [cb_id item]
  | Err e => ~ capability_ok item /\ own_error e
  end.
Proof.
  unfold admit_capability, capability_ok. unfold own_error. destruct (usable model item); simpl; [|split; [by intros []|eauto]].
  destruct (is_skill item); simpl.
  - destruct (str_in (cb_id item) skills) eqn:E; simpl.
    + split; [|done]. split; [done|]. apply existsb_exists in E as (x & Hx & ->%String.eqb_eq). by apply list_elem_of_In.
    + split; [|eauto]. intros [_ Hin]. apply not_true_iff_false in E. apply E, existsb_exists. exists (cb_id item).
      split; [by apply list_elem_of_In|apply String.eqb_refl].
  - case_bool_decide; simpl; [split; [by auto|done]|]. case_bool_decide; simpl; [split; [by auto|done]|].
    split; [|eauto]. intros [_ []]; done.
Qed.
Lemma requires_found deps :
  match mapM (fun id => with_context "Skill dependency unavailable" (find_capability c id)) deps with
  | Ok items => Forall2 (fun id item => find_capability c id = Some item) deps items
  | Err e => (exists id, id ∈ deps /\ find_capability c id = None) /\ own_error e
  end.
Proof.
  induction deps as [|id deps IH]; [constructor|]. simpl.
  destruct (find_capability c id) as [item|] eqn:E; simpl; [|split; [exists id; set_solver|by eexists]].
  destruct (mapM _ deps) as [items|e]; simpl; [by constructor|].
  destruct IH as [(id' & Hin & Hn) He]. split; [|done]. exists id'. set_solver.
Qed.
Lemma search_skip item pending visited tools :
  search_ok (item :: pending) visited tools -> cb_id item ∈ visited -> search_ok pending visited tools.
Proof.
  intros [Hp Hv Hs Hn Ht] Hin. split; [set_solver| | |done|done].
  - intros id Hid. destruct (Hv id Hid) as (Hne & it & Hf & Hok & Hd). split; [done|]. exists it.
    split_and!; [done..|]. intros dep Hdep. destruct (Hd dep Hdep) as [?|Hc]; [by left|].
    rewrite fmap_cons in Hc. set_solver.
  - intros id Hid. destruct (Hs id Hid) as [?|Hc]; [by left|]. rewrite fmap_cons in Hc. set_solver.
Qed.
Lemma found_ids deps items :
  Forall2 (fun id item => find_capability c id = Some item) deps items -> cb_id <$> items = deps.
Proof.
  induction 1 as [|id item deps items Hf _ IH]; [done|]. csimpl. rewrite IH. f_equal. by apply find_capability_Some.
Qed.
Lemma search_expand item pending visited tools required :
  search_ok (item :: pending) visited tools -> cb_id item ∉ visited -> capability_ok item ->
  Forall2 (fun id it => find_capability c id = Some it) (cb_requires item) required ->
  search_ok (rev required ++ pending) ({[cb_id item]} ∪ visited)
    (if is_skill item || starts_with "core." (cb_id item) then tools else tools ++ [cb_id item]).
Proof.
  intros [Hp Hv Hs Hn Ht] Hnv Hok Hreq. destruct (Hp item) as [Hfi Hni]; [left|].
  pose proof (found_ids _ _ Hreq) as Hids.
  assert (forall id, id ∈ cb_id <$> (item :: pending) ->
    id ∈ {[cb_id item]} ∪ visited \/ id ∈ cb_id <$> (rev required ++ pending)) as Hmove.
  { intros id. rewrite fmap_cons, elem_of_cons, fmap_app. set_solver. }
  assert (forall id, id ∈ cb_requires item -> id ∈ cb_id <$> (rev required ++ pending)) as Hdeps.
  { intros id. rewrite <-Hids, !list_elem_of_fmap. intros (it & -> & Hit). exists it. split; [done|].
    apply elem_of_app. left. by apply elem_of_rev. }
  split.
  - intros it [Hit|Hit]%elem_of_app; [|apply Hp; by right]. rewrite elem_of_rev in Hit.
    destruct (Forall2_elem_r _ _ _ _ Hreq Hit) as (id & Hid & Hf).
    destruct (find_capability_Some _ _ Hf) as [_ <-]. split; [done|].
    by eapply needed_step.
  - intros id [->%elem_of_singleton|Hid]%elem_of_union.
    + split; [done|]. exists item. split_and!; [done..|]. intros dep Hdep. right. by apply Hdeps.
    + destruct (Hv id Hid) as (Hne & it & Hf & Hokit & Hd). split; [done|]. exists it. split_and!; [done..|].
      intros dep Hdep. destruct (Hd dep Hdep) as [?|Hc]; [set_solver|]. by apply Hmove.
  - intros id Hid. destruct (Hs id Hid) as [?|Hc]; [set_solver|]. by apply Hmove.
  - destruct (_ || _); [done|]. rewrite NoDup_app. split_and!; [done| |apply NoDup_singleton].
    intros id Hid ->%list_elem_of_singleton. apply Ht in Hid as [Hid _]. done.
  - intros id. assert (is_tool (cb_id item) <-> is_skill item || starts_with "core." (cb_id item) = false) as Htool.
    { unfold is_tool. rewrite orb_false_iff. split; [|intros []; eauto].
      intros (it & Hf & ? & ?). by assert (it = item) as -> by congruence. }
    destruct (_ || _); [|rewrite elem_of_app, list_elem_of_singleton]; rewrite Ht, elem_of_union, elem_of_singleton.
    + split; [tauto|]. intros [[->|?] Hit]; [|done]. by apply Htool in Hit.
    + split; [intros [[? ?]|Heq]; [tauto|subst id]; split; [by left|by apply Htool]|tauto].
Qed.
Lemma tools_loop_spec fuel pending visited tools :
  search_ok pending visited tools -> length pending + weight visited c < fuel ->
  match tools_loop fuel c model skills pending visited tools with
  | None => False
  | Some (Ok tools') => exists visited', search_ok [] visited' tools'
  | Some (Err e) => ~ admissible /\ own_error e
  end.
Proof.
  revert pending visited tools. induction fuel as [|fuel IH]; intros pending visited tools Hok Hf; [lia|].
  simpl. destruct pending as [|item pending]; [by exists visited|]. simpl in Hf. case_bool_decide as Hv.
  - apply IH; [by eapply search_skip|lia].
  - destruct (so_pending _ _ _ Hok item) as [Hfi Hni]; [left|].
    pose proof (admit_capability_spec item tools) as Ha.
    destruct (admit_capability model skills item tools) as [tools'|e].
    2: { destruct Ha as [Ha He]. split; [|done]. intros [_ Hadm]. destruct (Hadm _ Hni) as (it & Hfit & Hokit). congruence. }
    destruct Ha as [Hoki ->]. pose proof (requires_found (cb_requires item)) as Hreq.
    destruct (mapM _ (cb_requires item)) as [required|e].
    + apply IH; [by apply search_expand|]. rewrite length_app, length_rev.
      pose proof (weight_expand visited c item (proj1 (find_capability_Some _ _ Hfi)) Hv).
      apply Forall2_length in Hreq. lia.
    + destruct Hreq as [(id & Hid & Hnone) He]. split; [|done]. intros [_ Hadm].
      destruct (Hadm id) as (it & Hfit & _); [by eapply needed_step|congruence].
Qed.
Lemma search_complete visited tools : search_ok [] visited tools -> forall id, id ∈ visited <-> needed id.
Proof.
  intros [_ Hv Hs _ _] id. split; [intros Hid; by apply Hv|].
  induction 1 as [id Hid|id item dep _ IH Hf Hdep].
  - destruct (Hs id Hid) as [?|Hc]; [done|]. by apply not_elem_of_nil in Hc.
  - destruct (Hv _ IH) as (_ & it & Hfit & _ & Hd). assert (it = item) as -> by congruence.
    destruct (Hd dep Hdep) as [?|Hc]; [done|]. by apply not_elem_of_nil in Hc.
Qed.
Lemma start_skill_Ok id item : start_skill c id = Ok item <-> find_capability c id = Some item /\ is_skill item = true.
Proof.
  unfold start_skill. destruct (find_capability c id) as [it|]; simpl; [|split; [done|by intros []]].
  destruct (is_skill it) eqn:E; simpl.
  - split; [by intros [= <-]|by intros [[= ->] _]].
  - split; [done|]. intros [[= ->] ?]. congruence.
Qed.
Lemma start_ok start : mapM (start_skill c) skills = Ok start -> search_ok (rev start) ∅ [].
Proof.
  intros Hs. apply mapM_Ok_Forall2 in Hs.
  assert (Forall2 (fun id item => find_capability c id = Some item) skills start) as Hf.
  { eapply Forall2_impl; [exact Hs|]. intros id item Hi. by apply start_skill_Ok in Hi as []. }
  pose proof (found_ids _ _ Hf) as Hids. split.
  - intros item. rewrite elem_of_rev. intros Hit. destruct (Forall2_elem_r _ _ _ _ Hf Hit) as (id & Hid & Hfi).
    destruct (find_capability_Some _ _ Hfi) as [_ <-]. split; [done|]. by constructor.
  - set_solver.
  - intros id. rewrite <-Hids at 1. rewrite !list_elem_of_fmap. intros (it & -> & Hit). right. exists it.
    split; [done|]. by apply elem_of_rev.
  - constructor.
  - set_solver.
Qed.
Lemma start_admissible : admissible -> exists start, mapM (start_skill c) skills = Ok start.
Proof.
  intros [Ha _]. revert Ha. generalize skills. intros l Ha. induction l as [|id l IH]; [by exists []|].
  destruct IH as [start Hst]; [set_solver|]. destruct (Ha id) as (item & Hi); [left|].
  apply start_skill_Ok in Hi. exists (item :: start). simpl. by rewrite Hi, Hst.
Qed.

Lemma start_own_error l e : mapM (start_skill c) l = Err e -> own_error e.
Proof.
  unfold own_error. revert e. induction l as [|id l IH]; intros e; [done|]. simpl.
  destruct (start_skill c id) as [item|e'] eqn:Hs; simpl.
  - destruct (mapM _ l); simpl; [done|]. intros [= <-]. by apply IH.
  - intros [= <-]. revert Hs. unfold start_skill. destruct (find_capability c id) as [it|]; simpl; [|intros [= <-]; eauto].
    destruct (is_skill it); simpl; [done|]. intros [= <-]. eauto.
Qed.

(** An agent gets exactly the tools its Skills require: when [agent_tools]
    accepts a selection, every capability the Skills require, directly or not, is
    in the catalog, registered for Scribe and compatible with the model, every
    required Skill was selected, and the tools are, without repetition, the
    required capabilities that are neither Skills nor built in, at most 32; it
    accepts every such selection, and it always ends, on cyclic catalogs too. *)
Theorem agent_tools_exact :
  agent_tools c skills model <> Err (Foreign "out of fuel") /\
  (forall tools, agent_tools c skills model = Ok tools ->
     admissible /\ NoDup tools /\ length tools <= 32 /\ forall id, id ∈ tools <-> needed id /\ is_tool id) /\
  (admissible -> (forall tools, NoDup tools -> (forall id, id ∈ tools -> needed id /\ is_tool id) -> length tools <= 32) ->
     exists tools, agent_tools c skills model = Ok tools).
Proof.
  unfold agent_tools. destruct (mapM (start_skill c) skills) as [start|e] eqn:Hst.
  2: { destruct (start_own_error _ _ Hst) as [m ->]. split_and!; [done..|].
       intros Ha _. destruct (start_admissible Ha). congruence. }
  assert (forall id, id ∈ skills -> exists item, find_capability c id = Some item /\ is_skill item = true) as Hskills.
  { intros id Hid. apply mapM_Ok_Forall2, Forall2_flip in Hst.
    destruct (Forall2_elem_r _ _ _ _ Hst Hid) as (item & _ & Hf). exists item. by apply start_skill_Ok. }
  assert (search_fuel c (length skills) = S (length (rev start) + weight ∅ c)) as Hfuel.
  { unfold search_fuel. rewrite weight_start, length_rev. apply mapM_Ok_Forall2, Forall2_length in Hst. by rewrite Hst. }
  pose proof (tools_loop_spec (search_fuel c (length skills)) (rev start) ∅ [] (start_ok _ Hst) ltac:(lia)) as Hl.
  revert Hl. generalize (search_fuel c (length skills)). intros fuel Hl. simpl. destruct (tools_loop _ c model skills (rev start) ∅ []) as [[tools|e]|]; [| |done].
  - destruct Hl as [visited Hok]. pose proof (search_complete _ _ Hok) as Hcomp.
    assert (forall id, id ∈ tools <-> needed id /\ is_tool id) as Ht.
    { intros id. by rewrite (so_tools _ _ _ Hok), Hcomp. }
    simpl. destruct (length tools <=? 32) eqn:E32; simpl; split_and!.
    + done.
    + intros ? [= <-]. apply Nat.leb_le in E32. split; [|split_and!; [exact (so_nodup _ _ _ Hok)|done|done]].
      split; [done|]. intros id Hid%Hcomp. destruct (so_visited _ _ _ Hok id Hid) as (_ & it & ? & ? & _); eauto.
    + eauto.
    + done.
    + done.
    + intros _ Hlen. apply Nat.leb_gt in E32.
      pose proof (Hlen tools (so_nodup _ _ _ Hok) (fun id H => proj1 (Ht id) H)). lia.
  - destruct Hl as [Hl [m ->]]. by split_and!.
Qed.
End agents.
