(* ===== verification/Activity.v ===== *)
(** * Activity: progress and answers of agents (gateway domain/agent_activity.rs)

    What an agent reports while it works is public and replayed to the user, so
    every report is checked before it is stored; so are the answers of users. *)

From S2P Require Import Prelude Text RustStr Json Serde Authoring Pengolo.
From Stdlib Require Import Ascii.

Definition identifier (v : string) : bool :=
  negb (is_empty v) && len_le v 128 && bytes_all (fun byte => is_ascii_alphanumeric byte || one_of "_.-" byte) v.
Definition bounded (v : string) (maximum : nat) (empty : bool) : bool :=
  (empty || negb (trim_is_empty v)) && (chars_count v <=? maximum).
Definition mailbox_identifier (v : string) : bool :=
  (String.length v =? 32) && bytes_all (fun byte => is_ascii_digit byte || byte_between 97 102 byte) v.

(** A parsed URL, as far as the gateway looks at it. *)
Record Url : Type := {
  ul_scheme : string;
  ul_host : option string;
  ul_username : string;
  ul_password : option string;
  ul_port : option N;
  ul_origin : string;
}.
Inductive Phase : Type := PhaseTool | Thinking | Writing | PhaseAgent | Waiting.
Inductive WarningSource : Type :=
  | WSearch | WGraph | WCausal | WLibrary | WReadFile | WDocumentSearch | WSearchEvidence | WAttachment | WWeb
  | WRunPython | WTool.
Inductive PlanOperation : Type := Upsert | PlanDelete.
Inductive TaskStatus : Type := TaskPending | InProgress | TaskCompleted | TaskCancelled | Blocked.
Record PlanTask : Type := {
  pt_id : string;
  pt_content : string;
  pt_status : TaskStatus;
  pt_active_form : string;
  pt_parent_id : option string;
}.
Record QuestionOption : Type := { qo_label : string; qo_description : option string }.
Record Question : Type := {
  qn_header : string;
  qn_question : string;
  qn_options : list QuestionOption;
  qn_multi_select : bool;
}.
Record ReplySource : Type := { rs_account : string; rs_message : string }.
Record WebSite : Type := { ws_origin : string; ws_result_count : N }.
Inductive AgentActivity : Type :=
  | WebResearch (id : string) (sites : list WebSite)
  | EmailDraft (id : string) (to cc bcc : list string) (subject body : string) (reply_source : option ReplySource)
  | Billing (provider reason : string)
  | Python (id channel data : string)
  | Warning (source : WarningSource)
  | PhaseChange (phase : Phase) (agent_id : option string)
  | Plan (operation : PlanOperation) (agent_id : option string) (task : PlanTask)
  | Questions (id : string) (questions : list Question)
  | QuestionResolved (id : string) (cancelled : bool).

(** The reader of the tagged format, and the crate url. *)
Class ActivityExternals := {
  activity_from_str : string -> result AgentActivity;
  url_parse : string -> option Url;
}.

(** [host.parse::<IpAddr>()] of a host with a dot; hosts with a colon are refused
    by the check of the labels. *)
Definition octet (part : string) : bool :=
  match part with
  | EmptyString => false
  | String first rest =>
      bytes_all is_ascii_digit part && len_le part 3 && (is_empty rest || negb (Ascii.eqb first "0")) &&
      match String.length part with
      | 3 => String.leb part "255"
      | _ => true
      end
  end.
Definition is_ip_addr (host : string) : bool :=
  let parts := split_byte "."%char host in (length parts =? 4) && forallb octet parts.
Definition host_label (label : string) : bool :=
  negb (is_empty label) && len_le label 63 && bytes_all (fun byte => is_ascii_alphanumeric byte || one_of "-" byte) label.
Definition PRIVATE_SUFFIXES : list string :=
  [".local"; ".localhost"; ".internal"; ".invalid"; ".test"; ".lan"; ".home"; ".localdomain"; ".example"].
Section activity.
Context `{ActivityExternals}.
Definition public_web_origin (v : string) : option string :=
  url ← url_parse v;
  host ← ul_host url;
  if negb (str_in (ul_scheme url) ["http"; "https"]) || negb (is_empty (ul_username url)) ||
     option_is_some (ul_password url) || option_is_some (ul_port url) || negb (contains "." host) ||
     is_ip_addr host || ends_with "." host || negb (len_le host 253) ||
     negb (forallb host_label (split_byte "."%char host)) ||
     existsb (fun suffix => ends_with suffix host) PRIVATE_SUFFIXES
  then None else Some (ul_origin url).

Definition count_site (sites : gmap string N) (item : value) : gmap string N :=
  match get_str item "url" ≫= public_web_origin with
  | Some origin => <[origin := (default 0 (sites !! origin) + 1)%N]> sites
  | None => sites
  end.
Definition web_research_sites (results : list value) : list WebSite :=
  (fun site => {| ws_origin := site.1; ws_result_count := site.2 |}) <$>
    btree_entries (foldl count_site ∅ (take 8 results)).
(** Results of a public search, projected for the model (usecases/pengolo.rs). *)
Definition project_result (result : value) : option value :=
  raw_url ← get_str result "url";
  url ← (if len_le raw_url 4096 then url_parse raw_url else None);
  if negb (str_in (ul_scheme url) ["http"; "https"]) || negb (is_empty (ul_username url)) || option_is_some (ul_password url)
  then None
  else Some (JObject [("url", JString raw_url);
    ("title", JString (take_chars 512 (default EmptyString (get_str result "title"))));
    ("content", JString (take_chars 4096 (default EmptyString (get_str result "content"))))]).
Definition json_site (site : WebSite) : value :=
  JObject [("origin", JString (ws_origin site)); ("result_count", JNumber (PosInt (ws_result_count site)))].
Definition search_results (v : value) : result value :=
  results ← with_context "Search results unavailable" (get_array v "results");
  let projected := take 8 (omap project_result (take 32 results)) in
  Ok (JObject [("results", JArray projected);
               ("research", JObject [("sites", JArray (json_site <$> web_research_sites projected))])]).

Fixpoint check_sites (sites : list WebSite) (origins : gset string) : bool :=
  match sites with
  | [] => true
  | site :: sites =>
      (0 <? ws_result_count site)%N && (ws_result_count site <=? 8)%N && len_le (ws_origin site) 300 &&
      opt_eqb (public_web_origin (ws_origin site)) (Some (ws_origin site)) &&
      bool_decide (ws_origin site ∉ origins) && check_sites sites ({[ws_origin site]} ∪ origins)
  end.
Definition recipient (address : string) : bool :=
  len_le address 320 && contains "@" address && negb (any_control address).
Definition python_fragment (channel data : string) : bool :=
  if str_in channel ["code"; "output"] then chars_count data <=? 256
  else if String.eqb channel "status" then str_in data ["running"; "completed"; "failed"]
  else if String.eqb channel "image" then
    let bare := trim_end_matches "="%char data in
    len_le data 2048 && (String.length data - String.length bare <=? 2) &&
    bytes_all (fun byte => is_ascii_alphanumeric byte || one_of "+/" byte) bare
  else false.
Fixpoint check_options (options : list QuestionOption) (labels : gset string) : result unit :=
  match options with
  | [] => Ok tt
  | option :: options =>
      ensure (bounded (qo_label option) 50 false && bool_decide (qo_label option ∉ labels) &&
              is_none_or (fun description => bounded description 200 true) (qo_description option))
        "Invalid question option" ;;
      check_options options ({[qo_label option]} ∪ labels)
  end.
Fixpoint check_questions (questions : list Question) (headers : gset string) : result unit :=
  match questions with
  | [] => Ok tt
  | question :: questions =>
      ensure (bounded (qn_header question) 25 false && bounded (qn_question question) 500 false &&
              bool_decide (qn_header question ∉ headers)) "Invalid question" ;;
      ensure ((2 <=? length (qn_options question)) && (length (qn_options question) <=? 6)) "Invalid question options" ;;
      check_options (qn_options question) ∅ ;;
      check_questions questions ({[qn_header question]} ∪ headers)
  end.
Definition check_activity (activity : AgentActivity) : result unit :=
  match activity with
  | WebResearch id sites =>
      ensure (identifier id && negb (length sites =? 0) && (length sites <=? 8)) "Invalid search activity" ;;
      ensure (check_sites sites ∅) "Invalid public search sites"
  | EmailDraft id to cc bcc subject body reply_source =>
      ensure (is_none_or (fun source => mailbox_identifier (rs_account source) && mailbox_identifier (rs_message source))
                reply_source) "Invalid reply source" ;;
      ensure (identifier id && negb (length to =? 0) && (length to <=? 20) && (length cc <=? 20) && (length bcc <=? 20))
        "Invalid email proposal" ;;
      ensure (bounded subject 998 false && bounded body 16384 false && negb (any_control subject))
        "Invalid email content" ;;
      ensure (forallb recipient (to ++ cc ++ bcc)) "Invalid email recipients"
  | Billing provider reason =>
      ensure (str_in provider ["chatgpt"; "api"] &&
              str_in reason ["connected"; "not_connected"; "quota"; "model_unavailable"]) "Invalid billing labels"
  | Python id channel data =>
      ensure (identifier id) "Invalid execution ID" ;;
      ensure (python_fragment channel data) "Invalid Python activity fragment"
  | Warning _ => Ok tt
  | PhaseChange _ agent_id => ensure (is_none_or identifier agent_id) "Invalid agent ID"
  | Plan _ agent_id task =>
      ensure (is_none_or identifier agent_id && identifier (pt_id task) && is_none_or identifier (pt_parent_id task))
        "Invalid plan identifier" ;;
      ensure (bounded (pt_content task) 2048 false && bounded (pt_active_form task) 2048 true) "Invalid plan task"
  | Questions id questions =>
      ensure (identifier id && negb (length questions =? 0) && (length questions <=? 10)) "Invalid question set" ;;
      check_questions questions ∅
  | QuestionResolved id _ => ensure (identifier id) "Invalid question ID"
  end.
Definition parse_activity (content : string) : result AgentActivity :=
  ensure (byte_len content <=? 65536)%N "Activity exceeds limit" ;;
  activity ← or_message "Invalid agent activity" (activity_from_str content);
  check_activity activity ;;
  Ok activity.
Definition TOOLS : list string :=
  ["context"; "web"; "search"; "graph"; "causal"; "library"; "read_file"; "document_templates"; "compile_document";
   "document_job"; "document_search"; "evidence"; "date_interval"; "run_python"; "mcp"].
(** domain/pengolo.rs *)
Definition validate_tool_progress (event : OutputEvent) : result unit :=
  (if String.eqb (oe_kind event) "activity" then (fun _ => tt) <$> parse_activity (oe_content event) else Ok tt) ;;
  if String.eqb (oe_kind event) "tool" then ensure (str_in (oe_content event) TOOLS) "Invalid tool progress" else Ok tt.
End activity.

(** ** Human answers *)
Record AnswerValue : Type := { av_header : string; av_selected : list string; av_custom_answer : option string }.
Record AnswerInput : Type := {
  an_id : string;
  an_question_id : string;
  an_answers : list AnswerValue;
  an_cancelled : bool;
  an_temporary : bool;
}.
Definition de_answer (v : value) : result AnswerValue :=
  m ← struct_members [plain "header"; dflt "selected"; plain "customAnswer"] v;
  header ← required de_string "header" m;
  selected ← defaulted (de_vec de_string) [] "selected" m;
  custom_answer ← optional de_string "customAnswer" m;
  Ok {| av_header := header; av_selected := selected; av_custom_answer := custom_answer |}.
Definition de_answers (v : value) : result AnswerInput :=
  m ← struct_members [plain "id"; plain "questionId"; dflt "answers"; dflt "cancelled"; dflt "temporary"] v;
  id ← required de_string "id" m;
  question_id ← required de_string "questionId" m;
  answers ← defaulted (de_vec de_answer) [] "answers" m;
  cancelled ← defaulted de_bool false "cancelled" m;
  temporary ← defaulted de_bool false "temporary" m;
  Ok {| an_id := id; an_question_id := question_id; an_answers := answers; an_cancelled := cancelled;
        an_temporary := temporary |}.
Definition NEWLINE : string := String "010" EmptyString.
Fixpoint check_labels (labels : list string) (selected : gset string) : result unit :=
  match labels with
  | [] => Ok tt
  | label :: labels =>
      ensure (bounded label 50 false && bool_decide (label ∉ selected)) "Invalid answer selection" ;;
      check_labels labels ({[label]} ∪ selected)
  end.
Fixpoint check_answers (answers : list AnswerValue) (headers : gset string) : result unit :=
  match answers with
  | [] => Ok tt
  | answer :: answers =>
      ensure (bounded (av_header answer) 25 false && bool_decide (av_header answer ∉ headers)) "Invalid answer header" ;;
      ensure ((length (av_selected answer) <=? 6) &&
              is_none_or (fun _ => length (av_selected answer) =? 0) (av_custom_answer answer)) "Ambiguous answer" ;;
      check_labels (av_selected answer) ∅ ;;
      match av_custom_answer answer with
      | Some custom => ensure (bounded custom 4096 false && negb (any_control_but NEWLINE custom)) "Invalid custom answer"
      | None => ensure (negb (length (av_selected answer) =? 0)) "Missing answer"
      end ;;
      check_answers answers ({[av_header answer]} ∪ headers)
  end.
Definition parse_answer `{Externals} (v : value) : result AnswerInput :=
  bytes ← json_to_vec v;
  ensure (byte_len bytes <=? 65536)%N "Answer exceeds limit" ;;
  input ← or_message "Invalid human answer" (de_answers v);
  ensure ((String.length (an_id input) =? 32) && bytes_all is_ascii_hexdigit (an_id input) &&
          identifier (an_question_id input)) "Invalid answer scope" ;;
  ensure ((length (an_answers input) <=? 10) && Bool.eqb (an_cancelled input) (length (an_answers input) =? 0))
    "Invalid answer set" ;;
  check_answers (an_answers input) ∅ ;;
  Ok input.
Definition scribe_payload (input : AnswerInput) : value :=
  JObject [("question_id", JString (an_question_id input));
    ("answers", JArray ((fun answer => JObject [("header", JString (av_header answer));
       ("selected", json_strings (av_selected answer)); ("custom_answer", json_opt JString (av_custom_answer answer))])
       <$> an_answers input));
    ("cancelled", JBool (an_cancelled input))].

(** usecases/agent_interactions.rs *)
Inductive QuestionError : Type := Forbidden | InvalidAnswer | Rejected | Unavailable.
Definition answer_authority (owner user status : string) : option QuestionError :=
  if negb (String.eqb owner user) then Some Forbidden
  else if negb (str_in status ["pending"; "running"]) then Some Rejected
  else None.
