(* ===== verification/CompilerTools.v ===== *)
(** * CompilerTools: what the gateway and the document compiler share

    The model-visible operations on templates and the packaged templates of plugins
    (platform/document-compiler, tools.rs), and the stored ZIP archives of exports
    (archive.rs). *)

From S2P Require Import Prelude Text RustStr Json Authoring Template.

(** ** Operations on templates (tools.rs) *)
Record TemplateDraft : Type := {
  td_id : option string;
  td_name : string;
  td_description : string;
  td_scope : Scope;
  td_project : option string;
  td_plugin : option string;
  td_entrypoint : string;
  td_assets : list Asset;
  td_variables : gmap string TemplateVariable;
}.
Inductive TemplateOperation : Type :=
  | OpPluginCatalog
  | OpEnablePlugin (plugin_id : string) (enabled : bool)
  | OpExport (template_id version : string) (paths : list string) (name : string)
  | OpList (after : string)
  | OpRead (template_id version : string) (path : option string) (offset : N)
  | OpPut (template : TemplateDraft)
  | OpPublish (template_id version : string)
  | OpDelete (template_id version : string).
Record PluginTemplate : Type := {
  pt_plugin_id : string;
  pt_plugin_version : string;
  pt_key : string;
  pt_template : TemplateDraft;
}.
Definition plugin_template_id `{Externals} (tenant plugin key : string) : string :=
  "f" +:+ take_bytes 31 (sha256_hex (tenant +:+ "/" +:+ plugin +:+ "/" +:+ key)).

(** ** Archives (archive.rs) *)

(** The writer of the zip crate. *)
Class Zip := {
  ZipWriter : Type;
  zip_new : ZipWriter;
  zip_start_file : ZipWriter -> string -> result ZipWriter;
  zip_write_all : ZipWriter -> string -> result ZipWriter;
  zip_finish : ZipWriter -> result string;
}.
Section archive.
Context `{Zip}.
Record Archive : Type := {
  ac_writer : ZipWriter;
  ac_names : gset string;
  ac_size : N;
}.
Definition archive_new : Archive := {| ac_writer := zip_new; ac_names := ∅; ac_size := 0 |}.
Definition saturating_add (a b : N) : N := N.min (2 ^ 64 - 1) (a + b).
Definition archive_add (archive : Archive) (name data : string) : result Archive :=
  validate_path name ;;
  ensure ((size (ac_names archive) <? 64) && negb (bool_decide (name ∈ ac_names archive)))
    "Duplicate or excessive archive entries" ;;
  let size := saturating_add (saturating_add (ac_size archive) (byte_len data)) (byte_len name * 2 + 256) in
  ensure (size <=? MAX_PDF_BYTES)%N "Archive exceeds limit" ;;
  writer ← zip_start_file (ac_writer archive) name;
  writer ← zip_write_all writer data;
  Ok {| ac_writer := writer; ac_names := {[name]} ∪ ac_names archive; ac_size := size |}.
Definition archive_finish (archive : Archive) : result string :=
  ensure (negb (bool_decide (ac_names archive = ∅))) "Archive cannot be empty" ;;
  bytes ← zip_finish (ac_writer archive);
  ensure (byte_len bytes <=? MAX_PDF_BYTES)%N "Archive exceeds limit" ;;
  Ok bytes.
End archive.
