(* ===== verification/Workspace.v ===== *)
(** * Workspace: the workspace service of the gateway (usecases/pengolo.rs)

    [PengoloService] as programs over its ports: the record store, the object
    store, the user directory, authorization, roles, the agent runtime and the
    clock.  Every method is a definition of the same name; the replies are the JSON
    values it builds. *)

From S2P Require Import Prelude Text RustStr Json Serde Authoring Proc Authorization Pengolo.
From S2P Require Import Agents Activity CompilerTools.
From Stdlib Require Import Ascii.

(** ** Ports *)
Inductive Collection : Type := CPreference | CAgent | CChat | CProject | CFile | CGeneration.
#[export] Instance collection_eq_dec : EqDecision Collection.
Proof. solve_decision. Defined.
Inductive UserStatus : Type := Active | Disabled | NotFound.
Record RecordQuery : Type := {
  rq_tenant : string;
  rq_collection : Collection;
  rq_project : option string;
  rq_owner : string;
  rq_search : string;
  rq_after : option string;
  rq_limit : nat;
}.
Record Reservation : Type := { rv_chat : PengoloRecord; rv_generation : PengoloRecord; rv_created : bool }.
Record ObjectExpiry : Type := { oy_id : string; oy_staging : bool; oy_temporary : bool }.
Record AgentModel : Type := {
  am_alias : string;
  am_provider : string;
  am_model : string;
  am_reasoning_efforts : list string;
  am_default_reasoning_effort : option string;
}.
Record AgentModelCatalog : Type := { mc_models : list AgentModel; mc_default_model : option string }.

(** ports/access_store.rs *)
Record AccessTuple : Type := {
  at_resource_type : string;
  at_resource_id : string;
  at_relation : string;
  at_subject_type : string;
  at_subject_id : string;
  at_subject_relation : string;
}.

Inductive call : Type -> Type :=
  (* UserDirectory, Authorization, IamStore *)
  | GetUserStatus (tenant user : string) : call UserStatus
  | IsAuthorized (user tenant : string) (permission : Permission) (resource_type resource_id : string)
      (context : option QueryContext) : call bool
  | RoleNames (tenant user : string) : call (list string)
  | RoleExists (tenant role : string) : call bool
  (* PengoloStore *)
  | StoreGet (tenant : string) (c : Collection) (id : string) (temporary : bool) : call (option PengoloRecord)
  | StoreList (tenant : string) (c : Collection) (after : option string) (limit : nat) : call (list PengoloRecord)
  | ListScoped (query : RecordQuery) : call (list PengoloRecord)
  | StoreSave (tenant : string) (c : Collection) (record : PengoloRecord) (temporary : bool) (expected : option Z)
      : call PengoloRecord
  | SaveProject (tenant : string) (record : PengoloRecord) (expected : option Z) : call PengoloRecord
  | StoreRemove (tenant : string) (c : Collection) (id : string) (temporary : bool) : call unit
  | ReserveFile (tenant : string) (record : PengoloRecord) (temporary : bool) : call PengoloRecord
  | PromoteFile (tenant : string) (record : PengoloRecord) (temporary : bool) (file : StagedFile) : call PengoloRecord
  | RefreshRetention (tenant : string) (record : PengoloRecord) (temporary : bool) : call PengoloRecord
  | ExpireFile (tenant : string) (record : PengoloRecord) (temporary : bool) : call unit
  | PurgeFile (tenant id : string) (temporary staging : bool) : call bool
  | ExpireTemporary (tenant owner session : string) : call unit
  | Reserve (tenant actor : string) (input : SendInput) (capability : string) : call Reservation
  | Append (tenant generation : string) (temporary : bool) (event : OutputEvent) : call unit
  | StoreEvents (tenant generation : string) (temporary : bool) (after : Z) : call (list OutputEvent)
  | ResolveCapability (capability : string) : call (string * PengoloRecord * bool)
  | GenerationCapability (tenant id : string) : call (option string)
  | RecordEvidence (tenant generation : string) (temporary : bool) (sources : list EvidenceSource) : call unit
  | ExpireLeases (tenant : string) : call unit
  | CleanupTenants : call (list string)
  | ExpiredObjects (tenant : string) : call (list ObjectExpiry)
  | ExpiredRecords (tenant : string) : call (list (Collection * PengoloRecord * bool))
  (* PengoloObjects: a stream is the list of its items *)
  | ReadObject (key : string) : call (list (result string))
  | DownloadUrl (key : string) (ttl_seconds : N) : call string
  | UploadUrl (file : StagedFile) : call (string * list (string * string))
  | WriteStaging (file : StagedFile) (data : string) : call unit
  (* ConversationAgent, AccessStore *)
  | Models : call AgentModelCatalog
  | ModelsFor (owner : string) : call AgentModelCatalog
  | Capabilities : call catalog
  | SubmitGeneration (request : value) : call unit
  | CancelGeneration (id capability : string) : call unit
  | AnswerGeneration (id capability : string) (answer : value) : call unit
  | ChatgptOperation (request : value) : call value
  | EnqueueIndex (tenant id : string) : call unit
  | DocumentTemplates : call (list PluginTemplate)
  | SetAccess (tenant : string) (tuples : list AccessTuple) (enabled : bool) : call unit
  (* DocumentCompiler *)
  | CompilerTemplates (capability : string) (operation : TemplateOperation) : call value
  | CompilerTemplate (capability id version : string) : call Template.Template
  | CompilerPdf (capability id : string) : call string
  (* notifications, identifiers, clock *)
  | NotifyOutput (id : string) : call unit
  | NotifyIdentity : call unit
  | NewUuid : call string
  | NowMs : call Z
  | Hour : call Z.
Notation prog := (proc call).

Record Principal : Type := { pn_tenant : string; pn_user : string; pn_context : QueryContext }.

(** The crates urlencoding and base64, and the default hasher. *)
Class WorkspaceExternals := {
  url_encode : string -> string;
  base64_decode : string -> option string;
  default_hash : string * string * list string * list (string * Z) * list string -> string;
}.

(** domain/chatgpt.rs: the key of a user's provider accounts. *)
Definition NUL : string := String "000" EmptyString.
Definition owner_part (v : string) : bool := negb (is_empty v) && len_le v 256 && negb (contains NUL v).
Definition owner_bytes (tenant user : string) : string :=
  "galadril.chatgpt.owner.v1" +:+ NUL +:+ tenant +:+ NUL +:+ user.
Definition owner_key `{Externals} (tenant user : string) : result string :=
  ensure (owner_part tenant && owner_part user) "Invalid provider account scope" ;;
  Ok (sha256_hex (owner_bytes tenant user)).

(** The derived formats of [QueryContext]. *)
Definition de_context (v : value) : result QueryContext :=
  m ← open_members (plain <$> ["entity_id"; "modality"; "state_type"; "gis_zone"; "role"; "region"; "internal_device";
        "hour_utc"; "request_id"; "trace_id"]) v;
  entity_id ← optional de_string "entity_id" m;
  modality ← optional de_string "modality" m;
  state_type ← optional de_string "state_type" m;
  gis_zone ← optional de_string "gis_zone" m;
  role ← optional de_string "role" m;
  region ← optional de_string "region" m;
  internal_device ← required de_bool "internal_device" m;
  hour_utc ← required de_i64 "hour_utc" m;
  request_id ← required de_string "request_id" m;
  trace_id ← optional de_string "trace_id" m;
  Ok {| qc_entity_id := entity_id; qc_modality := modality; qc_state_type := state_type; qc_gis_zone := gis_zone;
        qc_role := role; qc_region := region; qc_internal_device := internal_device; qc_hour_utc := hour_utc;
        qc_request_id := request_id; qc_trace_id := trace_id |}.
Definition json_context (c : QueryContext) : value :=
  JObject [("entity_id", json_opt JString (qc_entity_id c)); ("modality", json_opt JString (qc_modality c));
    ("state_type", json_opt JString (qc_state_type c)); ("gis_zone", json_opt JString (qc_gis_zone c));
    ("role", json_opt JString (qc_role c)); ("region", json_opt JString (qc_region c));
    ("internal_device", JBool (qc_internal_device c)); ("hour_utc", json_i64 (qc_hour_utc c));
    ("request_id", JString (qc_request_id c)); ("trace_id", json_opt JString (qc_trace_id c))].
Definition at_hour (c : QueryContext) (hour : Z) : QueryContext :=
  {| qc_entity_id := qc_entity_id c; qc_modality := qc_modality c; qc_state_type := qc_state_type c;
     qc_gis_zone := qc_gis_zone c; qc_role := qc_role c; qc_region := qc_region c;
     qc_internal_device := qc_internal_device c; qc_hour_utc := hour; qc_request_id := qc_request_id c;
     qc_trace_id := qc_trace_id c |}.
Definition about (c : QueryContext) (source : EvidenceSource) : QueryContext :=
  {| qc_entity_id := ev_entity_id source; qc_modality := ev_modality source; qc_state_type := ev_state_type source;
     qc_gis_zone := qc_gis_zone c; qc_role := qc_role c; qc_region := qc_region c;
     qc_internal_device := qc_internal_device c; qc_hour_utc := qc_hour_utc c; qc_request_id := qc_request_id c;
     qc_trace_id := qc_trace_id c |}.
(** [parse]: any failure has one message. *)
Definition parse_request {A} (de : value -> result A) (v : value) : result A := or_message "Invalid Pengolo request" (de v).

(** ** Inputs of the methods *)
Record UploadInput : Type := {
  up_name : string;
  up_mime : string;
  up_size : Z;
  up_checksum : string;
  up_project_id : option string;
  up_temporary_session : option string;
}.
Definition de_upload (v : value) : result UploadInput :=
  m ← struct_members (plain <$> ["name"; "mime"; "size"; "checksum"; "projectId"; "temporarySession"]) v;
  name ← required de_string "name" m;
  mime ← required de_string "mime" m;
  size ← required de_i64 "size" m;
  checksum ← required de_string "checksum" m;
  project_id ← optional de_string "projectId" m;
  temporary_session ← optional de_string "temporarySession" m;
  Ok {| up_name := name; up_mime := mime; up_size := size; up_checksum := checksum; up_project_id := project_id;
        up_temporary_session := temporary_session |}.
Record FileInput : Type := { fi_id : string; fi_temporary_session : option string }.
Definition de_file (v : value) : result FileInput :=
  m ← struct_members (plain <$> ["id"; "temporarySession"]) v;
  id ← required de_string "id" m;
  temporary_session ← optional de_string "temporarySession" m;
  Ok {| fi_id := id; fi_temporary_session := temporary_session |}.
Definition de_check (v : value) : result TaskCheck :=
  m ← struct_members (plain <$> ["index"; "checked"]) v;
  index ← required (de_int (- 2 ^ 31) (2 ^ 31 - 1)) "index" m;
  checked ← required de_bool "checked" m;
  Ok {| tk_index := index; tk_checked := checked |}.
Record ChatInput : Type := {
  ci_id : string;
  ci_revision : Z;
  ci_title : option string;
  ci_pinned : option bool;
  ci_project_id : option string;
  ci_move_project : bool;
  ci_message_id : option string;
  ci_task_checks : option (list TaskCheck);
  ci_temporary : bool;
}.
Definition de_chat (v : value) : result ChatInput :=
  m ← struct_members [plain "id"; plain "revision"; plain "title"; plain "pinned"; plain "projectId"; dflt "moveProject";
        plain "messageId"; plain "taskChecks"; dflt "temporary"] v;
  id ← required de_string "id" m;
  revision ← required de_i64 "revision" m;
  title ← optional de_string "title" m;
  pinned ← optional de_bool "pinned" m;
  project_id ← optional de_string "projectId" m;
  move_project ← defaulted de_bool false "moveProject" m;
  message_id ← optional de_string "messageId" m;
  task_checks ← optional (de_vec de_check) "taskChecks" m;
  temporary ← defaulted de_bool false "temporary" m;
  Ok {| ci_id := id; ci_revision := revision; ci_title := title; ci_pinned := pinned; ci_project_id := project_id;
        ci_move_project := move_project; ci_message_id := message_id; ci_task_checks := task_checks;
        ci_temporary := temporary |}.
Record CancelInput : Type := { cn_id : string; cn_temporary : bool }.
Definition de_cancel (v : value) : result CancelInput :=
  m ← struct_members [plain "id"; dflt "temporary"] v;
  id ← required de_string "id" m;
  temporary ← defaulted de_bool false "temporary" m;
  Ok {| cn_id := id; cn_temporary := temporary |}.
Record Deletion : Type := { dl_id : string; dl_revision : Z }.
Definition de_deletion (v : value) : result Deletion :=
  m ← struct_members (plain <$> ["id"; "revision"]) v;
  id ← required de_string "id" m;
  revision ← required de_i64 "revision" m;
  Ok {| dl_id := id; dl_revision := revision |}.

Section service.
Context `{Externals} `{Uuids} `{ActivityExternals} `{WorkspaceExternals}.
(** The configured callback of ChatGPT accounts, if any. *)
Context (chatgpt_callback : option string).
Implicit Type a : Principal.

(** ** Identity *)

(** usecases/identity.rs *)
Definition verify_user (tenant user : string) : prog unit :=
  status ← await (GetUserStatus tenant user);
  match status with
  | Active => ok tt
  | Disabled => Done (Err (Msg ("User '" +:+ user +:+ "' is disabled")))
  | NotFound => Done (Err (Msg ("User '" +:+ user +:+ "' not found")))
  end.
Definition allowed a (permission : Permission) (resource_type resource_id : string) : prog bool :=
  await (IsAuthorized (pn_user a) (pn_tenant a) permission resource_type resource_id (Some (pn_context a))).
Definition verify a : prog unit :=
  verify_user (pn_tenant a) (pn_user a) ;;
  b ← allowed a View "tenant" (pn_tenant a);
  check b "Pengolo access denied".
Definition models a : prog AgentModelCatalog :=
  verify a ;;
  catalog ← (if chatgpt_callback is Some _
             then owner ← lift (owner_key (pn_tenant a) (pn_user a)); await (ModelsFor owner)
             else await Models);
  let models := List.filter (fun m => str_in "medium" (am_reasoning_efforts m)) (mc_models catalog) in
  ok {| mc_models := models;
        mc_default_model :=
          if existsb (fun m => opt_eqb (Some (am_alias m)) (mc_default_model catalog)) models
          then mc_default_model catalog else am_alias <$> head models |}.

(** Accounts at the provider. *)
Definition NO_ACCOUNT : value :=
  JObject [("enabled", JBool false); ("connected", JBool false); ("quota_exhausted", JBool false); ("selected", JNull);
           ("accounts", JArray []); ("usage_url", JString "https://chatgpt.com/settings/usage")].
Definition openai_account a : prog value :=
  verify a ;;
  if chatgpt_callback is Some _ then
    owner ← lift (owner_key (pn_tenant a) (pn_user a));
    await (ChatgptOperation (JObject [("operation", JString "status"); ("owner", JString owner)]))
  else ok NO_ACCOUNT.
Definition account_request (operation owner : string) (registration : option string) (callback : string) : value :=
  let connect := String.eqb operation "connect" in
  JObject [("operation", JString (if connect then "begin" else operation)); ("owner", JString owner);
           ("registration", json_opt JString registration);
           ("redirect", json_opt JString (if connect then Some callback else None))].
Definition update_openai_account a (operation : string) (registration : option string) : prog value :=
  verify a ;;
  callback ← require "ChatGPT plan usage is disabled" chatgpt_callback;
  check (str_in operation ["connect"; "select"; "disconnect"; "retry"]) "Invalid account operation" ;;
  check (is_none_or (fun id => (String.length id =? 32) && bytes_all is_ascii_hexdigit id) registration)
    "Invalid account registration" ;;
  check (negb (str_in operation ["select"; "disconnect"]) || option_is_some registration) "Missing account registration" ;;
  owner ← lift (owner_key (pn_tenant a) (pn_user a));
  await (ChatgptOperation (account_request operation owner registration callback)).
Definition complete_openai_account (callback : value) : prog unit :=
  check (option_is_some chatgpt_callback) "ChatGPT plan usage is disabled" ;;
  await (ChatgptOperation callback) ;;
  ok tt.

(** ** Projects *)
Definition project a (id : string) : prog PengoloRecord :=
  verify a ;;
  found ← await (StoreGet (pn_tenant a) CProject id false);
  project ← require "Project unavailable" found;
  roles ← await (RoleNames (pn_tenant a) (pn_user a));
  check (project_visible project (pn_user a) roles) "Project unavailable" ;;
  b ← allowed a View "project" id;
  check b "Project unavailable" ;;
  ok project.
(** One page of [project_access]. *)
Fixpoint sort_projects a (roles : list string) (page : list PengoloRecord)
    (found : list PengoloRecord * list string) : prog (list PengoloRecord * list string) :=
  match page with
  | [] => ok found
  | project :: page =>
      if project_visible project (pn_user a) roles then
        b ← allowed a View "project" (rc_id project);
        sort_projects a roles page
          (if b : bool then (found.1 ++ [project], found.2)
           else if String.eqb (rc_owner_id project) (pn_user a) then (found.1, found.2 ++ [rc_id project])
           else found)
      else sort_projects a roles page found
  end.
Fixpoint project_pages (pages : nat) a (roles : list string) (after : option string)
    (found : list PengoloRecord * list string) : prog (list PengoloRecord * list string) :=
  match pages with
  | 0 => ok found
  | S pages =>
      page ← await (StoreList (pn_tenant a) CProject after 100);
      found ← sort_projects a roles page found;
      if length page <? 100 then ok found
      else project_pages pages a roles (rc_id <$> last page) found
  end.
Definition project_access a : prog (list PengoloRecord * list string) :=
  verify a ;;
  roles ← await (RoleNames (pn_tenant a) (pn_user a));
  project_pages 10 a roles None ([], []).
Definition version_le (p q : string * Z) : Prop := String.le p.1 q.1 /\ (p.1 = q.1 -> (p.2 <= q.2)%Z).
#[export] Instance version_le_dec : RelDecision version_le.
Proof. intros p q. unfold version_le. apply _. Defined.
Definition workspace_version (tenant user : string) (roles : list string) (projects : list PengoloRecord)
    (denied_owned : list string) : string :=
  let projects := (fun p => (rc_id p, rc_revision p)) <$> List.filter (fun p => negb (String.eqb (rc_owner_id p) user)) projects in
  default_hash (tenant, user, roles, merge_sort version_le projects, merge_sort String.le denied_owned).
Definition identity a (web_search_available : bool) : prog value :=
  verify a ;;
  roles ← await (RoleNames (pn_tenant a) (pn_user a));
  let roles := merge_sort String.le roles in
  access ← project_access a;
  administrator ← allowed a Manage "tenant" (pn_tenant a);
  ok (JObject [("version", JString (workspace_version (pn_tenant a) (pn_user a) roles access.1 access.2));
               ("webSearchAvailable", JBool web_search_available); ("administrator", JBool administrator)]).
Definition projects a : prog (list PengoloRecord) :=
  found ← project_access a; ok found.1.
Fixpoint check_roles a (roles : list string) : prog unit :=
  match roles with
  | [] => ok tt
  | role :: roles =>
      b ← await (RoleExists (pn_tenant a) role);
      check b "Project role unavailable" ;;
      check_roles a roles
  end.
Definition with_instructions (input : ProjectInput) (instructions : string) : ProjectInput :=
  {| pj_id := pj_id input; pj_revision := pj_revision input; pj_name := pj_name input; pj_icon := pj_icon input;
     pj_color := pj_color input; pj_shared := pj_shared input; pj_roles := pj_roles input;
     pj_context_mode := pj_context_mode input; pj_instructions := Some instructions |}.
Definition new_id (id : option string) : prog string :=
  match id with Some id => ok id | None => await NewUuid end.
Definition save_project a (v : value) : prog value :=
  verify a ;;
  input ← lift (parse_project v);
  check_roles a (pj_roles input) ;;
  existing ← (match pj_id input with
              | Some id => p ← project a id; ok (Some p)
              | None => ok None
              end);
  (if existing is Some p then
     check (String.eqb (rc_owner_id p) (pn_user a)) "Only the project owner can edit its settings" ;;
     check (bool_decide (get_bool (rc_data p) "shared" = Some (pj_shared input)))
       "Project visibility cannot be widened after creation"
   else ok tt) ;;
  let input := if pj_instructions input is Some _ then input else
    with_instructions input (default EmptyString (existing ≫= fun p => get_str (rc_data p) "instructions")) in
  id ← new_id (pj_id input);
  now ← await NowMs;
  saved ← await (SaveProject (pn_tenant a)
    {| rc_id := id; rc_owner_id := pn_user a; rc_project_id := None; rc_expires_at := None; rc_revision := 1;
       rc_updated_at := now; rc_data := json_project input |} (pj_revision input));
  ok (json_record saved).
Definition delete_project a (v : value) : prog value :=
  input ← lift (parse_request de_deletion v);
  p ← project a (dl_id input);
  b ← allowed a DeleteIt "project" (dl_id input);
  check b "Project deletion unavailable" ;;
  data ← lift (project_deletion p (pn_user a) (dl_revision input));
  await (StoreSave (pn_tenant a) CProject (with_data p data) false (Some (dl_revision input))) ;;
  await NotifyIdentity ;;
  ok (JBool true).

(** ** Files *)
Definition authorize_record a (record : PengoloRecord) : prog unit :=
  verify a ;;
  match rc_project_id record with
  | Some p => project a p ;; ok tt
  | None => check (String.eqb (rc_owner_id record) (pn_user a)) "Workspace resource unavailable"
  end.
Definition file a (id : string) (temporary_session : option string) (ready : bool) : prog PengoloRecord :=
  found ← await (StoreGet (pn_tenant a) CFile id (option_is_some temporary_session));
  file ← require "File unavailable" found;
  authorize_record a file ;;
  check (opt_eqb (get_str (rc_data file) "temporarySession") temporary_session) "File unavailable" ;;
  (if ready then
     status ← lift (metadata (rc_data file) "status");
     expires_at ← require "Missing file expiration" (rc_expires_at file);
     now ← await NowMs;
     check (file_available status expires_at now) "File unavailable"
   else ok tt) ;;
  ok file.
Definition verify_library_access a (project_id : option string) : prog unit :=
  verify a ;;
  (if project_id is Some id then project a id ;; ok tt else ok tt).
Definition scoped a (c : Collection) (project_id : option string) (search : string) (after : option string) (limit : nat)
    : RecordQuery :=
  {| rq_tenant := pn_tenant a; rq_collection := c; rq_project := project_id; rq_owner := pn_user a; rq_search := search;
     rq_after := after; rq_limit := limit |}.
Definition page_cursor (page : list PengoloRecord) : value :=
  if length page =? 50 then json_opt (fun r => JString (rc_id r)) (last page) else JNull.
Definition library a (project_id : option string) (search : string) (after : option string) : prog value :=
  verify_library_access a project_id ;;
  check (len_le search 128) "Search exceeds limit" ;;
  page ← await (ListScoped (scoped a CFile project_id search after 50));
  let files := List.filter (fun f => opt_eqb (rc_project_id f) project_id &&
    (option_is_some project_id || String.eqb (rc_owner_id f) (pn_user a))) page in
  ok (JObject [("items", JArray (json_record ∘ file_projection <$> files)); ("after", page_cursor page)]).
(** The keys of an uploaded object and of its staging copy. *)
Definition upload_key a (session project_id : option string) (id extension : string) : string :=
  match session, project_id with
  | Some session, _ => pn_tenant a +:+ "/temporary/" +:+ url_encode (pn_user a) +:+ "/" +:+ session +:+ "/" +:+ id +:+ "." +:+ extension
  | None, Some project => pn_tenant a +:+ "/projects/" +:+ project +:+ "/pengolo/" +:+ id +:+ "." +:+ extension
  | None, None => pn_tenant a +:+ "/" +:+ url_encode (pn_user a) +:+ "/pengolo/" +:+ id +:+ "." +:+ extension
  end.
Definition staging_key a (id : string) : string :=
  pn_tenant a +:+ "/" +:+ url_encode (pn_user a) +:+ "/pengolo/" +:+ id.
Definition begin_upload a (v : value) : prog value :=
  verify a ;;
  input ← lift (parse_request de_upload v);
  extension ← lift (validate_upload (up_name input) (up_mime input) (up_size input));
  check (is_some_and (fun bytes => String.length bytes =? 32) (base64_decode (up_checksum input)))
    "Invalid upload checksum" ;;
  check (option_is_none (up_temporary_session input) || option_is_none (up_project_id input))
    "Temporary files cannot enter project libraries" ;;
  (if up_project_id input is Some p then project a p ;; ok tt else ok tt) ;;
  (if up_temporary_session input is Some session then
     check ((String.length session =? 32) && bytes_all is_ascii_hexdigit session) "Invalid temporary session"
   else ok tt) ;;
  id ← await NewUuid;
  expires ← await NowMs;
  updated ← await NowMs;
  staging ← await NewUuid;
  staging_expires ← await NowMs;
  file ← await (ReserveFile (pn_tenant a)
    {| rc_id := id; rc_owner_id := pn_user a; rc_project_id := up_project_id input;
       rc_expires_at := Some (expires + STAGING_TTL_MS)%Z; rc_revision := 1; rc_updated_at := updated;
       rc_data := JObject [("name", JString (up_name input)); ("originalName", JString (up_name input));
         ("mime", JString (up_mime input)); ("size", json_i64 (up_size input));
         ("key", JString (upload_key a (up_temporary_session input) (up_project_id input) id extension));
         ("stagingKey", JString (staging_key a staging)); ("stagingExpiresAt", json_i64 (staging_expires + STAGING_TTL_MS));
         ("checksum", JString (up_checksum input)); ("status", JString "uploading");
         ("temporarySession", json_opt JString (up_temporary_session input))] |}
    (option_is_some (up_temporary_session input)));
  staged ← lift (staged_file (pn_tenant a) file);
  upload ← await (UploadUrl staged);
  ok (JObject [("url", JString upload.1); ("headers", JObject ((fun h => (h.1, JString h.2)) <$> upload.2));
               ("file", json_record (file_projection file))]).
Definition finish_upload a (v : value) : prog value :=
  input ← lift (parse_request de_file v);
  f ← file a (fi_id input) (fi_temporary_session input) false;
  check (String.eqb (rc_owner_id f) (pn_user a)) "Only the uploader can finalize a file" ;;
  status ← lift (metadata (rc_data f) "status");
  if String.eqb status "ready" then ok (json_record (file_projection f)) else
  staged ← lift (staged_file (pn_tenant a) f);
  promoted ← await (PromoteFile (pn_tenant a) f (option_is_some (fi_temporary_session input)) staged);
  authorize_record a promoted ;;
  ok (json_record (file_projection promoted)).
Definition download a (v : value) : prog value :=
  input ← lift (parse_request de_file v);
  f ← file a (fi_id input) (fi_temporary_session input) true;
  ok (download_projection f (fi_temporary_session input)).
Definition file_content a (id : string) (temporary_session : option string) : prog (PengoloRecord * list (result string)) :=
  f ← file a id temporary_session true;
  key ← lift (metadata (rc_data f) "key");
  chunks ← await (ReadObject key);
  f ← await (RefreshRetention (pn_tenant a) f (option_is_some temporary_session));
  ok (f, chunks).
Definition delete_file a (v : value) : prog value :=
  input ← lift (parse_request de_file v);
  f ← file a (fi_id input) (fi_temporary_session input) false;
  (if String.eqb (rc_owner_id f) (pn_user a) then ok tt else
   id ← require "File unavailable" (rc_project_id f);
   p ← project a id;
   check (String.eqb (rc_owner_id p) (pn_user a)) "File deletion unavailable") ;;
  await (ExpireFile (pn_tenant a) f (option_is_some (fi_temporary_session input))) ;;
  await (PurgeFile (pn_tenant a) (fi_id input) (option_is_some (fi_temporary_session input)) false) ;;
  ok (JBool true).

Definition index_document a (id : string) : prog bool :=
  verify a ;;
  check ((String.length id =? 32) && bytes_all is_ascii_hexdigit id) "Invalid document identifier" ;;
  found ← await (StoreGet (pn_tenant a) CFile id false);
  f ← require "Document unavailable" found;
  check (String.eqb (rc_owner_id f) (pn_user a)) "Document unavailable" ;;
  (if rc_project_id f is Some p then project a p ;; ok tt else ok tt) ;;
  await (EnqueueIndex (pn_tenant a) id) ;;
  ok true.

(** ** Evidence and conversations *)
Definition HIDDEN : list string := ["File unavailable"; "Project unavailable"; "Workspace resource unavailable"].
Definition file_evidence_visible (r : result PengoloRecord) : result bool :=
  match r with
  | Ok _ => Ok true
  | Err (Msg message) => if str_in message HIDDEN then Ok false else Err (Msg message)
  | Err e => Err e
  end.
Definition is_file_evidence (source : EvidenceSource) : bool :=
  str_in (ev_resource_type source) ["pengolo_file"; "pengolo_temporary_file"].
Definition source_visible a (source : EvidenceSource) : prog bool :=
  if is_file_evidence source then
    proc_then (file a (ev_resource_id source)
        (if String.eqb (ev_resource_type source) "pengolo_temporary_file" then ev_entity_id source else None) true)
      (fun r => lift (file_evidence_visible r))
  else
    await (IsAuthorized (pn_user a) (pn_tenant a) (if ev_manage source then Manage else View)
      (ev_resource_type source) (ev_resource_id source) (Some (about (pn_context a) source))).
Fixpoint evidence_visible a (sources : list EvidenceSource) : prog bool :=
  match sources with
  | [] => ok true
  | source :: sources =>
      b ← source_visible a source;
      if b : bool then evidence_visible a sources else ok false
  end.
Definition message_evidence (message : value) : result (list EvidenceSource) :=
  match get message "evidence" with
  | Some v => de_vec de_evidence v
  | None => Ok []
  end.
Fixpoint visible_messages a (messages : list value) : prog (list value) :=
  match messages with
  | [] => ok []
  | message :: messages =>
      evidence ← lift (message_evidence message);
      b ← evidence_visible a evidence;
      rest ← visible_messages a messages;
      ok (if b : bool then message :: rest else rest)
  end.
Definition chat a (id : string) (temporary : bool) : prog PengoloRecord :=
  found ← await (StoreGet (pn_tenant a) CChat id temporary);
  chat ← require "Conversation unavailable" found;
  authorize_record a chat ;;
  visible ← visible_messages a (default [] (get_array (rc_data chat) "messages"));
  data ← lift (insert_member "Invalid conversation" "messages" (JArray visible) (rc_data chat));
  ok (with_data chat data).
Fixpoint visible_chats a (page : list PengoloRecord) : prog (list PengoloRecord) :=
  match page with
  | [] => ok []
  | record :: page =>
      authorized ← attempt (authorize_record a record);
      match authorized with
      | Some _ =>
          data ← require "Invalid conversation" (as_object (rc_data record));
          rest ← visible_chats a page;
          ok (with_data record (JObject (jremove "messages" data)) :: rest)
      | None => visible_chats a page
      end
  end.
Definition chats a (after project_id : option string) : prog value :=
  verify a ;;
  await (ExpireLeases (pn_tenant a)) ;;
  (if project_id is Some p then project a p ;; ok tt else ok tt) ;;
  page ← await (ListScoped (scoped a CChat project_id EmptyString after 50));
  items ← visible_chats a page;
  ok (JObject [("items", JArray (json_record <$> items)); ("after", page_cursor page)]).
Definition authorize_generation a (generation : PengoloRecord) (temporary : bool) : prog PengoloRecord :=
  authorize_record a generation ;;
  chat_id ← lift (metadata (rc_data generation) "chatId");
  found ← await (StoreGet (pn_tenant a) CChat chat_id temporary);
  chat ← require "Conversation unavailable" found;
  authorize_record a chat ;;
  check (opt_eqb (rc_project_id chat) (rc_project_id generation)) "Generation scope changed" ;;
  evidence ← require "Missing generation provenance" (get (rc_data generation) "evidence");
  sources ← lift (parse_request (de_vec de_evidence) evidence);
  b ← evidence_visible a sources;
  check b "Generation evidence is no longer available" ;;
  ok chat.

(** ** Attachments *)
Definition is_personal (project : PengoloRecord) : bool :=
  opt_eqb (get_str (rc_data project) "contextMode") (Some "personal"%string).
Definition document_project a (input : SendInput) : prog (option string) :=
  match si_project_id input with
  | Some id =>
      p ← project a id;
      if is_personal p then
        check (String.eqb (rc_owner_id p) (pn_user a) && bool_decide (get_bool (rc_data p) "shared" = Some false))
          "Personal context unavailable" ;;
        ok None
      else ok (Some id)
  | None => ok None
  end.
(** The chunks of a text document, at most 65536 bytes. *)
Fixpoint collect_text (chunks : list (result string)) (body : string) : result string :=
  match chunks with
  | [] => Ok body
  | chunk :: chunks =>
      bytes ← chunk;
      ensure (byte_len body + byte_len bytes <=? 65536)%N "Text document exceeds context limit" ;;
      collect_text chunks (body +:+ bytes)
  end.
Definition saturate (z : Z) : Z := Z.max (- 2 ^ 63) (Z.min (2 ^ 63 - 1) z).
Definition file_source (id : string) (temporary_file : option string) : EvidenceSource :=
  {| ev_resource_type := if temporary_file is Some _ then "pengolo_temporary_file" else "pengolo_file";
     ev_resource_id := id; ev_manage := false; ev_entity_id := temporary_file; ev_modality := None;
     ev_state_type := None |}.
Definition attachment_body (f : PengoloRecord) (mime : string) (remaining : Z) : prog value :=
  if str_in mime ["text/plain"; "text/csv"] then
    check (is_some_and (fun size => size <=? 65536)%Z (get (rc_data f) "size" ≫= as_i64))
      "Text document exceeds context limit" ;;
    key ← lift (metadata (rc_data f) "key");
    chunks ← await (ReadObject key);
    text ← lift (collect_text chunks EmptyString);
    check (is_utf8 text) "Text document must use UTF-8" ;;
    ok (JObject [("kind", JString "text"); ("text", JString text)])
  else
    key ← lift (metadata (rc_data f) "key");
    url ← await (DownloadUrl key (Z.to_N (Z.min remaining 300)));
    ok (JObject [("kind", JString (if starts_with "image/" mime then "image" else "document")); ("url", JString url);
                 ("media_type", JString mime); ("trusted_storage", JBool true)]).
Definition attachment a (input : SendInput) (id : string) : prog (value * EvidenceSource * string) :=
  let temporary_session := if si_temporary input then si_chat_id input else None in
  f ← proc_then (file a id temporary_session true) (fun r =>
        match r with
        | Ok f => ok f
        | Err e => if negb (si_temporary input) || negb (si_with_library input) then Done (Err e)
                   else file a id None true
        end);
  selected ← document_project a input;
  let temporary_file := get_str (rc_data f) "temporarySession" in
  check (document_scope_allows selected (pn_user a)
           (match temporary_session with
            | Some session => Some session
            | None => if si_temporary input then Some "new-temporary-session"%string else None
            end) (si_with_library input) (rc_project_id f) (rc_owner_id f) temporary_file)
    "Document is outside this conversation's library" ;;
  expires_at ← require "Missing expiration" (rc_expires_at f);
  now ← await NowMs;
  let remaining := Z.quot (saturate (expires_at - now)) 1000 in
  check (0 <? remaining)%Z "File expired" ;;
  mime ← lift (metadata (rc_data f) "mime");
  body ← attachment_body f mime remaining;
  await (RefreshRetention (pn_tenant a) f (option_is_some temporary_file)) ;;
  name ← lift (metadata (rc_data f) "name");
  ok (body, file_source id temporary_file, name).
Fixpoint attachments a (input : SendInput) (ids : list string) : prog (list value * list EvidenceSource) :=
  match ids with
  | [] => ok ([], [])
  | id :: ids =>
      one ← attachment a input id;
      rest ← attachments a input ids;
      ok (one.1.1 :: rest.1, one.1.2 :: rest.2)
  end.

(** ** Specialists *)
Fixpoint add_tools (tools new : list string) : list string :=
  match new with
  | [] => tools
  | tool :: new => add_tools (if str_in tool tools then tools else tools ++ [tool]) new
  end.
Definition find_agent a (input : SendInput) (official : list PengoloRecord) (id : string) : prog PengoloRecord :=
  match List.find (fun item => String.eqb (rc_id item) id) official with
  | Some item => ok item
  | None =>
      found ← await (StoreGet (pn_tenant a) CAgent id false);
      record ← require "Agent unavailable" found;
      check (String.eqb (rc_owner_id record) (pn_user a) &&
             is_none_or (fun p => negb (si_temporary input) && opt_eqb (Some p) (si_project_id input))
               (rc_project_id record)) "Agent unavailable for this conversation" ;;
      ok record
  end.
Fixpoint select_agents a (input : SendInput) (c : catalog) (official : list PengoloRecord) (ids : list string)
    (agents : list value) (tools : list string) : prog (list value * list string) :=
  match ids with
  | [] => ok (agents, tools)
  | id :: ids =>
      record ← find_agent a input official id;
      (if rc_project_id record is Some p then project a p ;; ok tt else ok tt) ;;
      listed ← require "Invalid agent Skills" (get (rc_data record) "skillIds");
      skills ← lift (de_vec de_string listed);
      lift (validate_agent_skills c skills (Some (si_model_alias input))) ;;
      new ← lift (agent_tools c skills (Some (si_model_alias input)));
      mission ← lift (metadata (rc_data record) "mission");
      select_agents a input c official ids
        (agents ++ [JObject [("id", JString ("agent_" +:+ id)); ("mission", JString mission);
                             ("skill_ids", json_strings skills)]])
        (add_tools tools new)
  end.
Definition selected_agents a (input : SendInput) : prog (option value * list string) :=
  if si_agent_ids input is [] then ok (None, []) else
  c ← await Capabilities;
  official ← lift (plugin_specialists c);
  selected ← select_agents a input c official (si_agent_ids input) [] [];
  check (length selected.2 <=? 32) "Too many agent tools" ;;
  ok (Some (JObject [("id", JString "user.team.chat"); ("name", JString "Selected specialists");
                     ("agents", JArray selected.1)]), selected.2).
Definition agents a : prog (list PengoloRecord) :=
  verify a ;;
  records ← await (ListScoped (scoped a CAgent None EmptyString None 64));
  c ← await Capabilities;
  official ← lift (plugin_specialists c);
  ok (records ++ official).
Definition save_agent a (v : value) : prog value :=
  verify a ;;
  input ← lift (parse_agent v);
  (if ai_id input is Some id then
     found ← await (StoreGet (pn_tenant a) CAgent id false);
     existing ← require "Agent unavailable" found;
     check (String.eqb (rc_owner_id existing) (pn_user a)) "Agent unavailable" ;;
     (if rc_project_id existing is Some p then project a p ;; ok tt else ok tt)
   else ok tt) ;;
  (if ai_project_id input is Some p then project a p ;; ok tt else ok tt) ;;
  c ← await Capabilities;
  lift (validate_agent_skills c (ai_skill_ids input) None) ;;
  id ← new_id (ai_id input);
  now ← await NowMs;
  saved ← await (StoreSave (pn_tenant a) CAgent
    {| rc_id := id; rc_owner_id := pn_user a; rc_project_id := ai_project_id input; rc_expires_at := None;
       rc_revision := 1; rc_updated_at := now;
       rc_data := JObject [("name", JString (ai_name input)); ("mission", JString (ai_mission input));
                           ("skillIds", json_strings (ai_skill_ids input))] |} false (ai_revision input));
  ok (json_record saved).
Definition delete_agent a (id : string) : prog bool :=
  verify a ;;
  found ← await (StoreGet (pn_tenant a) CAgent id false);
  existing ← require "Agent unavailable" found;
  check (String.eqb (rc_owner_id existing) (pn_user a)) "Agent unavailable" ;;
  await (StoreRemove (pn_tenant a) CAgent id false) ;;
  ok true.

(** ** Preferences *)
Definition preference_record a : prog (option PengoloRecord) :=
  rows ← await (ListScoped (scoped a CPreference None EmptyString None 1));
  check (is_none_or (fun row => String.eqb (rc_owner_id row) (pn_user a) && option_is_none (rc_project_id row)) (head rows))
    "Preferences unavailable" ;;
  ok (head rows).
Definition preferences a : prog value :=
  verify a ;;
  record ← preference_record a;
  ok (JObject [("revision", json_i64 (from_option rc_revision 0%Z record));
               ("instructions", JString (default EmptyString (record ≫= fun r => get_str (rc_data r) "instructions")))]).
Definition update_preferences a (v : value) : prog value :=
  verify a ;;
  input ← lift (parse_preferences v);
  existing ← preference_record a;
  check (from_option rc_revision 0%Z existing =? pi_revision input)%Z "Preferences changed; reload before saving" ;;
  id ← new_id (rc_id <$> existing);
  now ← await NowMs;
  saved ← await (StoreSave (pn_tenant a) CPreference
    {| rc_id := id; rc_owner_id := pn_user a; rc_project_id := None; rc_expires_at := None; rc_revision := 1;
       rc_updated_at := now; rc_data := JObject [("instructions", JString (pi_instructions input))] |}
    false (rc_revision <$> existing));
  ok (JObject [("revision", json_i64 (rc_revision saved)); ("instructions", or_null (get (rc_data saved) "instructions"))]).

(** ** Sending a prompt *)
Fixpoint message_files a (input : SendInput) (ids : list string) (files : list value) (sources : list EvidenceSource)
    : prog (bool * list value * list EvidenceSource) :=
  match ids with
  | [] => ok (true, files, sources)
  | id :: ids =>
      one ← attempt (attachment a input id);
      match one with
      | Some (file, source, _) => message_files a input ids (files ++ [file]) (sources ++ [source])
      | None => ok (false, files, sources)
      end
  end.
(** The messages from the newest on, as long as they fit. *)
Fixpoint history_loop a (input : SendInput) (messages : list value) (history : list value)
    (sources : list EvidenceSource) (bytes : N) : prog (list value * list EvidenceSource) :=
  match messages with
  | [] => ok (history, sources)
  | message :: messages =>
      text ← lift (metadata message "text");
      if (32768 <? bytes + byte_len text)%N || (64 <=? length history) then ok (history, sources) else
      if is_some_and (fun status => negb (String.eqb status "completed")) (get_str message "status")
      then history_loop a input messages history sources bytes else
      evidence ← lift (message_evidence message);
      visible ← evidence_visible a evidence;
      if negb visible then history_loop a input messages history sources bytes else
      attached ← message_files a input (omap as_str (default [] (get_array message "fileIds"))) [] sources;
      let '(complete, files, sources) := attached in
      if negb complete then history_loop a input messages history sources bytes else
      history_loop a input messages
        (history ++ [JObject [("role", or_null (get message "role")); ("content", JString text);
                              ("attachments", JArray files)]])
        (sources ++ evidence) (bytes + byte_len text)
  end.
Definition existing_chat a (input : SendInput) : prog (option PengoloRecord) :=
  match si_chat_id input with
  | None => ok None
  | Some id =>
      found ← await (StoreGet (pn_tenant a) CChat id (si_temporary input));
      match found with
      | None => ok None
      | Some chat =>
          authorize_record a chat ;;
          check (opt_eqb (rc_project_id chat) (si_project_id input)) "Conversation project changed" ;;
          ok (Some chat)
      end
  end.
Definition instructions_of (record : option PengoloRecord) : string :=
  default EmptyString (record ≫= fun r => get_str (rc_data r) "instructions").
Definition generation_request (input : SendInput) (id capability : string) (history attached : list value)
    (team : option value) (tool_ids : list string) (owner : option string)
    (user_instructions project_instructions : string) : value :=
  JObject [("id", JString id); ("prompt", JString (si_prompt input)); ("model_alias", JString (si_model_alias input));
    ("reasoning_effort", JString "medium"); ("capability", JString capability); ("history", JArray history);
    ("attachments", JArray attached);
    ("graph_context", json_opt (fun c => JObject [("kind", JString (gc_kind c)); ("id", JString (gc_id c))])
       (si_graph_context input));
    ("web_query", json_opt JString (si_web_query input)); ("web_search", JBool (si_web_search input));
    ("library_enabled", JBool true); ("team", or_null team); ("tool_ids", json_strings tool_ids);
    ("openai_owner_id", json_opt JString owner); ("user_instructions", JString user_instructions);
    ("project_instructions", JString project_instructions)].
(** What follows a new reservation: provenance, the authority of the generation,
    and the submission, whose failure ends the generation. *)
Definition start_generation a (input : SendInput) (reservation : Reservation) (sources : list EvidenceSource)
    (request : string -> option string -> value) : prog unit :=
  let id := rc_id (rv_generation reservation) in
  await (RecordEvidence (pn_tenant a) id (si_temporary input) sources) ;;
  found ← await (StoreGet (pn_tenant a) CGeneration id (si_temporary input));
  generation ← require "Generation unavailable" found;
  data ← lift (insert_member "Invalid generation" "authorization" (json_context (pn_context a)) (rc_data generation));
  await (StoreSave (pn_tenant a) CGeneration (with_data generation data) (si_temporary input)
    (Some (rc_revision generation))) ;;
  owner ← (if chatgpt_callback is Some _ then owner ← lift (owner_key (pn_tenant a) (pn_user a)); ok (Some owner)
           else ok None);
  submitted ← attempt (await (SubmitGeneration (request id owner)));
  match submitted with
  | Some _ => ok tt
  | None => await (Append (pn_tenant a) id (si_temporary input)
                     {| oe_sequence := -1; oe_kind := "failed"; oe_content := EmptyString |})
  end.
Definition chat_and_generation (chat generation : PengoloRecord) : value :=
  JObject [("chat", json_record chat); ("generation", json_record (generation_projection generation))].
(** A prompt that was already sent. *)
Definition resend a (input : SendInput) (generation : PengoloRecord) : prog value :=
  check (String.eqb (rc_owner_id generation) (pn_user a) &&
         opt_value_eqb (get (rc_data generation) "input") (Some (json_send input))) "Idempotency conflict" ;;
  authorize_generation a generation (si_temporary input) ;;
  chat_id ← lift (metadata (rc_data generation) "chatId");
  c ← chat a chat_id (si_temporary input);
  ok (chat_and_generation c generation).
Definition send_new a (input : SendInput) : prog value :=
  catalog ← models a;
  check (existsb (fun m => String.eqb (am_alias m) (si_model_alias input)) (mc_models catalog))
    "Select an available model with medium reasoning" ;;
  team ← selected_agents a input;
  p ← (if si_project_id input is Some id then p ← project a id; ok (Some p) else ok None);
  preferences ← preference_record a;
  await (ExpireLeases (pn_tenant a)) ;;
  existing ← existing_chat a input;
  attached ← attachments a input (si_file_ids input);
  history ← (match existing with
             | Some record =>
                 c ← chat a (rc_id record) (si_temporary input);
                 history_loop a input (rev (default [] (get_array (rc_data c) "messages"))) [] attached.2 0
             | None => ok ([], attached.2)
             end);
  first ← await NewUuid;
  second ← await NewUuid;
  let capability := (first +:+ second)%string in
  reservation ← await (Reserve (pn_tenant a) (pn_user a) input capability);
  (if rv_created reservation then
     start_generation a input reservation history.2 (fun id owner =>
       generation_request input id capability (rev history.1) attached.1 team.1 team.2 owner
         (instructions_of preferences) (instructions_of p))
   else ok tt) ;;
  found ← await (StoreGet (pn_tenant a) CGeneration (rc_id (rv_generation reservation)) (si_temporary input));
  generation ← require "Generation unavailable" found;
  c ← chat a (rc_id (rv_chat reservation)) (si_temporary input);
  ok (chat_and_generation c generation).
Definition send a (v : value) : prog value :=
  verify a ;;
  input ← lift (parse_send v);
  id ← require "Invalid idempotency key" (uuid_parse (si_idempotency_key input));
  found ← await (StoreGet (pn_tenant a) CGeneration id (si_temporary input));
  match found with
  | Some generation => resend a input generation
  | None => send_new a input
  end.

(** ** Following and steering a generation *)
Definition shown_status (generation : PengoloRecord) (after : Z) (events : list OutputEvent) : string :=
  let reached := from_option oe_sequence after (last events) in
  if (default 0%Z (get (rc_data generation) "sequence" ≫= as_i64) <=? reached)%Z
  then default "failed"%string (get_str (rc_data generation) "status") else "running".
Definition events a (id : string) (after : Z) (temporary : bool) : prog value :=
  check (0 <=? after)%Z "Invalid event cursor" ;;
  verify a ;;
  await (ExpireLeases (pn_tenant a)) ;;
  found ← await (StoreGet (pn_tenant a) CGeneration id temporary);
  generation ← require "Generation unavailable" found;
  first ← authorize_generation a generation temporary;
  list ← await (StoreEvents (pn_tenant a) id temporary after);
  shown ← (if is_some_and (fun e => str_in (oe_kind e) TERMINAL_KINDS) (last list)
           then chat a (rc_id first) temporary else ok first);
  let status := shown_status generation after list in
  projection ← lift (insert_member "Invalid replay projection" "canAnswer"
    (JBool (option_is_none (answer_authority (rc_owner_id generation) (pn_user a) status)))
    (replay_projection shown id status list));
  ok projection.
Definition within {A} (message : string) (p : prog A) : prog A := proc_then p (fun r => lift (or_message message r)).
Definition accept_output (capability generation_id : string) (event : OutputEvent) : prog unit :=
  resolved ← within "pengolo.callback.resolve" (await (ResolveCapability capability));
  let '(tenant, generation, temporary) := resolved in
  check (String.eqb (rc_id generation) generation_id) "Invalid generation capability" ;;
  context ← lift (match get (rc_data generation) "authorization" with
                  | Some v => de_context v
                  | None => Ok default_context
                  end);
  hour ← await Hour;
  within "pengolo.callback.authorize"
    (authorize_generation {| pn_tenant := tenant; pn_user := rc_owner_id generation; pn_context := at_hour context hour |}
      generation temporary) ;;
  lift (or_message "pengolo.callback.validate" (validate_tool_progress event)) ;;
  within "pengolo.callback.persist" (await (Append tenant generation_id temporary event)) ;;
  if (oe_sequence event =? 0)%Z then ok tt else await (NotifyOutput generation_id).
(** [p.map_err(|_| error)?] in a method whose errors are [QuestionError]s. *)
Definition or_question {A B} (error : QuestionError) (p : prog A) (k : A -> prog (QuestionError + B))
    : prog (QuestionError + B) :=
  one ← attempt p;
  match one with Some x => k x | None => ok (inl error) end.
Definition answer_question a (v : value) : prog (QuestionError + bool) :=
  or_question Forbidden (verify a) (fun _ =>
  or_question InvalidAnswer (lift (parse_answer v)) (fun input =>
  or_question Unavailable (await (StoreGet (pn_tenant a) CGeneration (an_id input) (an_temporary input))) (fun found =>
  match found with
  | None => ok (inl Rejected)
  | Some generation =>
      or_question Forbidden (authorize_generation a generation (an_temporary input)) (fun _ =>
      match answer_authority (rc_owner_id generation) (pn_user a)
              (default "failed"%string (get_str (rc_data generation) "status")) with
      | Some error => ok (inl error)
      | None =>
          or_question Unavailable (await (GenerationCapability (pn_tenant a) (an_id input))) (fun capability =>
          match capability with
          | None => ok (inl Rejected)
          | Some capability =>
              or_question Rejected (await (AnswerGeneration (an_id input) capability (scribe_payload input))) (fun _ =>
              ok (inr true))
          end)
      end)
  end))).
Definition cancel a (v : value) : prog value :=
  input ← lift (parse_request de_cancel v);
  found ← await (StoreGet (pn_tenant a) CGeneration (cn_id input) (cn_temporary input));
  generation ← require "Generation unavailable" found;
  authorize_generation a generation (cn_temporary input) ;;
  (if opt_str_in (get_str (rc_data generation) "status") ["pending"; "running"] then
     capability ← await (GenerationCapability (pn_tenant a) (cn_id input));
     await (Append (pn_tenant a) (cn_id input) (cn_temporary input)
       {| oe_sequence := -1; oe_kind := "cancelled"; oe_content := EmptyString |}) ;;
     (if capability is Some capability
      then attempt (await (CancelGeneration (cn_id input) capability)) ;; ok tt else ok tt) ;;
     await (NotifyOutput (cn_id input))
   else ok tt) ;;
  ok (JBool true).

(** ** Changing conversations *)
Definition with_project (r : PengoloRecord) (project_id : option string) : PengoloRecord :=
  {| rc_id := rc_id r; rc_owner_id := rc_owner_id r; rc_project_id := project_id; rc_expires_at := rc_expires_at r;
     rc_revision := rc_revision r; rc_updated_at := rc_updated_at r; rc_data := rc_data r |}.
Definition message_file_ids (message : value) : list string :=
  omap as_str (default [] (get_array message "fileIds")) ++
  omap (fun source => if opt_eqb (get_str source "resource_type") (Some "pengolo_file"%string)
                      then get_str source "resource_id" else None) (default [] (get_array message "evidence")).
Fixpoint check_moved_files a (document_project : option string) (ids : list string) : prog unit :=
  match ids with
  | [] => ok tt
  | id :: ids =>
      f ← file a id None true;
      check (document_scope_allows document_project (pn_user a) None false (rc_project_id f) (rc_owner_id f) None)
        "Move would disclose a document outside its library" ;;
      check_moved_files a document_project ids
  end.
Definition no_active_generation (chat : PengoloRecord) : bool := is_none_or is_null (get (rc_data chat) "activeGeneration").
Definition move_chat a (input : ChatInput) (chat : PengoloRecord) : prog PengoloRecord :=
  check (negb (ci_temporary input)) "Temporary chats cannot be moved" ;;
  check (no_active_generation chat) "Wait for the active generation before moving this chat" ;;
  document_project ← (match ci_project_id input with
                      | Some id => p ← project a id; ok (if is_personal p then None else Some id)
                      | None => ok None
                      end);
  check_moved_files a document_project (default [] (get_array (rc_data chat) "messages") ≫= message_file_ids) ;;
  ok (with_project chat (ci_project_id input)).
(** The chat as an update leaves it. *)
Definition edited_chat a (input : ChatInput) : prog PengoloRecord :=
  found ← await (StoreGet (pn_tenant a) CChat (ci_id input) (ci_temporary input));
  c ← require "Conversation unavailable" found;
  authorize_record a c ;;
  check (String.eqb (rc_owner_id c) (pn_user a)) "Only the conversation owner can change it" ;;
  check (rc_revision c =? ci_revision input)%Z "Conversation revision conflict" ;;
  data ← (match ci_task_checks input with
          | Some checks =>
              id ← require "Message is required" (ci_message_id input);
              lift (save_task_checks (rc_data c) id checks)
          | None => ok (rc_data c)
          end);
  data ← (match ci_title input with
          | Some title =>
              check (negb (trim_is_empty title) && len_le title 256) "Invalid conversation title" ;;
              lift (insert_member "Invalid conversation" "title" (JString (trim title)) data)
          | None => ok data
          end);
  data ← (match ci_pinned input with
          | Some pinned => lift (insert_member "Invalid conversation" "pinned" (JBool pinned) data)
          | None => ok data
          end);
  let c := with_data c data in
  if ci_move_project input then move_chat a input c else ok c.
Definition update_chat a (v : value) : prog value :=
  input ← lift (parse_request de_chat v);
  c ← edited_chat a input;
  saved ← await (StoreSave (pn_tenant a) CChat c (ci_temporary input) (Some (ci_revision input)));
  ok (json_record saved).
Definition close_temporary a (v : value) : prog value :=
  verify a ;;
  input ← lift (parse_request de_file v);
  await (ExpireTemporary (pn_tenant a) (pn_user a) (fi_id input)) ;;
  ok (JBool true).
Definition delete_chat a (v : value) : prog value :=
  input ← lift (parse_request de_chat v);
  c ← chat a (ci_id input) false;
  check (String.eqb (rc_owner_id c) (pn_user a) && (rc_revision c =? ci_revision input)%Z)
    "Conversation deletion unavailable" ;;
  check (no_active_generation c) "Stop the active generation before deleting this chat" ;;
  await (StoreRemove (pn_tenant a) CChat (ci_id input) false) ;;
  ok (JBool true).
Definition read_file_tool a (generation : PengoloRecord) (id : string) : prog value :=
  check (String.length id =? 32) "Invalid file identifier" ;;
  stored ← require "Missing generation input" (get (rc_data generation) "input");
  input ← lift (parse_request de_send stored);
  authorize_generation a generation (si_temporary input) ;;
  one ← attachment a input id;
  await (RecordEvidence (pn_tenant a) (rc_id generation) (si_temporary input) [one.1.2]) ;;
  ok (JObject [("id", JString id); ("name", JString one.2); ("attachment", one.1.1)]).

(** ** Expiry *)
Fixpoint purge_objects (tenant : string) (expired : list ObjectExpiry) : prog unit :=
  match expired with
  | [] => ok tt
  | expiry :: expired =>
      attempt (await (PurgeFile tenant (oy_id expiry) (oy_temporary expiry) (oy_staging expiry))) ;;
      purge_objects tenant expired
  end.
Fixpoint remove_records (tenant : string) (expired : list (Collection * PengoloRecord * bool)) : prog unit :=
  match expired with
  | [] => ok tt
  | (c, record, temporary) :: expired =>
      (if bool_decide (c = CFile) then ok tt else await (StoreRemove tenant c (rc_id record) temporary)) ;;
      remove_records tenant expired
  end.
Fixpoint cleanup_workspaces (tenants : list string) : prog unit :=
  match tenants with
  | [] => ok tt
  | tenant :: tenants =>
      await (ExpireLeases tenant) ;;
      objects ← await (ExpiredObjects tenant);
      purge_objects tenant objects ;;
      records ← await (ExpiredRecords tenant);
      remove_records tenant records ;;
      cleanup_workspaces tenants
  end.
Definition workspace_cleanup : prog unit :=
  tenants ← await CleanupTenants;
  cleanup_workspaces tenants.
End service.
