(* ===== verification/ActivityFacts.v ===== *)
(** * ActivityFacts: reports of searches, keys of accounts, versions of workspaces

    What the gateway reports about a public search passes its own screening, the
    key of a provider account belongs to one user, and the version of a workspace
    does not depend on the order of its projects. *)

From S2P Require Import Prelude Text RustStr Json Serde Authoring Proc Authorization Pengolo Agents Activity Workspace.
From Stdlib Require Import Ascii.

(** ** Search sites *)

(** The origin of a web address without a port is its scheme and its host, and the
    origin, read as an address, has that scheme and host and nothing else. *)
Class UrlLaws `{ActivityExternals} : Prop := {
  url_origin v u host :
    url_parse v = Some u -> ul_host u = Some host -> str_in (ul_scheme u) ["http"; "https"] = true -> ul_port u = None ->
    ul_origin u = ul_scheme u +:+ "://" +:+ host /\
    url_parse (ul_origin u) = Some {| ul_scheme := ul_scheme u; ul_host := Some host; ul_username := EmptyString;
      ul_password := None; ul_port := None; ul_origin := ul_origin u |};
}.

Section sites.
Context `{UrlLaws}.
Lemma public_origin_fixed v origin :
  public_web_origin v = Some origin -> public_web_origin origin = Some origin /\ len_le origin 300 = true.
Proof.
  unfold public_web_origin. intros (u & Hu & (host & Hhost & Ho)%bind_Some)%bind_Some.
  destruct (_ || _) eqn:E in Ho; [done|]. injection Ho as <-. rewrite !orb_false_iff, !negb_false_iff in E.
  destruct E as [[[[[[[[[Hs Hun] Hpw] Hport] Hdot] Hip] Hend] Hlen] Hlab] Hsuf].
  assert (ul_port u = None) as Hp by by destruct (ul_port u).
  destruct (url_origin v u host Hu Hhost Hs Hp) as [Horigin Hparse]. split.
  - rewrite Hparse. cbn [mbind option_bind ul_host ul_scheme ul_username ul_password ul_port ul_origin].
    by rewrite Hs, Hdot, Hip, Hend, Hlen, Hlab, Hsuf.
  - apply Nat.leb_le in Hlen. apply Nat.leb_le. rewrite Horigin, !length_string_app.
    apply existsb_exists in Hs as (scheme & Hin & ->%String.eqb_eq). simpl in *.
    destruct Hin as [<-|[<-|[]]]; simpl; lia.
Qed.
Definition counted (k : nat) (sites : gmap string N) : Prop :=
  size sites <= k /\ forall origin n, sites !! origin = Some n ->
    (0 < n)%N /\ (n <= N.of_nat k)%N /\ public_web_origin origin = Some origin /\ len_le origin 300 = true.
Lemma count_site_counted k sites item : counted k sites -> counted (S k) (count_site sites item).
Proof.
  intros [Hsize Hc]. unfold count_site. destruct (_ ≫= public_web_origin) as [o|] eqn:E.
  - apply bind_Some in E as (raw & _ & [Ho Hl]%public_origin_fixed). split; [rewrite map_size_insert; case_match; simpl; lia|].
    intros origin n. rewrite lookup_insert_Some. intros [[<- <-]|[_ (? & ? & ? & ?)%Hc]].
    + destruct (sites !! o) as [m|] eqn:Em; simpl; [apply Hc in Em|]; split_and!; try done; lia.
    + split_and!; try done; lia.
  - split; [lia|]. intros origin n (? & ? & ? & ?)%Hc. split_and!; try done; lia.
Qed.
Lemma count_sites_counted items k sites :
  counted k sites -> counted (length items + k) (foldl count_site sites items).
Proof.
  revert k sites. induction items as [|item items IH]; intros k sites Hc; simpl; [done|].
  rewrite <-Nat.add_succ_r. apply IH. by apply count_site_counted.
Qed.
Lemma check_sites_accepts sites X :
  Forall (fun site => (0 < ws_result_count site)%N /\ (ws_result_count site <= 8)%N /\
    public_web_origin (ws_origin site) = Some (ws_origin site) /\ len_le (ws_origin site) 300 = true) sites ->
  NoDup (ws_origin <$> sites) -> (forall site, site ∈ sites -> ws_origin site ∉ X) -> check_sites sites X = true.
Proof.
  intros Hs. revert X. induction Hs as [|site sites (Hp & Hb & Ho & Hl) Hs IH]; intros X Hn HX; simpl; [done|].
  apply NoDup_cons in Hn as [Hnot Hn].
  rewrite (proj2 (N.ltb_lt _ _) Hp), (proj2 (N.leb_le _ _) Hb), Hl, Ho. unfold opt_eqb.
  rewrite bool_decide_eq_true_2 by done. rewrite bool_decide_eq_true_2 by (apply HX; by left). simpl.
  apply IH; [done|]. intros site' Hin. rewrite not_elem_of_union, not_elem_of_singleton. split.
  - intros E. apply Hnot. rewrite <-E. apply list_elem_of_fmap. by exists site'.
  - apply HX. by right.
Qed.

(** What the gateway reports about a search passes its own screening: for any
    results, at most eight of them counted, the reported sites are exactly distinct
    public origins in ascending order, each with a count between one and eight, so
    the activity that carries them is accepted, credentials, ports, paths, private
    names and addresses excluded. *)
Theorem search_sites_accepted results id :
  identifier id = true -> web_research_sites results <> [] ->
  check_activity (WebResearch id (web_research_sites results)) = Ok tt.
Proof.
  intros Hid Hne. assert (counted 8 (foldl count_site ∅ (take 8 results))) as [Hsize Hc].
  { destruct (count_sites_counted (take 8 results) 0 ∅) as [Hsize Hc]; [done|]. rewrite length_take in *.
    split; [lia|]. intros origin n (? & ? & ? & ?)%Hc. split_and!; try done; lia. }
  assert (length (web_research_sites results) <= 8) as Hlen.
  { unfold web_research_sites. rewrite length_fmap, <-(length_fmap fst), btree_entries_fst. unfold btree_keys.
    by rewrite length_btree_elements, size_dom. }
  simpl. rewrite Hid, (proj2 (Nat.leb_le _ _) Hlen).
  rewrite (proj2 (Nat.eqb_neq _ _)) by (by intros ?%nil_length_inv). simpl.
  rewrite check_sites_accepts; [done| | |set_solver].
  - apply Forall_fmap, Forall_forall. intros [origin n] Hin%elem_of_btree_entries. exact (Hc _ _ Hin).
  - unfold web_research_sites. rewrite <-list_fmap_compose. change (NoDup (btree_entries (foldl count_site ∅ (take 8 results))).*1).
    rewrite btree_entries_fst. apply NoDup_btree_elements.
Qed.
End sites.

(** ** Accounts *)
Definition not_nul (c : ascii) : bool := negb (Ascii.eqb c "000").
Lemma without_nul s : contains NUL s = false -> bytes_all not_nul s = true.
Proof.
  induction s as [|c s IH]; intros Hc; simpl; [done|]. unfold not_nul at 1.
  destruct (Ascii.eqb_spec c "000") as [->|_]; simpl.
  - by rewrite (proj2 (contains_true NUL (String "000" s))) in Hc by by exists EmptyString, s.
  - apply IH. destruct (contains NUL s) eqn:E; [|done]. apply contains_true in E as (a & b & ->).
    by rewrite (proj2 (contains_true NUL _)) in Hc by by exists (String c a), b.
Qed.
(** The bytes that are hashed into the key of an account name one tenant and one
    user. *)
Lemma account_owners_unambiguous tenant user tenant' user' :
  owner_part tenant = true -> owner_part tenant' = true ->
  owner_bytes tenant user = owner_bytes tenant' user' -> tenant = tenant' /\ user = user'.
Proof.
  intros [_ Ht%negb_true_iff%without_nul]%andb_prop [_ Ht'%negb_true_iff%without_nul]%andb_prop E.
  do 2 apply (inj (String.append _)) in E. by apply (split_at_separator not_nul) in E.
Qed.

(** ** Versions *)
#[export] Instance version_le_total : Total version_le.
Proof.
  intros [a m] [b n]. unfold version_le. simpl. destruct (total String.le a b) as [Hl|Hl].
  - destruct (decide (a = b)) as [->|]; [|left; by split]. destruct (Z.le_ge_cases m n); [left|right]; split; auto.
  - destruct (decide (a = b)) as [->|]; [|right; split; [done|congruence]].
    destruct (Z.le_ge_cases m n); [left|right]; split; auto.
Qed.
#[export] Instance version_le_trans : Transitive version_le.
Proof.
  intros [a l] [b m] [c n] [H1 K1] [H2 K2]. unfold version_le in *. simpl in *. split; [by trans b|].
  intros ->. assert (b = c) as -> by by apply (anti_symm String.le). specialize (K1 eq_refl). specialize (K2 eq_refl). lia.
Qed.
#[export] Instance version_le_antisymm : AntiSymm (=) version_le.
Proof.
  intros [a m] [b n] [H1 K1] [H2 K2]. unfold version_le in *. simpl in *.
  assert (a = b) as -> by by apply (anti_symm String.le). f_equal. specialize (K1 eq_refl). specialize (K2 eq_refl). lia.
Qed.
Lemma merge_sort_order {A} (R : relation A) `{!RelDecision R, !Transitive R, !Total R, !AntiSymm (=) R} (l k : list A) :
  l ≡ₚ k -> merge_sort R l = merge_sort R k.
Proof.
  intros Hp. apply (Sorted_unique R); [apply Sorted_merge_sort; exact _..|].
  by rewrite !merge_sort_Permutation.
Qed.
(** The version of a workspace depends on which projects there are, not on the
    order in which the store lists them. *)
Lemma workspace_version_order `{WorkspaceExternals} tenant user roles projects projects' denied denied' :
  projects ≡ₚ projects' -> denied ≡ₚ denied' ->
  workspace_version tenant user roles projects denied = workspace_version tenant user roles projects' denied'.
Proof.
  intros Hp Hd. unfold workspace_version. f_equal. f_equal; [f_equal|].
  - apply (merge_sort_order version_le), fmap_Permutation. induction Hp; simpl; repeat case_match; eauto using Permutation.
  - by apply (merge_sort_order String.le).
Qed.

(** ** A toy parser of addresses *)
Definition toy_host (rest : string) : string :=
  match split_once "/" rest with Some (host, _) => host | None => rest end.
Definition toy_url (host : string) : Url :=
  {| ul_scheme := "https"; ul_host := Some host; ul_username := EmptyString; ul_password := None; ul_port := None;
     ul_origin := "https://" +:+ host |}.
#[local] Instance toy_parser : ActivityExternals :=
  {| activity_from_str _ := Err (Foreign "serde_json");
     url_parse v := toy_url ∘ toy_host <$> strip_prefix "https://" v |}.
Lemma toy_host_fixed rest : toy_host (toy_host rest) = toy_host rest.
Proof.
  unfold toy_host at 2 3. destruct (split_once "/" rest) as [[host path]|] eqn:E; [|unfold toy_host; by rewrite E].
  unfold toy_host. destruct (split_once "/" host) as [[a b]|] eqn:Eh; [|done]. exfalso.
  apply split_once_Some in Eh as ->. pose proof (split_once_Some _ _ _ _ E) as Hs.
  pose proof (split_once_first _ _ _ _ E a (b +:+ "/" +:+ path)) as Hmin.
  rewrite !length_string_app in Hmin. simpl in Hmin. specialize (Hmin ltac:(by rewrite Hs, !string_app_assoc)). lia.
Qed.
#[local] Instance toy_laws : UrlLaws.
Proof.
  constructor. intros v u host (rest & _ & ->)%fmap_Some. simpl. intros [= <-] _ _. split; [done|].
  rewrite (proj2 (strip_prefix_Some "https://" _ (toy_host rest)) eq_refl). simpl. by rewrite toy_host_fixed.
Qed.
Definition toy_results : list value :=
  (fun url => JObject [("url", JString url)]) <$>
    ["https://docs.rs/serde"; "https://rocq-prover.org/doc/"; "https://docs.rs/axum"; "https://printer.local/"]%string.
Lemma search_sites_accepted_witness :
  web_research_sites toy_results =
    [{| ws_origin := "https://docs.rs"; ws_result_count := 2 |};
     {| ws_origin := "https://rocq-prover.org"; ws_result_count := 1 |}] /\
  check_activity (WebResearch "search-1" (web_research_sites toy_results)) = Ok tt.
Proof.
  assert (E : web_research_sites toy_results =
    [{| ws_origin := "https://docs.rs"; ws_result_count := 2 |};
     {| ws_origin := "https://rocq-prover.org"; ws_result_count := 1 |}]) by (vm_compute; reflexivity).
  split; [exact E|].
  apply (search_sites_accepted toy_results "search-1"); [vm_compute; reflexivity|]. rewrite E. discriminate.
Defined.
