(* ===== verification/WorkspaceFacts.v ===== *)
(** * WorkspaceFacts: the workspace stays inside what its user may see

    Theorems about every run of a method of the workspace service: its calls in
    order with the answers the ports gave, for all answers, errors included. *)

From S2P Require Import Prelude Text RustStr Json Serde Authoring Proc Authorization Pengolo.
From S2P Require Import Agents Activity Workspace.

Notation event := (event call).

Section confined.
Context `{Externals} `{Uuids} `{ActivityExternals} `{WorkspaceExternals}.
Context (chatgpt_callback : option string).
Implicit Types (a : Principal) (es : list event).

(** ** What was established in a run *)

(** The user is active and may view the tenant. *)
Definition verified a es : Prop :=
  Event (GetUserStatus (pn_tenant a) (pn_user a)) (Ok Active) ∈ es /\
  Event (IsAuthorized (pn_user a) (pn_tenant a) View "tenant" (pn_tenant a) (Some (pn_context a))) (Ok true) ∈ es.
(** The user sees a project: by its record and the current roles, and by the
    authorization service. *)
Definition sees_project a es (id : string) : Prop :=
  (exists p roles, Event (StoreGet (pn_tenant a) CProject id false) (Ok (Some p)) ∈ es /\
     Event (RoleNames (pn_tenant a) (pn_user a)) (Ok roles) ∈ es /\ project_visible p (pn_user a) roles = true) /\
  Event (IsAuthorized (pn_user a) (pn_tenant a) View "project" id (Some (pn_context a))) (Ok true) ∈ es.
(** A record belongs to a project the user sees, or to the user. *)
Definition in_scope a es (r : PengoloRecord) : Prop :=
  match rc_project_id r with
  | Some p => sees_project a es p
  | None => rc_owner_id r = pn_user a
  end.
Definition stored_at a es (c : Collection) (id : string) (temporary : bool) (r : PengoloRecord) : Prop :=
  Event (StoreGet (pn_tenant a) c id temporary) (Ok (Some r)) ∈ es.
Definition authorized_file a es (f : PengoloRecord) : Prop :=
  verified a es /\ in_scope a es f /\ exists id temporary, stored_at a es CFile id temporary f.
(** The file was ready and not expired at a time of the run. *)
Definition live es (f : PengoloRecord) : Prop := exists expires now,
  metadata (rc_data f) "status" = Ok "ready"%string /\ rc_expires_at f = Some expires /\
  Event NowMs (Ok now) ∈ es /\ (now < expires)%Z.
(** A source of an answer that the user may still see. *)
Definition source_ok a es (s : EvidenceSource) : Prop :=
  if is_file_evidence s then
    exists f temporary, authorized_file a es f /\ stored_at a es CFile (ev_resource_id s) temporary f /\ live es f
  else Event (IsAuthorized (pn_user a) (pn_tenant a) (if ev_manage s then Manage else View) (ev_resource_type s)
         (ev_resource_id s) (Some (about (pn_context a) s))) (Ok true) ∈ es.
Definition message_ok a es (m : value) : Prop :=
  exists sources, message_evidence m = Ok sources /\ Forall (source_ok a es) sources.
Definition own a (r : PengoloRecord) : Prop := rc_owner_id r = pn_user a.
(** The record of a generation as it was read, with the authority of its user. *)
Definition edits_generation es (tenant : string) (r : PengoloRecord) (temporary : bool) (expected : option Z) : Prop :=
  exists id g authority data, Event (StoreGet tenant CGeneration id temporary) (Ok (Some g)) ∈ es /\
    insert_member "Invalid generation" "authorization" authority (rc_data g) = Ok data /\
    r = with_data g data /\ expected = Some (rc_revision g).

(** ** What a method may ask of the ports *)
Definition permitted a es {B} (c : call B) : Prop :=
  match c with
  | GetUserStatus t u | RoleNames t u => t = pn_tenant a /\ u = pn_user a
  | IsAuthorized u t _ _ _ _ => t = pn_tenant a /\ u = pn_user a
  | RoleExists t _ | StoreGet t _ _ _ | StoreList t _ _ _ | StoreEvents t _ _ _ | ExpireLeases t
  | GenerationCapability t _ => t = pn_tenant a
  | ListScoped q => rq_tenant q = pn_tenant a /\ rq_owner q = pn_user a
  | StoreSave t collection r temporary expected =>
      t = pn_tenant a /\ verified a es /\
      match collection with CGeneration => edits_generation es t r temporary expected | _ => own a r end
  | SaveProject t r _ | ReserveFile t r _ | PromoteFile t r _ _ => t = pn_tenant a /\ verified a es /\ own a r
  | StoreRemove t collection id temporary =>
      t = pn_tenant a /\ verified a es /\ exists r, stored_at a es collection id temporary r /\ own a r
  | RefreshRetention t f _ => t = pn_tenant a /\ authorized_file a es f
  | ExpireFile t f _ =>
      t = pn_tenant a /\ authorized_file a es f /\
      (own a f \/ exists id p, rc_project_id f = Some id /\ stored_at a es CProject id false p /\ own a p)
  | PurgeFile t id temporary _ => t = pn_tenant a /\ exists f, authorized_file a es f /\ stored_at a es CFile id temporary f
  | ReadObject key | DownloadUrl key _ =>
      exists f, authorized_file a es f /\ metadata (rc_data f) "key" = Ok key
  | ExpireTemporary t u _ | Reserve t u _ _ => t = pn_tenant a /\ u = pn_user a /\ verified a es
  | Append t _ _ _ | RecordEvidence t _ _ _ => t = pn_tenant a /\ verified a es
  | SubmitGeneration _ | CancelGeneration _ _ => verified a es
  | SetAccess t _ _ => t = pn_tenant a /\ verified a es
  | UploadUrl f | WriteStaging f _ => sf_tenant f = pn_tenant a /\ verified a es
  | ChatgptOperation request => verified a es /\
      exists owner, owner_key (pn_tenant a) (pn_user a) = Ok owner /\ get_str request "owner" = Some owner
  | AnswerGeneration id _ _ => verified a es /\ exists g temporary, stored_at a es CGeneration id temporary g /\ own a g
  | EnqueueIndex t id => t = pn_tenant a /\ verified a es /\ exists f, stored_at a es CFile id false f /\ own a f
  | CleanupTenants | ExpiredObjects _ | ExpiredRecords _ => False
  | ResolveCapability _ | CompilerTemplates _ _ | CompilerTemplate _ _ _ | CompilerPdf _ _ => False
  | Models | ModelsFor _ | Capabilities | DocumentTemplates | NotifyOutput _ | NotifyIdentity | NewUuid | NowMs | Hour => True
  end.
Definition confined a es (e : event) : Prop := let '@Event _ B c _ := e in permitted a es c.
(** Calls that only look something up for the user. *)
Definition looking a {B} (c : call B) : Prop :=
  match c with
  | GetUserStatus t u | RoleNames t u | IsAuthorized u t _ _ _ _ => t = pn_tenant a /\ u = pn_user a
  | StoreGet t _ _ _ => t = pn_tenant a
  | NowMs => True
  | _ => False
  end.
Class Looks a (G : list event -> event -> Prop) : Prop :=
  looks : forall pre B (c : call B) answer, looking a c -> G pre (Event c answer).
#[export] Instance confined_looks a : Looks a (confined a).
Proof. intros pre B c answer. by destruct c. Qed.

Lemma verified_app a es k : verified a es -> verified a (es ++ k).
Proof. intros []. split; by apply elem_of_before. Qed.
Lemma sees_project_app a es k id : sees_project a es id -> sees_project a (es ++ k) id.
Proof. intros [(p & roles & ? & ? & ?) ?]. split; [exists p, roles; split_and!|]; try done; by apply elem_of_before. Qed.
Lemma in_scope_app a es k r : in_scope a es r -> in_scope a (es ++ k) r.
Proof. unfold in_scope. destruct (rc_project_id r); [apply sees_project_app|done]. Qed.
Lemma stored_app a es k c id temporary r : stored_at a es c id temporary r -> stored_at a (es ++ k) c id temporary r.
Proof. apply elem_of_before. Qed.
Lemma authorized_file_app a es k f : authorized_file a es f -> authorized_file a (es ++ k) f.
Proof.
  intros (? & ? & id & t & ?).
  split; [by apply verified_app|]. split; [by apply in_scope_app|]. exists id, t. by apply stored_app.
Qed.
Lemma live_app es k f : live es f -> live (es ++ k) f.
Proof. intros (expires & now & ? & ? & ? & ?). exists expires, now. split_and!; try done. by apply elem_of_before. Qed.
Lemma source_ok_app a es k s : source_ok a es s -> source_ok a (es ++ k) s.
Proof.
  unfold source_ok. destruct (is_file_evidence s); [|apply elem_of_before].
  intros (f & t & ? & ? & ?). exists f, t. auto using authorized_file_app, stored_app, live_app.
Qed.
Lemma message_ok_app a es k m : message_ok a es m -> message_ok a (es ++ k) m.
Proof.
  intros (sources & Hs & Hok). exists sources. split; [done|]. eapply Forall_impl; [exact Hok|]. intros s. apply source_ok_app.
Qed.
Lemma stored_here a es c id temporary r : stored_at a (es ++ [Event (StoreGet (pn_tenant a) c id temporary) (Ok (Some r))]) c id temporary r.
Proof. apply elem_of_app. right. by left. Qed.

(** Facts about earlier events hold later on. *)
Create HintDb workspace.
#[local] Hint Resolve verified_app sees_project_app in_scope_app stored_app authorized_file_app stored_here : workspace.
Lemma jget_jinsert_same key v m : jget key (jinsert key v m) = Some v.
Proof. rewrite jget_jinsert. by rewrite decide_True. Qed.
Ltac later := solve [eauto 20 with workspace].
Lemma safe_pure {A} G (r : result A) pre (Q : list event -> A -> Prop) :
  (forall v, r = Ok v -> Q pre v) -> safe G pre (lift r) (succeeds Q).
Proof. intros Hq. destruct r as [v|e]; [by apply Hq|done]. Qed.
(** Steps of a program: the call is permitted, or a lemma says what a step gives. *)
Ltac may := intros; simpl; unfold own in *; simpl; repeat match goal with |- _ /\ _ => split end; try later; try done.
Ltac call_ := apply safe_await; [solve [intros; by apply looks | may]|].
Ltac ret := cbn [safe ok succeeds]; cbv beta.
Ltac use lem := apply safe_seq; eapply safe_mono; [|apply lem; try exact _]; cbv beta.

Lemma verify_safe G a `{!Looks a G} pre : safe G pre (verify a) (succeeds (fun es _ => verified a es)).
Proof.
  unfold verify, allowed. apply safe_seq. unfold verify_user. call_. intros []; [|done..]. ret.
  call_. intros [|]; [|done]. ret.
  split; set_solver.
Qed.
Lemma project_safe G a id `{!Looks a G} pre :
  safe G pre (project a id)
    (succeeds (fun es p => verified a es /\ sees_project a es id /\ stored_at a es CProject id false p)).
Proof.
  unfold project, allowed. use verify_safe. intros es _ Hv. call_. intros found.
  apply safe_require. intros p ->. call_. intros roles. apply safe_check. intros Hvis. call_. intros b.
  apply safe_check. intros ->. simpl. split; [later|]. split; [|later].
  split; [exists p, roles; split_and!; [set_solver..|done]|set_solver].
Qed.
Lemma authorize_record_safe G a r `{!Looks a G} pre :
  safe G pre (authorize_record a r) (succeeds (fun es _ => verified a es /\ in_scope a es r)).
Proof.
  unfold authorize_record, in_scope. use verify_safe. intros es _ Hv. destruct (rc_project_id r) as [p|].
  - use project_safe. intros es' p' (? & ? & _). done.
  - unfold check, lift. simpl. destruct (String.eqb_spec (rc_owner_id r) (pn_user a)); simpl; [by split|done].
Qed.
Lemma file_safe G a id session ready `{!Looks a G} pre :
  safe G pre (file a id session ready)
    (succeeds (fun es f => authorized_file a es f /\ stored_at a es CFile id (option_is_some session) f /\
       (ready = true -> live es f))).
Proof.
  unfold file. call_. intros found. apply safe_require. intros f ->. use authorize_record_safe. intros es _ [Hv Hs].
  apply safe_check. intros _.
  assert (authorized_file a ((pre ++ [Event (StoreGet (pn_tenant a) CFile id (option_is_some session)) (Ok (Some f))]) ++ es) f) as Hf.
  { split; [done|]. split; [done|]. eexists _, _. apply stored_app, stored_here. }
  apply safe_seq. destruct ready; [|simpl; split_and!; [later..|done]].
  apply safe_lift. intros status Hst. apply safe_require. intros expires Hexp. call_. intros now.
  apply safe_pure. intros [] [->%String.eqb_eq Hlt%Z.ltb_lt]%ensure_Ok_inv%andb_prop. ret. split_and!; [later..|].
  intros _. exists expires, now. split_and!; [done..| |done]. set_solver.
Qed.
Lemma source_visible_safe G a source `{!Looks a G} pre : safe G pre (source_visible a source)
    (succeeds (fun es b => b = true -> source_ok a es source)).
Proof.
  unfold source_visible, source_ok. destruct (is_file_evidence source).
  - apply safe_then. eapply safe_conseq; [|apply file_safe; exact _]. intros es [f|e] Hf; apply safe_pure; intros b Hb.
    + destruct Hf as (Hf & Hst & Hl). intros _. exists f. eexists. split; [done|]. split; [done|by apply Hl].
    + unfold file_evidence_visible in Hb. destruct e as [m|o]; [|done]. destruct (str_in m HIDDEN); [|done]. by injection Hb as <-.
  - apply safe_call; [by intros; apply looks|]. intros b ->. apply elem_of_app. right. by left.
Qed.
Lemma evidence_visible_safe G a sources `{!Looks a G} pre : safe G pre (evidence_visible a sources)
    (succeeds (fun es b => b = true -> Forall (source_ok a es) sources)).
Proof.
  revert pre. induction sources as [|source sources IH]; intros pre; cbn [evidence_visible]; [ret; intros _; constructor|].
  use source_visible_safe. intros es [] Hs; [|done]. eapply safe_mono; [|apply IH]. intros es' b Hb Htrue.
  constructor; [by apply source_ok_app, Hs|by apply Hb].
Qed.
Lemma safe_optional {A C} G (o : option A) (f : A -> prog unit) (k : unit -> prog C) pre Q :
  (forall v, o = Some v -> safe G pre (f v) (succeeds (fun es _ => safe G es (k tt) (succeeds Q)))) ->
  (o = None -> safe G pre (k tt) (succeeds Q)) ->
  safe G pre ((if o is Some v then f v else ok tt) ≫= k) (succeeds Q).
Proof.
  intros Hs Hn. apply safe_seq. destruct o as [v|]; [|by apply Hn].
  eapply safe_mono; [|by apply Hs]. by intros es [].
Qed.
(** [if let Some(p) = .. { self.project(actor, p).await?; }] *)
Lemma safe_optional_project {C} a (o : option string) (k : unit -> prog C) pre Q :
  (forall es, safe (confined a) (pre ++ es) (k tt) (succeeds Q)) ->
  safe (confined a) pre ((if o is Some p then project a p ;; ok tt else ok tt) ≫= k) (succeeds Q).
Proof.
  intros Hk. apply safe_optional; [|intros _; rewrite <-(app_nil_r pre); apply Hk].
  intros p _. use project_safe. intros es v _. ret. apply Hk.
Qed.
Lemma visible_messages_safe G a messages `{!Looks a G} pre :
  safe G pre (visible_messages a messages) (succeeds (fun es ms => Forall (message_ok a es) ms)).
Proof.
  revert pre. induction messages as [|m messages IH]; intros pre; cbn [visible_messages]; [ret; constructor|].
  apply safe_lift. intros evidence Hev. use evidence_visible_safe. intros es b Hb. use IH. intros es' rest Hr. ret.
  destruct b; [|done]. constructor; [|done]. apply message_ok_app. exists evidence. split; [done|by apply Hb].
Qed.
Lemma chat_safe G a id temporary `{!Looks a G} pre :
  safe G pre (chat a id temporary)
    (succeeds (fun es c => verified a es /\
       exists r visible, stored_at a es CChat id temporary r /\ in_scope a es r /\ rc_owner_id c = rc_owner_id r /\
         get_array (rc_data c) "messages" = Some visible /\ Forall (message_ok a es) visible)).
Proof.
  unfold chat. call_. intros found. apply safe_require. intros c ->. use authorize_record_safe. intros es _ [Hv Hs].
  use visible_messages_safe. intros es' visible Hvis. apply safe_lift. intros data Hd. ret.
  split; [later|]. exists c, visible. split_and!; [later..|done| |done].
  apply bind_Ok_inv in Hd as (members & _ & [= <-]). unfold get_array. simpl. by rewrite jget_jinsert_same.
Qed.
Lemma visible_chats_safe a page pre : safe (confined a) pre (visible_chats a page) (succeeds (fun _ _ => True)).
Proof.
  revert pre. induction page as [|r page IH]; intros pre; cbn [visible_chats]; [done|].
  apply safe_attempt. eapply safe_conseq; [|apply authorize_record_safe; exact _]. intros es [v|e] _; [|apply IH].
  apply safe_require. intros data _. use IH. intros es' rest _. done.
Qed.
(** The user may still follow a generation: it and its conversation are in scope,
    in the same project, and every source it drew on is visible. *)
Record generation_ok a es (generation : PengoloRecord) (temporary : bool) (c : PengoloRecord) : Prop := {
  generation_verified : verified a es;
  generation_scope : in_scope a es generation;
  generation_chat : exists id, metadata (rc_data generation) "chatId" = Ok id /\ stored_at a es CChat id temporary c;
  generation_chat_scope : in_scope a es c;
  generation_same_project : rc_project_id c = rc_project_id generation;
  generation_sources : exists v sources, get (rc_data generation) "evidence" = Some v /\
    parse_request (de_vec de_evidence) v = Ok sources /\ Forall (source_ok a es) sources;
}.
Lemma generation_ok_app a es k g t c : generation_ok a es g t c -> generation_ok a (es ++ k) g t c.
Proof.
  intros [? ? (id & ? & ?) ? ? (v & sources & ? & ? & Hs)].
  split; [by apply verified_app|by apply in_scope_app| |by apply in_scope_app|done|].
  - exists id. split; [done|by apply stored_app].
  - exists v, sources. split_and!; [done..|]. eapply Forall_impl; [exact Hs|]. intros s. apply source_ok_app.
Qed.
Lemma authorize_generation_ok G a generation temporary `{!Looks a G} pre :
  safe G pre (authorize_generation a generation temporary)
    (succeeds (fun es c => generation_ok a es generation temporary c)).
Proof.
  unfold authorize_generation. use authorize_record_safe. intros es _ [Hv Hsc]. apply safe_lift. intros id Hid.
  call_. intros found. apply safe_require. intros c ->. use authorize_record_safe. intros es' _ [_ Hc].
  apply safe_check. intros Hp%bool_decide_eq_true. apply safe_require. intros v Hev. apply safe_lift. intros sources Hs.
  use evidence_visible_safe. intros es'' b Hb. apply safe_check. intros ->. ret.
  split; [later|later|exists id; split; [done|later]|later|done|]. exists v, sources. split_and!; [done..|by apply Hb].
Qed.
Lemma authorize_generation_safe G a generation temporary `{!Looks a G} pre :
  safe G pre (authorize_generation a generation temporary) (succeeds (fun es _ => verified a es)).
Proof. eapply safe_mono; [|apply authorize_generation_ok; exact _]. by intros es c []. Qed.
Lemma document_project_safe a input pre :
  safe (confined a) pre (document_project a input) (succeeds (fun _ _ => True)).
Proof.
  unfold document_project. destruct (si_project_id input) as [id|]; [|done]. use project_safe. intros es p _.
  destruct (is_personal p); [|done]. apply safe_check. intros _. done.
Qed.
Lemma attachment_body_safe a f mime remaining pre :
  authorized_file a pre f ->
  safe (confined a) pre (attachment_body f mime remaining) (succeeds (fun _ _ => True)).
Proof.
  intros Hf. unfold attachment_body. destruct (str_in _ _).
  - apply safe_check. intros _. apply safe_lift. intros key Hkey.
    apply safe_await; [intros; simpl; exists f; by split|]. intros chunks.
    apply safe_lift. intros text _. apply safe_check. intros _. done.
  - apply safe_lift. intros key Hkey. apply safe_await; [intros; simpl; exists f; by split|]. intros url. done.
Qed.
Lemma attachment_file_safe a input id session pre :
  safe (confined a) pre
    (proc_then (file a id session true) (fun r =>
        match r with
        | Ok f => ok f
        | Err e => if negb (si_temporary input) || negb (si_with_library input) then Done (Err e)
                   else file a id None true
        end)) (succeeds (fun es f => authorized_file a es f)).
Proof.
  apply safe_then. eapply safe_conseq; [|apply file_safe; exact _]. intros es [f|e] Hf; [by destruct Hf|].
  destruct (_ || _); [done|]. eapply safe_mono; [|apply file_safe; exact _]. by intros es' f [].
Qed.
Lemma attachment_safe a input id pre :
  safe (confined a) pre (attachment a input id) (succeeds (fun es _ => verified a es)).
Proof.
  unfold attachment. apply safe_seq. eapply safe_mono; [|apply attachment_file_safe]. intros es f Hf.
  use document_project_safe. intros es' selected _. apply safe_check. intros _. apply safe_require. intros expires _.
  call_. intros now. apply safe_check. intros _. apply safe_lift. intros mime _.
  apply safe_seq. eapply safe_mono; [|apply attachment_body_safe; later]. intros es'' body _. cbv beta.
  apply safe_await; [intros; simpl; split; [done|later]|]. intros refreshed. apply safe_lift. intros name _. ret.
  assert (authorized_file a ((((pre ++ es) ++ es') ++ [Event NowMs (Ok now)]) ++ es'') f) as [Hv _] by later. later.
Qed.
Lemma attachments_safe a input ids pre :
  safe (confined a) pre (attachments a input ids) (succeeds (fun _ _ => True)).
Proof.
  revert pre. induction ids as [|id ids IH]; intros pre; cbn [attachments]; [done|].
  use attachment_safe. intros es one _. use IH. intros es' rest _. done.
Qed.
Lemma message_files_safe a input ids files sources pre :
  safe (confined a) pre (message_files a input ids files sources) (succeeds (fun _ _ => True)).
Proof.
  revert files sources pre. induction ids as [|id ids IH]; intros files sources pre; cbn [message_files]; [done|].
  apply safe_attempt. eapply safe_conseq; [|apply attachment_safe]. intros es [[[f source] name]|e] _; [apply IH|done].
Qed.
Lemma history_loop_safe a input messages history sources bytes pre :
  safe (confined a) pre (history_loop a input messages history sources bytes) (succeeds (fun _ _ => True)).
Proof.
  revert history sources bytes pre. induction messages as [|m messages IH]; intros history sources bytes pre;
    cbn [history_loop]; [done|].
  apply safe_lift. intros text _. destruct (_ || _); [done|]. destruct (is_some_and _ _); [apply IH|].
  apply safe_lift. intros evidence _. use evidence_visible_safe. intros es b _. destruct (negb b); [apply IH|].
  use message_files_safe. intros es' [[complete files] sources'] _. destruct (negb complete); apply IH.
Qed.

(** ** The methods *)
Notation quiet := (succeeds (fun _ _ => True)).
Lemma sort_projects_safe a roles page found pre : safe (confined a) pre (sort_projects a roles page found) quiet.
Proof.
  revert found pre. induction page as [|p page IH]; intros found pre; cbn [sort_projects]; [done|].
  destruct (project_visible _ _ _); [|apply IH]. unfold allowed. call_. intros b. apply IH.
Qed.
Lemma project_pages_safe pages a roles after found pre :
  safe (confined a) pre (project_pages pages a roles after found) quiet.
Proof.
  revert after found pre. induction pages as [|pages IH]; intros after found pre; cbn [project_pages]; [done|].
  call_. intros page. use sort_projects_safe. intros es found' _. destruct (_ <? _); [done|apply IH].
Qed.
Lemma projects_safe a pre : safe (confined a) pre (projects a) quiet.
Proof.
  unfold projects, project_access. apply safe_seq. use verify_safe. intros es _ _. call_. intros roles.
  eapply safe_mono; [|apply project_pages_safe]. done.
Qed.
Lemma check_roles_safe a roles pre : safe (confined a) pre (check_roles a roles) quiet.
Proof.
  revert pre. induction roles as [|role roles IH]; intros pre; cbn [check_roles]; [done|].
  call_. intros b. apply safe_check. intros _. apply IH.
Qed.
Lemma new_id_safe a id pre : safe (confined a) pre (new_id id) quiet.
Proof. destruct id; [done|]. by apply safe_call. Qed.
Lemma save_project_safe a v pre : safe (confined a) pre (save_project a v) quiet.
Proof.
  unfold save_project. use verify_safe. intros es _ Hv. apply safe_lift. intros input _. use check_roles_safe.
  intros es' _ _. apply safe_seq.
  assert (safe (confined a) ((pre ++ es) ++ es') (match pj_id input with
    | Some id => p ← project a id; ok (Some p) | None => ok None end) quiet) as Hex.
  { destruct (pj_id input); [|done]. use project_safe. done. }
  eapply safe_mono; [|exact Hex]. intros es'' existing _. cbv beta.
  apply safe_optional; intros; [apply safe_check; intros _; apply safe_pure; intros [] _|].
  all: use new_id_safe; intros es3 id _; call_; intros now; call_; intros saved; done.
Qed.
Lemma delete_project_safe a v pre : safe (confined a) pre (delete_project a v) quiet.
Proof.
  unfold delete_project, allowed. apply safe_lift. intros input _. use project_safe. intros es p (Hv & _ & _).
  call_. intros b. apply safe_check. intros _. apply safe_lift. intros data Hd.
  assert (own a p) as Ho.
  { apply bind_Ok_inv in Hd as ([] & [Ho%String.eqb_eq _]%ensure_Ok_inv%andb_prop & _). done. }
  call_. intros saved. call_. intros answered. done.
Qed.
Lemma library_safe a project_id search after pre : safe (confined a) pre (library a project_id search after) quiet.
Proof.
  unfold library, verify_library_access. apply safe_seq. use verify_safe. intros es _ _.
  assert (safe (confined a) (pre ++ es) (if project_id is Some id then project a id ;; ok tt else ok tt) quiet) as Hp.
  { destruct project_id; [|done]. use project_safe. done. }
  eapply safe_mono; [|exact Hp]. intros es' _ _. apply safe_check. intros _. call_. intros page. done.
Qed.
Lemma staged_file_tenant tenant f staged : staged_file tenant f = Ok staged -> sf_tenant staged = tenant.
Proof. unfold staged_file. intros Hs. repeat (apply bind_Ok_inv in Hs as (? & _ & Hs)). by injection Hs as <-. Qed.
Lemma begin_upload_safe a v pre : safe (confined a) pre (begin_upload a v) quiet.
Proof.
  unfold begin_upload. use verify_safe. intros es _ Hv. apply safe_lift. intros input _. apply safe_lift. intros extension _.
  apply safe_check. intros _. apply safe_check. intros _. apply safe_optional_project. intros es'.
  apply safe_optional; intros; [apply safe_pure; intros [] _|].
  all: do 5 (call_; intros ?); call_; intros f; apply safe_lift; intros staged Hs;
    apply staged_file_tenant in Hs; call_; intros upload; done.
Qed.
Lemma finish_upload_safe a v pre : safe (confined a) pre (finish_upload a v) quiet.
Proof.
  unfold finish_upload. apply safe_lift. intros input _. use file_safe. intros es f ((Hv & _) & _ & _).
  apply safe_check. intros Ho%String.eqb_eq. apply safe_lift. intros status _. destruct (String.eqb _ _); [done|].
  apply safe_lift. intros staged Hs. call_. intros promoted. use authorize_record_safe. done.
Qed.
Lemma download_safe a v pre : safe (confined a) pre (download a v) quiet.
Proof. unfold download. apply safe_lift. intros input _. use file_safe. done. Qed.
Lemma file_content_safe a id session pre : safe (confined a) pre (file_content a id session) quiet.
Proof.
  unfold file_content. use file_safe. intros es f (Hf & _). apply safe_lift. intros key Hk.
  apply safe_await; [intros; simpl; exists f; by split|]. intros chunks.
  apply safe_await; [intros; simpl; split; [done|later]|]. done.
Qed.
Lemma delete_file_safe a v pre : safe (confined a) pre (delete_file a v) quiet.
Proof.
  unfold delete_file. apply safe_lift. intros input _. use file_safe. intros es f (Hf & Hst & _).
  apply safe_seq. destruct (String.eqb_spec (rc_owner_id f) (pn_user a)) as [Ho|_].
  - ret. apply safe_await; [intros; simpl; split; [done|]; split; [later|by left]|]. intros expired.
    apply safe_await; [intros; simpl; split; [done|]; exists f; split; later|]. done.
  - apply safe_require. intros id Hid. use project_safe. intros es' p (_ & _ & Hp).
    apply safe_pure. intros [] Ho%ensure_Ok_inv%String.eqb_eq.
    apply safe_await; [intros; simpl; split; [done|]; split; [later|right; exists id, p; split_and!; [done|later|done]]|].
    intros expired. apply safe_await; [intros; simpl; split; [done|]; exists f; split; later|]. done.
Qed.
Lemma chats_safe a after project_id pre : safe (confined a) pre (chats a after project_id) quiet.
Proof.
  unfold chats. use verify_safe. intros es _ _. call_. intros answered. apply safe_optional_project. intros es'.
  call_. intros page. use visible_chats_safe. done.
Qed.
Lemma preference_record_safe a pre : safe (confined a) pre (preference_record a) quiet.
Proof. unfold preference_record. call_. intros rows. apply safe_check. done. Qed.
Lemma preferences_safe a pre : safe (confined a) pre (preferences a) quiet.
Proof. unfold preferences. use verify_safe. intros es _ _. use preference_record_safe. done. Qed.
Lemma update_preferences_safe a v pre : safe (confined a) pre (update_preferences a v) quiet.
Proof.
  unfold update_preferences. use verify_safe. intros es _ Hv. apply safe_lift. intros input _. use preference_record_safe.
  intros es' existing _. apply safe_check. intros _. use new_id_safe. intros es3 id _. call_. intros now. call_. done.
Qed.
Lemma find_agent_safe a input official id pre : safe (confined a) pre (find_agent a input official id) quiet.
Proof.
  unfold find_agent. destruct (List.find _ _); [done|]. call_. intros found. apply safe_require. intros r _.
  apply safe_check. done.
Qed.
Lemma select_agents_safe a input c official ids agents tools pre :
  safe (confined a) pre (select_agents a input c official ids agents tools) quiet.
Proof.
  revert agents tools pre. induction ids as [|id ids IH]; intros agents tools pre; cbn [select_agents]; [done|].
  use find_agent_safe. intros es r _. apply safe_optional_project. intros es'. apply safe_require. intros listed _.
  apply safe_lift. intros skills _. apply safe_lift. intros [] _. apply safe_lift. intros new _.
  apply safe_lift. intros mission _. apply IH.
Qed.
Lemma selected_agents_safe a input pre : safe (confined a) pre (selected_agents a input) quiet.
Proof.
  unfold selected_agents. destruct (si_agent_ids input); [done|]. call_. intros c. apply safe_lift. intros official _.
  use select_agents_safe. intros es selected _. apply safe_check. done.
Qed.
Lemma agents_safe a pre : safe (confined a) pre (agents a) quiet.
Proof.
  unfold agents. use verify_safe. intros es _ _. call_. intros records. call_. intros c. apply safe_lift. done.
Qed.
Lemma save_agent_safe a v pre : safe (confined a) pre (save_agent a v) quiet.
Proof.
  unfold save_agent. use verify_safe. intros es _ Hv. apply safe_lift. intros input _.
  assert (forall es', verified a es' -> safe (confined a) es' (
    (if ai_project_id input is Some p then project a p ;; ok tt else ok tt) ;;
    c ← await Capabilities;
    lift (validate_agent_skills c (ai_skill_ids input) None) ;;
    id ← new_id (ai_id input);
    now ← await NowMs;
    saved ← await (StoreSave (pn_tenant a) CAgent
      {| rc_id := id; rc_owner_id := pn_user a; rc_project_id := ai_project_id input; rc_expires_at := None;
         rc_revision := 1; rc_updated_at := now;
         rc_data := JObject [("name", JString (ai_name input)); ("mission", JString (ai_mission input));
                             ("skillIds", json_strings (ai_skill_ids input))] |} false (ai_revision input));
    ok (json_record saved)) quiet) as Hrest.
  { intros es' Hv'. apply safe_optional_project. intros es3. call_. intros c. apply safe_lift. intros [] _.
    use new_id_safe. intros es4 id _. call_. intros now. call_. done. }
  apply safe_optional; [|intros _; by apply Hrest]. intros id _. call_. intros found. apply safe_require. intros r ->.
  apply safe_check. intros _. destruct (rc_project_id r) as [p|].
  - use project_safe. intros es' p' _. ret. apply Hrest. later.
  - ret. apply Hrest. later.
Qed.
Lemma delete_agent_safe a id pre : safe (confined a) pre (delete_agent a id) quiet.
Proof.
  unfold delete_agent. use verify_safe. intros es _ Hv. call_. intros found. apply safe_require. intros r ->.
  apply safe_check. intros Ho%String.eqb_eq.
  apply safe_await; [intros; simpl; split; [done|]; split; [later|exists r; split; [later|done]]|]. done.
Qed.
Lemma models_safe a pre : safe (confined a) pre (models chatgpt_callback a) (succeeds (fun es _ => verified a es)).
Proof.
  unfold models. use verify_safe. intros es _ Hv. apply safe_seq. destruct chatgpt_callback.
  - apply safe_lift. intros owner _. apply safe_call; [solve [may]|]. intros b. ret. later.
  - apply safe_call; [solve [may]|]. intros b. ret. later.
Qed.
Lemma existing_chat_safe a input pre : safe (confined a) pre (existing_chat a input) quiet.
Proof.
  unfold existing_chat. destruct (si_chat_id input) as [id|]; [|done]. call_. intros [c|]; [|done].
  use authorize_record_safe. intros es _ _. apply safe_check. done.
Qed.
Lemma start_generation_safe a input reservation sources request pre : verified a pre ->
  safe (confined a) pre (start_generation chatgpt_callback a input reservation sources request) quiet.
Proof.
  intros Hv. unfold start_generation. call_. intros answered. call_. intros found. apply safe_require. intros g ->.
  apply safe_lift. intros data Hdata. apply safe_await.
  { intros answer. split_and!; [done|later|]. eexists _, g, _, data. split_and!; [|exact Hdata|done..]. apply elem_of_app. right. apply list_elem_of_here. }
  intros saved. apply safe_seq.
  assert (forall es, verified a es -> safe (confined a) es (if chatgpt_callback is Some _
    then owner ← lift (owner_key (pn_tenant a) (pn_user a)); ok (Some owner) else ok None) (succeeds (fun es _ => verified a es))) as Howner.
  { intros es Hes. destruct chatgpt_callback; [|done]. apply safe_lift. done. }
  eapply safe_mono; [|apply Howner; later]. intros es owner Hv'. cbv beta. apply safe_attempt.
  intros answer. split; [exact Hv'|]. destruct answer; ret; [done|]. apply safe_call; [solve [may]|done].
Qed.
Lemma resend_safe a input generation pre : safe (confined a) pre (resend a input generation) quiet.
Proof.
  unfold resend. apply safe_check. intros _. use authorize_generation_safe. intros es c _. apply safe_lift. intros id _.
  use chat_safe. done.
Qed.
Lemma send_new_safe a input pre : safe (confined a) pre (send_new chatgpt_callback a input) quiet.
Proof.
  unfold send_new. use models_safe. intros es c Hv. apply safe_check. intros _. use selected_agents_safe. intros es2 team _.
  apply safe_seq.
  assert (forall es', safe (confined a) es' (if si_project_id input is Some id then p ← project a id; ok (Some p) else ok None) quiet) as Hp.
  { intros es'. destruct (si_project_id input); [|done]. use project_safe. done. }
  eapply safe_mono; [|apply Hp]. intros es3 p _. cbv beta. use preference_record_safe. intros es4 prefs _. call_. intros answered.
  use existing_chat_safe. intros es5 existing _. use attachments_safe. intros es6 attached _. apply safe_seq.
  assert (forall es', safe (confined a) es' (match existing with
    | Some record => c ← chat a (rc_id record) (si_temporary input);
        history_loop a input (rev (default [] (get_array (rc_data c) "messages"))) [] attached.2 0
    | None => ok ([], attached.2) end) quiet) as Hh.
  { intros es'. destruct existing; [|done]. use chat_safe. intros es'' c' _. apply history_loop_safe. }
  eapply safe_mono; [|apply Hh]. intros es7 history _. cbv beta. call_. intros first. call_. intros second. call_. intros reservation.
  apply safe_seq. destruct (rv_created reservation).
  - eapply safe_mono; [|apply start_generation_safe; later]. intros es8 _ _. cbv beta. call_. intros found.
    apply safe_require. intros g _. use chat_safe. done.
  - ret. call_. intros found. apply safe_require. intros g _. use chat_safe. done.
Qed.
Lemma send_safe a v pre : safe (confined a) pre (send chatgpt_callback a v) quiet.
Proof.
  unfold send. use verify_safe. intros es _ Hv. apply safe_lift. intros input _. apply safe_require. intros id _.
  call_. intros [g|]; [apply resend_safe|apply send_new_safe].
Qed.
Lemma events_safe a id after temporary pre : safe (confined a) pre (events a id after temporary) quiet.
Proof.
  unfold events. apply safe_check. intros _. use verify_safe. intros es _ _. call_. intros answered. call_. intros found.
  apply safe_require. intros g _. use authorize_generation_safe. intros es2 first _. call_. intros list. apply safe_seq.
  destruct (is_some_and _ _); [eapply safe_mono; [|apply chat_safe; exact _]; intros es3 shown _; cbv beta|ret];
    apply safe_lift; done.
Qed.
Lemma cancel_safe a v pre : safe (confined a) pre (cancel a v) quiet.
Proof.
  unfold cancel. apply safe_lift. intros input _. call_. intros found. apply safe_require. intros g _.
  use authorize_generation_safe. intros es c Hv. apply safe_seq. destruct (opt_str_in _ _); [|done].
  call_. intros capability. call_. intros appended. apply safe_optional.
  - intros cap _. apply safe_attempt. intros answer. split; [simpl; later|]. ret.
    apply safe_call; [solve [may]|done].
  - intros _. apply safe_call; [solve [may]|done].
Qed.
(** The file belongs to the library of a conversation in this project, or to the
    user's own library. *)
Definition in_library a (document_project : option string) (f : PengoloRecord) : Prop :=
  rc_project_id f = document_project /\ (document_project = None -> own a f).
Definition moved_file a es (document_project : option string) (id : string) : Prop :=
  exists f, authorized_file a es f /\ stored_at a es CFile id false f /\ live es f /\ in_library a document_project f.
Lemma moved_file_app a es k p id : moved_file a es p id -> moved_file a (es ++ k) p id.
Proof.
  intros (f & Hf & Hst & Hl & Hlib). exists f.
  split; [by apply authorized_file_app|]. split; [by apply stored_app|]. split; [by apply live_app|done].
Qed.
Lemma scope_allows_library a p f :
  document_scope_allows p (pn_user a) None false (rc_project_id f) (rc_owner_id f) None = true -> in_library a p f.
Proof.
  unfold document_scope_allows, in_library, own. simpl. destruct p as [p|].
  - intros ->%bool_decide_eq_true. done.
  - intros [Hn Ho%String.eqb_eq]%andb_prop. by destruct (rc_project_id f).
Qed.
Lemma check_moved_files_safe a p ids pre : safe (confined a) pre (check_moved_files a p ids)
    (succeeds (fun es _ => Forall (moved_file a es p) ids)).
Proof.
  revert pre. induction ids as [|id ids IH]; intros pre; cbn [check_moved_files]; [ret; constructor|].
  use file_safe. intros es f (Hf & Hst & Hl). apply safe_check. intros Hs. eapply safe_mono; [|apply IH].
  intros es' [] Hr. constructor; [|done]. apply moved_file_app. exists f.
  split; [done|]. split; [done|]. split; [by apply Hl|by apply scope_allows_library].
Qed.
(** What a chat refers to. *)
Definition chat_file_ids (c : PengoloRecord) : list string :=
  default [] (get_array (rc_data c) "messages") ≫= message_file_ids.
(** The library of a conversation in a project: the project's, unless the project
    works on the personal library of its owner. *)
Definition library_of a es (project_id document_project : option string) : Prop :=
  match project_id with
  | None => document_project = None
  | Some id => exists p, stored_at a es CProject id false p /\ sees_project a es id /\
      document_project = if is_personal p then None else Some id
  end.
Lemma move_chat_safe a input c pre :
  safe (confined a) pre (move_chat a input c) (succeeds (fun es c' =>
    c' = with_project c (ci_project_id input) /\
    exists p, library_of a es (ci_project_id input) p /\ Forall (moved_file a es p) (chat_file_ids c'))).
Proof.
  unfold move_chat. apply safe_check. intros _. apply safe_check. intros _. apply safe_seq.
  assert (safe (confined a) pre (match ci_project_id input with
    | Some id => p ← project a id; ok (if is_personal p then None else Some id) | None => ok None end)
    (succeeds (fun es p => library_of a es (ci_project_id input) p))) as Hp.
  { unfold library_of. destruct (ci_project_id input) as [id|]; [|done]. use project_safe. intros es p (_ & ? & ?). ret. eauto. }
  eapply safe_mono; [|exact Hp]. intros es p Hlib. cbv beta. use check_moved_files_safe. intros es' _ Hf. ret. split; [done|].
  exists p. split; [|done]. revert Hlib. unfold library_of. destruct (ci_project_id input); [|done].
  intros (r & ? & ? & ?). exists r. split_and!; [by apply stored_app|by apply sees_project_app|done].
Qed.
Record edit_ok a (input : ChatInput) es (c : PengoloRecord) : Prop := {
  edit_verified : verified a es;
  edit_own : own a c;
  edit_stored : exists r, stored_at a es CChat (ci_id input) (ci_temporary input) r /\ own a r /\
    rc_revision r = ci_revision input /\ rc_id c = rc_id r /\
    rc_project_id c = if ci_move_project input then ci_project_id input else rc_project_id r;
  edit_files : ci_move_project input = true ->
    exists p, library_of a es (ci_project_id input) p /\ Forall (moved_file a es p) (chat_file_ids c);
}.
Lemma edited_chat_safe a input pre :
  safe (confined a) pre (edited_chat a input) (succeeds (edit_ok a input)).
Proof.
  unfold edited_chat. call_. intros found. apply safe_require. intros c ->.
  use authorize_record_safe. intros es _ [Hv _]. apply safe_check. intros Ho%String.eqb_eq. apply safe_check. intros Hr%Z.eqb_eq.
  set (es1 := (pre ++ _) ++ es). assert (stored_at a es1 CChat (ci_id input) (ci_temporary input) c) as Hst by (unfold es1; later).
  assert (forall data, safe (confined a) es1
    (if ci_move_project input then move_chat a input (with_data c data) else ok (with_data c data))
    (succeeds (edit_ok a input))) as Hrest.
  { intros data. destruct (ci_move_project input) eqn:Em.
    - eapply safe_mono; [|apply move_chat_safe]. intros es2 c' (-> & Hf). split; [by apply verified_app|done| |by intros _].
      rewrite Em. exists c. split_and!; try done. by apply stored_app.
    - ret. split; [done|done| |by rewrite Em]. rewrite Em. by exists c. }
  clearbody es1. apply safe_seq.
  destruct (ci_task_checks input); [apply safe_require; intros id _; apply safe_pure; intros data _|ret].
  all: apply safe_seq; destruct (ci_title input); [apply safe_check; intros _; apply safe_pure; intros data2 _|ret].
  all: apply safe_seq; destruct (ci_pinned input); [apply safe_pure; intros data3 _|ret].
  all: apply Hrest.
Qed.
Lemma update_chat_safe a v pre : safe (confined a) pre (update_chat a v) quiet.
Proof.
  unfold update_chat. apply safe_lift. intros input _. use edited_chat_safe. intros es c [Hv Ho _ _]. call_. done.
Qed.
Lemma close_temporary_safe a v pre : safe (confined a) pre (close_temporary a v) quiet.
Proof. unfold close_temporary. use verify_safe. intros es _ Hv. apply safe_lift. intros input _. call_. done. Qed.
Lemma delete_chat_safe a v pre : safe (confined a) pre (delete_chat a v) quiet.
Proof.
  unfold delete_chat. apply safe_lift. intros input _. use chat_safe. intros es c (Hv & r & visible & Hst & _ & Hr & _).
  apply safe_check. intros [Ho%String.eqb_eq _]%andb_prop. apply safe_check. intros _.
  apply safe_await; [intros; simpl; split; [done|]; split; [later|exists r; split; [later|unfold own; congruence]]|]. done.
Qed.
Lemma read_file_tool_safe a generation id pre : safe (confined a) pre (read_file_tool a generation id) quiet.
Proof.
  unfold read_file_tool. apply safe_check. intros _. apply safe_require. intros stored _. apply safe_lift. intros input _.
  use authorize_generation_safe. intros es c Hv. use attachment_safe. intros es2 one Hv2. call_. done.
Qed.

Lemma openai_account_safe a pre : safe (confined a) pre (openai_account chatgpt_callback a) quiet.
Proof.
  unfold openai_account. use verify_safe. intros es _ Hv. destruct chatgpt_callback; [|done].
  apply safe_lift. intros owner Ho. apply safe_call; [|done]. intros answer. split; [later|]. by exists owner.
Qed.
Lemma update_openai_account_safe a operation registration pre :
  safe (confined a) pre (update_openai_account chatgpt_callback a operation registration) quiet.
Proof.
  unfold update_openai_account. use verify_safe. intros es _ Hv. apply safe_require. intros callback _.
  do 3 (apply safe_check; intros _). apply safe_lift. intros owner Ho. apply safe_call; [|done].
  intros answer. split; [later|]. by exists owner.
Qed.
Lemma identity_safe a available pre : safe (confined a) pre (identity a available) quiet.
Proof.
  unfold identity, project_access, allowed. use verify_safe. intros es _ _. call_. intros roles. apply safe_seq.
  use verify_safe. intros es2 _ _. call_. intros roles'. eapply safe_mono; [|apply project_pages_safe].
  intros es3 access _. cbv beta. call_. done.
Qed.
Lemma index_document_safe a id pre : safe (confined a) pre (index_document a id) quiet.
Proof.
  unfold index_document. use verify_safe. intros es _ Hv. apply safe_check. intros _. call_. intros found.
  apply safe_require. intros f ->. apply safe_check. intros Ho%String.eqb_eq. apply safe_optional_project. intros es'.
  apply safe_await; [|done]. intros answer. split_and!; [done|later|]. exists f. split; [later|done].
Qed.
Lemma safe_question {A B} a error (p : prog A) (k : A -> prog (QuestionError + B)) pre Q :
  safe (confined a) pre p (succeeds Q) ->
  (forall es x, Q (pre ++ es) x -> safe (confined a) (pre ++ es) (k x) quiet) ->
  safe (confined a) pre (or_question error p k) quiet.
Proof.
  intros Hp Hk. unfold or_question. apply safe_attempt. eapply safe_conseq; [|exact Hp].
  intros es [x|e] Hq; [by apply Hk|done].
Qed.
Lemma answer_question_safe a v pre : safe (confined a) pre (answer_question a v) quiet.
Proof.
  unfold answer_question. eapply safe_question; [apply verify_safe; exact _|]. intros es u Hv.
  apply (safe_question _ _ _ _ _ any); [by apply safe_pure|]. intros es2 input _. cbv beta in Hv.
  eapply safe_question; [apply (safe_call _ _ (fun es found => forall g, found = Some g ->
    stored_at a es CGeneration (an_id input) (an_temporary input) g)); [solve [may]|by intros found g ->; apply stored_here]|].
  intros es3 [g|] Hst; [|done]. specialize (Hst g eq_refl).
  eapply safe_question; [apply authorize_generation_safe; exact _|]. intros es4 c Hv4.
  destruct (answer_authority _ _ _) eqn:Ha; [done|].
  eapply safe_question; [apply (safe_call _ _ (fun _ _ => True)); [solve [may]|done]|]. intros es5 [capability|] _; [|done].
  eapply safe_question; [apply (safe_call _ _ (fun _ _ => True)); [|done]|done].
  intros answer. split; [later|]. exists g, (an_temporary input). split; [later|]. revert Ha. unfold answer_authority, own.
  by destruct (String.eqb_spec (rc_owner_id g) (pn_user a)).
Qed.

(** Every request a user can make. *)
Inductive user_request a : forall A, prog A -> Prop :=
  | ask_projects : user_request a _ (projects a)
  | ask_project id : user_request a _ (project a id)
  | ask_save_project v : user_request a _ (save_project a v)
  | ask_delete_project v : user_request a _ (delete_project a v)
  | ask_library project_id search after : user_request a _ (library a project_id search after)
  | ask_begin_upload v : user_request a _ (begin_upload a v)
  | ask_finish_upload v : user_request a _ (finish_upload a v)
  | ask_download v : user_request a _ (download a v)
  | ask_file_content id session : user_request a _ (file_content a id session)
  | ask_delete_file v : user_request a _ (delete_file a v)
  | ask_chat id temporary : user_request a _ (chat a id temporary)
  | ask_chats after project_id : user_request a _ (chats a after project_id)
  | ask_update_chat v : user_request a _ (update_chat a v)
  | ask_delete_chat v : user_request a _ (delete_chat a v)
  | ask_close_temporary v : user_request a _ (close_temporary a v)
  | ask_send v : user_request a _ (send chatgpt_callback a v)
  | ask_events id after temporary : user_request a _ (events a id after temporary)
  | ask_cancel v : user_request a _ (cancel a v)
  | ask_read_file generation id : user_request a _ (read_file_tool a generation id)
  | ask_identity available : user_request a _ (identity a available)
  | ask_answer v : user_request a _ (answer_question a v)
  | ask_index id : user_request a _ (index_document a id)
  | ask_account : user_request a _ (openai_account chatgpt_callback a)
  | ask_update_account operation registration :
      user_request a _ (update_openai_account chatgpt_callback a operation registration)
  | ask_agents : user_request a _ (agents a)
  | ask_save_agent v : user_request a _ (save_agent a v)
  | ask_delete_agent id : user_request a _ (delete_agent a id)
  | ask_preferences : user_request a _ (preferences a)
  | ask_update_preferences v : user_request a _ (update_preferences a v).
Lemma request_safe a A (p : prog A) : user_request a A p -> safe (confined a) [] p quiet.
Proof.
  assert (forall A (p : prog A) Q, safe (confined a) [] p (succeeds Q) -> safe (confined a) [] p quiet) as Hw.
  { intros A' p' Q. by apply safe_mono. }
  pose proof (fun id => project_safe (confined a) a id) as Hproject.
  pose proof (fun id temporary => chat_safe (confined a) a id temporary) as Hchat.
  destruct 1; eauto using confined_looks, openai_account_safe, update_openai_account_safe, identity_safe,
    index_document_safe, answer_question_safe, projects_safe, save_project_safe, delete_project_safe, library_safe,
    begin_upload_safe, finish_upload_safe, download_safe, file_content_safe, delete_file_safe, chats_safe,
    update_chat_safe, delete_chat_safe, close_temporary_safe, send_safe, events_safe, cancel_safe,
    read_file_tool_safe, agents_safe, save_agent_safe, delete_agent_safe, preferences_safe, update_preferences_safe.
Qed.


(** C17: a conversation shows no answer whose sources the user lost: when a chat is
    returned, it belongs to the user or to a project the user sees, and every
    message in it has only sources that were checked in the same run: a file found
    in the tenant, in the user's scope, ready and not expired, or a resource for
    which authorization allowed exactly this user to view (or manage) it. *)
Theorem chat_shows_visible_answers a id temporary es c :
  runs (chat a id temporary) es (Ok c) ->
  exists r visible, stored_at a es CChat id temporary r /\ in_scope a es r /\
    get_array (rc_data c) "messages" = Some visible /\ Forall (message_ok a es) visible.
Proof.
  intros Hr. destruct (safe_runs _ _ _ _ _ (chat_safe (confined a) a id temporary []) Hr) as [(_ & r & visible & Hq) _].
  exists r, visible. naive_solver.
Qed.

(** C18: moving a conversation discloses no document: the chat that an update saves
    is the stored chat of its owner at the expected revision; and when it moves to
    another project (or out of one), every file that any of its messages attaches
    or cites was found, authorized for the user, ready and not expired, and is in
    the library of the destination: of the project itself, or among the user's own
    files when the destination has no library. *)
Theorem moved_chat_keeps_documents a input es c :
  runs (edited_chat a input) es (Ok c) -> edit_ok a input es c.
Proof.
  intros Hr. by destruct (safe_runs _ _ _ _ _ (edited_chat_safe a input []) Hr) as [Hq _].
Qed.
End confined.
