(* ===== verification/WorkspaceDemo.v ===== *)
(** * WorkspaceDemo: a small workspace

    A user with one file and one conversation, and the theorems of WorkspaceFacts.v
    at its requests. *)

From S2P Require Import Prelude Text RustStr Json Serde Authoring Proc Authorization Pengolo.
From S2P Require Import Agents Activity Workspace WorkspaceFacts.

#[local] Instance demo_formats : Externals := {| json_to_vec _ := Ok "{}"%string; sha256_hex s := s |}.
#[local] Instance demo_uuids : Uuids := {| uuid_parse := Some |}.
#[local] Instance demo_activity : ActivityExternals :=
  {| activity_from_str _ := Err (Foreign "serde_json"); url_parse _ := None |}.
#[local] Instance demo_encodings : WorkspaceExternals :=
  {| url_encode s := s; base64_decode := Some; default_hash _ := EmptyString |}.

Definition demo_actor : Principal := {| pn_tenant := "acme"; pn_user := "ana"; pn_context := default_context |}.
Definition demo_key : string := "acme/ana/pengolo/f1.txt".
Definition demo_record (id : string) (expires : option Z) (data : value) : PengoloRecord :=
  {| rc_id := id; rc_owner_id := "ana"; rc_project_id := None; rc_expires_at := expires; rc_revision := 3;
     rc_updated_at := 900; rc_data := data |}.
Definition demo_file : PengoloRecord := demo_record "f1" (Some 5000%Z)
  (JObject [("status", JString "ready"); ("key", JString demo_key); ("mime", JString "text/plain");
            ("name", JString "notes.txt")]).
Definition demo_message : value :=
  JObject [("text", JString "see the notes"); ("fileIds", json_strings ["f1"%string]);
           ("evidence", JArray [JObject [("resource_type", JString "pengolo_file"); ("resource_id", JString "f1");
              ("manage", JBool false); ("entity_id", JNull); ("modality", JNull); ("state_type", JNull)]])].
Definition demo_chat : PengoloRecord := demo_record "c1" None (JObject [("messages", JArray [demo_message])]).
Definition demo_world (B : Type) (c : call B) : result B :=
  match c in call B return result B with
  | GetUserStatus _ _ => Ok Active
  | IsAuthorized _ _ _ _ _ _ => Ok true
  | StoreGet _ CFile _ _ => Ok (Some demo_file)
  | StoreGet _ CChat _ _ => Ok (Some demo_chat)
  | RefreshRetention _ r _ => Ok r
  | StoreSave _ _ r _ _ => Ok r
  | ReadObject _ => Ok [Ok "hello"%string]
  | NowMs => Ok 1000%Z
  | _ => Err (Foreign "unavailable")
  end.

Definition demo_read : prog (PengoloRecord * list (result string)) := file_content demo_actor "f1" None.

Definition demo_show : prog PengoloRecord := chat demo_actor "c1" false.
Lemma chat_shows_visible_answers_witness :
  eval demo_world demo_show = Ok demo_chat /\
  exists r visible, stored_at demo_actor (trace demo_world demo_show) CChat "c1" false r /\
    in_scope demo_actor (trace demo_world demo_show) r /\
    get_array (rc_data demo_chat) "messages" = Some visible /\
    Forall (message_ok demo_actor (trace demo_world demo_show)) visible.
Proof.
  split; [reflexivity|].
  exact (chat_shows_visible_answers demo_actor "c1" false _ _ (trace_runs demo_world demo_show)).
Defined.

Definition demo_move : ChatInput :=
  {| ci_id := "c1"; ci_revision := 3; ci_title := None; ci_pinned := Some true; ci_project_id := None;
     ci_move_project := true; ci_message_id := None; ci_task_checks := None; ci_temporary := false |}.
Definition demo_edit : prog PengoloRecord := edited_chat demo_actor demo_move.
Lemma moved_chat_keeps_documents_witness :
  exists c, eval demo_world demo_edit = Ok c /\ chat_file_ids c = ["f1"; "f1"]%string /\
    edit_ok demo_actor demo_move (trace demo_world demo_edit) c.
Proof.
  eexists. split; [reflexivity|]. split; [reflexivity|].
  exact (moved_chat_keeps_documents demo_actor demo_move _ _ (trace_runs demo_world demo_edit)).
Defined.
