(* ===== verification/Database.v ===== *)
(** * Database: the tables of the workspace and transactions on them

    The tables that migrations 202610130001, 202610170003, 202610180001,
    202610180002 and 202610250001 create, with their keys, checks and row-level
    security, and programs that run in one transaction (database/connection.rs,
    [Database::tenant]).  A transaction sees and changes the rows of its tenant,
    takes the row and advisory locks its statements ask for, and is one atomic step
    of the database: nothing of it is visible before its commit, and an error before
    that rolls it back.  What it cannot decide itself is its environment: the clock
    at each reading, random identifiers, failing statements, the outcome of the
    commit, the order of an unordered scan, and the object store. *)

From S2P Require Import Prelude Text RustStr Json Serde Authorization Pengolo Workspace.
From Stdlib Require Import Ascii.

(** ** Tables *)

(** A row of [pengolo_records] or [pengolo_ephemeral_records], by tenant, kind and id. *)
Notation rkey := (string * string * string)%type.
Record row : Type := {
  row_owner : string;
  row_project : option string;
  row_expires : option Z;
  row_revision : Z;
  row_updated : Z;
  row_data : value;
}.
Record Retention : Type := { rt_expires : Z; rt_object : option string; rt_staging : option string }.
Record Capability : Type := { cp_tenant : string; cp_generation : string; cp_temporary : bool; cp_expires : Z }.
Record Job : Type := {
  jb_checksum : string;
  jb_attempts : Z;
  jb_next_attempt : Z;
  jb_lease : option string;
  jb_lease_expires : Z;
  jb_work_revision : option string;
  jb_progress : value;
}.
(** The rows of the two output tables are keyed by tenant, generation and sequence;
    a capability by its token; the IAM tables are read only. *)
Record db : Type := {
  durable : gmap rkey row;
  ephemeral : gmap rkey row;
  durable_output : gmap (string * string * Z) (string * string);
  ephemeral_output : gmap (string * string * Z) (string * string);
  capabilities : gmap string Capability;
  retention : gmap (string * string * string * bool) Retention;
  jobs : gmap (string * string) Job;
  iam_roles : gset (string * string);
  iam_role_parents : gset (string * string * string);
  iam_user_roles : gset (string * string * string);
}.
Definition empty_db : db :=
  {| durable := ∅; ephemeral := ∅; durable_output := ∅; ephemeral_output := ∅; capabilities := ∅; retention := ∅;
     jobs := ∅; iam_roles := ∅; iam_role_parents := ∅; iam_user_roles := ∅ |}.
Definition table (temporary : bool) (d : db) : gmap rkey row :=
  if temporary then ephemeral d else durable d.
Definition output_table (temporary : bool) (d : db) : gmap (string * string * Z) (string * string) :=
  if temporary then ephemeral_output d else durable_output d.
Definition set_table (temporary : bool) (t : gmap rkey row) (d : db) : db :=
  {| durable := if temporary then durable d else t; ephemeral := if temporary then t else ephemeral d;
     durable_output := durable_output d; ephemeral_output := ephemeral_output d; capabilities := capabilities d;
     retention := retention d; jobs := jobs d; iam_roles := iam_roles d; iam_role_parents := iam_role_parents d;
     iam_user_roles := iam_user_roles d |}.
Definition set_output (temporary : bool) (t : gmap (string * string * Z) (string * string)) (d : db) : db :=
  {| durable := durable d; ephemeral := ephemeral d;
     durable_output := if temporary then durable_output d else t;
     ephemeral_output := if temporary then t else ephemeral_output d; capabilities := capabilities d;
     retention := retention d; jobs := jobs d; iam_roles := iam_roles d; iam_role_parents := iam_role_parents d;
     iam_user_roles := iam_user_roles d |}.
Definition set_capabilities (t : gmap string Capability) (d : db) : db :=
  {| durable := durable d; ephemeral := ephemeral d; durable_output := durable_output d;
     ephemeral_output := ephemeral_output d; capabilities := t; retention := retention d; jobs := jobs d;
     iam_roles := iam_roles d; iam_role_parents := iam_role_parents d; iam_user_roles := iam_user_roles d |}.
Definition set_retention (t : gmap (string * string * string * bool) Retention) (d : db) : db :=
  {| durable := durable d; ephemeral := ephemeral d; durable_output := durable_output d;
     ephemeral_output := ephemeral_output d; capabilities := capabilities d; retention := t; jobs := jobs d;
     iam_roles := iam_roles d; iam_role_parents := iam_role_parents d; iam_user_roles := iam_user_roles d |}.
Definition set_jobs (t : gmap (string * string) Job) (d : db) : db :=
  {| durable := durable d; ephemeral := ephemeral d; durable_output := durable_output d;
     ephemeral_output := ephemeral_output d; capabilities := capabilities d; retention := retention d; jobs := t;
     iam_roles := iam_roles d; iam_role_parents := iam_role_parents d; iam_user_roles := iam_user_roles d |}.

(** ** PostgreSQL

    [jsonb v] is what a JSONB column gives back of [v], or the error of storing it
    (a text with a NUL character); [jsonb_text] prints a stored number, array or
    object; [bigint_of_text] is the cast of a text; [text_lt] the collation of
    texts; [filename_matches] the function of migration 202610170001. *)
Class Postgres := {
  jsonb : value -> result value;
  jsonb_text : value -> string;
  bigint_of_text : string -> option Z;
  text_lt : string -> string -> bool;
  filename_matches : option string -> string -> bool;
}.
(** A JSONB value has the members and items that were stored; texts, booleans,
    nulls and 64-bit integers come back as they were. *)
Class PostgresLaws `{Postgres} := {
  jsonb_object m w : jsonb (JObject m) = Ok w ->
    exists m', w = JObject m' /\ forall k, option_Forall2 (fun x y => jsonb x = Ok y) (jget k m) (jget k m');
  jsonb_array l w : jsonb (JArray l) = Ok w -> exists l', w = JArray l' /\ Forall2 (fun x y => jsonb x = Ok y) l l';
  jsonb_string s w : jsonb (JString s) = Ok w -> w = JString s;
  jsonb_null w : jsonb JNull = Ok w -> w = JNull;
  jsonb_bool b w : jsonb (JBool b) = Ok w -> w = JBool b;
  jsonb_integer z w : jsonb (json_i64 z) = Ok w -> w = json_i64 z;
}.

(** ** Transactions *)
Inductive commit_outcome : Type := Committed | CommitFailed | CommitUnknown (applied : bool).
(** Calls to the object store that were made, whatever became of the transaction. *)
Inductive object_call : Type :=
  | Finalized (file : StagedFile)
  | Deleted (key : string)
  | DeletedStaging (key : string).
Record env : Type := {
  ev_clock : nat -> Z;
  ev_uuid : nat -> string;
  ev_fault : nat -> bool;
  ev_commit : commit_outcome;
  ev_scan : list (rkey * row) -> list (rkey * row);
  ev_finalize : StagedFile -> result Z;
  ev_delete : string -> result unit;
  ev_delete_staging : string -> result unit;
}.
Record txstate : Type := { st_db : db; st_tick : nat; st_log : list object_call }.
Definition tx (A : Type) : Type := env -> txstate -> txstate * result A.
#[export] Instance tx_ret : MRet tx := fun _ a _ s => (s, Ok a).
#[export] Instance tx_bind : MBind tx := fun _ _ f p e s =>
  let '(s, r) := p e s in match r with Ok a => f a e s | Err error => (s, Err error) end.
Definition tx_lift {A} (r : result A) : tx A := fun _ s => (s, r).
Definition tx_check (b : bool) (message : string) : tx unit := tx_lift (ensure b message).
Definition tx_require {A} (message : string) (o : option A) : tx A := tx_lift (with_context message o).
Definition tick (s : txstate) : txstate := {| st_db := st_db s; st_tick := S (st_tick s); st_log := st_log s |}.
Definition with_db (d : db) (s : txstate) : txstate := {| st_db := d; st_tick := st_tick s; st_log := st_log s |}.
Definition logged (c : object_call) (s : txstate) : txstate :=
  {| st_db := st_db s; st_tick := st_tick s; st_log := st_log s ++ [c] |}.
Definition now : tx Z := fun e s => (tick s, Ok (ev_clock e (st_tick s))).
(** [Uuid::new_v4().simple()] *)
Definition new_uuid : tx string := fun e s => (tick s, Ok (ev_uuid e (st_tick s))).
Definition sql_error {A} : result A := Err (Foreign "sqlx").
(** A statement fails on its own terms, or because the connection does. *)
Definition statement {A} (f : db -> result (A * db)) : tx A := fun e s =>
  if ev_fault e (st_tick s) then (tick s, sql_error)
  else match f (st_db s) with
       | Ok (a, d) => (with_db d (tick s), Ok a)
       | Err error => (tick s, Err error)
       end.
Definition execute (f : db -> result db) : tx unit := statement (fun d => d' ← f d; Ok (tt, d')).
Definition query {A} (f : db -> result A) : tx A := statement (fun d => a ← f d; Ok (a, d)).
(** The rows of an unordered scan, and a statement that changes and returns them. *)
Definition returning (p : rkey -> row -> bool) (temporary : bool) (f : db -> result db) : tx (list (rkey * row)) := fun e =>
  statement (fun d => d' ← f d;
    Ok (List.filter (fun kr => p kr.1 kr.2) (ev_scan e (map_to_list (table temporary d))), d')) e.
Definition scan (p : rkey -> row -> bool) (temporary : bool) : tx (list (rkey * row)) := returning p temporary Ok.
Definition finalize (file : StagedFile) : tx Z := fun e s => (logged (Finalized file) s, ev_finalize e file).
Definition delete_object (key : string) : tx unit := fun e s => (logged (Deleted key) s, ev_delete e key).
Definition delete_staging (key : string) : tx unit := fun e s => (logged (DeletedStaging key) s, ev_delete_staging e key).

(** One transaction: what the database is afterwards, which object calls were made,
    and what the caller gets. *)
Definition transaction {A} (tenant : string) (body : string -> tx A) (e : env) (d : db)
    : db * list object_call * result A :=
  match validate_tenant_id tenant with
  | Err error => (d, [], Err error)
  | Ok context =>
      match (query (fun _ => Ok tt) ;; body context) e {| st_db := d; st_tick := 0; st_log := [] |} with
      | (s, Err error) => (d, st_log s, Err error)
      | (s, Ok a) =>
          match ev_commit e with
          | Committed => (st_db s, st_log s, Ok a)
          | CommitFailed => (d, st_log s, sql_error)
          | CommitUnknown applied => (if applied then st_db s else d, st_log s, sql_error)
          end
      end
  end.

(** ** Statements

    [context] is the tenant of the transaction: a row of another tenant is not
    visible, and one cannot be written. *)
Definition nul_free (s : string) : bool := negb (contains NUL s).
Definition DURABLE_KINDS : list string := ["chat"; "project"; "file"; "generation"; "agent"; "preference"].
Definition EPHEMERAL_KINDS : list string := ["chat"; "project"; "file"; "generation"].
Section statements.
Context `{Postgres}.
(** The checks of the two record tables. *)
Definition row_allowed (temporary : bool) (kind id : string) (r : row) : bool :=
  str_in kind (if temporary then EPHEMERAL_KINDS else DURABLE_KINDS) && valid_record_id id &&
  negb (is_empty (row_owner r)) && nul_free (row_owner r) && is_none_or nul_free (row_project r) &&
  (0 <? row_revision r)%Z && (row_revision r <=? I64_MAX)%Z &&
  is_object (row_data r) && (byte_len (jsonb_text (row_data r)) <=? 2097152)%N &&
  (if temporary
   then negb (String.eqb kind "project") && option_is_none (row_project r) && option_is_some (row_expires r)
   else negb (String.eqb kind "preference") || (option_is_none (row_project r) && option_is_none (row_expires r))).
(** The unique index [pengolo_preferences_owner]. *)
Definition owns_preference (tenant owner id : string) (kr : rkey * row) : bool :=
  let '(t, k, i) := kr.1 in
  String.eqb t tenant && String.eqb k "preference" && negb (String.eqb i id) && String.eqb (row_owner kr.2) owner.
Definition preference_free (temporary : bool) (tenant kind id owner : string) (d : db) : bool :=
  temporary || negb (String.eqb kind "preference") ||
  negb (existsb (owns_preference tenant owner id) (map_to_list (durable d))).
(** Storing a row version: the checks and the index. *)
Definition put_row (temporary : bool) (key : rkey) (r : row) (d : db) : result db :=
  let '(tenant, kind, id) := key in
  if row_allowed temporary kind id r && preference_free temporary tenant kind id (row_owner r) d
  then Ok (set_table temporary (<[key := r]> (table temporary d)) d) else sql_error.
Definition visible (context : string) (key : rkey) : bool := String.eqb key.1.1 context.
(** A deleted file takes its indexing job with it. *)
Definition delete_row (context : string) (temporary : bool) (key : rkey) (d : db) : db :=
  if visible context key then
    let d := set_table temporary (delete key (table temporary d)) d in
    if negb temporary && String.eqb key.1.2 "file" then set_jobs (delete (key.1.1, key.2) (jobs d)) d else d
  else d.

(** The text of a member: [data->>key]. *)
Definition arrow_text (data : value) (key : string) : option string :=
  match get data key with
  | None | Some JNull => None
  | Some (JString s) => Some s
  | Some (JBool b) => Some (if b then "true" else "false")%string
  | Some v => Some (jsonb_text v)
  end.
Definition text_is (o : option string) (s : string) : bool := opt_eqb o (Some s).

Definition upsert_retention (context : string) (key : string * string * string * bool) (r : Retention) (d : db) : result db :=
  if String.eqb key.1.1.1 context then Ok (set_retention (<[key := r]> (retention d)) d) else sql_error.
Definition insert_retention (context : string) (key : string * string * string * bool) (r : Retention) (d : db) : result db :=
  if option_is_some (retention d !! key) then sql_error else upsert_retention context key r d.
Definition delete_retention (context : string) (p : string * string * string * bool -> bool) (d : db) : db :=
  set_retention (filter (fun kr => Is_true (negb (String.eqb kr.1.1.1.1 context && p kr.1))) (retention d)) d.
Definition delete_capabilities (context : string) (p : Capability -> bool) (d : db) : db :=
  set_capabilities (filter (fun tc => Is_true (negb (String.eqb (cp_tenant tc.2) context && p tc.2))) (capabilities d)) d.
Definition delete_output (context : string) (temporary : bool) (tenant generation : string) (d : db) : db :=
  set_output temporary
    (filter (fun ko => Is_true (negb (String.eqb ko.1.1.1 context && String.eqb ko.1.1.1 tenant && String.eqb ko.1.1.2 generation)))
       (output_table temporary d)) d.
End statements.
