(* ===== verification/RecordStore.v ===== *)
(** * RecordStore: the workspace records in PostgreSQL (database/pengolo.rs)

    [PgPengoloStore], the gateway's implementation of the port [PengoloStore]: one
    definition per method, whose body is the transaction it runs, statement by
    statement (Database.v).  The methods that run several transactions are programs
    over them, since other requests run in between. *)

From S2P Require Import Prelude Text RustStr Json Serde Authoring Proc Authorization Pengolo.
From S2P Require Import Activity Workspace Database.
From Stdlib Require Import Ascii.

Definition NORMAL_TTL_MS : Z := 30 * 24 * 60 * 60 * 1000.
Definition TEMPORARY_TTL_MS : Z := 24 * 60 * 60 * 1000.
Definition WEEK_MS : Z := 7 * 24 * 60 * 60 * 1000.
Definition as_str_kind (c : Collection) : string :=
  match c with
  | CPreference => "preference" | CAgent => "agent" | CChat => "chat" | CProject => "project"
  | CFile => "file" | CGeneration => "generation"
  end.
Definition to_record (id : string) (r : row) : PengoloRecord :=
  {| rc_id := id; rc_owner_id := row_owner r; rc_project_id := row_project r; rc_expires_at := row_expires r;
     rc_revision := row_revision r; rc_updated_at := row_updated r; rc_data := row_data r |}.
Definition with_expiry (r : PengoloRecord) (expires : option Z) : PengoloRecord :=
  {| rc_id := rc_id r; rc_owner_id := rc_owner_id r; rc_project_id := rc_project_id r; rc_expires_at := expires;
     rc_revision := rc_revision r; rc_updated_at := rc_updated_at r; rc_data := rc_data r |}.
Definition saved_as (r : PengoloRecord) (revision updated : Z) : PengoloRecord :=
  {| rc_id := rc_id r; rc_owner_id := rc_owner_id r; rc_project_id := rc_project_id r;
     rc_expires_at := rc_expires_at r; rc_revision := revision; rc_updated_at := updated; rc_data := rc_data r |}.
Definition expires_after (t : Z) (r : row) : bool := is_none_or (fun deadline => t <? deadline)%Z (row_expires r).
Definition row_with_expiry (expires : Z) (r : row) : row :=
  {| row_owner := row_owner r; row_project := row_project r; row_expires := Some expires;
     row_revision := row_revision r; row_updated := row_updated r; row_data := row_data r |}.
Definition row_with_project (project : option string) (r : row) : row :=
  {| row_owner := row_owner r; row_project := project; row_expires := row_expires r;
     row_revision := row_revision r; row_updated := row_updated r; row_data := row_data r |}.
Definition nothing : tx unit := tx_lift (Ok tt).
Fixpoint tx_each {A} (f : A -> tx unit) (l : list A) : tx unit :=
  match l with
  | [] => nothing
  | a :: l => f a ;; tx_each f l
  end.

Section store.
Context `{Externals} `{Uuids} `{ActivityExternals} `{Postgres}.
(** [str::to_lowercase] *)
Context (to_lowercase : string -> string).

(** ** Reading and writing *)

(** Row-level security scopes the query, which does not name the tenant. *)
Definition read (context : string) (c : Collection) (id : string) (temporary : bool) : tx (option PengoloRecord) :=
  t ← now;
  query (fun d => Ok (to_record id <$> option_filter (expires_after t) (table temporary d !! (context, as_str_kind c, id)))).
Definition new_row (r : PengoloRecord) (revision updated : Z) (data : value) : row :=
  {| row_owner := rc_owner_id r; row_project := rc_project_id r; row_expires := rc_expires_at r;
     row_revision := revision; row_updated := updated; row_data := data |}.
(** The number of rows a statement changed, and the database. *)
Definition update_row (context tenant kind : string) (r : PengoloRecord) (temporary : bool) (revision updated : Z)
    (d : db) : result (Z * db) :=
  data ← jsonb (rc_data r);
  match table temporary d !! (tenant, kind, rc_id r) with
  | Some old =>
      if String.eqb tenant context && (row_revision old =? revision)%Z then
        d ← put_row temporary (tenant, kind, rc_id r) (new_row r (row_revision old + 1) updated data) d;
        Ok (1%Z, d)
      else Ok (0%Z, d)
  | None => Ok (0%Z, d)
  end.
Definition insert_row (context tenant kind : string) (r : PengoloRecord) (temporary : bool) (updated : Z)
    (d : db) : result (Z * db) :=
  data ← jsonb (rc_data r);
  if String.eqb tenant context && option_is_none (table temporary d !! (tenant, kind, rc_id r)) then
    d ← put_row temporary (tenant, kind, rc_id r) (new_row r 1 updated data) d;
    Ok (1%Z, d)
  else sql_error.
Definition file_member (c : Collection) (r : PengoloRecord) (key : string) : option string :=
  if bool_decide (c = CFile) then get_str (rc_data r) key else None.
Definition write (context tenant : string) (c : Collection) (r : PengoloRecord) (temporary : bool)
    (expected : option Z) : tx Z :=
  updated ← now;
  affected ← statement (match expected with
                        | Some revision => update_row context tenant (as_str_kind c) r temporary revision updated
                        | None => insert_row context tenant (as_str_kind c) r temporary updated
                        end);
  tx_check (affected =? 1)%Z "Workspace revision conflict" ;;
  match rc_expires_at r with
  | Some deadline =>
      execute (upsert_retention context (tenant, as_str_kind c, rc_id r, temporary)
        {| rt_expires := deadline; rt_object := file_member c r "key"; rt_staging := file_member c r "stagingKey" |}) ;;
      mret updated
  | None => mret updated
  end.

(** ** Files *)
Definition status_of (r : PengoloRecord) : option string := get_str (rc_data r) "status".
Definition same_members (keys : list string) (a b : PengoloRecord) : bool :=
  forallb (fun key => opt_value_eqb (get (rc_data a) key) (get (rc_data b) key)) keys.
Definition same_scope (a b : PengoloRecord) : bool :=
  String.eqb (rc_owner_id a) (rc_owner_id b) && opt_eqb (rc_project_id a) (rc_project_id b).
(** [expires_at.is_some_and(|deadline| deadline > now())] *)
Definition check_live (r : PengoloRecord) (message : string) : tx unit :=
  t ← now;
  tx_check (is_some_and (fun deadline => t <? deadline)%Z (rc_expires_at r)) message.
Definition queued_job (checksum : string) : Job :=
  {| jb_checksum := checksum; jb_attempts := 0; jb_next_attempt := 0; jb_lease := None; jb_lease_expires := 0;
     jb_work_revision := None;
     jb_progress := JObject [("stage", JString "queued"); ("percent", json_i64 0)] |}.
(** The job refers to the record of its file. *)
Definition upsert_job (context tenant id checksum : string) (d : db) : result db :=
  if String.eqb tenant context && option_is_some (durable d !! (tenant, "file"%string, id))
  then Ok (set_jobs (<[(tenant, id) := queued_job checksum]> (jobs d)) d) else sql_error.
Definition file_ttl (r : PengoloRecord) (temporary : bool) : Z :=
  if temporary then TEMPORARY_TTL_MS
  else if bool_decide (get (rc_data r) "artifactTtlMs" ≫= as_i64 = Some WEEK_MS) then WEEK_MS else NORMAL_TTL_MS.
Definition promote_file (tenant : string) (r : PengoloRecord) (temporary : bool) (file : StagedFile)
    (context : string) : tx PengoloRecord :=
  current ← read context CFile (rc_id r) temporary;
  current ← tx_require "File unavailable" current;
  check_live current "Upload reservation expired" ;;
  tx_check (same_scope current r) "File scope changed" ;;
  if opt_str_eqb (status_of current) "ready" then mret current else
  tx_check ((rc_revision current =? rc_revision r)%Z && opt_str_eqb (status_of current) "uploading")
    "File revision conflict" ;;
  uploaded_at ← finalize file;
  check_live current "Upload reservation expired" ;;
  let expiring := with_expiry current (Some (uploaded_at + file_ttl current temporary)%Z) in
  data ← tx_lift (insert_member "Invalid file metadata" "status" (JString "ready") (rc_data expiring));
  let ready := with_data expiring data in
  updated ← write context tenant CFile ready temporary (Some (rc_revision r));
  let saved := saved_as ready (rc_revision ready + 1) updated in
  (if temporary then nothing
   else checksum ← tx_require "Missing file checksum" (get_str (rc_data saved) "checksum");
        execute (upsert_job context tenant (rc_id saved) checksum)) ;;
  mret saved.

Definition set_expiry (context : string) (key : rkey) (expiry : Z) (d : db) : result db :=
  match durable d !! key with
  | Some old => if visible context key then put_row false key (row_with_expiry expiry old) d else Ok d
  | None => Ok d
  end.
Definition set_retention_expiry (context : string) (key : string * string * string * bool) (expiry : Z) (d : db) : Z * db :=
  match retention d !! key with
  | Some old =>
      if String.eqb key.1.1.1 context
      then (1%Z, set_retention (<[key := {| rt_expires := expiry; rt_object := rt_object old; rt_staging := rt_staging old |}]>
                                  (retention d)) d)
      else (0%Z, d)
  | None => (0%Z, d)
  end.
(** [saturating_add] on [i64] *)
Definition saturating_add (a b : Z) : Z := Z.max I64_MIN (Z.min I64_MAX (a + b)).
Definition refresh_file_retention (tenant : string) (r : PengoloRecord) (temporary : bool) (context : string)
    : tx PengoloRecord :=
  current ← read context CFile (rc_id r) temporary;
  current ← tx_require "File unavailable" current;
  tx_check (same_scope current r && same_members ["key"; "temporarySession"] current r) "File scope changed" ;;
  accessed_at ← now;
  tx_check (is_some_and (fun expiry => accessed_at <? expiry)%Z (rc_expires_at current) &&
            opt_str_eqb (status_of current) "ready") "File unavailable" ;;
  if negb temporary && option_is_none (get (rc_data current) "artifactTtlMs") then
    expiry ← tx_require "Missing file expiration" (rc_expires_at current);
    let expiry := Z.max expiry (saturating_add accessed_at NORMAL_TTL_MS) in
    execute (set_expiry context (tenant, "file"%string, rc_id current) expiry) ;;
    retained ← statement (fun d => Ok (set_retention_expiry context (tenant, "file"%string, rc_id current, false) expiry d));
    tx_check (retained =? 1)%Z "File retention unavailable" ;;
    mret (with_expiry current (Some expiry))
  else mret current.

Definition expire_file (tenant : string) (r : PengoloRecord) (temporary : bool) (context : string) : tx unit :=
  current ← read context CFile (rc_id r) temporary;
  current ← tx_require "File unavailable" current;
  tx_check (same_scope current r && same_members ["key"; "checksum"; "temporarySession"] current r) "File scope changed" ;;
  t ← now;
  data ← tx_lift (insert_member "Invalid file metadata" "status" (JString "deleted") (rc_data current));
  write context tenant CFile (with_data (with_expiry current (Some t)) data) temporary (Some (rc_revision current)) ;;
  mret tt.

(** [data-'stagingKey'-'stagingExpiresAt'], one revision later. *)
Definition unstage (context : string) (temporary : bool) (key : rkey) (d : db) : result db :=
  match table temporary d !! key with
  | Some old =>
      if visible context key then
        put_row temporary key
          {| row_owner := row_owner old; row_project := row_project old; row_expires := row_expires old;
             row_revision := row_revision old + 1; row_updated := row_updated old;
             row_data := match row_data old with
                         | JObject m => JObject (jremove "stagingExpiresAt" (jremove "stagingKey" m))
                         | v => v
                         end |} d
      else Ok d
  | None => Ok d
  end.
Definition forget_staging (context : string) (key : string * string * string * bool) (d : db) : db :=
  match retention d !! key with
  | Some old =>
      if String.eqb key.1.1.1 context
      then set_retention (<[key := {| rt_expires := rt_expires old; rt_object := rt_object old; rt_staging := None |}]>
                            (retention d)) d
      else d
  | None => d
  end.
Definition purge_file (tenant id : string) (temporary staging : bool) (context : string) : tx bool :=
  query (fun _ => Ok tt) ;;
  let kind := if staging then "staging"%string else "file"%string in
  pending ← query (fun d => Ok (if String.eqb tenant context then retention d !! (tenant, kind, id, temporary) else None));
  match pending with
  | None => mret false
  | Some pending =>
      t ← now;
      if (t <? rt_expires pending)%Z then mret false else
      (match rt_object pending with
       | Some key => if negb staging then delete_object key else nothing
       | None => nothing
       end) ;;
      (match rt_staging pending with Some source => delete_staging source | None => nothing end) ;;
      (if staging then
         execute (unstage context temporary (tenant, "file"%string, id)) ;;
         execute (fun d => Ok (forget_staging context (tenant, "file"%string, id, temporary) d))
       else execute (fun d => Ok (delete_row context temporary (tenant, "file"%string, id) d))) ;;
      execute (fun d => Ok (delete_retention context (fun k => bool_decide (k = (tenant, kind, id, temporary))) d)) ;;
      mret true
  end.

(** The other live files of the library a file goes to. *)
Definition in_library (tenant : string) (r : PengoloRecord) (session : option string) (t : Z) (key : rkey) (f : row) : bool :=
  bool_decide (key.1 = (tenant, "file"%string)) && bool_decide (row_project f = rc_project_id r) &&
  (option_is_some (rc_project_id r) || String.eqb (row_owner f) (rc_owner_id r)) &&
  bool_decide (arrow_text (row_data f) "temporarySession" = session) &&
  is_some_and (fun deadline => t <? deadline)%Z (row_expires f).
Definition reserve_file (tenant : string) (r : PengoloRecord) (temporary : bool) (context : string) : tx PengoloRecord :=
  let session := get_str (rc_data r) "temporarySession" in
  query (fun _ => Ok tt) ;;
  existing ← read context CFile (rc_id r) temporary;
  match existing with
  | Some existing =>
      tx_check (same_scope existing r && same_members ["checksum"; "key"; "temporarySession"; "originalName"] existing r)
        "File reservation conflict" ;;
      check_live existing "File reservation expired" ;;
      mret existing
  | None =>
      t ← now;
      files ← scan (fun key f => visible context key && in_library tenant r session t key f) temporary;
      names ← tx_lift (mapM (fun kr => match arrow_text (row_data kr.2) "name" with Some s => Ok s | None => sql_error end)
                         (take 10000 files));
      tx_check (N.of_nat (length names) <? 10000)%N "Library file limit reached" ;;
      original ← tx_require "Missing file name" (get_str (rc_data r) "name");
      name ← tx_lift (available_file_name to_lowercase original (list_to_set (to_lowercase <$> names)));
      data ← tx_lift (insert_member "Invalid file metadata" "name" (JString name) (rc_data r));
      let saved := with_data r data in
      updated ← write context tenant CFile saved temporary None;
      let saved := saved_as saved (rc_revision saved) updated in
      (match get (rc_data saved) "stagingExpiresAt" ≫= as_i64 with
       | Some deadline =>
           execute (insert_retention context (tenant, "staging"%string, rc_id saved, temporary)
             {| rt_expires := deadline; rt_object := None; rt_staging := get_str (rc_data saved) "stagingKey" |})
       | None => nothing
       end) ;;
      mret saved
  end.

(** ** Records *)
Definition get_record (c : Collection) (id : string) (temporary : bool) (context : string) : tx (option PengoloRecord) :=
  read context c id temporary.
Definition agent_of (tenant owner : string) (kr : rkey * row) : bool :=
  bool_decide (kr.1.1 = (tenant, "agent"%string)) && String.eqb (row_owner kr.2) owner.
Definition agent_count (context tenant owner : string) (d : db) : nat :=
  length (List.filter (fun kr => visible context kr.1 && agent_of tenant owner kr) (map_to_list (durable d))).
(** The generations of a chat follow it to another project. *)
Definition is_generation_of (context tenant chat : string) (key : rkey) (r : row) : bool :=
  visible context key && bool_decide (key.1 = (tenant, "generation"%string)) && text_is (arrow_text (row_data r) "chatId") chat.
Definition update_rows (temporary : bool) (p : rkey -> row -> bool) (f : row -> row) (d : db) : result db :=
  let changed := map_imap (fun key r => Some (if p key r then f r else r)) (table temporary d) in
  if forallb (fun kr => negb (p kr.1 kr.2) || row_allowed temporary kr.1.1.2 kr.1.2 (f kr.2)) (map_to_list (table temporary d))
  then Ok (set_table temporary changed d) else sql_error.
Definition save (tenant : string) (c : Collection) (r : PengoloRecord) (temporary : bool) (expected : option Z)
    (context : string) : tx PengoloRecord :=
  (if bool_decide (c = CAgent) then
     tx_check (negb temporary) "Agent definitions cannot be ephemeral" ;;
     query (fun _ => Ok tt) ;;
     if expected is None then
       count ← query (fun d => Ok (agent_count context tenant (rc_owner_id r) d));
       tx_check (count <? 64) "Agent limit reached"
     else nothing
   else nothing) ;;
  updated ← write context tenant c r temporary expected;
  (if bool_decide (c = CChat) then
     execute (update_rows temporary
       (fun key old => is_generation_of context tenant (rc_id r) key old && negb (bool_decide (row_project old = rc_project_id r)))
       (row_with_project (rc_project_id r)))
   else nothing) ;;
  mret (saved_as r (default 0 expected + 1)%Z updated).

Definition forget_generation (context tenant : string) (temporary : bool) (generation : string) : tx unit :=
  execute (fun d => Ok (delete_output context temporary tenant generation d)) ;;
  execute (fun d => Ok (delete_capabilities context
    (fun c => String.eqb (cp_tenant c) tenant && String.eqb (cp_generation c) generation) d)) ;;
  execute (fun d => Ok (delete_retention context
    (fun k => String.eqb k.1.1.1 tenant && String.eqb k.1.2 generation && str_in k.1.1.2 ["generation"; "lease"] &&
              Bool.eqb k.2 temporary) d)).
Definition delete_generations (context tenant : string) (temporary : bool) (chat : string) : tx (list string) :=
  gone ← returning (is_generation_of context tenant chat) temporary (fun d => Ok (set_table temporary
    (filter (fun kr => Is_true (negb (is_generation_of context tenant chat kr.1 kr.2))) (table temporary d)) d));
  mret ((fun kr => kr.1.2) <$> gone).
Definition remove (tenant : string) (c : Collection) (id : string) (temporary : bool) (context : string) : tx unit :=
  (if bool_decide (c = CChat) then
     generations ← delete_generations context tenant temporary id;
     tx_each (forget_generation context tenant temporary) generations
   else nothing) ;;
  execute (fun d => Ok (delete_row context temporary (tenant, as_str_kind c, id) d)) ;;
  (if bool_decide (c = CGeneration) then
     execute (fun d => Ok (delete_output context temporary tenant id d)) ;;
     execute (fun d => Ok (delete_capabilities context
       (fun cap => String.eqb (cp_tenant cap) tenant && String.eqb (cp_generation cap) id) d)) ;;
     execute (fun d => Ok (delete_retention context
       (fun k => String.eqb k.1.1.1 tenant && String.eqb k.1.1.2 "lease" && String.eqb k.1.2 id) d))
   else nothing) ;;
  execute (fun d => Ok (delete_retention context (fun k => bool_decide (k = (tenant, as_str_kind c, id, temporary))) d)).

(** What closing a temporary session expires. *)
Definition in_session (context tenant owner session : string) (key : rkey) (r : row) : bool :=
  visible context key && String.eqb key.1.1 tenant && String.eqb (row_owner r) owner &&
  (String.eqb key.1.2 "chat" && String.eqb key.2 session ||
   String.eqb key.1.2 "generation" && text_is (arrow_text (row_data r) "chatId") session ||
   String.eqb key.1.2 "file" && text_is (arrow_text (row_data r) "temporarySession") session).
Definition expire_one (context tenant : string) (key : rkey) : tx unit :=
  t ← now;
  execute (fun d => Ok (set_retention_expiry context (tenant, key.1.2, key.2, true) t d).2) ;;
  if String.eqb key.1.2 "generation" then
    execute (fun d => Ok (delete_capabilities context
      (fun cap => String.eqb (cp_tenant cap) tenant && String.eqb (cp_generation cap) key.2 && cp_temporary cap) d))
  else nothing.
Definition expire_temporary (tenant owner session : string) (context : string) : tx unit :=
  t ← now;
  found ← returning (in_session context tenant owner session) true
    (update_rows true (in_session context tenant owner session) (row_with_expiry t));
  tx_each (expire_one context tenant) found.*1.

(** ** Listings

    Newest first; a page starts after a record, which must exist. *)
Definition newer (a b : Z * string) : bool := (b.1 <? a.1)%Z || ((a.1 =? b.1)%Z && text_lt b.2 a.2).
Fixpoint insert_newest (kr : rkey * row) (l : list (rkey * row)) : list (rkey * row) :=
  match l with
  | [] => [kr]
  | x :: l => if newer (row_updated kr.2, kr.1.2) (row_updated x.2, x.1.2) then kr :: x :: l else x :: insert_newest kr l
  end.
Definition newest_first (l : list (rkey * row)) : list (rkey * row) := foldr insert_newest [] l.
Definition after_cursor (context tenant kind : string) (after : option string) (d : db) (kr : rkey * row) : bool :=
  match after with
  | None => true
  | Some id =>
      match option_filter (fun _ => String.eqb tenant context) (durable d !! (tenant, kind, id)) with
      | Some c => newer (row_updated c, id) (row_updated kr.2, kr.1.2)
      | None => false
      end
  end.
Definition listed (context tenant kind : string) (t : Z) (kr : rkey * row) : bool :=
  visible context kr.1 && bool_decide (kr.1.1 = (tenant, kind)) &&
  (negb (String.eqb kind "project") || negb (text_is (arrow_text (row_data kr.2) "deleted") "true")) &&
  expires_after t kr.2.
Definition page (limit : nat) : nat := Nat.min 100 (Nat.max 1 limit).
Definition list_records (tenant : string) (c : Collection) (after : option string) (limit : nat) (context : string)
    : tx (list PengoloRecord) :=
  t ← now;
  query (fun d =>
    Ok ((fun kr => to_record kr.1.2 kr.2) <$>
        take (page limit) (newest_first (List.filter
          (fun kr => listed context tenant (as_str_kind c) t kr && after_cursor context tenant (as_str_kind c) after d kr)
          (map_to_list (durable d)))))).
(** The progress of a file's indexing, with its retries. *)
Definition job_progress (j : Job) : value :=
  let stage := if option_is_none (jb_lease j) && (8 <=? jb_attempts j)%Z then JString "failed"
               else if option_is_none (jb_lease j) && (0 <? jb_attempts j)%Z then JString "retrying"
               else json_opt JString (arrow_text (jb_progress j) "stage") in
  match jb_progress j with JObject m => JObject (jinsert "stage" stage m) | v => v end.
Definition with_indexing (d : db) (kr : rkey * row) : PengoloRecord :=
  let r := to_record kr.1.2 kr.2 in
  if String.eqb kr.1.1.2 "file" then
    match rc_data r with
    | JObject m => with_data r (JObject (jinsert "indexing" (json_opt job_progress (jobs d !! (kr.1.1.1, kr.1.2))) m))
    | _ => r
    end
  else r.
Definition in_scope (q : RecordQuery) (kr : rkey * row) : bool :=
  if bool_decide (rq_collection q = CAgent) then String.eqb (row_owner kr.2) (rq_owner q)
  else bool_decide (row_project kr.2 = rq_project q) &&
       (option_is_some (rq_project q) || String.eqb (row_owner kr.2) (rq_owner q)).
Definition list_scoped (q : RecordQuery) (context : string) : tx (list PengoloRecord) :=
  t ← now;
  query (fun d =>
    let kind := as_str_kind (rq_collection q) in
    Ok (with_indexing d <$>
        take (page (rq_limit q)) (newest_first (List.filter
          (fun kr => listed context (rq_tenant q) kind t kr && after_cursor context (rq_tenant q) kind (rq_after q) d kr &&
                     in_scope q kr &&
                     (is_empty (rq_search q) || filename_matches (arrow_text (row_data kr.2) "name") (rq_search q)))
          (map_to_list (durable d)))))).

(** ** Generations *)
Definition valid_token (token : string) : bool :=
  (String.length token =? 64) && bytes_all (fun b => is_ascii_hexdigit b && negb (is_ascii_uppercase b)) token.
(** Tokens are unique across tenants. *)
Definition insert_capability (context token : string) (c : Capability) (d : db) : result db :=
  if String.eqb (cp_tenant c) context && valid_token token && option_is_none (capabilities d !! token)
  then Ok (set_capabilities (<[token := c]> (capabilities d)) d) else sql_error.
Definition generation_context (i : SendInput) : value :=
  JObject [("graphContext", json_opt (fun c => JObject [("kind", JString (gc_kind c)); ("id", JString (gc_id c))]) (si_graph_context i));
           ("modelAlias", JString (si_model_alias i));
           ("webSearch", JBool (si_web_search i || option_is_some (si_web_query i)));
           ("agentIds", json_strings (si_agent_ids i))].
Definition user_message (id : string) (i : SendInput) : value :=
  JObject [("id", JString id); ("role", JString "user"); ("text", JString (si_prompt i));
           ("fileIds", json_strings (si_file_ids i)); ("generationId", JString id); ("status", JString "pending")].
Definition new_chat (id actor : string) (i : SendInput) (expires : option Z) (t : Z) : PengoloRecord :=
  {| rc_id := id; rc_owner_id := actor; rc_project_id := si_project_id i; rc_expires_at := expires; rc_revision := 1;
     rc_updated_at := t;
     rc_data := JObject [("title", JString (take_chars 80 (si_prompt i))); ("pinned", JBool false); ("messages", JArray []);
                         ("activeGeneration", JNull)] |}.
Definition new_generation (id actor : string) (chat : PengoloRecord) (i : SendInput) (t1 t2 : Z) : PengoloRecord :=
  {| rc_id := id; rc_owner_id := actor; rc_project_id := rc_project_id chat; rc_expires_at := rc_expires_at chat;
     rc_revision := 1; rc_updated_at := t1;
     rc_data := JObject [("chatId", JString (rc_id chat)); ("input", json_send i); ("status", JString "pending");
                         ("sequence", json_i64 0); ("response", JString EmptyString); ("evidence", JArray []);
                         ("leaseExpires", json_i64 (t2 + 45000))] |}.
(** The chat with the prompt and its generation. *)
Definition with_prompt (id : string) (i : SendInput) (chat : PengoloRecord) : result PengoloRecord :=
  data ← with_context "Invalid conversation" (as_object (rc_data chat));
  let data := jinsert "generationContext" (generation_context i) (jinsert "activeGeneration" (JString id) data) in
  messages ← with_context "Invalid conversation messages" (jget "messages" data ≫= as_array);
  ensure (length messages <? 1000) "Conversation message limit reached" ;;
  Ok (with_data chat (JObject (jinsert "messages" (JArray (messages ++ [user_message id i])) data))).
(** An earlier reservation under the same key. *)
Definition reserved (actor : string) (i : SendInput) (generation : PengoloRecord) (context : string) : tx Reservation :=
  tx_check (String.eqb (rc_owner_id generation) actor &&
            opt_value_eqb (get (rc_data generation) "input") (Some (json_send i)))
    "Idempotency key conflicts with an earlier request" ;;
  chat_id ← tx_require "Invalid generation chat" (get_str (rc_data generation) "chatId");
  chat ← read context CChat chat_id (si_temporary i);
  chat ← tx_require "Conversation unavailable" chat;
  mret {| rv_chat := chat; rv_generation := generation; rv_created := false |}.
(** The chat of a new generation, and the revision it has if it exists. *)
Definition chat_for (actor : string) (i : SendInput) (context : string) : tx (PengoloRecord * option Z) :=
  t ← now;
  let expires := if si_temporary i then Some (t + TEMPORARY_TTL_MS)%Z else None in
  existing ← match si_chat_id i with
             | Some id => read context CChat id (si_temporary i)
             | None => mret None
             end;
  tx_check (option_is_none (si_chat_id i) || si_temporary i || option_is_some existing) "Conversation unavailable" ;;
  match existing with
  | Some chat => mret (chat, Some (rc_revision chat))
  | None =>
      fresh ← new_uuid;
      t ← now;
      mret (new_chat (default fresh (option_filter (fun _ => si_temporary i) (si_chat_id i))) actor i expires t, None)
  end.
Definition reserve (tenant actor : string) (i : SendInput) (capability : string) (context : string) : tx Reservation :=
  id ← tx_lift (match uuid_parse (si_idempotency_key i) with Some id => Ok id | None => Err (Foreign "uuid") end);
  query (fun _ => Ok tt) ;;
  earlier ← read context CGeneration id (si_temporary i);
  match earlier with
  | Some generation => reserved actor i generation context
  | None =>
      '(chat, expected) ← chat_for actor i context;
      tx_check (opt_eqb (rc_project_id chat) (si_project_id i)) "Conversation project changed" ;;
      tx_check (is_none_or is_null (get (rc_data chat) "activeGeneration")) "A generation is already active" ;;
      chat ← tx_lift (with_prompt id i chat);
      write context tenant CChat chat (si_temporary i) expected ;;
      t1 ← now;
      t2 ← now;
      let generation := new_generation id actor chat i t1 t2 in
      write context tenant CGeneration generation (si_temporary i) None ;;
      t3 ← now;
      execute (insert_capability context capability
        {| cp_tenant := tenant; cp_generation := id; cp_temporary := si_temporary i; cp_expires := t3 + 900000 |}) ;;
      t4 ← now;
      execute (insert_retention context (tenant, "lease"%string, id, si_temporary i)
        {| rt_expires := t4 + 45000; rt_object := None; rt_staging := None |}) ;;
      stored ← read context CChat (rc_id chat) (si_temporary i);
      stored ← tx_require "Conversation unavailable" stored;
      mret {| rv_chat := stored; rv_generation := generation; rv_created := true |}
  end.

(** [s.encode_utf16().count()]: a character of four bytes has two units. *)
Fixpoint utf16_count (s : string) : nat :=
  match s with
  | EmptyString => 0
  | String c s => (if cont c then 0 else if (240 <=? code c)%N then 2 else 1) + utf16_count s
  end.
Definition OUTPUT_KINDS : list string := ["content"; "tool"; "activity"; "completed"; "failed"; "cancelled"].
(** [data.entry(key).or_insert_with(|| json!([])).as_array_mut()] *)
Definition array_entry (message key : string) (data : list (string * value)) : result (list value) :=
  with_context message (as_array (default (JArray []) (jget key data))).
Definition apply_tool (event : OutputEvent) (data : list (string * value)) : result (list (string * value)) :=
  if String.eqb (oe_kind event) "tool" then
    validate_tool_progress event ;;
    response ← with_context "Missing generation output" (jget "response" data ≫= as_str);
    checkpoints ← array_entry "Invalid tool checkpoints" "toolCheckpoints" data;
    Ok (jinsert "toolCheckpoints" (JArray (if length checkpoints <? 32
          then checkpoints ++ [JObject [("offset", json_i64 (Z.of_nat (utf16_count response))); ("operation", JString (oe_content event))]]
          else checkpoints)) data)
  else Ok data.
Definition activity_kind (activity : AgentActivity) : option string :=
  match activity with
  | WebResearch _ _ => Some "web_research"%string
  | Warning _ => Some "warning"%string
  | Python _ _ _ => Some "python"%string
  | Questions _ _ => Some "question"%string
  | _ => None
  end.
Definition apply_activity (event : OutputEvent) (data : list (string * value)) : result (list (string * value)) :=
  if String.eqb (oe_kind event) "activity" then
    activity ← parse_activity (oe_content event);
    match activity_kind activity with
    | Some kind =>
        kinds ← array_entry "Invalid activity kinds" "activityKinds" data;
        Ok (jinsert "activityKinds" (JArray (if existsb (fun v => opt_str_eqb (as_str v) kind) kinds then kinds
                                             else kinds ++ [JString kind])) data)
    | None => Ok data
    end
  else Ok data.
Definition apply_draft (event : OutputEvent) (data : list (string * value)) : result (list (string * value)) :=
  if String.eqb (oe_kind event) "activity" then
    activity ← parse_activity (oe_content event);
    match activity with
    | EmailDraft _ _ _ _ _ _ _ =>
        drafts ← array_entry "Invalid email drafts" "emailDrafts" data;
        ensure (length drafts <? 8) "Too many email proposals" ;;
        Ok (jinsert "emailDrafts" (JArray (drafts ++ [JString (oe_content event)])) data)
    | _ => Ok data
    end
  else Ok data.
Definition apply_content (event : OutputEvent) (data : list (string * value)) : result (list (string * value)) :=
  if String.eqb (oe_kind event) "content" then
    response ← with_context "Missing generation output" (jget "response" data);
    text ← with_context "Invalid generation output" (as_str response);
    ensure (byte_len text + byte_len (oe_content event) <=? 1048576)%N "Output exceeds limit" ;;
    Ok (jinsert "response" (JString (text +:+ oe_content event)) data)
  else Ok data.
(** The checks of the output tables. *)
Definition insert_output (context tenant id : string) (temporary : bool) (event : OutputEvent) (d : db) : result db :=
  if String.eqb tenant context && (0 <? oe_sequence event)%Z && str_in (oe_kind event) OUTPUT_KINDS &&
     (byte_len (oe_content event) <=? 65536)%N && nul_free (oe_content event) &&
     option_is_none (output_table temporary d !! (tenant, id, oe_sequence event))
  then Ok (set_output temporary
    (<[(tenant, id, oe_sequence event) := (oe_kind event, oe_content event)]> (output_table temporary d)) d)
  else sql_error.
(** The next event of the log. *)
Definition advance (context tenant id : string) (temporary : bool) (sequence : Z) (event : OutputEvent)
    (data : list (string * value)) : tx (list (string * value)) :=
  tx_check (oe_sequence event =? sequence + 1)%Z "Output cursor gap" ;;
  tx_check (str_in (oe_kind event) OUTPUT_KINDS) "Invalid output event" ;;
  data ← tx_lift (apply_tool event (jinsert "sequence" (json_i64 (oe_sequence event)) data));
  data ← tx_lift (apply_activity event data);
  data ← tx_lift (apply_draft event data);
  data ← tx_lift (apply_content event data);
  execute (insert_output context tenant id temporary event) ;;
  mret data.
(** The user's message gets the status, and the answer is a message of its own. *)
Definition set_status (status : string) (message : value) : value :=
  match message with JObject m => JObject (jinsert "status" (JString status) m) | v => v end.
Fixpoint mark_message (id status : string) (messages : list value) : list value :=
  match messages with
  | [] => []
  | message :: messages =>
      if opt_str_eqb (get_str message "id") id then set_status status message :: messages
      else message :: mark_message id status messages
  end.
Definition answer_message (uuid id status : string) (data : list (string * value)) : value :=
  let array key := default (JArray []) (jget key data) in
  JObject [("id", JString uuid); ("role", JString "assistant"); ("text", or_null (jget "response" data));
           ("generationId", JString id); ("status", JString status); ("evidence", or_null (jget "evidence" data));
           ("emailDrafts", array "emailDrafts"%string); ("activityKinds", array "activityKinds"%string);
           ("toolCheckpoints", array "toolCheckpoints"%string)].
Definition with_answer (uuid id status : string) (data : list (string * value)) (chat : PengoloRecord) : result PengoloRecord :=
  members ← with_context "Invalid chat" (as_object (rc_data chat));
  let members := jinsert "activeGeneration" JNull members in
  messages ← with_context "Invalid messages" (jget "messages" members ≫= as_array);
  Ok (with_data chat (JObject (jinsert "messages"
    (JArray (mark_message id status messages ++ [answer_message uuid id status data])) members))).
Definition close_generation (context tenant id : string) (temporary : bool) (status : string)
    (data : list (string * value)) : tx unit :=
  chat_id ← tx_require "Invalid generation chat" (jget "chatId" data ≫= as_str);
  chat ← read context CChat chat_id temporary;
  (match chat with
   | Some chat =>
       uuid ← new_uuid;
       updated ← tx_lift (with_answer uuid id status data chat);
       write context tenant CChat updated temporary (Some (rc_revision chat)) ;;
       nothing
   | None => nothing
   end) ;;
  execute (fun d => Ok (delete_capabilities context
    (fun c => String.eqb (cp_tenant c) tenant && String.eqb (cp_generation c) id) d)) ;;
  execute (fun d => Ok (delete_retention context
    (fun k => String.eqb k.1.1.1 tenant && String.eqb k.1.1.2 "lease" && String.eqb k.1.2 id) d)).
(** A command without a position ends the generation at the next one. *)
Definition positioned (sequence : Z) (event : OutputEvent) : result OutputEvent :=
  if (oe_sequence event <? 0)%Z then
    ensure (str_in (oe_kind event) ["failed"; "cancelled"]) "Invalid terminal command" ;;
    if (sequence + 1 <? 2 ^ 31)%Z && (- 2 ^ 31 <=? sequence + 1)%Z
    then Ok {| oe_sequence := sequence + 1; oe_kind := oe_kind event; oe_content := oe_content event |}
    else Err (Foreign "TryFromIntError")
  else Ok event.
Definition is_active (data : value) : bool := opt_str_in (get_str data "status") ["pending"; "running"].
Definition record_event (tenant id : string) (temporary : bool) (generation : PengoloRecord) (sequence : Z)
    (event : OutputEvent) (context : string) : tx unit :=
  tx_check (is_active (rc_data generation)) "Generation is terminal" ;;
  tx_check (byte_len (oe_content event) <=? 65536)%N "Output batch exceeds limit" ;;
  data ← tx_require "Invalid generation" (as_object (rc_data generation));
  t ← now;
  let data := jinsert "leaseExpires" (json_i64 (t + 45000)) data in
  data ← (if String.eqb (oe_kind event) "heartbeat" then mret data
          else advance context tenant id temporary sequence event data);
  let terminal := str_in (oe_kind event) TERMINAL_KINDS in
  let data := jinsert "status" (JString (if terminal then oe_kind event else "running"%string)) data in
  (if terminal then close_generation context tenant id temporary (oe_kind event) data
   else t ← now;
        execute (fun d => Ok (set_retention_expiry context (tenant, "lease"%string, id, temporary) (t + 45000) d).2)) ;;
  write context tenant CGeneration (with_data generation (JObject data)) temporary (Some (rc_revision generation)) ;;
  nothing.
Definition append (tenant id : string) (temporary : bool) (event : OutputEvent) (context : string) : tx unit :=
  generation ← read context CGeneration id temporary;
  generation ← tx_require "Generation unavailable" generation;
  sequence ← tx_require "Invalid generation cursor" (get (rc_data generation) "sequence" ≫= as_i64);
  t ← now;
  if (oe_sequence event =? -2)%Z &&
     is_some_and (fun deadline => t <? deadline)%Z (get (rc_data generation) "leaseExpires" ≫= as_i64)
  then nothing else
  event ← tx_lift (positioned sequence event);
  if (0 <? oe_sequence event)%Z && (oe_sequence event <=? sequence)%Z then
    stored ← query (fun d => Ok (if String.eqb tenant context
                                 then output_table temporary d !! (tenant, id, oe_sequence event) else None));
    tx_check (bool_decide (stored = Some (oe_kind event, oe_content event))) "Output replay conflict"
  else record_event tenant id temporary generation sequence event context.

Fixpoint insert_event (event : OutputEvent) (l : list OutputEvent) : list OutputEvent :=
  match l with
  | [] => [event]
  | e :: l => if (oe_sequence event <=? oe_sequence e)%Z then event :: e :: l else e :: insert_event event l
  end.
Definition output_of (context tenant id : string) (temporary : bool) (after : Z) (d : db) : list OutputEvent :=
  foldr insert_event []
    ((fun ko => {| oe_sequence := ko.1.2; oe_kind := ko.2.1; oe_content := ko.2.2 |}) <$>
     List.filter (fun ko => String.eqb ko.1.1.1 context && bool_decide (ko.1.1 = (tenant, id)) && (after <? ko.1.2)%Z)
       (map_to_list (output_table temporary d))).
Definition events (tenant id : string) (temporary : bool) (after : Z) (context : string) : tx (list OutputEvent) :=
  query (fun d => Ok (take 64 (output_of context tenant id temporary (Z.max after 0) d))).
Definition generation_capability (tenant id : string) (context : string) : tx (option string) := fun e =>
  query (fun d => Ok (fst <$> head (List.filter
    (fun tc => String.eqb (cp_tenant tc.2) context && String.eqb (cp_tenant tc.2) tenant && String.eqb (cp_generation tc.2) id)
    (map_to_list (capabilities d))))) e.
Definition json_evidence (s : EvidenceSource) : value :=
  JObject [("resource_type", JString (ev_resource_type s)); ("resource_id", JString (ev_resource_id s));
           ("manage", JBool (ev_manage s)); ("entity_id", json_opt JString (ev_entity_id s));
           ("modality", json_opt JString (ev_modality s)); ("state_type", json_opt JString (ev_state_type s))].
Fixpoint add_evidence (sources : list EvidenceSource) (evidence : list value) : result (list value) :=
  match sources with
  | [] => Ok evidence
  | source :: sources =>
      if existsb (value_eqb (json_evidence source)) evidence then add_evidence sources evidence
      else ensure (length evidence <? 512) "Evidence limit reached" ;;
           add_evidence sources (evidence ++ [json_evidence source])
  end.
Definition record_evidence (tenant id : string) (temporary : bool) (sources : list EvidenceSource) (context : string)
    : tx unit :=
  generation ← read context CGeneration id temporary;
  generation ← tx_require "Generation unavailable" generation;
  evidence ← tx_require "Invalid evidence" (get_array (rc_data generation) "evidence");
  evidence ← tx_lift (add_evidence sources evidence);
  data ← tx_lift (insert_member "Invalid evidence" "evidence" (JArray evidence) (rc_data generation));
  write context tenant CGeneration (with_data generation data) temporary (Some (rc_revision generation)) ;;
  nothing.

(** The oldest expired objects of a tenant. *)
Fixpoint insert_oldest (kr : (string * string * string * bool) * Retention) (l : list ((string * string * string * bool) * Retention))
    : list ((string * string * string * bool) * Retention) :=
  match l with
  | [] => [kr]
  | x :: l => if (rt_expires kr.2 <=? rt_expires x.2)%Z then kr :: x :: l else x :: insert_oldest kr l
  end.
Definition expired_objects (tenant : string) (context : string) : tx (list ObjectExpiry) :=
  t ← now;
  query (fun d =>
    Ok ((fun kr => {| oy_id := kr.1.1.2; oy_staging := String.eqb kr.1.1.1.2 "staging"; oy_temporary := kr.1.2 |}) <$>
        take 100 (foldr insert_oldest [] (List.filter
          (fun kr => String.eqb kr.1.1.1.1 context && String.eqb kr.1.1.1.1 tenant && str_in kr.1.1.1.2 ["file"; "staging"] &&
                     (rt_expires kr.2 <=? t)%Z) (map_to_list (retention d)))))).
Definition expired_rows (temporary : bool) (context : string) : tx (list (Collection * PengoloRecord * bool)) :=
  t ← now;
  rows ← scan (fun key r => visible context key && is_some_and (fun deadline => deadline <=? t)%Z (row_expires r)) temporary;
  mret (omap (fun kr =>
    let entry c := Some (c, to_record kr.1.2 kr.2, temporary) in
    if String.eqb kr.1.1.2 "file" then entry CFile
    else if String.eqb kr.1.1.2 "chat" then entry CChat
    else if String.eqb kr.1.1.2 "generation" then entry CGeneration
    else None) (take 100 rows)).
(** Generations that stopped reporting: [(data->>'leaseExpires')::bigint<$1]. *)
Definition lease_before (t : Z) (kr : rkey * row) : result bool :=
  match arrow_text (row_data kr.2) "leaseExpires" with
  | None => Ok false
  | Some text => match bigint_of_text text with Some deadline => Ok (deadline <? t)%Z | None => sql_error end
  end.
Definition overdue (temporary : bool) (context : string) : tx (list string) :=
  t ← now;
  rows ← scan (fun key r => visible context key && String.eqb key.1.2 "generation" &&
    match arrow_text (row_data r) "status" with Some s => str_in s ["pending"; "running"] | None => false end) temporary;
  late ← tx_lift (mapM (fun kr => b ← lease_before t kr; Ok (if b : bool then Some kr.1.2 else None)) rows);
  mret (take 100 (omap id late)).

(** ** Roles above a role

    [WITH RECURSIVE .. UNION ..]: parents are added until there are no new ones,
    which the number of parent edges bounds. *)
Definition parents_of (tenant : string) (edges : gset (string * string * string)) (roles : gset string) : gset string :=
  list_to_set ((fun e => e.2) <$> List.filter (fun e => String.eqb e.1.1 tenant && bool_decide (e.1.2 ∈ roles)) (elements edges)).
Fixpoint close_roles (n : nat) (tenant : string) (edges : gset (string * string * string)) (roles : gset string) : gset string :=
  match n with
  | 0 => roles
  | S n => close_roles n tenant edges (roles ∪ parents_of tenant edges roles)
  end.
Definition recipients (tenant : string) (d : db) (roles : gset string) : gset string :=
  close_roles (size (iam_role_parents d)) tenant (iam_role_parents d) roles.
Definition superiors (tenant user : string) (d : db) : gset string :=
  let own := list_to_set ((fun a => a.2) <$> List.filter (fun a => String.eqb a.1.1 tenant && String.eqb a.1.2 user)
               (elements (iam_user_roles d))) in
  recipients tenant d (parents_of tenant (iam_role_parents d) own).
Definition revokes_superior (context tenant user : string) (old_roles new_roles : list string) (d : db) : bool :=
  String.eqb tenant context &&
  negb (bool_decide (superiors tenant user d ∩ recipients tenant d (list_to_set old_roles) ⊆
                     recipients tenant d (list_to_set new_roles))).
Definition check_roles (tenant : string) (roles : list value) (previous : option PengoloRecord) (context : string) : tx unit :=
  tx_each (fun role =>
    exists_ ← query (fun d => Ok (String.eqb tenant context && bool_decide ((tenant, role) ∈ iam_roles d)));
    tx_check exists_ "Project role unavailable") (omap as_str roles) ;;
  match previous with
  | Some previous =>
      old ← tx_require "Invalid project roles" (get_array (rc_data previous) "roles");
      revoked ← query (fun d => Ok (revokes_superior context tenant (rc_owner_id previous) (omap as_str old) (omap as_str roles) d));
      tx_check (negb revoked) "Project permissions must preserve superior access"
  | None => nothing
  end.

(** ** Several transactions *)
Inductive store_call : Type -> Type :=
  | Transact {B : Type} (tenant : string) (body : string -> tx B) : store_call B
  | CapabilityScope (token : string) : store_call (string * string * bool)
  | TenantsDue : store_call (list string)
  | LockLifecycle (tenant : string) : store_call unit
  | ReleaseLifecycle (tenant : string) : store_call unit
  | WriteTuples (tenant : string) (tuples : list AccessTuple) (enabled : bool) : store_call unit.
Notation sprog := (proc store_call).

(** [Database::pengolo_capability]: the policy shows only the live row of this token. *)
Definition pengolo_capability (token : string) (now_ms : Z) (d : db) : result (string * string * bool) :=
  match option_filter (fun c => (now_ms <? cp_expires c)%Z && negb (is_empty token)) (capabilities d !! token) with
  | Some c => Ok (cp_tenant c, cp_generation c, cp_temporary c)
  | None => Err (Msg "Invalid generation capability")
  end.
(** [Database::pengolo_cleanup_tenants] *)
Definition pengolo_cleanup_tenants (now_ms : Z) (d : db) : list string :=
  take 100 (remove_dups ((fun kr => kr.1.1.1.1) <$> List.filter (fun kr => (rt_expires kr.2 <=? now_ms)%Z) (map_to_list (retention d)))).
Definition resolve_capability (capability : string) : sprog (string * PengoloRecord * bool) :=
  '(tenant, id, temporary) ← await (CapabilityScope capability);
  record ← await (Transact tenant (get_record CGeneration id temporary));
  record ← require "Generation unavailable" record;
  check (is_active (rc_data record)) "Generation is terminal" ;;
  ok (tenant, record, temporary).
Definition LEASE_EXPIRED : OutputEvent := {| oe_sequence := -2; oe_kind := "failed"; oe_content := EmptyString |}.
Fixpoint expire_each (tenant : string) (temporary : bool) (ids : list string) : sprog unit :=
  match ids with
  | [] => ok tt
  | id :: ids =>
      found ← await (Transact tenant (get_record CGeneration id temporary));
      (if option_is_some found then
         attempt (await (Transact tenant (append tenant id temporary LEASE_EXPIRED))) ;; ok tt
       else ok tt) ;;
      expire_each tenant temporary ids
  end.
Definition expire_leases (tenant : string) : sprog unit :=
  ids ← await (Transact tenant (overdue false));
  expire_each tenant false ids ;;
  ids ← await (Transact tenant (overdue true));
  expire_each tenant true ids.
Definition expired (tenant : string) : sprog (list (Collection * PengoloRecord * bool)) :=
  durable ← await (Transact tenant (expired_rows false));
  ephemeral ← await (Transact tenant (expired_rows true));
  ok (durable ++ ephemeral).
Definition cleanup_tenants : sprog (list string) := await TenantsDue.

Definition project_tuple (project relation subject_type subject_id subject_relation : string) : AccessTuple :=
  {| at_resource_type := "project"; at_resource_id := project; at_relation := relation;
     at_subject_type := subject_type; at_subject_id := subject_id; at_subject_relation := subject_relation |}.
Fixpoint set_readers (tenant project : string) (roles : list string) (enabled : bool) : sprog unit :=
  match roles with
  | [] => ok tt
  | role :: roles =>
      await (WriteTuples tenant [project_tuple project "reader" "role" role "member"] enabled) ;;
      set_readers tenant project roles enabled
  end.
Definition structural (tenant : string) (r : PengoloRecord) : list AccessTuple :=
  [project_tuple (rc_id r) "parent" "tenant" tenant EmptyString;
   project_tuple (rc_id r) "owner" "user" (rc_owner_id r) EmptyString].
(** The record, then the projection of its roles into the access store. *)
Definition project_roles (tenant : string) (r : PengoloRecord) (expected : option Z) (previous : option PengoloRecord)
    (roles : list value) : sprog PengoloRecord :=
  (if option_is_none previous then await (WriteTuples tenant (structural tenant r) true) else ok tt) ;;
  saved ← await (Transact tenant (save tenant CProject r false expected));
  (match (previous ≫= (fun p => get_array (rc_data p) "roles") : option (list value)) with
   | Some old => set_readers tenant (rc_id r)
       (List.filter (fun role => negb (existsb (fun new => opt_str_eqb (as_str new) role) roles)) (omap as_str old)) false
   | None => ok tt
   end) ;;
  await (WriteTuples tenant (structural tenant r) true) ;;
  set_readers tenant (rc_id r) (omap as_str roles) true ;;
  ok saved.
Definition save_project (tenant : string) (r : PengoloRecord) (expected : option Z) : sprog PengoloRecord :=
  await (LockLifecycle tenant) ;;
  previous ← await (Transact tenant (get_record CProject (rc_id r) false));
  check (bool_decide (rc_revision <$> previous = expected)) "Project revision conflict" ;;
  check (is_none_or (fun p => String.eqb (rc_owner_id p) (rc_owner_id r)) previous) "Project ownership cannot change" ;;
  roles ← require "Invalid project roles" (get_array (rc_data r) "roles");
  await (Transact tenant (check_roles tenant roles previous)) ;;
  saved ← project_roles tenant r expected previous roles;
  await (ReleaseLifecycle tenant) ;;
  ok saved.
End store.
Notation sprog := (proc store_call).
