(* ===== verification/TxLogic.v ===== *)
(** * TxLogic: reasoning about transactions

    [txwp p d Q]: whenever the transaction body [p] succeeds from the database [d], in
    any environment, its result and the database it leaves satisfy [Q].  [stays R p]
    lifts a preorder on databases through a body, one statement at a time. *)

From S2P Require Import Prelude Text RustStr Json Serde Authorization Pengolo Workspace Database RecordStore.

(** An unordered scan returns every row once. *)
Definition env_ok (e : env) : Prop := forall l, ev_scan e l ≡ₚ l.
Definition txwp {A} (p : tx A) (d : db) (Q : A -> db -> Prop) : Prop :=
  forall e s, env_ok e -> st_db s = d ->
  match p e s with (s', Ok a) => Q a (st_db s') | (_, Err _) => True end.

Lemma filter_Permutation' {A} (p : A -> bool) (l k : list A) : l ≡ₚ k -> List.filter p l ≡ₚ List.filter p k.
Proof.
  induction 1 as [|x l k _ IH|x y l|l k m _ IH1 _ IH2]; simpl; [done| | |by trans (List.filter p k)].
  - destruct (p x); [by constructor|done].
  - destruct (p x), (p y); try done. constructor.
Qed.
Section rules.
Context {A : Type}.
Implicit Types (d : db).
Lemma txwp_mono (p : tx A) d (Q Q' : A -> db -> Prop) : (forall a d', Q a d' -> Q' a d') -> txwp p d Q -> txwp p d Q'.
Proof. intros HQ Hp e s He Hs. specialize (Hp e s He Hs). destruct (p e s) as [s' [a|]]; auto. Qed.
Lemma txwp_given (P : Prop) (p : tx A) d (Q : A -> db -> Prop) : (P -> txwp p d Q) -> txwp p d (fun a d' => P -> Q a d').
Proof. intros Hp e s He Hs. destruct (p e s) as [s' [a|]] eqn:E; [|done]. intros HP. specialize (Hp HP e s He Hs). by rewrite E in Hp. Qed.
Lemma txwp_and (p : tx A) d (Q Q' : A -> db -> Prop) : txwp p d Q -> txwp p d Q' -> txwp p d (fun a d' => Q a d' /\ Q' a d').
Proof. intros H1 H2 e s He Hs. specialize (H1 e s He Hs). specialize (H2 e s He Hs). by destruct (p e s) as [s' [a|]]. Qed.
(** Whatever the rest does. *)
Lemma txwp_pure (P : Prop) (p : tx A) d : P -> txwp p d (fun _ _ => P).
Proof. intros HP e s _ _. by destruct (p e s) as [s' [a|]]. Qed.
Lemma txwp_bind {B} (p : tx B) (f : B -> tx A) d Q : txwp p d (fun b d' => txwp (f b) d' Q) -> txwp (p ≫= f) d Q.
Proof.
  intros Hp e s He Hs. unfold mbind, tx_bind. specialize (Hp e s He Hs). destruct (p e s) as [s' [b|]]; [|done].
  by apply Hp.
Qed.
Lemma txwp_ret (a : A) d Q : Q a d -> txwp (mret a) d Q.
Proof. intros HQ e s _ <-. exact HQ. Qed.
Lemma txwp_lift (r : result A) d (Q : A -> db -> Prop) : (forall a, r = Ok a -> Q a d) -> txwp (tx_lift r) d Q.
Proof. intros HQ e s _ <-. unfold tx_lift. destruct r; auto. Qed.
Lemma txwp_require m (o : option A) d (Q : A -> db -> Prop) : (forall a, o = Some a -> Q a d) -> txwp (tx_require m o) d Q.
Proof. intros HQ. apply txwp_lift. intros a Ha%context_Ok_inv. auto. Qed.
Lemma txwp_statement (f : db -> result (A * db)) d (Q : A -> db -> Prop) :
  (forall a d', f d = Ok (a, d') -> Q a d') -> txwp (statement f) d Q.
Proof.
  intros HQ e s _ <-. unfold statement. destruct (ev_fault e (st_tick s)); [done|].
  destruct (f (st_db s)) as [[a d']|] eqn:Hf; [|done]. by apply HQ.
Qed.
Lemma txwp_query (f : db -> result A) d (Q : A -> db -> Prop) : (forall a, f d = Ok a -> Q a d) -> txwp (query f) d Q.
Proof. intros HQ. apply txwp_statement. intros a d' (x & Hx & [= <- <-])%bind_Ok_inv. auto. Qed.
End rules.
Lemma txwp_check b m d (Q : unit -> db -> Prop) : (b = true -> Q tt d) -> txwp (tx_check b m) d Q.
Proof. intros HQ. apply txwp_lift. intros [] Hb%ensure_Ok_inv. auto. Qed.
Lemma txwp_now d (Q : Z -> db -> Prop) : (forall t, Q t d) -> txwp now d Q.
Proof. intros HQ e s _ <-. apply HQ. Qed.
Lemma txwp_uuid d (Q : string -> db -> Prop) : (forall u, Q u d) -> txwp new_uuid d Q.
Proof. intros HQ e s _ <-. apply HQ. Qed.
Lemma txwp_nothing d (Q : unit -> db -> Prop) : Q tt d -> txwp nothing d Q.
Proof. intros HQ. apply txwp_lift. by intros []. Qed.
Lemma txwp_execute f d (Q : unit -> db -> Prop) : (forall d', f d = Ok d' -> Q tt d') -> txwp (execute f) d Q.
Proof. intros HQ. apply txwp_statement. intros [] d' (x & Hx & [= <-])%bind_Ok_inv. auto. Qed.
Lemma txwp_returning p temporary f d (Q : list (rkey * row) -> db -> Prop) :
  (forall l d', f d = Ok d' -> l ≡ₚ List.filter (fun kr => p kr.1 kr.2) (map_to_list (table temporary d)) -> Q l d') ->
  txwp (returning p temporary f) d Q.
Proof.
  intros HQ e s He <-. unfold returning, statement. destruct (ev_fault e (st_tick s)); [done|].
  destruct (f (st_db s)) as [d'|] eqn:Hf; [|done]. simpl. apply HQ; [done|].
  apply filter_Permutation', He.
Qed.
Lemma txwp_finalize file d (Q : Z -> db -> Prop) : (forall t, Q t d) -> txwp (finalize file) d Q.
Proof. intros HQ e s _ <-. unfold finalize. destruct (ev_finalize e file); [apply HQ|done]. Qed.
Lemma txwp_delete_object key d (Q : unit -> db -> Prop) : Q tt d -> txwp (delete_object key) d Q.
Proof. intros HQ e s _ <-. unfold delete_object. by destruct (ev_delete e key) as [[]|]. Qed.
Lemma txwp_delete_staging key d (Q : unit -> db -> Prop) : Q tt d -> txwp (delete_staging key) d Q.
Proof. intros HQ e s _ <-. unfold delete_staging. by destruct (ev_delete_staging e key) as [[]|]. Qed.
Lemma txwp_read context c id temporary d (Q : option PengoloRecord -> db -> Prop) :
  (forall t, Q (to_record id <$> option_filter (expires_after t) (table temporary d !! (context, as_str_kind c, id))) d) ->
  txwp (read context c id temporary) d Q.
Proof. intros HQ. apply txwp_bind, txwp_now. intros t. apply txwp_query. intros o [= <-]. apply HQ. Qed.
Lemma txwp_each {A} (I : db -> Prop) (f : A -> tx unit) l d :
  (forall a d, a ∈ l -> I d -> txwp (f a) d (fun _ => I)) -> I d -> txwp (tx_each f l) d (fun _ => I).
Proof.
  revert d. induction l as [|a l IH]; intros d Hf Hd; [by apply txwp_nothing|]. apply txwp_bind.
  eapply txwp_mono; [|apply Hf; [by constructor|done]]. intros [] d' Hd'. apply IH; [|done].
  intros b d'' Hb. apply Hf. by constructor.
Qed.

(** A transaction that cannot break an invariant: what is left of it holds. *)
Lemma txwp_transaction {A} tenant (body : string -> tx A) e d (I : db -> Prop) :
  env_ok e -> I d ->
  (forall context, validate_tenant_id tenant = Ok context -> txwp (body context) d (fun _ d' => I d')) ->
  I (transaction tenant body e d).1.1.
Proof.
  intros He Hd Hb. unfold transaction. destruct (validate_tenant_id tenant) as [context|]; [|done].
  assert (Hw : txwp (query (fun _ => Ok tt) ;; body context) d (fun _ d' => I d')).
  { apply txwp_bind, txwp_query. intros _ _. by apply Hb. }
  specialize (Hw e {| st_db := d; st_tick := 0; st_log := [] |} He eq_refl).
  destruct (@mbind tx _ _ _ _ _ e _) as [s [a|error]]; [|done].
  destruct (ev_commit e) as [| |[]]; done.
Qed.
Lemma txwp_transaction_ok {A} tenant (body : string -> tx A) e d d' log a (Q : A -> db -> Prop) :
  env_ok e -> transaction tenant body e d = (d', log, Ok a) ->
  (forall context, validate_tenant_id tenant = Ok context -> txwp (body context) d Q) -> Q a d'.
Proof.
  intros He Ht Hb. unfold transaction in Ht. destruct (validate_tenant_id tenant) as [context|]; [|done].
  assert (Hw : txwp (query (fun _ => Ok tt) ;; body context) d Q).
  { apply txwp_bind, txwp_query. intros _ _. by apply Hb. }
  specialize (Hw e {| st_db := d; st_tick := 0; st_log := [] |} He eq_refl).
  destruct (@mbind tx _ _ _ _ _ e _) as [s [a'|error]]; [|done].
  destruct (ev_commit e) as [| |[]]; simplify_eq; done.
Qed.

(** ** Runs without failures *)
Definition no_faults (e : env) : Prop := (forall n, ev_fault e n = false) /\ ev_commit e = Committed.
Section evaluation.
Context (e : env) (He : no_faults e).
Lemma tx_eval_bind {A B} (p : tx B) (f : B -> tx A) s s' b : p e s = (s', Ok b) -> (p ≫= f) e s = f b e s'.
Proof. intros Hp. unfold mbind, tx_bind. by rewrite Hp. Qed.
Lemma tx_eval_query {A} (f : db -> result A) s a : f (st_db s) = Ok a -> query f e s = (tick s, Ok a).
Proof. intros Hf. unfold query, statement. rewrite (proj1 He), Hf. done. Qed.
Lemma tx_eval_require {A} m (o : option A) s a : o = Some a -> tx_require m o e s = (s, Ok a).
Proof. by intros ->. Qed.
Lemma tx_eval_check b m s : b = true -> tx_check b m e s = (s, Ok tt).
Proof. by intros ->. Qed.
Lemma tx_eval_read context c id temporary s r :
  table temporary (st_db s) !! (context, as_str_kind c, id) = Some r -> (forall n, expires_after (ev_clock e n) r = true) ->
  read context c id temporary e s = (tick (tick s), Ok (Some (to_record id r))).
Proof.
  intros Hr Hx. unfold read. erewrite tx_eval_bind by done. erewrite tx_eval_query; [done|]. simpl. rewrite Hr. simpl. by rewrite Hx.
Qed.
Lemma tx_eval_transaction {A} tenant context (body : string -> tx A) d s a :
  validate_tenant_id tenant = Ok context -> body context e {| st_db := d; st_tick := 1; st_log := [] |} = (s, Ok a) ->
  transaction tenant body e d = (st_db s, st_log s, Ok a).
Proof.
  intros Ht Hb. unfold transaction. rewrite Ht. rewrite (tx_eval_bind _ _ _ (tick {| st_db := d; st_tick := 0; st_log := [] |}) tt).
  - unfold tick. simpl. rewrite Hb. by rewrite (proj2 He).
  - by apply tx_eval_query.
Qed.
End evaluation.

(** ** One run

    [outcome e p s Q]: what [p] leaves in the environment [e], failures included. *)
Definition outcome {A} (e : env) (p : tx A) (s : txstate) (Q : txstate -> result A -> Prop) : Prop :=
  let '(s', r) := p e s in Q s' r.
Section outcomes.
Context (e : env).
Lemma outcome_bind {A B} (p : tx B) (f : B -> tx A) s Q :
  outcome e p s (fun s' r => match r with Ok b => outcome e (f b) s' Q | Err error => Q s' (Err error) end) ->
  outcome e (p ≫= f) s Q.
Proof. unfold outcome, mbind, tx_bind. by destruct (p e s) as [s' [b|]]. Qed.
Lemma outcome_mono {A} (p : tx A) s (Q Q' : txstate -> result A -> Prop) :
  (forall s' r, Q s' r -> Q' s' r) -> outcome e p s Q -> outcome e p s Q'.
Proof. unfold outcome. destruct (p e s). auto. Qed.
Lemma outcome_now s (Q : txstate -> result Z -> Prop) : Q (tick s) (Ok (ev_clock e (st_tick s))) -> outcome e now s Q.
Proof. done. Qed.
Lemma outcome_statement {A} (f : db -> result (A * db)) s (Q : txstate -> result A -> Prop) :
  (forall s' error, st_db s' = st_db s -> st_log s' = st_log s -> Q s' (Err error)) ->
  (forall s' a d, f (st_db s) = Ok (a, d) -> st_db s' = d -> st_log s' = st_log s -> Q s' (Ok a)) -> outcome e (statement f) s Q.
Proof.
  intros Hfail Hok. unfold outcome, statement. destruct (ev_fault e (st_tick s)); [by apply Hfail|].
  destruct (f (st_db s)) as [[a d]|] eqn:Hf; [by eapply Hok|by apply Hfail].
Qed.
Lemma outcome_query {A} (f : db -> result A) s (Q : txstate -> result A -> Prop) :
  (forall s' error, st_db s' = st_db s -> st_log s' = st_log s -> Q s' (Err error)) ->
  (forall s' a, f (st_db s) = Ok a -> st_db s' = st_db s -> st_log s' = st_log s -> Q s' (Ok a)) -> outcome e (query f) s Q.
Proof.
  intros Hfail Hok. apply outcome_statement; [done|]. intros s' a d (x & Hx & [= <- <-])%bind_Ok_inv Hd Hl. by apply Hok.
Qed.
Lemma outcome_execute f s (Q : txstate -> result unit -> Prop) :
  (forall s' r, st_log s' = st_log s -> Q s' r) -> outcome e (execute f) s Q.
Proof. intros HQ. by apply outcome_statement; intros; apply HQ. Qed.
End outcomes.

(** ** Preorders on databases *)
Definition stays {A} (R : db -> db -> Prop) (p : tx A) : Prop := forall d, txwp p d (fun _ d' => R d d').
Section preorder.
Context (R : db -> db -> Prop) `{!PreOrder R}.
Lemma stays_bind {A B} (p : tx B) (f : B -> tx A) : stays R p -> (forall b, stays R (f b)) -> stays R (p ≫= f).
Proof.
  intros Hp Hf d. apply txwp_bind. eapply txwp_mono; [|apply Hp]. intros b d' Hd. simpl.
  eapply txwp_mono; [|apply Hf]. intros a d'' Hd'. by trans d'.
Qed.
Lemma stays_ret {A} (a : A) : stays R (mret a).
Proof. intros d. by apply txwp_ret. Qed.
Lemma stays_lift {A} (r : result A) : stays R (tx_lift r).
Proof. intros d. by apply txwp_lift. Qed.
Lemma stays_check b m : stays R (tx_check b m).
Proof. intros d. by apply txwp_check. Qed.
Lemma stays_require {A} m (o : option A) : stays R (tx_require m o).
Proof. intros d. by apply txwp_require. Qed.
Lemma stays_now : stays R now.
Proof. intros d. by apply txwp_now. Qed.
Lemma stays_uuid : stays R new_uuid.
Proof. intros d. by apply txwp_uuid. Qed.
Lemma stays_nothing : stays R nothing.
Proof. intros d. by apply txwp_nothing. Qed.
Lemma stays_query {A} (f : db -> result A) : stays R (query f).
Proof. intros d. by apply txwp_query. Qed.
Lemma stays_read context c id temporary : stays R (read context c id temporary).
Proof. intros d. by apply txwp_read. Qed.
Lemma stays_scan p temporary : stays R (scan p temporary).
Proof. intros d. apply txwp_returning. intros l d' [= ->] _. done. Qed.
Lemma stays_finalize file : stays R (finalize file).
Proof. intros d. by apply txwp_finalize. Qed.
Lemma stays_delete_object key : stays R (delete_object key).
Proof. intros d. by apply txwp_delete_object. Qed.
Lemma stays_delete_staging key : stays R (delete_staging key).
Proof. intros d. by apply txwp_delete_staging. Qed.
Lemma stays_check_live r m : stays R (check_live r m).
Proof. apply stays_bind; [apply stays_now|]. intros t. apply stays_check. Qed.
Lemma stays_each {A} (f : A -> tx unit) l : (forall a, stays R (f a)) -> stays R (tx_each f l).
Proof. intros Hf. induction l as [|a l IH]; [apply stays_nothing|]. by apply stays_bind. Qed.
End preorder.
Lemma stays_execute (R : db -> db -> Prop) f : (forall d d', f d = Ok d' -> R d d') -> stays R (execute f).
Proof. intros Hf d. by apply txwp_execute, Hf. Qed.
Lemma stays_statement {A} (R : db -> db -> Prop) (f : db -> result (A * db)) :
  (forall d a d', f d = Ok (a, d') -> R d d') -> stays R (statement f).
Proof. intros Hf d. apply txwp_statement. intros a d'. apply Hf. Qed.
Lemma stays_returning (R : db -> db -> Prop) p temporary f :
  (forall d d', f d = Ok d' -> R d d') -> stays R (returning p temporary f).
Proof. intros Hf d. apply txwp_returning. intros l d' Hd _. by apply Hf. Qed.

Create HintDb tx.
#[export] Hint Resolve stays_ret stays_lift stays_check stays_require stays_now stays_uuid stays_nothing stays_query stays_read
  stays_scan stays_finalize stays_delete_object stays_delete_staging stays_check_live : tx.
(** Walks a body, leaving the statements that change the database. *)
Ltac stays_walk :=
  repeat first
    [ progress intros
    | solve [auto with tx typeclass_instances]
    | apply stays_bind; [by typeclasses eauto| |]
    | apply stays_each; [by typeclasses eauto|]
    | match goal with |- stays _ (match ?x with _ => _ end) => destruct x end ].
