(* ===== verification/RecordStoreInv.v ===== *)
(** * RecordStoreInv: what the transactions of the record store keep

    Isolation of tenants, and the invariant of the tables: rows pass the checks of
    the schema, expiring rows are known to the sweeper, the output of a generation is
    a log without gaps that agrees with its record, and no capability outlives its
    generation. *)

From S2P Require Import Prelude Text RustStr Json Serde Authoring Proc Authorization Pengolo.
From S2P Require Import Activity Workspace Database RecordStore TxLogic.

(** ** Tables after an update *)
Lemma table_set_table t t' m d : table t (set_table t' m d) = if Bool.eqb t t' then m else table t d.
Proof. by destruct t, t'. Qed.
Lemma table_set_output t t' m d : table t (set_output t' m d) = table t d.
Proof. by destruct t, t'. Qed.
Lemma table_set_capabilities t m d : table t (set_capabilities m d) = table t d.
Proof. by destruct t. Qed.
Lemma table_set_retention t m d : table t (set_retention m d) = table t d.
Proof. by destruct t. Qed.
Lemma table_set_jobs t m d : table t (set_jobs m d) = table t d.
Proof. by destruct t. Qed.
Lemma output_set_table t t' m d : output_table t (set_table t' m d) = output_table t d.
Proof. by destruct t, t'. Qed.
Lemma output_set_output t t' m d : output_table t (set_output t' m d) = if Bool.eqb t t' then m else output_table t d.
Proof. by destruct t, t'. Qed.
Lemma output_set_capabilities t m d : output_table t (set_capabilities m d) = output_table t d.
Proof. by destruct t. Qed.
Lemma output_set_retention t m d : output_table t (set_retention m d) = output_table t d.
Proof. by destruct t. Qed.
Lemma output_set_jobs t m d : output_table t (set_jobs m d) = output_table t d.
Proof. by destruct t. Qed.
#[export] Hint Rewrite table_set_table table_set_output table_set_capabilities table_set_retention table_set_jobs
  output_set_table output_set_output output_set_capabilities output_set_retention output_set_jobs : tables.
Ltac tables := autorewrite with tables; simpl.
Lemma lookup_map_imap_all {A} (f : rkey -> A -> A) (m : gmap rkey A) k :
  map_imap (fun key a => Some (f key a)) m !! k = f k <$> m !! k.
Proof. rewrite map_lookup_imap. by destruct (m !! k). Qed.

(** ** What a write does *)
Definition written (tenant : string) (c : Collection) (r : PengoloRecord) (temporary : bool) (new : row) (d : db) : db :=
  let d := set_table temporary (<[(tenant, as_str_kind c, rc_id r) := new]> (table temporary d)) d in
  match rc_expires_at r with
  | Some deadline =>
      set_retention (<[(tenant, as_str_kind c, rc_id r, temporary) :=
        {| rt_expires := deadline; rt_object := file_member c r "key"; rt_staging := file_member c r "stagingKey" |}]>
        (retention d)) d
  | None => d
  end.
Section writes.
Context `{Postgres}.
Lemma put_row_inv temporary key r d d' :
  put_row temporary key r d = Ok d' ->
  row_allowed temporary key.1.2 key.2 r = true /\ d' = set_table temporary (<[key := r]> (table temporary d)) d.
Proof. destruct key as [[t k] i]. unfold put_row. case_match eqn:Hb; [|done]. intros [= <-]. by bool_inv. Qed.
Definition replaces (expected : option Z) (old : option row) (revision : Z) : Prop :=
  match expected with
  | Some v => exists r, old = Some r /\ row_revision r = v /\ revision = (v + 1)%Z
  | None => old = None /\ revision = 1%Z
  end.
Lemma txwp_write context tenant c r temporary expected d (Q : Z -> db -> Prop) :
  (forall updated data revision, tenant = context -> jsonb (rc_data r) = Ok data ->
     replaces expected (table temporary d !! (tenant, as_str_kind c, rc_id r)) revision ->
     row_allowed temporary (as_str_kind c) (rc_id r) (new_row r revision updated data) = true ->
     Q updated (written tenant c r temporary (new_row r revision updated data) d)) ->
  txwp (write context tenant c r temporary expected) d Q.
Proof.
  intros HQ. apply txwp_bind, txwp_now. intros updated. apply txwp_bind, txwp_statement. intros affected d1 Hd.
  apply txwp_bind, txwp_check. intros ->%Z.eqb_eq.
  assert (exists data revision, tenant = context /\ jsonb (rc_data r) = Ok data /\
    replaces expected (table temporary d !! (tenant, as_str_kind c, rc_id r)) revision /\
    row_allowed temporary (as_str_kind c) (rc_id r) (new_row r revision updated data) = true /\
    d1 = set_table temporary (<[(tenant, as_str_kind c, rc_id r) := new_row r revision updated data]> (table temporary d)) d)
    as (data & revision & -> & Hj & Hr & Ha & ->).
  { destruct expected as [v|]; unfold update_row, insert_row in Hd.
    - apply bind_Ok_inv in Hd as (data & Hj & Hd). destruct (table temporary d !! _) as [old|] eqn:Hold; [|done].
      case_match eqn:Hb; [|done]. apply bind_Ok_inv in Hd as (d2 & Hp & [= <-]).
      apply andb_prop in Hb as [->%String.eqb_eq Hv%Z.eqb_eq]. apply put_row_inv in Hp as [Ha ->].
      exists data, (row_revision old + 1)%Z. split_and!; [done..| |done|done]. exists old. split_and!; [done..|lia].
    - apply bind_Ok_inv in Hd as (data & Hj & Hd). case_match eqn:Hb; [|done].
      apply bind_Ok_inv in Hd as (d2 & Hp & [= <-]). apply andb_prop in Hb as [->%String.eqb_eq Hn].
      apply put_row_inv in Hp as [Ha ->]. exists data, 1%Z. split_and!; [done..| |done|done].
      split; [|done]. by destruct (table temporary d !! _). }
  specialize (HQ _ _ _ eq_refl Hj Hr Ha). unfold written in HQ.
  destruct (rc_expires_at r) as [deadline|]; [|by apply txwp_ret].
  apply txwp_bind, txwp_execute. intros d2 Hd2. apply txwp_ret. unfold upsert_retention in Hd2. simpl in Hd2.
  rewrite String.eqb_refl in Hd2. simplify_eq. exact HQ.
Qed.
End writes.

(** ** Tenants are isolated *)
Record isolated (context : string) (d d' : db) : Prop := {
  iso_records temporary (k : rkey) : k.1.1 <> context -> table temporary d' !! k = table temporary d !! k;
  iso_output temporary (k : string * string * Z) : k.1.1 <> context -> output_table temporary d' !! k = output_table temporary d !! k;
  iso_capabilities token c : cp_tenant c <> context -> capabilities d' !! token = Some c <-> capabilities d !! token = Some c;
  iso_retention (k : string * string * string * bool) : k.1.1.1 <> context -> retention d' !! k = retention d !! k;
  iso_jobs (k : string * string) : k.1 <> context -> jobs d' !! k = jobs d !! k;
  iso_roles : iam_roles d' = iam_roles d;
  iso_parents : iam_role_parents d' = iam_role_parents d;
  iso_assignments : iam_user_roles d' = iam_user_roles d;
}.
#[export] Instance isolated_preorder context : PreOrder (isolated context).
Proof.
  split.
  - intros d. by split.
  - intros d1 d2 d3 [] []. split; intros; try congruence.
    + rewrite iso_records1, iso_records0; done.
    + rewrite iso_output1, iso_output0; done.
    + rewrite iso_capabilities1, iso_capabilities0; done.
    + rewrite iso_retention1, iso_retention0; done.
    + rewrite iso_jobs1, iso_jobs0; done.
Qed.
Section isolation.
Context `{Postgres} (context : string).
Implicit Types (d : db) (temporary : bool).
Lemma iso_set_table temporary m d :
  (forall k : rkey, k.1.1 <> context -> m !! k = table temporary d !! k) -> isolated context d (set_table temporary m d).
Proof.
  intros Hm. split; try done; intros t k Hk; tables; try done. destruct (Bool.eqb t temporary) eqn:Ht; [|done].
  apply Bool.eqb_prop in Ht as ->. by apply Hm.
Qed.
Lemma iso_put_row temporary key r d d' : key.1.1 = context -> put_row temporary key r d = Ok d' -> isolated context d d'.
Proof.
  intros Hc [_ ->]%put_row_inv. apply iso_set_table. intros k Hk. apply lookup_insert_ne. intros ->. done.
Qed.
Lemma iso_set_retention m d :
  (forall k : string * string * string * bool, k.1.1.1 <> context -> m !! k = retention d !! k) ->
  isolated context d (set_retention m d).
Proof. intros Hm. split; try done; intros t k Hk; by tables. Qed.
Lemma iso_set_jobs m d : (forall k, k.1 <> context -> m !! k = jobs d !! k) -> isolated context d (set_jobs m d).
Proof. intros Hm. split; try done; intros t k Hk; by tables. Qed.
Lemma iso_delete_row temporary key d : isolated context d (delete_row context temporary key d).
Proof.
  unfold delete_row, visible. destruct (String.eqb key.1.1 context) eqn:Hc; [|done]. apply String.eqb_eq in Hc.
  assert (Hd : isolated context d (set_table temporary (delete key (table temporary d)) d)).
  { apply iso_set_table. intros k Hk. apply lookup_delete_ne. intros ->. done. }
  case_match; [|done]. etrans; [exact Hd|]. apply iso_set_jobs. intros k Hk. apply lookup_delete_ne. intros <-. done.
Qed.
Lemma iso_delete_retention p d : isolated context d (delete_retention context p d).
Proof.
  apply iso_set_retention. intros k Hk. apply option_eq. intros r. rewrite map_lookup_filter_Some. simpl.
  destruct (String.eqb k.1.1.1 context) eqn:Hc; [by apply String.eqb_eq in Hc|]. simpl. naive_solver.
Qed.
Lemma iso_delete_capabilities p d : isolated context d (delete_capabilities context p d).
Proof.
  split; try done; try by intros t k Hk; tables. intros token c Hc. unfold delete_capabilities. simpl.
  rewrite map_lookup_filter_Some. simpl. destruct (String.eqb (cp_tenant c) context) eqn:He; [by apply String.eqb_eq in He|].
  simpl. naive_solver.
Qed.
Lemma iso_set_output temporary m d :
  (forall k : string * string * Z, k.1.1 <> context -> m !! k = output_table temporary d !! k) ->
  isolated context d (set_output temporary m d).
Proof.
  intros Hm. split; try done; intros t k Hk; tables; try done. destruct (Bool.eqb t temporary) eqn:Ht; [|done].
  apply Bool.eqb_prop in Ht as ->. by apply Hm.
Qed.
Lemma iso_delete_output temporary tenant id d : isolated context d (delete_output context temporary tenant id d).
Proof.
  apply iso_set_output. intros k Hk. apply option_eq. intros r. rewrite map_lookup_filter_Some. simpl.
  destruct (String.eqb k.1.1 context) eqn:Hc; [by apply String.eqb_eq in Hc|]. simpl. naive_solver.
Qed.
Lemma iso_upsert_retention key r d d' : upsert_retention context key r d = Ok d' -> isolated context d d'.
Proof.
  unfold upsert_retention. case_match eqn:Hc; [|done]. apply String.eqb_eq in Hc. intros [= <-]. apply iso_set_retention.
  intros k Hk. apply lookup_insert_ne. intros ->. done.
Qed.
Lemma iso_insert_retention key r d d' : insert_retention context key r d = Ok d' -> isolated context d d'.
Proof. unfold insert_retention. case_match; [done|]. apply iso_upsert_retention. Qed.
Lemma iso_set_retention_expiry key t d : isolated context d (set_retention_expiry context key t d).2.
Proof.
  unfold set_retention_expiry. destruct (retention d !! key); [|done]. destruct (String.eqb _ _) eqn:Hc; [|done].
  apply String.eqb_eq in Hc. apply iso_set_retention. intros k Hk. apply lookup_insert_ne. intros ->. done.
Qed.
Lemma iso_retention_expiry key t d n d' : set_retention_expiry context key t d = (n, d') -> isolated context d d'.
Proof. intros He. pose proof (iso_set_retention_expiry key t d) as Hi. by rewrite He in Hi. Qed.
Lemma iso_forget_staging key d : isolated context d (forget_staging context key d).
Proof.
  unfold forget_staging. destruct (retention d !! key); [|done]. destruct (String.eqb _ _) eqn:Hc; [|done].
  apply String.eqb_eq in Hc. apply iso_set_retention. intros k Hk. apply lookup_insert_ne. intros ->. done.
Qed.
Lemma iso_update_rows temporary p f d d' :
  (forall key r, p key r = true -> key.1.1 = context) -> update_rows temporary p f d = Ok d' -> isolated context d d'.
Proof.
  intros Hp. unfold update_rows. case_match; [|done]. intros [= <-]. apply iso_set_table. intros k Hk.
  rewrite (lookup_map_imap_all (fun key r => if p key r then f r else r)). destruct (table temporary d !! k) as [r|]; [|done]. simpl.
  destruct (p k r) eqn:E; [by apply Hp in E|done].
Qed.
Lemma iso_write tenant c r temporary expected : stays (isolated context) (write context tenant c r temporary expected).
Proof.
  intros d. apply txwp_write. intros updated data revision -> _ _ _. unfold written. etrans.
  - apply (iso_set_table temporary (<[(context, as_str_kind c, rc_id r) := new_row r revision updated data]> (table temporary d))).
    intros k Hk. apply lookup_insert_ne. intros <-. done.
  - destruct (rc_expires_at r); [|done]. apply iso_set_retention. intros k Hk. apply lookup_insert_ne. intros <-. done.
Qed.
Lemma iso_insert_output tenant id temporary event d d' :
  insert_output context tenant id temporary event d = Ok d' -> isolated context d d'.
Proof.
  unfold insert_output. case_match eqn:Hb; [|done]. intros [= <-]. bool_inv.
  match goal with H : String.eqb tenant context = true |- _ => apply String.eqb_eq in H as -> end.
  apply iso_set_output. intros k Hk. apply lookup_insert_ne. intros <-. done.
Qed.
End isolation.

(** ** The transactions of the store *)
Section operations.
Context `{Externals} `{Uuids} `{ActivityExternals} `{Postgres} (to_lowercase : string -> string).

(** A generation's record is saved as an edit of the version that was read. *)
Definition edits_log (d : db) (temporary : bool) (tenant : string) (r : PengoloRecord) (revision : Z) : Prop :=
  forall old, table temporary d !! (tenant, "generation"%string, rc_id r) = Some old -> row_revision old = revision ->
  forall k, str_in k ["sequence"; "response"; "status"] = true -> get (rc_data r) k = get (row_data old) k.
(** The transactions the service runs on the database [d]. *)
Inductive operation (d : db) (tenant : string) : forall A, (string -> tx A) -> Prop :=
  | op_promote r temporary file : operation d tenant _ (promote_file tenant r temporary file)
  | op_refresh r temporary : operation d tenant _ (refresh_file_retention tenant r temporary)
  | op_expire_file r temporary : operation d tenant _ (expire_file tenant r temporary)
  | op_purge id temporary staging : operation d tenant _ (purge_file tenant id temporary staging)
  | op_reserve_file r temporary : operation d tenant _ (reserve_file to_lowercase tenant r temporary)
  | op_get c id temporary : operation d tenant _ (get_record c id temporary)
  | op_list c after limit : operation d tenant _ (list_records tenant c after limit)
  | op_list_scoped q : rq_tenant q = tenant -> operation d tenant _ (list_scoped q)
  | op_save c r temporary expected : c <> CGeneration -> operation d tenant _ (save tenant c r temporary expected)
  | op_save_generation r temporary revision : edits_log d temporary tenant r revision ->
      operation d tenant _ (save tenant CGeneration r temporary (Some revision))
  | op_remove c id temporary : operation d tenant _ (remove tenant c id temporary)
  | op_expire_temporary owner session : operation d tenant _ (expire_temporary tenant owner session)
  | op_reserve actor i capability : operation d tenant _ (reserve tenant actor i capability)
  | op_append id temporary event : operation d tenant _ (append tenant id temporary event)
  | op_events id temporary after : operation d tenant _ (events tenant id temporary after)
  | op_generation_capability id : operation d tenant _ (generation_capability tenant id)
  | op_record_evidence id temporary sources : operation d tenant _ (record_evidence tenant id temporary sources)
  | op_overdue temporary : operation d tenant _ (overdue temporary)
  | op_expired_objects : operation d tenant _ (expired_objects tenant)
  | op_expired_rows temporary : operation d tenant _ (expired_rows temporary)
  | op_check_roles roles previous : operation d tenant _ (check_roles tenant roles previous).

Lemma iso_set_expiry context key t d d' : set_expiry context key t d = Ok d' -> isolated context d d'.
Proof.
  unfold set_expiry, visible. destruct (durable d !! key); [|by intros [= <-]].
  destruct (String.eqb _ _) eqn:Hc; [|by intros [= <-]]. apply String.eqb_eq in Hc. by apply iso_put_row.
Qed.
Lemma iso_unstage context temporary key d d' : unstage context temporary key d = Ok d' -> isolated context d d'.
Proof.
  unfold unstage, visible. destruct (table temporary d !! key); [|by intros [= <-]].
  destruct (String.eqb _ _) eqn:Hc; [|by intros [= <-]]. apply String.eqb_eq in Hc. by apply iso_put_row.
Qed.
Lemma iso_upsert_job context tenant id checksum d d' :
  upsert_job context tenant id checksum d = Ok d' -> isolated context d d'.
Proof.
  unfold upsert_job. case_match eqn:Hb; [|done]. intros [= <-]. bool_inv.
  match goal with H : String.eqb tenant context = true |- _ => apply String.eqb_eq in H as -> end.
  apply iso_set_jobs. intros k Hk. apply lookup_insert_ne. intros <-. done.
Qed.
Lemma iso_insert_capability context token c d d' : insert_capability context token c d = Ok d' -> isolated context d d'.
Proof.
  unfold insert_capability. case_match eqn:Hb; [|done]. intros [= <-]. bool_inv.
  match goal with H : String.eqb (cp_tenant c) context = true |- _ => apply String.eqb_eq in H as Hc end.
  split; try done; try (intros t k Hk; by tables). intros token' c' Hc'. simpl. destruct (decide (token = token')) as [<-|Hne].
  - destruct (capabilities d !! token); [done|]. rewrite lookup_insert_eq. naive_solver.
  - by rewrite lookup_insert_ne.
Qed.
Ltac tenant_of Hb := unfold is_generation_of, in_session, visible in Hb; bool_inv;
  match goal with H : String.eqb _ _ = true |- _ => by apply String.eqb_eq in H end.
Ltac iso_done :=
  solve [ apply stays_execute; intros ? ? He; first
            [ eapply iso_upsert_retention, He | eapply iso_insert_retention, He | eapply iso_set_expiry, He
            | eapply iso_unstage, He | eapply iso_upsert_job, He | eapply iso_insert_output, He
            | eapply iso_insert_capability, He
            | injection He as <-; first [ apply iso_delete_retention | apply iso_delete_capabilities | apply iso_delete_output
                | apply iso_delete_row | apply iso_set_retention_expiry | apply iso_forget_staging ] ]
        | apply stays_statement; intros ? ? ? [= He]; eapply iso_retention_expiry, He ].
#[local] Hint Resolve iso_write : tx.
Lemma iso_advance context tenant id temporary sequence event data :
  stays (isolated context) (advance context tenant id temporary sequence event data).
Proof. unfold advance. stays_walk. iso_done. Qed.
Lemma iso_close context tenant id temporary status data :
  stays (isolated context) (close_generation context tenant id temporary status data).
Proof. unfold close_generation. stays_walk; iso_done. Qed.
Lemma iso_chat_for actor i context : stays (isolated context) (chat_for actor i context).
Proof. unfold chat_for. stays_walk. Qed.
Lemma iso_update context temporary p f :
  (forall key r, p key r = true -> key.1.1 = context) -> stays (isolated context) (execute (update_rows temporary p f)).
Proof. intros Hp. apply stays_execute. intros d d'. by apply iso_update_rows. Qed.
Lemma iso_delete_generations context tenant temporary chat :
  stays (isolated context) (delete_generations context tenant temporary chat).
Proof.
  unfold delete_generations. stays_walk. apply stays_returning. intros d d' [= <-]. apply iso_set_table. intros k Hk.
  apply option_eq. intros r. rewrite map_lookup_filter_Some. simpl.
  destruct (is_generation_of context tenant chat k r) eqn:E; [|simpl; naive_solver]. exfalso. apply Hk. tenant_of E.
Qed.
#[local] Hint Resolve iso_advance iso_close iso_chat_for iso_delete_generations : tx.
Lemma operation_isolated d0 tenant A (body : string -> tx A) context :
  operation d0 tenant A body -> stays (isolated context) (body context).
Proof.
  destruct 1; unfold promote_file, refresh_file_retention, expire_file, purge_file, reserve_file, get_record, list_records,
    list_scoped, save, remove, expire_temporary, reserve, append, events, generation_capability, record_evidence, overdue,
    expired_objects, expired_rows, check_roles, reserved, record_event, forget_generation, expire_one.
  all: stays_walk; try iso_done.
  - apply iso_update. intros key old E. bool_inv. match goal with H : is_generation_of _ _ _ _ _ = true |- _ => tenant_of H end.
  - apply stays_returning. intros d d' Hd. eapply iso_update_rows, Hd. intros key old E. tenant_of E.
Qed.
End operations.

(** ** Rows pass the checks, and expiring rows can be swept *)
Section sane.
Context `{Externals} `{Uuids} `{ActivityExternals} `{Postgres} (to_lowercase : string -> string).
Implicit Types (d : db) (temporary : bool).
Record sane (d : db) : Prop := {
  sane_rows temporary (key : rkey) r : table temporary d !! key = Some r -> row_allowed temporary key.1.2 key.2 r = true;
  sane_sweep temporary t k i r : table temporary d !! (t, k, i) = Some r -> is_Some (row_expires r) ->
    is_Some (retention d !! (t, k, i, temporary));
}.
Definition keeps_sane (d d' : db) : Prop := sane d -> sane d'.
#[local] Instance keeps_sane_preorder : PreOrder keeps_sane.
Proof. split; [by intros d Hd|]. intros d1 d2 d3 Ha Hb Hd. by apply Hb, Ha. Qed.

Lemma row_kind temporary k i r : row_allowed temporary k i r = true -> str_in k DURABLE_KINDS = true.
Proof.
  unfold row_allowed. intros Hr. bool_inv. destruct temporary; [|done].
  match goal with H : str_in k EPHEMERAL_KINDS = true |- _ => revert H end.
  unfold str_in, EPHEMERAL_KINDS, DURABLE_KINDS. simpl. rewrite !orb_true_iff. naive_solver.
Qed.
(** Rows are replaced, keeping or dropping what they had; retention is kept. *)
Lemma sane_change d d' :
  sane d -> (forall k, is_Some (retention d !! k) -> is_Some (retention d' !! k)) ->
  (forall temporary (key : rkey) r, table temporary d' !! key = Some r ->
     table temporary d !! key = Some r \/
     (row_allowed temporary key.1.2 key.2 r = true /\
      (is_Some (row_expires r) -> is_Some (retention d' !! (key, temporary)) \/
         exists old, table temporary d !! key = Some old /\ is_Some (row_expires old)))) ->
  sane d'.
Proof.
  intros [Hr Hs] Hret Hd. split.
  - intros temporary key r Hk. destruct (Hd _ _ _ Hk) as [Hold|[Ha _]]; [by eapply Hr|done].
  - intros temporary t k i r Hk He. destruct (Hd _ _ _ Hk) as [Hold|[_ Hx]]; [by eapply Hret, Hs|].
    destruct (Hx He) as [?|(old & Hold & Ho)]; [done|]. by eapply Hret, Hs.
Qed.
Lemma sane_tables d d' :
  sane d -> (forall temporary, table temporary d' = table temporary d) ->
  (forall k, is_Some (retention d !! k) -> is_Some (retention d' !! k)) -> sane d'.
Proof. intros Hd Ht Hr. eapply sane_change; [done..|]. intros temporary key r. rewrite Ht. by left. Qed.
Lemma sane_put_row temporary key r d d' :
  sane d -> (is_Some (row_expires r) -> exists old, table temporary d !! key = Some old /\ is_Some (row_expires old)) ->
  put_row temporary key r d = Ok d' -> sane d'.
Proof.
  intros Hd Hx [Ha ->]%put_row_inv. eapply sane_change; [done|done|]. intros t k r'. tables.
  destruct (Bool.eqb t temporary) eqn:Ht; [|by left]. apply Bool.eqb_prop in Ht as ->.
  rewrite lookup_insert_Some. intros [[<- <-]|[_ Hk]]; [|by left]. right. split; [done|]. intros He. right. by apply Hx.
Qed.
Lemma sane_delete_row context temporary key d : sane d -> sane (delete_row context temporary key d).
Proof.
  unfold delete_row. destruct (visible context key); [|done]. intros Hd.
  assert (sane (set_table temporary (delete key (table temporary d)) d)) as Hd'.
  { eapply sane_change; [done|done|]. intros t k r. tables. destruct (Bool.eqb t temporary) eqn:Ht; [|by left].
    apply Bool.eqb_prop in Ht as ->. rewrite lookup_delete_Some. intros [_ Hk]. by left. }
  case_match; [|done]. eapply sane_tables; [exact Hd'|..]; done.
Qed.
Lemma sane_delete_retention context p d :
  sane d ->
  (forall temporary (key : rkey) r, key.1.1 = context -> p (key, temporary) = true -> table temporary d !! key = Some r -> row_expires r = None) ->
  sane (delete_retention context p d).
Proof.
  intros [Hr Hs] Hp. split.
  - intros t key r. unfold delete_retention. tables. apply Hr.
  - intros t tn k i r. unfold delete_retention. tables. intros Hk He. destruct (Hs _ _ _ _ _ Hk He) as [x Hx].
    exists x. apply map_lookup_filter_Some. split; [done|]. simpl. destruct (String.eqb tn context) eqn:Hc; [|done]. simpl.
    destruct (p (tn, k, i, t)) eqn:Hpk; [|done]. apply String.eqb_eq in Hc. specialize (Hp t (tn, k, i) r Hc Hpk Hk).
    rewrite Hp in He. by destruct He.
Qed.
(** Rows of the retention table that stand for no record. *)
Lemma sane_delete_other context p d :
  (forall k, p k = true -> str_in k.1.1.2 DURABLE_KINDS = false) -> sane d -> sane (delete_retention context p d).
Proof.
  intros Hp Hd. apply sane_delete_retention; [done|]. intros t [[tn k] i] r _ Hpk Hk.
  apply (sane_rows _ Hd) in Hk as Ha%row_kind. apply Hp in Hpk. simpl in *. congruence.
Qed.
Lemma sane_set_retention_expiry context key t d : sane d -> sane (set_retention_expiry context key t d).2.
Proof.
  intros Hd. unfold set_retention_expiry. destruct (retention d !! key) eqn:Hk; [|done]. destruct (String.eqb _ _); [|done].
  eapply sane_tables; [exact Hd|by intros []|]. intros k' Hk'. simpl.
  destruct (decide (key = k')) as [<-|]; [by rewrite lookup_insert_eq|by rewrite lookup_insert_ne].
Qed.
Lemma sane_forget_staging context key d : sane d -> sane (forget_staging context key d).
Proof.
  intros Hd. unfold forget_staging. destruct (retention d !! key) eqn:Hk; [|done]. destruct (String.eqb _ _); [|done].
  eapply sane_tables; [exact Hd|by intros []|]. intros k' Hk'. simpl.
  destruct (decide (key = k')) as [<-|]; [by rewrite lookup_insert_eq|by rewrite lookup_insert_ne].
Qed.
Lemma sane_upsert_retention context key r d d' : upsert_retention context key r d = Ok d' -> sane d -> sane d'.
Proof.
  unfold upsert_retention. case_match; [|done]. intros [= <-] Hd. eapply sane_tables; [exact Hd|by intros []|].
  intros k' Hk'. simpl. destruct (decide (key = k')) as [<-|]; [by rewrite lookup_insert_eq|by rewrite lookup_insert_ne].
Qed.
Lemma sane_update_rows temporary p f d d' :
  (forall key r, p key r = true -> is_Some (row_expires (f r)) -> temporary = true \/ is_Some (row_expires r)) ->
  update_rows temporary p f d = Ok d' -> sane d -> sane d'.
Proof.
  intros Hp. unfold update_rows. case_match eqn:Hb; [|done]. intros [= <-] Hd. eapply sane_change; [done|done|].
  intros t key r. tables. destruct (Bool.eqb t temporary) eqn:Ht; [|by left]. apply Bool.eqb_prop in Ht as ->.
  rewrite (lookup_map_imap_all (fun key r => if p key r then f r else r)). destruct (table temporary d !! key) as [r0|] eqn:Hk; [|done].
  intros [= <-]. destruct (p key r0) eqn:E; [|by left]. right. split.
  - rewrite forallb_forall in Hb. specialize (Hb (key, r0)). simpl in Hb. rewrite E in Hb. apply Hb.
    apply list_elem_of_In, elem_of_map_to_list, Hk.
  - intros He. right. exists r0. split; [done|]. destruct (Hp _ _ E He) as [->|?]; [|done].
    apply (sane_rows _ Hd) in Hk. unfold row_allowed in Hk. bool_inv. by destruct (row_expires r0).
Qed.
Lemma sane_write context tenant c r temporary expected : stays keeps_sane (write context tenant c r temporary expected).
Proof.
  intros d. apply txwp_write. intros updated data revision -> _ _ Ha Hd. unfold written.
  eapply sane_change; [done|..].
  - intros k Hk. destruct (rc_expires_at r); [|done]. simpl.
    destruct (decide ((context, as_str_kind c, rc_id r, temporary) = k)) as [<-|]; [by rewrite lookup_insert_eq|by rewrite lookup_insert_ne].
  - intros t key r' Hk.
    assert (Hk' : (if Bool.eqb t temporary then <[(context, as_str_kind c, rc_id r) := new_row r revision updated data]> (table temporary d)
                   else table t d) !! key = Some r') by (destruct (rc_expires_at r); revert Hk; by tables).
    clear Hk. destruct (Bool.eqb t temporary) eqn:Ht; [|by left]. apply Bool.eqb_prop in Ht as ->.
    apply lookup_insert_Some in Hk' as [[<- <-]|[_ ?]]; [|by left]. right. split; [done|]. simpl. intros [deadline He].
    left. rewrite He. simpl. by rewrite lookup_insert_eq.
Qed.

#[local] Hint Resolve sane_write : tx.
Lemma sane_output temporary m d : sane d -> sane (set_output temporary m d).
Proof. intros Hd. eapply sane_tables; [exact Hd|intros t; by tables|done]. Qed.
Lemma sane_capabilities m d : sane d -> sane (set_capabilities m d).
Proof. intros Hd. eapply sane_tables; [exact Hd|intros t; by tables|done]. Qed.
Lemma sane_jobs m d : sane d -> sane (set_jobs m d).
Proof. intros Hd. eapply sane_tables; [exact Hd|intros t; by tables|done]. Qed.
Lemma sane_unstage context temporary key d d' : unstage context temporary key d = Ok d' -> sane d -> sane d'.
Proof.
  unfold unstage. destruct (table temporary d !! key) as [old|] eqn:Hk; [|by intros [= <-]].
  destruct (visible context key); [|by intros [= <-]]. intros Hp Hd. eapply sane_put_row; [done| |exact Hp]. simpl. eauto.
Qed.
(** Statements that keep [sane] on their own. *)
Ltac sane_done :=
  solve [ apply stays_execute; intros ? ? He; unfold keeps_sane; first
    [ exact (sane_upsert_retention _ _ _ _ _ He) | exact (sane_unstage _ _ _ _ _ He)
    | injection He as <-; first [ apply sane_set_retention_expiry | apply sane_forget_staging | apply sane_delete_row
        | apply sane_capabilities | apply sane_output
        | apply sane_delete_other; intros k Hk; bool_inv; repeat match goal with H : String.eqb _ _ = true |- _ => apply String.eqb_eq in H end;
          by match goal with H : k.1.1.2 = _ |- _ => rewrite H end ]
    | revert He; unfold insert_retention, upsert_job, insert_capability, insert_output; case_match; [|done];
      intros [= <-]; first [ apply sane_jobs | apply sane_capabilities | apply sane_output ]
    | revert He; unfold insert_retention; case_match; [done|]; intros He; exact (sane_upsert_retention _ _ _ _ _ He) ] ].
Lemma sane_refresh tenant r temporary context : stays keeps_sane (refresh_file_retention tenant r temporary context).
Proof.
  intros d. apply txwp_bind, txwp_read. intros t. apply txwp_bind, txwp_require. intros current Hc.
  apply txwp_bind, txwp_check. intros _. apply txwp_bind, txwp_now. intros at_. apply txwp_bind, txwp_check. intros _.
  case_match; [|by apply txwp_ret]. apply txwp_bind, txwp_require. intros expiry He. apply txwp_bind, txwp_execute. intros d1 Hd1.
  apply txwp_bind, txwp_statement. intros n d2 [= Hd2]. apply txwp_bind, txwp_check. intros _. apply txwp_ret. intros Hd.
  assert (sane d1) as Hs.
  { unfold set_expiry in Hd1. destruct (durable d !! _) as [old|] eqn:Ho; [|by simplify_eq].
    destruct (visible _ _) eqn:Hv; [|by simplify_eq]. apply String.eqb_eq in Hv. simpl in Hv. subst tenant.
    eapply sane_put_row; [exact Hd| |exact Hd1]. intros _. exists old. split; [done|].
    destruct temporary; [done|]. apply fmap_Some in Hc as (row & Hr & ->). simpl in *. unfold table, option_filter in Hr.
    rewrite Ho in Hr. destruct (expires_after t old); simplify_eq. by rewrite He. }
  pose proof (sane_set_retention_expiry context (tenant, "file"%string, rc_id current, false)
    (expiry `max` saturating_add at_ NORMAL_TTL_MS)%Z d1 Hs) as Hs2. by rewrite Hd2 in Hs2.
Qed.
(** The retention row of a record goes after the record. *)
Lemma sane_delete_both context temporary tenant kind id d d' :
  (forall t, table t d' = table t (delete_row context temporary (tenant, kind, id) d)) -> sane d' ->
  sane (delete_retention context (fun k => bool_decide (k = (tenant, kind, id, temporary))) d').
Proof.
  intros Ht Hd'. apply sane_delete_retention; [done|]. intros t key r Hc Hp Hk. bool_inv. simplify_eq. exfalso.
  rewrite Ht in Hk. revert Hk. unfold delete_row, visible. simpl. rewrite String.eqb_refl.
  case_match; tables; rewrite Bool.eqb_reflx, lookup_delete_eq; done.
Qed.
Lemma sane_purge tenant id temporary staging context : stays keeps_sane (purge_file tenant id temporary staging context).
Proof.
  unfold purge_file. do 2 (apply stays_bind; [apply _|auto with tx typeclass_instances|intros ?]). case_match; [|stays_walk].
  apply stays_bind; [apply _|auto with tx typeclass_instances|intros t]. case_match; [stays_walk|].
  do 2 (apply stays_bind; [apply _|stays_walk|intros _]). intros d. apply txwp_bind. destruct staging.
  - apply txwp_bind, txwp_execute. intros d1 Hd1. apply txwp_execute. intros d2 [= <-]. apply txwp_bind, txwp_execute. intros d3 [= <-].
    apply txwp_ret. intros Hd. apply sane_delete_other; [intros k Hk; bool_inv; by subst k|].
    by eapply sane_forget_staging, sane_unstage.
  - apply txwp_execute. intros d1 [= <-]. apply txwp_bind, txwp_execute. intros d2 [= <-]. apply txwp_ret. intros Hd.
    eapply sane_delete_both; [done|]. by apply sane_delete_row.
Qed.
Lemma generations_deleted context tenant temporary chat d (Q : list string -> db -> Prop) :
  (forall ids d', d' = set_table temporary
      (filter (fun kr => Is_true (negb (is_generation_of context tenant chat kr.1 kr.2))) (table temporary d)) d ->
    (forall g, g ∈ ids <-> exists r, table temporary d !! (context, "generation"%string, g) = Some r /\
       is_generation_of context tenant chat (context, "generation"%string, g) r = true) -> Q ids d') ->
  txwp (delete_generations context tenant temporary chat) d Q.
Proof.
  intros HQ. apply txwp_bind, txwp_returning. intros l d' [= <-] Hl. apply txwp_ret. apply HQ; [done|]. intros g.
  rewrite list_elem_of_fmap. split.
  - intros ([key r] & -> & Hin). rewrite Hl in Hin. apply list_elem_of_In, filter_In in Hin as [Hin%list_elem_of_In Hg].
    apply elem_of_map_to_list in Hin. simpl in *. exists r. pose proof Hg as Hg'. unfold is_generation_of, visible in Hg'. bool_inv.
    destruct key as [[t k] i]. simpl in *. simplify_eq. match goal with H : String.eqb _ _ = true |- _ => apply String.eqb_eq in H as -> end. done.
  - intros (r & Hr & Hg). exists ((context, "generation"%string, g), r). split; [done|]. rewrite Hl.
    apply list_elem_of_In, filter_In. split; [|done]. by apply list_elem_of_In, elem_of_map_to_list.
Qed.
Lemma sane_filter temporary (p : rkey * row -> Prop) `{!forall x, base.Decision (p x)} d :
  sane d -> sane (set_table temporary (filter p (table temporary d)) d).
Proof.
  intros Hd. eapply sane_change; [exact Hd|done|]. intros t k r. tables. destruct (Bool.eqb t temporary) eqn:Ht; [|by left].
  apply Bool.eqb_prop in Ht as ->. rewrite map_lookup_filter_Some. intros [Hk _]. by left.
Qed.
Lemma sane_remove_generations context tenant temporary chat :
  stays keeps_sane (ids ← delete_generations context tenant temporary chat; tx_each (forget_generation context tenant temporary) ids).
Proof.
  intros d. apply txwp_bind, generations_deleted. intros ids d1 -> Hids.
  eapply txwp_mono; [|apply (txwp_each (fun d' => sane d -> sane d' /\ forall g, g ∈ ids -> tenant = context ->
    table temporary d' !! (context, "generation"%string, g) = None))].
  - intros [] d' Hd' Hd. by apply Hd'.
  - intros g d' Hg Hd'. do 2 (apply txwp_bind, txwp_execute; intros ? [= <-]). apply txwp_execute. intros d4 [= <-] Hd.
    destruct (Hd' Hd) as [Hs Hn]. split.
    + apply sane_delete_retention; [by apply sane_capabilities, sane_output|]. intros t key r Hc Hp. bool_inv. simpl in *.
      repeat match goal with H : String.eqb _ _ = true |- _ => apply String.eqb_eq in H end.
      match goal with H : Bool.eqb _ _ = true |- _ => apply Bool.eqb_prop in H as -> end. unfold delete_capabilities, delete_output.
      tables. destruct key as [[tn k] i]. simpl in *. subst tn tenant i. intros Hk. pose proof (sane_rows _ Hs _ _ _ Hk) as Ha%row_kind.
      match goal with H : _ || _ = true |- _ => rewrite orb_false_r in H; apply orb_true_iff in H as [->%String.eqb_eq | ->%String.eqb_eq] end; [|done].
      by rewrite Hn in Hk.
    + intros g' Hg' ->. unfold delete_retention, delete_capabilities, delete_output. tables. by apply Hn.
  - intros Hd. split; [by apply sane_filter|]. intros g Hg ->. tables. rewrite Bool.eqb_reflx. apply Hids in Hg as (r & Hr & Hg).
    apply map_lookup_filter_None. right. intros r' Hr'. assert (r' = r) as -> by congruence.
    change (~ Is_true (negb (is_generation_of context context chat (context, "generation"%string, g) r))). rewrite Hg. by intros [].
Qed.
Lemma sane_remove tenant c id temporary context : stays keeps_sane (remove tenant c id temporary context).
Proof.
  unfold remove. apply stays_bind; [apply _|case_match; [apply sane_remove_generations|stays_walk]|]. intros _ d.
  apply txwp_bind, txwp_execute. intros d1 [= <-]. apply txwp_bind.
  eapply (txwp_mono _ _ (fun _ d2 => (forall t, table t d2 = table t (delete_row context temporary (tenant, as_str_kind c, id) d)) /\ (sane d -> sane d2))).
  - intros [] d2 [Ht Hs]. apply txwp_execute. intros d3 [= <-] Hd. eapply sane_delete_both; [done|auto].
  - case_match; [|apply txwp_nothing; split; [done|]; apply sane_delete_row].
    do 2 (apply txwp_bind, txwp_execute; intros ? [= <-]). apply txwp_execute. intros ? [= <-]. split; [intros t; unfold delete_retention, delete_capabilities, delete_output; by tables|].
    intros Hd. apply sane_delete_other; [|by apply sane_capabilities, sane_output, sane_delete_row].
    intros k Hk. bool_inv. match goal with H : String.eqb _ "lease" = true |- _ => apply String.eqb_eq in H as -> end. done.
Qed.
Lemma sane_operation d0 tenant A (body : string -> tx A) context :
  operation to_lowercase d0 tenant A body -> stays keeps_sane (body context).
Proof.
  destruct 1; try first [apply sane_refresh | apply sane_purge | apply sane_remove];
    unfold promote_file, expire_file, reserve_file, get_record, list_records, list_scoped, save, expire_temporary, reserve, append,
    events, generation_capability, record_evidence, overdue, expired_objects, expired_rows, check_roles, reserved, record_event,
    advance, close_generation, chat_for, expire_one.
  all: stays_walk; try sane_done.
  - apply stays_execute. intros d d' Hu Hd. eapply sane_update_rows; [|exact Hu|exact Hd]. simpl. auto.
  - apply stays_returning. intros d d' Hu Hd. eapply sane_update_rows; [|exact Hu|exact Hd]. auto.
Qed.
End sane.
