(* ===== verification/RecordStoreLog.v ===== *)
(** * RecordStoreLog: the output of a generation is a log

    The invariant that ties the record of a generation to its rows in the output
    table and to its capabilities, and its preservation by every transaction. *)

From S2P Require Import Prelude Text RustStr Json Serde Authoring Proc Authorization Pengolo.
From S2P Require Import Activity Workspace Database RecordStore TxLogic RecordStoreInv.

(** ** Logs

    A log is the list of (kind, content) of a generation's events. *)
Notation entry := (string * string)%type.
Definition ends (e : entry) : bool := str_in e.1 TERMINAL_KINDS.
Fixpoint answer (log : list entry) : string :=
  match log with
  | [] => EmptyString
  | (kind, content) :: log => (if String.eqb kind "content" then content else EmptyString) +:+ answer log
  end.
Definition open_log (log : list entry) : Prop := Forall (fun e => ends e = false) log.
(** The record of a generation agrees with its log. *)
Record agrees (data : value) (log : list entry) : Prop := {
  agrees_sequence : get data "sequence" = Some (json_i64 (Z.of_nat (length log)));
  agrees_response : get data "response" = Some (JString (answer log));
  agrees_status : exists status, get data "status" = Some (JString status) /\
    ((str_in status ["pending"; "running"] = true /\ open_log log) \/
     exists before content, log = before ++ [(status, content)] /\ open_log before /\ str_in status TERMINAL_KINDS = true);
}.
Definition gen_key (tenant id : string) : rkey := (tenant, "generation"%string, id).
(** The rows of a generation are its log, numbered from one. *)
Definition stores_log (d : db) (temporary : bool) (tenant id : string) (log : list entry) : Prop :=
  forall n e, output_table temporary d !! (tenant, id, n) = Some e <-> (0 < n)%Z /\ log !! Z.to_nat (n - 1) = Some e.
Record logged_db (d : db) : Prop := {
  log_generation temporary tenant id r : table temporary d !! gen_key tenant id = Some r ->
    exists log, stores_log d temporary tenant id log /\ agrees (row_data r) log;
  log_orphans temporary tenant id n : is_Some (output_table temporary d !! (tenant, id, n)) ->
    is_Some (table temporary d !! gen_key tenant id);
  log_capability token c r : capabilities d !! token = Some c ->
    table (cp_temporary c) d !! gen_key (cp_tenant c) (cp_generation c) = Some r -> is_active (row_data r) = true;
}.

Lemma answer_app log log' : answer (log ++ log') = answer log +:+ answer log'.
Proof.
  induction log as [|[k c] log IH]; simpl; [done|]. rewrite IH. by rewrite string_app_assoc.
Qed.
Lemma agrees_ended data log status :
  agrees data log -> get_str data "status" = Some status -> str_in status TERMINAL_KINDS = true -> ~ open_log log.
Proof.
  intros [_ _ (st & Hs & Hc)]. unfold get_str. rewrite Hs. intros [= ->] Ht Ho. destruct Hc as [[Hp _]|(before & content & -> & _ & _)].
  - revert Hp Ht. unfold str_in, TERMINAL_KINDS. simpl. rewrite !orb_true_iff, !String.eqb_eq. naive_solver.
  - apply Forall_app in Ho as [_ Ho]. apply Forall_cons in Ho as [Ho _]. unfold ends in Ho. simpl in *. congruence.
Qed.
Lemma agrees_active data log : agrees data log -> is_active data = true -> open_log log.
Proof.
  intros [_ _ (status & Hs & Hc)]. unfold is_active, get_str. rewrite Hs. simpl. intros Ha.
  destruct Hc as [[_ ?]|(before & content & _ & _ & Ht)]; [done|]. exfalso. revert Ha Ht.
  unfold str_in, TERMINAL_KINDS. simpl. rewrite !orb_true_iff, !String.eqb_eq. naive_solver.
Qed.

(** ** Changes that touch no log *)
Definition same_log (r r' : row) : Prop :=
  forall k, str_in k ["sequence"; "response"; "status"] = true -> get (row_data r') k = get (row_data r) k.
#[export] Instance same_log_preorder : PreOrder same_log.
Proof. split; [by intros r k|]. intros r1 r2 r3 Ha Hb k Hk. by rewrite (Hb k Hk), (Ha k Hk). Qed.
Lemma same_log_agrees r r' log : same_log r r' -> agrees (row_data r) log -> agrees (row_data r') log.
Proof. intros Hs [H1 H2 H3]. split; [rewrite (Hs "sequence"%string eq_refl)|rewrite (Hs "response"%string eq_refl)|rewrite (Hs "status"%string eq_refl)]; done. Qed.
Lemma same_log_active r r' : same_log r r' -> is_active (row_data r') = is_active (row_data r).
Proof. intros Hs. unfold is_active, get_str. by rewrite (Hs "status"%string eq_refl). Qed.
(** Each generation keeps its record and its rows, or loses all of them. *)
Definition generation_kept (d d' : db) (temporary : bool) (tenant id : string) : Prop :=
  (forall n, output_table temporary d' !! (tenant, id, n) = output_table temporary d !! (tenant, id, n)) /\
  option_Forall2 same_log (table temporary d !! gen_key tenant id) (table temporary d' !! gen_key tenant id).
Definition generation_gone (d' : db) (temporary : bool) (tenant id : string) : Prop :=
  table temporary d' !! gen_key tenant id = None /\ forall n, output_table temporary d' !! (tenant, id, n) = None.
Record quiet (d d' : db) : Prop := {
  quiet_capabilities : capabilities d' ⊆ capabilities d;
  quiet_generations temporary tenant id : generation_kept d d' temporary tenant id \/ generation_gone d' temporary tenant id;
}.
Lemma kept_refl d temporary tenant id : generation_kept d d temporary tenant id.
Proof. split; [done|]. destruct (table temporary d !! _); constructor. done. Qed.
Lemma kept_trans d1 d2 d3 temporary tenant id :
  generation_kept d1 d2 temporary tenant id -> generation_kept d2 d3 temporary tenant id -> generation_kept d1 d3 temporary tenant id.
Proof.
  intros [Ho Hr] [Ho' Hr']. split; [intros n; by rewrite Ho', Ho|]. destruct Hr; inversion Hr'; subst; constructor. by etrans.
Qed.
#[export] Instance quiet_preorder : PreOrder quiet.
Proof.
  split.
  - intros d. split; [done|]. intros. left. apply kept_refl.
  - intros d1 d2 d3 [Hc Hg] [Hc' Hg']. split; [by etrans|]. intros temporary tenant id.
    destruct (Hg' temporary tenant id) as [Hk'|?]; [|by right]. destruct (Hg temporary tenant id) as [Hk|[Hn Ho]].
    + left. by eapply kept_trans.
    + right. destruct Hk' as [Ho' Hr']. rewrite Hn in Hr'. split; [by inversion Hr'|]. intros n. by rewrite Ho'.
Qed.
(** One generation may change, if its log does too. *)
Lemma logged_change d d' temporary0 tenant0 id0 :
  logged_db d ->
  (forall temporary tenant id, (temporary, tenant, id) <> (temporary0, tenant0, id0) -> generation_kept d d' temporary tenant id) ->
  (exists r log, table temporary0 d' !! gen_key tenant0 id0 = Some r /\ stores_log d' temporary0 tenant0 id0 log /\
     agrees (row_data r) log /\
     forall token c, capabilities d' !! token = Some c -> (cp_temporary c, cp_tenant c, cp_generation c) = (temporary0, tenant0, id0) ->
       is_active (row_data r) = true) ->
  (forall token c, capabilities d' !! token = Some c -> (cp_temporary c, cp_tenant c, cp_generation c) <> (temporary0, tenant0, id0) ->
     capabilities d !! token = Some c) ->
  logged_db d'.
Proof.
  intros [Hl Ho Hc] Hk (r0 & log0 & Hr0 & Hs0 & Ha0 & Hc0) Hcap. split.
  - intros temporary tenant id r Hr. destruct (decide ((temporary, tenant, id) = (temporary0, tenant0, id0))) as [Heq|Hne].
    + simplify_eq. by exists log0.
    + destruct (Hk _ _ _ Hne) as [Hout Hrow]. rewrite Hr in Hrow. inversion Hrow as [r1 r2 Hsame Hr1|]; subst.
      destruct (Hl _ _ _ _ (eq_sym Hr1)) as (log & Hs & Ha). exists log. split; [|by eapply same_log_agrees].
      intros n e. rewrite Hout. apply Hs.
  - intros temporary tenant id n Hn. destruct (decide ((temporary, tenant, id) = (temporary0, tenant0, id0))) as [Heq|Hne].
    + simplify_eq. eauto.
    + destruct (Hk _ _ _ Hne) as [Hout Hrow]. rewrite Hout in Hn. destruct (Ho _ _ _ _ Hn) as [r Hr]. rewrite Hr in Hrow.
      inversion Hrow; eauto.
  - intros token c r Ht Hr. destruct (decide ((cp_temporary c, cp_tenant c, cp_generation c) = (temporary0, tenant0, id0))) as [Heq|Hne].
    + simplify_eq. eauto.
    + destruct (Hk _ _ _ Hne) as [_ Hrow]. rewrite Hr in Hrow. inversion Hrow as [r1 r2 Hsame Hr1|]; subst.
      rewrite (same_log_active _ _ Hsame). eauto.
Qed.
Lemma quiet_logged d d' : quiet d d' -> logged_db d -> logged_db d'.
Proof.
  intros [Hcap Hg] [Hl Ho Hc]. split.
  - intros temporary tenant id r Hr. destruct (Hg temporary tenant id) as [[Hout Hrow]|[Hn _]]; [|congruence].
    rewrite Hr in Hrow. inversion Hrow as [r1 r2 Hsame Hr1|]; subst. destruct (Hl _ _ _ _ (eq_sym Hr1)) as (log & Hs & Ha).
    exists log. split; [|by eapply same_log_agrees]. intros n e. rewrite Hout. apply Hs.
  - intros temporary tenant id n Hn. destruct (Hg temporary tenant id) as [[Hout Hrow]|[_ Hnone]].
    + rewrite Hout in Hn. destruct (Ho _ _ _ _ Hn) as [r Hr]. rewrite Hr in Hrow. inversion Hrow; eauto.
    + rewrite Hnone in Hn. by destruct Hn.
  - intros token c r Ht Hr. destruct (Hg (cp_temporary c) (cp_tenant c) (cp_generation c)) as [[_ Hrow]|[Hn _]]; [|congruence].
    rewrite Hr in Hrow. inversion Hrow as [r1 r2 Hsame Hr1|]; subst. rewrite (same_log_active _ _ Hsame).
    eapply Hc; [|done]. by eapply lookup_weaken.
Qed.

(** ** Transactions that touch no log *)
Section still.
Context `{Externals} `{Uuids} `{ActivityExternals} `{Postgres} (to_lowercase : string -> string).
Implicit Types (d : db) (temporary : bool).
Record still (d d' : db) : Prop := {
  still_capabilities : capabilities d' ⊆ capabilities d;
  still_generations temporary tenant id : generation_kept d d' temporary tenant id;
}.
#[export] Instance still_preorder : PreOrder still.
Proof.
  split; [intros d; split; [done|]; intros; apply kept_refl|].
  intros d1 d2 d3 [Hc Hg] [Hc' Hg']. split; [by etrans|]. intros. by eapply kept_trans.
Qed.
Lemma still_quiet d d' : still d d' -> quiet d d'.
Proof. intros [Hc Hg]. split; [done|]. by left. Qed.
Lemma still_tables d d' :
  capabilities d' ⊆ capabilities d -> (forall t, output_table t d' = output_table t d) ->
  (forall t tenant id, option_Forall2 same_log (table t d !! gen_key tenant id) (table t d' !! gen_key tenant id)) -> still d d'.
Proof. intros Hc Ho Hr. split; [done|]. intros t tenant id. split; [by rewrite Ho|done]. Qed.
Lemma option_same (o : option row) : option_Forall2 same_log o o.
Proof. destruct o; constructor. done. Qed.
Lemma still_put temporary (key : rkey) r d : key.1.2 <> "generation"%string -> still d (set_table temporary (<[key := r]> (table temporary d)) d).
Proof.
  intros Hk. apply still_tables; [done|intros t; by tables|]. intros t tenant id. tables. destruct (Bool.eqb t temporary) eqn:Ht.
  - apply Bool.eqb_prop in Ht as ->. rewrite lookup_insert_ne; [apply option_same|]. intros ->. done.
  - apply option_same.
Qed.
Lemma still_put_row temporary (key : rkey) r d d' :
  key.1.2 <> "generation"%string -> put_row temporary key r d = Ok d' -> still d d'.
Proof. intros Hk [_ ->]%put_row_inv. by apply still_put. Qed.
Lemma still_retention m d : still d (set_retention m d).
Proof. apply still_tables; [done|intros t; by tables|]. intros t tenant id. tables. apply option_same. Qed.
Lemma still_jobs m d : still d (set_jobs m d).
Proof. apply still_tables; [done|intros t; by tables|]. intros t tenant id. tables. apply option_same. Qed.
Lemma still_delete_capabilities context p d : still d (delete_capabilities context p d).
Proof.
  apply still_tables; [apply map_filter_subseteq|intros t; by tables|]. intros t tenant id. unfold delete_capabilities. tables. apply option_same.
Qed.
Lemma still_delete_row context temporary (key : rkey) d : key.1.2 <> "generation"%string -> still d (delete_row context temporary key d).
Proof.
  intros Hk. unfold delete_row. destruct (visible context key); [|done].
  assert (still d (set_table temporary (delete key (table temporary d)) d)) as Hs.
  { apply still_tables; [done|intros t; by tables|]. intros t tenant id. tables. destruct (Bool.eqb t temporary) eqn:Ht.
    - apply Bool.eqb_prop in Ht as ->. rewrite lookup_delete_ne; [apply option_same|]. intros ->. done.
    - apply option_same. }
  case_match; [|done]. etrans; [exact Hs|apply still_jobs].
Qed.
Lemma still_update_rows temporary p f d d' :
  (forall r, row_data (f r) = row_data r) -> update_rows temporary p f d = Ok d' -> still d d'.
Proof.
  intros Hf. unfold update_rows. case_match; [|done]. intros [= <-]. apply still_tables; [done|intros t; by tables|].
  intros t tenant id. tables. destruct (Bool.eqb t temporary) eqn:Ht; [|apply option_same]. apply Bool.eqb_prop in Ht as ->.
  rewrite (lookup_map_imap_all (fun key r => if p key r then f r else r)).
  destruct (table temporary d !! gen_key tenant id) as [r|]; constructor. destruct (p _ r); [|done]. intros k _. by rewrite Hf.
Qed.
Lemma still_write context tenant c r temporary expected :
  c <> CGeneration -> stays still (write context tenant c r temporary expected).
Proof.
  intros Hc d. apply txwp_write. intros updated data revision -> _ _ _. unfold written. etrans.
  - apply (still_put temporary (context, as_str_kind c, rc_id r) (new_row r revision updated data)). by destruct c.
  - destruct (rc_expires_at r); [apply still_retention|done].
Qed.
Lemma still_set_retention_expiry context key t d : still d (set_retention_expiry context key t d).2.
Proof.
  unfold set_retention_expiry. destruct (retention d !! key); [|done]. destruct (String.eqb _ _); [apply still_retention|done].
Qed.
Lemma still_retention_expiry context key t d n d' : set_retention_expiry context key t d = (n, d') -> still d d'.
Proof. intros He. pose proof (still_set_retention_expiry context key t d) as Hi. by rewrite He in Hi. Qed.
Lemma still_forget_staging context key d : still d (forget_staging context key d).
Proof.
  unfold forget_staging. destruct (retention d !! key); [|done]. destruct (String.eqb _ _); [apply still_retention|done].
Qed.
Lemma still_set_expiry context id tenant t d d' : set_expiry context (tenant, "file"%string, id) t d = Ok d' -> still d d'.
Proof.
  unfold set_expiry. destruct (durable d !! _); [|by intros [= <-]]. destruct (visible _ _); [|by intros [= <-]]. by apply still_put_row.
Qed.
Lemma still_unstage context temporary id tenant d d' : unstage context temporary (tenant, "file"%string, id) d = Ok d' -> still d d'.
Proof.
  unfold unstage. destruct (table temporary d !! _); [|by intros [= <-]]. destruct (visible _ _); [|by intros [= <-]].
  by apply still_put_row.
Qed.
Ltac still_done :=
  solve [ by apply still_write
        | apply stays_execute; intros ? ? He; first
            [ exact (still_set_expiry _ _ _ _ _ _ He) | exact (still_unstage _ _ _ _ _ _ He)
            | injection He as <-; first [ apply still_retention | apply still_delete_capabilities | apply still_set_retention_expiry
                | apply still_forget_staging | by apply still_delete_row ]
            | revert He; unfold insert_retention, upsert_retention, upsert_job; repeat case_match; try done;
              intros [= <-]; first [ apply still_retention | apply still_jobs ] ]
        | apply stays_statement; intros ? ? ? [= He]; exact (still_retention_expiry _ _ _ _ _ _ He) ].
#[local] Hint Extern 1 (stays still (write _ _ _ _ _ _)) => by apply still_write : tx.

Definition keeps_logged (d d' : db) : Prop := logged_db d -> logged_db d'.
Lemma still_logged {A} (p : tx A) : stays still p -> stays keeps_logged p.
Proof. intros Hp d. eapply txwp_mono; [|apply Hp]. intros a d' Hd' Hd. by eapply quiet_logged, Hd; apply still_quiet. Qed.

(** ** Writing the record of a generation *)
Context `{!PostgresLaws}.
Lemma jsonb_get m w k v : jsonb (JObject m) = Ok w -> jget k m = Some v -> exists v', get w k = Some v' /\ jsonb v = Ok v'.
Proof.
  intros (m' & -> & Hm)%jsonb_object Hk. specialize (Hm k). rewrite Hk in Hm. inversion Hm as [x y Hj Hy|]; subst.
  exists y. done.
Qed.
Lemma jsonb_agrees v w log : agrees v log -> jsonb v = Ok w -> agrees w log.
Proof.
  intros [Hseq Hresp (status & Hst & Hc)] Hj. destruct v as [| | | | |m]; try done.
  destruct (jsonb_get _ _ _ _ Hj Hseq) as (x & Hx & ->%jsonb_integer). destruct (jsonb_get _ _ _ _ Hj Hresp) as (y & Hy & ->%jsonb_string).
  destruct (jsonb_get _ _ _ _ Hj Hst) as (z & Hz & ->%jsonb_string). split; [done..|]. by exists status.
Qed.
Lemma agrees_is_active v w log log' : agrees v log -> jsonb v = Ok w -> agrees w log' -> is_active v = true -> is_active w = true.
Proof.
  intros [_ _ (status & Hst & _)] Hj _. unfold is_active, get_str. rewrite Hst. destruct v as [| | | | |m]; try done.
  destruct (jsonb_get _ _ _ _ Hj Hst) as (z & -> & ->%jsonb_string). done.
Qed.
Lemma capabilities_written tenant c r temporary new d : capabilities (written tenant c r temporary new d) = capabilities d.
Proof. unfold written. by destruct (rc_expires_at r), temporary. Qed.
Lemma output_written t tenant c r temporary new d : output_table t (written tenant c r temporary new d) = output_table t d.
Proof. unfold written. destruct (rc_expires_at r); by tables. Qed.
Lemma table_written t tenant c r temporary new d :
  table t (written tenant c r temporary new d) =
  if Bool.eqb t temporary then <[(tenant, as_str_kind c, rc_id r) := new]> (table temporary d) else table t d.
Proof. unfold written. destruct (rc_expires_at r); by tables. Qed.
(** From [d0], where the invariant holds, to [d], where only one generation has
    changed, and its record is about to be written. *)
Lemma logged_write d0 d context tenant r temporary expected (Q : Z -> db -> Prop) :
  logged_db d0 ->
  (forall t tn i, (t, tn, i) <> (temporary, tenant, rc_id r) -> generation_kept d0 d t tn i) ->
  (forall token c, capabilities d !! token = Some c -> (cp_temporary c, cp_tenant c, cp_generation c) <> (temporary, tenant, rc_id r) ->
     capabilities d0 !! token = Some c) ->
  (forall revision, tenant = context -> replaces expected (table temporary d !! gen_key tenant (rc_id r)) revision ->
     exists log, stores_log d temporary tenant (rc_id r) log /\ agrees (rc_data r) log /\
       forall token c, capabilities d !! token = Some c -> (cp_temporary c, cp_tenant c, cp_generation c) = (temporary, tenant, rc_id r) ->
         is_active (rc_data r) = true) ->
  (forall updated d' r', tenant = context -> logged_db d' -> table temporary d' !! gen_key tenant (rc_id r) = Some r' ->
     jsonb (rc_data r) = Ok (row_data r') -> (forall t, output_table t d' = output_table t d) ->
     capabilities d' = capabilities d -> Q updated d') ->
  txwp (write context tenant CGeneration r temporary expected) d Q.
Proof.
  intros Hd0 Hkept Hcap Hlog HQ. apply txwp_write. intros updated data revision Htc Hj Hr _.
  destruct (Hlog revision Htc Hr) as (log & Hs & Ha & Hact).
  assert (table temporary (written tenant CGeneration r temporary (new_row r revision updated data) d) !! gen_key tenant (rc_id r)
    = Some (new_row r revision updated data)) as Hrow by (rewrite table_written, Bool.eqb_reflx; apply lookup_insert_eq).
  eapply HQ; [done| |exact Hrow|done|intros t; apply output_written|apply capabilities_written]. apply (logged_change d0 _ temporary tenant (rc_id r)); [done|..].
  - intros t tn i Hne. destruct (Hkept t tn i Hne) as [Ho Hrows]. split; [intros n; by rewrite output_written|].
    rewrite table_written. destruct (Bool.eqb t temporary) eqn:Ht; [|done]. apply Bool.eqb_prop in Ht as ->.
    rewrite lookup_insert_ne; [done|]. intros [= <- <-]. done.
  - exists (new_row r revision updated data), log. split_and!; [done| | |].
    + intros n e. rewrite output_written. apply Hs.
    + by eapply jsonb_agrees.
    + intros token c. rewrite capabilities_written. intros Hc Hsp. eapply agrees_is_active; [exact Ha|exact Hj| |by eapply Hact].
      by eapply jsonb_agrees.
  - intros token c. rewrite capabilities_written. apply Hcap.
Qed.
(** An edit of the other members of the record. *)
Lemma agrees_insert m log key v :
  agrees (JObject m) log -> str_in key ["sequence"; "response"; "status"] = false -> agrees (JObject (jinsert key v m)) log.
Proof.
  intros Ha Hk. unfold str_in in Hk. simpl in Hk. rewrite !orb_false_iff in Hk. destruct Hk as (Hk1 & Hk2 & Hk3 & _).
  apply String.eqb_neq in Hk1, Hk2, Hk3.
  destruct Ha as [Hseq Hresp Hst]. split; simpl in *; rewrite jget_jinsert, decide_False by done; done.
Qed.
Lemma read_row context c id temporary d t r :
  to_record id <$> option_filter (expires_after t) (table temporary d !! (context, as_str_kind c, id)) = Some r ->
  exists row, table temporary d !! (context, as_str_kind c, id) = Some row /\ r = to_record id row.
Proof.
  intros (row & Hr & ->)%fmap_Some. unfold option_filter in Hr. destruct (table temporary d !! _) as [row'|]; [|done].
  destruct (expires_after t row'); simplify_eq. by exists row.
Qed.
Lemma evidence_logged tenant id temporary sources context :
  stays keeps_logged (record_evidence tenant id temporary sources context).
Proof.
  intros d. apply txwp_given. intros Hd. apply txwp_bind, txwp_read. intros t. apply txwp_bind, txwp_require. intros g (row & Hrow & ->)%read_row.
  apply txwp_bind, txwp_require. intros evidence _. apply txwp_bind, txwp_lift. intros evidence' _.
  apply txwp_bind, txwp_lift. intros data Hdata. unfold insert_member in Hdata. res_inv. simpl in *.
  destruct (row_data row) as [| | | | |m] eqn:Hm; try done. simplify_eq/=. apply txwp_bind.
  apply (logged_write d); [done|intros; apply kept_refl|done| |]; simpl.
  - intros revision -> _. destruct (log_generation _ Hd _ _ _ _ Hrow) as (log & Hst & Ha). exists log. rewrite Hm in Ha.
    split_and!; [done|by apply agrees_insert|]. intros token c Hc [= Ht Htn Hg].
    assert (is_active (row_data row) = true) as Hact by (eapply (log_capability _ Hd); [exact Hc|]; by rewrite Ht, Htn, Hg).
    rewrite Hm in Hact. revert Hact. unfold is_active, get_str. simpl. by rewrite jget_jinsert, decide_False.
  - intros _ d' r' _ Hd' _ _ _ _. by apply txwp_nothing.
Qed.

(** ** Appending an event *)
Lemma apply_tool_get event m m' k : apply_tool event m = Ok m' -> k <> "toolCheckpoints"%string -> jget k m' = jget k m.
Proof.
  unfold apply_tool. intros Ha Hk. destruct (String.eqb (oe_kind event) "tool"); [|by simplify_eq]. res_inv.
  by rewrite jget_jinsert, decide_False.
Qed.
Lemma apply_activity_get event m m' k : apply_activity event m = Ok m' -> k <> "activityKinds"%string -> jget k m' = jget k m.
Proof.
  unfold apply_activity. intros Ha Hk. destruct (String.eqb (oe_kind event) "activity"); [|by simplify_eq]. res_inv.
  destruct (activity_kind x); [|by simplify_eq]. res_inv. by rewrite jget_jinsert, decide_False.
Qed.
Lemma apply_draft_get event m m' k : apply_draft event m = Ok m' -> k <> "emailDrafts"%string -> jget k m' = jget k m.
Proof.
  unfold apply_draft. intros Ha Hk. destruct (String.eqb (oe_kind event) "activity"); [|by simplify_eq]. res_inv.
  destruct x; try by simplify_eq. res_inv. by rewrite jget_jinsert, decide_False.
Qed.
Lemma apply_content_get event m m' k text :
  apply_content event m = Ok m' -> jget "response" m = Some (JString text) ->
  jget k m' = if decide (k = "response"%string)
              then Some (JString (if String.eqb (oe_kind event) "content" then text +:+ oe_content event else text)) else jget k m.
Proof.
  unfold apply_content. intros Ha Hm. destruct (String.eqb (oe_kind event) "content").
  - rewrite Hm in Ha. res_inv. simplify_eq/=. rewrite jget_jinsert. destruct (decide (k = "response"%string)) as [->|Hne]; [by rewrite decide_True|].
    by rewrite decide_False.
  - simplify_eq. case_decide; by subst.
Qed.
Definition event_entry (event : OutputEvent) : entry := (oe_kind event, oe_content event).
(** The members after an event, but for the status. *)
Definition carries (m : list (string * value)) (log : list entry) : Prop :=
  jget "sequence" m = Some (json_i64 (Z.of_nat (length log))) /\ jget "response" m = Some (JString (answer log)).
Lemma agrees_carries m log : agrees (JObject m) log -> carries m log.
Proof. by intros []. Qed.
Lemma carries_insert m log key v : key <> "sequence"%string -> key <> "response"%string -> carries m log -> carries (jinsert key v m) log.
Proof. intros H1' H2' [Hs Hr]. split; by rewrite jget_jinsert, decide_False. Qed.
Lemma json_i64_inj z1 z2 : json_i64 z1 = json_i64 z2 -> z1 = z2.
Proof.
  unfold json_i64. destruct (0 <=? z1)%Z eqn:E1, (0 <=? z2)%Z eqn:E2; intros [= Hz]; lia.
Qed.
Lemma as_json_i64 z : (- 2 ^ 63 <= z < 2 ^ 63)%Z -> as_i64 (json_i64 z) = Some z.
Proof.
  intros Hz. unfold json_i64. destruct (0 <=? z)%Z eqn:E; simpl; [|done]. apply Z.leb_le in E. rewrite Z2N.id by done.
  assert ((z <? 2 ^ 63)%Z = true) as H' by (apply Z.ltb_lt; lia). simpl in H'. by rewrite H'.
Qed.
Lemma as_i64_json z y : as_i64 (json_i64 z) = Some y -> y = z.
Proof.
  unfold json_i64. destruct (0 <=? z)%Z eqn:E; simpl; [|by intros [= ->]]. apply Z.leb_le in E. case_match; [|done].
  intros [= <-]. by rewrite Z2N.id.
Qed.
Lemma as_i64_bound z y : as_i64 (json_i64 z) = Some y -> (z < 2 ^ 63)%Z.
Proof.
  unfold json_i64. destruct (0 <=? z)%Z eqn:E; simpl; [|intros _; apply Z.leb_gt in E; lia]. apply Z.leb_le in E. case_match eqn:Hz; [|done].
  intros _. rewrite Z2N.id in Hz by done. by apply Z.ltb_lt in Hz.
Qed.
Lemma advance_logs context tenant id temporary sequence event m log d (Q : list (string * value) -> db -> Prop) :
  carries m log -> sequence = Z.of_nat (length log) ->
  (forall m' d', tenant = context -> carries m' (log ++ [event_entry event]) ->
     oe_sequence event = (Z.of_nat (length log) + 1)%Z ->
     d' = set_output temporary (<[(tenant, id, oe_sequence event) := event_entry event]> (output_table temporary d)) d ->
     Q m' d') ->
  txwp (advance context tenant id temporary sequence event m) d Q.
Proof.
  intros [Hs Hr] -> HQ. apply txwp_bind, txwp_check. intros Hseq%Z.eqb_eq. apply txwp_bind, txwp_check. intros _.
  do 4 (apply txwp_bind, txwp_lift; intros ? ?). apply txwp_bind, txwp_execute. intros d' Hd'. apply txwp_ret.
  unfold insert_output in Hd'. case_match eqn:Hb; [|done]. simplify_eq. bool_inv.
  match goal with H : String.eqb tenant context = true |- _ => apply String.eqb_eq in H end.
  match goal with Ht : apply_tool _ _ = Ok ?m1, Ha : apply_activity _ _ = Ok ?m2, Hd : apply_draft _ _ = Ok ?m3 |- _ =>
    assert (forall k, k <> "toolCheckpoints"%string -> k <> "activityKinds"%string -> k <> "emailDrafts"%string ->
      jget k m3 = jget k (jinsert "sequence" (json_i64 (oe_sequence event)) m)) as Hm3
      by (intros k ???; by rewrite (apply_draft_get _ _ _ k Hd), (apply_activity_get _ _ _ k Ha), (apply_tool_get _ _ _ k Ht)) end.
  match goal with Hc : apply_content _ ?m3 = Ok ?m4 |- _ =>
    assert (forall k, jget k m4 = if decide (k = "response"%string)
      then Some (JString (if String.eqb (oe_kind event) "content" then answer log +:+ oe_content event else answer log)) else jget k m3) as Hm4
      by (intros k; apply (apply_content_get _ _ _ _ _ Hc); rewrite Hm3, jget_jinsert, decide_False by done; done) end.
  apply HQ; [done| |done|done]. split; rewrite Hm4.
  - rewrite decide_False, Hm3, jget_jinsert, decide_True by done. rewrite length_app. simpl. f_equal. f_equal. lia.
  - rewrite decide_True by done. rewrite answer_app. unfold event_entry. simpl. destruct (String.eqb (oe_kind event) "content"); simpl;
      by rewrite string_app_nil_r.
Qed.
Lemma close_still context tenant id temporary status m d (Q : unit -> db -> Prop) :
  (forall d', still d d' -> (forall token c, capabilities d' !! token = Some c -> tenant = context -> cp_tenant c = tenant -> cp_generation c <> id) ->
     Q tt d') ->
  txwp (close_generation context tenant id temporary status m) d Q.
Proof.
  intros HQ. apply txwp_bind, txwp_require. intros chat _. apply txwp_bind, txwp_read. intros t.
  apply txwp_bind. eapply (txwp_mono _ _ (fun _ d1 => still d d1)).
  - intros [] d1 Hd1. apply txwp_bind, txwp_execute. intros d2 [= <-]. apply txwp_execute. intros d3 [= <-]. apply HQ.
    + etrans; [exact Hd1|]. etrans; [apply still_delete_capabilities|apply still_retention].
    + intros token c. simpl. rewrite map_lookup_filter_Some. simpl. intros [_ Hp] -> Hc Hg. subst.
      by rewrite !String.eqb_refl in Hp.
  - set (found := _ <$> _). destruct found as [r|]; [|by apply txwp_nothing].
    change (txwp (uuid ← new_uuid; updated ← tx_lift (with_answer uuid id status m r);
      write context tenant CChat updated temporary (Some (rc_revision r)) ;; nothing) d (fun _ d1 => still d d1)).
    assert (stays still (uuid ← new_uuid; updated ← tx_lift (with_answer uuid id status m r);
      write context tenant CChat updated temporary (Some (rc_revision r)) ;; nothing)) as Hs by stays_walk.
    apply Hs.
Qed.
Definition next_log (event : OutputEvent) (log : list entry) : list entry :=
  if String.eqb (oe_kind event) "heartbeat" then log else log ++ [event_entry event].
Lemma status_agrees event m log :
  carries m (next_log event log) -> open_log log ->
  let terminal := str_in (oe_kind event) TERMINAL_KINDS in
  agrees (JObject (jinsert "status" (JString (if terminal then oe_kind event else "running"%string)) m)) (next_log event log).
Proof.
  intros [Hs Hr] Ho terminal. split; simpl; [by rewrite jget_jinsert, decide_False..|]. eexists.
  split; [by rewrite jget_jinsert, decide_True|]. unfold next_log in *. destruct terminal eqn:Ht.
  - right. destruct (String.eqb (oe_kind event) "heartbeat") eqn:Hb.
    { apply String.eqb_eq in Hb. unfold terminal in Ht. by rewrite Hb in Ht. }
    by exists log, (oe_content event).
  - left. split; [done|]. destruct (String.eqb _ _); [done|]. apply Forall_app. split; [done|]. by constructor.
Qed.
Lemma jget_jinsert_eq k v m : jget k (jinsert k v m) = Some v.
Proof. by rewrite jget_jinsert, decide_True. Qed.
(** The state between the change of the log and of the record. *)
Record appended (d d1 : db) (temporary : bool) (tenant id context : string) (log : list entry) : Prop := {
  app_kept t tn i : (t, tn, i) <> (temporary, tenant, id) -> generation_kept d d1 t tn i;
  app_capabilities : capabilities d1 ⊆ capabilities d;
  app_log : tenant = context -> stores_log d1 temporary tenant id log;
}.
Lemma appended_still d d1 d2 temporary tenant id context log :
  appended d d1 temporary tenant id context log -> still d1 d2 -> appended d d2 temporary tenant id context log.
Proof.
  intros [Hk Hc Hl] [Hc' Hk']. split.
  - intros t tn i Hne. eapply kept_trans; [by apply Hk|apply Hk'].
  - by etrans.
  - intros Ht n e. destruct (Hk' temporary tenant id) as [-> _]. by apply Hl.
Qed.
Lemma stores_log_snoc d temporary tenant id log e :
  stores_log d temporary tenant id log ->
  stores_log (set_output temporary (<[(tenant, id, (Z.of_nat (length log) + 1)%Z) := e]> (output_table temporary d)) d)
    temporary tenant id (log ++ [e]).
Proof.
  intros Hs n e'. tables. rewrite Bool.eqb_reflx. destruct (decide (n = Z.of_nat (length log) + 1)%Z) as [->|Hne].
  - rewrite lookup_insert_eq. replace (Z.to_nat (Z.of_nat (length log) + 1 - 1)) with (length log) by lia.
    rewrite list_lookup_middle by done. naive_solver lia.
  - rewrite lookup_insert_ne by naive_solver. rewrite (Hs n e'). split; intros [Hn He]; (split; [done|]).
    + by apply lookup_app_l_Some.
    + rewrite lookup_app in He. destruct (log !! Z.to_nat (n - 1)) eqn:E; [exact He|]. apply lookup_ge_None in E.
      destruct (Z.to_nat (n - 1) - length log)%nat eqn:E2; [lia|]. by destruct n0.
Qed.
Lemma appended_output d temporary tenant id context log event :
  stores_log d temporary tenant id log -> oe_sequence event = (Z.of_nat (length log) + 1)%Z ->
  appended d (set_output temporary (<[(tenant, id, oe_sequence event) := event_entry event]> (output_table temporary d)) d)
    temporary tenant id context (log ++ [event_entry event]).
Proof.
  intros Hs Hn. rewrite Hn. split; [|done|intros _; by apply stores_log_snoc]. intros t tn i Hne. split.
  - intros n. tables. destruct (Bool.eqb t temporary) eqn:Ht; [|done]. apply Bool.eqb_prop in Ht as ->.
    apply lookup_insert_ne. naive_solver.
  - tables. apply option_same.
Qed.
(** What an event that was recorded leaves. *)
Record recorded (d' : db) (temporary : bool) (tenant id : string) (event : OutputEvent) (log : list entry) : Prop := {
  rec_logged : logged_db d';
  rec_open : open_log log;
  rec_log : stores_log d' temporary tenant id (next_log event log);
  rec_row : exists r, table temporary d' !! gen_key tenant id = Some r /\ agrees (row_data r) (next_log event log) /\
    get_str (row_data r) "status" = Some (if str_in (oe_kind event) TERMINAL_KINDS then oe_kind event else "running"%string);
  rec_closed : str_in (oe_kind event) TERMINAL_KINDS = true ->
    forall token c, capabilities d' !! token = Some c -> cp_tenant c = tenant -> cp_generation c <> id;
}.
Lemma record_event_logged tenant id temporary row sequence event context d log :
  logged_db d -> table temporary d !! gen_key context id = Some row -> stores_log d temporary context id log ->
  agrees (row_data row) log -> sequence = Z.of_nat (length log) ->
  txwp (record_event tenant id temporary (to_record id row) sequence event context) d
    (fun _ d' => tenant = context /\ recorded d' temporary tenant id event log).
Proof.
  intros Hd Hrow Hlog Hagr ->. apply txwp_bind, txwp_check. intros Hact. apply txwp_bind, txwp_check. intros _.
  pose proof (agrees_active _ _ Hagr Hact) as Hopen. apply txwp_bind, txwp_require. intros m Hm. cbn [to_record rc_data] in Hm, Hact.
  destruct (row_data row) as [| | | | |m0] eqn:Hdata; try done. injection Hm as ->. apply txwp_bind, txwp_now. intros t. apply agrees_carries in Hagr.
  apply txwp_bind, (txwp_mono _ _ (fun m1 d1 => carries m1 (next_log event log) /\ appended d d1 temporary tenant id context (next_log event log))).
  - intros m1 d1 [Hcar Happ]. apply txwp_bind.
    apply (txwp_mono _ _ (fun _ d2 => appended d d2 temporary tenant id context (next_log event log) /\
      (str_in (oe_kind event) TERMINAL_KINDS = true -> forall token c, capabilities d2 !! token = Some c -> tenant = context -> cp_tenant c = tenant -> cp_generation c <> id))).
    + intros [] d2 [Happ2 Hgone]. apply txwp_bind. apply (logged_write d); cbn [with_data rc_id rc_data to_record]; [done|by apply Happ2| | |].
      * intros token c Hc _. by eapply lookup_weaken, app_capabilities.
      * intros revision Htc _. exists (next_log event log). split_and!; [by eapply app_log|by apply status_agrees|].
        intros token c Hc [= Ht Htn Hg]. destruct (str_in (oe_kind event) TERMINAL_KINDS) eqn:Hterm.
        { by destruct (Hgone eq_refl _ _ Hc Htc Htn). }
        unfold is_active, get_str, get. by rewrite jget_jinsert, decide_True.
      * intros _ d' r' Htc Hd' Hr' Hj Ho Hcap. apply txwp_nothing. split; [done|]. split; [done|done| | |].
        -- intros n e. rewrite Ho. by apply (app_log _ _ _ _ _ _ _ Happ2).
        -- exists r'. split_and!; [done|by eapply jsonb_agrees, Hj; apply status_agrees|]. unfold get_str.
           destruct (jsonb_get _ _ "status" _ Hj (jget_jinsert_eq _ _ _)) as (v & -> & ->%jsonb_string). done.
        -- intros Hterm token c. rewrite Hcap. intros Hc. by apply (Hgone Hterm token c Hc).
    + destruct (str_in (oe_kind event) TERMINAL_KINDS).
      * apply close_still. intros d2 Hs Hg. split; [by eapply appended_still|done].
      * apply txwp_bind, txwp_now. intros t2. apply txwp_execute. intros d2 [= <-]. split; [|done].
        eapply appended_still; [done|]. apply still_set_retention_expiry.
  - apply (carries_insert _ _ "leaseExpires" (json_i64 (t + 45000))) in Hagr; [|done..]. unfold next_log.
    destruct (String.eqb (oe_kind event) "heartbeat").
    + apply txwp_ret. split; [done|]. split; [intros; apply kept_refl|done|]. by intros ->.
    + eapply advance_logs; [done|done|]. intros m' d' -> Hcar Hs ->. split; [done|]. by apply appended_output.
Qed.
Lemma append_logged tenant id temporary event context : stays keeps_logged (append tenant id temporary event context).
Proof.
  intros d. apply txwp_given. intros Hd. apply txwp_bind, txwp_read. intros t. apply txwp_bind, txwp_require.
  intros g (row & Hrow & ->)%read_row. destruct (log_generation _ Hd _ _ _ _ Hrow) as (log & Hlog & Hagr).
  apply txwp_bind, txwp_require. simpl. rewrite (agrees_sequence _ _ Hagr). simpl. intros sequence ->%as_i64_json.
  apply txwp_bind, txwp_now. intros t'. case_match; [by apply txwp_nothing|]. apply txwp_bind, txwp_lift. intros event' _.
  case_match.
  - apply txwp_bind, txwp_query. intros stored _. by apply txwp_check.
  - eapply txwp_mono; [|by eapply record_event_logged]. intros u d' [_ Hr]. apply Hr.
Qed.

(** ** Reserving a generation *)
Lemma logged_insert_capability d token c r :
  logged_db d -> table (cp_temporary c) d !! gen_key (cp_tenant c) (cp_generation c) = Some r -> is_active (row_data r) = true ->
  logged_db (set_capabilities (<[token := c]> (capabilities d)) d).
Proof.
  intros [Hl Ho Hc] Hr Ha. split.
  - intros t tn i r'. tables. intros Hr'. destruct (Hl _ _ _ _ Hr') as (log & Hs & Hag). exists log. split; [|done].
    intros n e. tables. apply Hs.
  - intros t tn i n. tables. apply Ho.
  - intros token' c' r'. simpl. rewrite lookup_insert_Some. tables. intros [[_ <-]|[_ Hc']] Hr'; [congruence|by eapply Hc].
Qed.
Lemma agrees_new id actor chat i t1 t2 : agrees (rc_data (new_generation id actor chat i t1 t2)) [].
Proof. split; [done..|]. eexists. split; [done|]. left. split; [done|constructor]. Qed.
Lemma chat_for_still actor i context : stays still (chat_for actor i context).
Proof. unfold chat_for. stays_walk. Qed.
Lemma reserve_logged tenant actor i capability context : stays keeps_logged (reserve tenant actor i capability context).
Proof.
  intros d. apply txwp_given. intros Hd. apply txwp_bind, txwp_lift. intros id _. apply txwp_bind, txwp_query. intros _ _.
  apply txwp_bind, txwp_read. intros t. set (earlier := _ <$> _). destruct earlier as [g|].
  { assert (stays still (reserved actor i g context)) as Hs by (unfold reserved; stays_walk).
    eapply txwp_mono; [|apply Hs]. intros a d' Hd'. apply (quiet_logged d); [by apply still_quiet|done]. }
  apply txwp_bind. eapply txwp_mono; [|apply chat_for_still]. intros [chat expected] d1 Hd1.
  do 2 (apply txwp_bind, txwp_check; intros _). apply txwp_bind, txwp_lift. intros chat' _. apply txwp_bind.
  eapply txwp_mono; [|by apply still_write]. intros u2 d2 Hd2; cbn beta in Hd2. apply txwp_bind, txwp_now. intros t1. apply txwp_bind, txwp_now. intros t2.
  assert (logged_db d2) as Hl by (apply (quiet_logged d); [apply still_quiet; etrans; [exact Hd1|exact Hd2]|done]).
  apply txwp_bind, (logged_write d2); [done|intros; apply kept_refl|done| |].
  - intros revision _ [Hnone _]. exists []. split_and!; [|apply agrees_new|done]. intros n e. rewrite lookup_nil.
    split; [|by intros [_ ?]]. intros Ho. destruct (log_orphans _ Hl _ _ _ _ (mk_is_Some _ _ Ho)) as [r Hr].
    cbn [new_generation rc_id] in Hnone, Hr. congruence.
  - intros _ d3 r' Htc Hd3 Hr' Hj _ _. apply txwp_bind, txwp_now. intros t3. apply txwp_bind, txwp_execute. intros d4 Hd4.
    assert (logged_db d4) as Hl4.
    { unfold insert_capability in Hd4. case_match; [|done]. injection Hd4 as <-. eapply logged_insert_capability; [done|exact Hr'|].
      eapply agrees_is_active; [apply agrees_new|exact Hj|eapply jsonb_agrees; [apply agrees_new|exact Hj]|done]. }
    apply txwp_bind, txwp_now. intros t4. apply txwp_bind, txwp_execute. intros d5 Hd5.
    assert (still d4 d5) as Hs5.
    { unfold insert_retention, upsert_retention in Hd5. repeat case_match; simplify_eq. apply still_retention. }
    apply txwp_bind, txwp_read. intros t5. apply txwp_bind, txwp_require. intros stored _. apply txwp_ret.
    apply (quiet_logged d4); [by apply still_quiet|done].
Qed.

(** ** Removing records *)
Lemma forget_each context tenant temporary ids d :
  txwp (tx_each (forget_generation context tenant temporary) ids) d (fun _ d' =>
    capabilities d' ⊆ capabilities d /\ (forall t, table t d' = table t d) /\
    forall t tn i n, output_table t d' !! (tn, i, n) =
      if bool_decide (t = temporary /\ tn = tenant /\ tenant = context /\ i ∈ ids) then None else output_table t d !! (tn, i, n)).
Proof.
  revert d. induction ids as [|g ids IH]; intros d.
  { apply txwp_nothing. split_and!; [done..|]. intros t tn i n. rewrite bool_decide_eq_false_2; [done|]. intros (_ & _ & _ & Hi). by apply elem_of_nil in Hi. }
  apply txwp_bind, txwp_bind, txwp_execute. intros d1 [= <-]. apply txwp_bind, txwp_execute. intros d2 [= <-]. apply txwp_execute. intros d3 [= <-].
  eapply txwp_mono; [|apply IH]. intros u d' (Hc & Ht & Ho). split_and!.
  - etrans; [exact Hc|]. simpl. apply map_filter_subseteq.
  - intros t. rewrite Ht. unfold delete_retention, delete_capabilities, delete_output. by tables.
  - intros t tn i n. rewrite Ho. unfold delete_retention, delete_capabilities, delete_output. tables.
    destruct (bool_decide (t = temporary /\ tn = tenant /\ tenant = context /\ i ∈ ids)) eqn:E1.
    { bool_inv. rewrite bool_decide_eq_true_2; [done|]. destruct E1 as (? & ? & ? & ?). split_and!; [done..|]. by right. }
    bool_inv. destruct (Bool.eqb t temporary) eqn:Et.
    + apply Bool.eqb_prop in Et as ->. case_bool_decide as E2.
      * destruct E2 as (_ & -> & Htc & [->|Hi]%elem_of_cons); [|by destruct E1]. apply map_lookup_filter_None. right.
        intros e _. simpl. subst tenant. rewrite !String.eqb_refl. by intros [].
      * apply option_eq. intros e. rewrite map_lookup_filter_Some. simpl. split; [by intros [? _]|]. intros He. split; [done|].
        destruct (String.eqb tn context) eqn:Ea, (String.eqb tn tenant) eqn:Eb, (String.eqb i g) eqn:Ec; try done.
        apply String.eqb_eq in Ea, Eb, Ec. subst. destruct E2. split_and!; [done..|]. by left.
    + rewrite bool_decide_eq_false_2; [done|]. intros (-> & _). by rewrite Bool.eqb_reflx in Et.
Qed.
Lemma remove_generations_quiet context tenant temporary chat :
  stays quiet (ids ← delete_generations context tenant temporary chat; tx_each (forget_generation context tenant temporary) ids).
Proof.
  intros d. apply txwp_bind, generations_deleted. intros ids d1 -> Hids. eapply txwp_mono; [|apply forget_each].
  intros u d' (Hc & Ht & Ho). split; [done|]. intros t tn i.
  destruct (decide (t = temporary /\ is_some_and (is_generation_of context tenant chat (gen_key tn i)) (table temporary d !! gen_key tn i) = true))
    as [[-> Hg]|Hn].
  { right. destruct (table temporary d !! gen_key tn i) as [r|] eqn:Hr; [|done]. cbn [is_some_and] in Hg. pose proof Hg as Hg'. unfold is_generation_of, visible in Hg'. bool_inv. simpl in *. simplify_eq.
    match goal with H : String.eqb _ _ = true |- _ => apply String.eqb_eq in H as -> end. split.
    - rewrite Ht. tables. rewrite Bool.eqb_reflx. apply map_lookup_filter_None. right. intros r' Hr'. assert (r' = r) as -> by congruence.
      change (~ Is_true (negb (is_generation_of context context chat (gen_key context i) r))). rewrite Hg. by intros [].
    - intros n. rewrite Ho, bool_decide_eq_true_2; [done|]. split_and!; [done..|]. apply Hids. by exists r. }
  left. split.
  - intros n. rewrite Ho. tables. rewrite bool_decide_eq_false_2; [done|]. intros (-> & -> & -> & Hi). apply Hn.
    split; [done|]. apply Hids in Hi as (r & Hr & Hg). unfold gen_key. by rewrite Hr.
  - rewrite Ht. tables. destruct (Bool.eqb t temporary) eqn:Et; [|apply option_same]. apply Bool.eqb_prop in Et as ->.
    destruct (table temporary d !! gen_key tn i) as [r|] eqn:Hr.
    + rewrite (map_lookup_filter_Some_2 _ _ _ r); [by constructor|done|].
      change (Is_true (negb (is_generation_of context tenant chat (gen_key tn i) r))).
      destruct (is_generation_of context tenant chat (gen_key tn i) r) eqn:E; [|done]. destruct Hn. done.
    + rewrite (proj2 (map_lookup_filter_None _ _ _)); [constructor|]. by left.
Qed.
Lemma remove_logged tenant c id temporary context : stays keeps_logged (remove tenant c id temporary context).
Proof.
  intros d. apply txwp_given. intros Hd.
  assert (stays quiet (remove tenant c id temporary context)) as Hs; [|eapply txwp_mono; [|apply Hs]; intros a d' Hd'; by apply (quiet_logged d)].
  clear d Hd. unfold remove. apply stays_bind; [apply _|case_match; [apply remove_generations_quiet|stays_walk]|]. intros _ d.
  apply txwp_bind, txwp_execute. intros d1 [= <-]. apply txwp_bind. case_bool_decide as Hcg.
  - subst c. apply txwp_bind, txwp_execute. intros d2 [= <-]. apply txwp_bind, txwp_execute. intros d3 [= <-]. apply txwp_execute. intros d4 [= <-].
    apply txwp_execute. intros d5 [= <-]. split.
    + simpl. etrans; [apply map_filter_subseteq|]. unfold delete_row. by repeat case_match.
    + intros t tn i. unfold generation_kept, generation_gone, delete_retention, delete_capabilities, delete_output, delete_row, visible. tables.
      rewrite andb_false_r. destruct (String.eqb tenant context) eqn:Htc; tables.
      * apply String.eqb_eq in Htc as ->. destruct (decide (t = temporary /\ tn = context /\ i = id)) as [(-> & -> & ->)|Hne].
        { right. rewrite Bool.eqb_reflx. split; [apply lookup_delete_eq|]. intros n. apply map_lookup_filter_None. right. intros e _. simpl.
          rewrite !String.eqb_refl. by intros []. }
        left. destruct (Bool.eqb t temporary) eqn:Et; [|split; [done|apply option_same]]. apply Bool.eqb_prop in Et as ->. split.
        { intros n. apply option_eq. intros e. rewrite map_lookup_filter_Some. simpl. split; [by intros [? _]|]. intros He. split; [done|].
          destruct (String.eqb tn context) eqn:Ea, (String.eqb i id) eqn:Ec; try done. apply String.eqb_eq in Ea, Ec. subst. by destruct Hne. }
        rewrite lookup_delete_ne; [apply option_same|]. intros [= <- <-]. by destruct Hne.
      * left. split; [|apply option_same]. intros n. destruct (Bool.eqb t temporary) eqn:Et; [|done]. apply Bool.eqb_prop in Et as ->.
        apply option_eq. intros e. rewrite map_lookup_filter_Some. simpl. split; [by intros [? _]|]. intros He. split; [done|].
        destruct (String.eqb tn context) eqn:Ea, (String.eqb tn tenant) eqn:Eb; try done. apply String.eqb_eq in Ea, Eb. subst.
        by rewrite String.eqb_refl in Htc.
  - apply txwp_nothing. apply txwp_execute. intros d2 [= <-]. apply still_quiet. trans (delete_row context temporary (tenant, as_str_kind c, id) d); [apply still_delete_row; by destruct c|apply still_retention].
Qed.

(** ** Every transaction *)
Lemma save_generation_logged d tenant r temporary revision context :
  edits_log d temporary tenant r revision -> logged_db d ->
  txwp (save tenant CGeneration r temporary (Some revision) context) d (fun _ d' => logged_db d').
Proof.
  intros Hed Hd. unfold save. cbn [bool_decide]. apply txwp_bind. rewrite bool_decide_eq_false_2 by done. apply txwp_nothing.
  apply txwp_bind. rewrite bool_decide_eq_false_2 by done. apply (logged_write d); [done|intros; apply kept_refl|done| |].
  - intros rev -> (old & Hold & Hv & _). destruct (log_generation _ Hd _ _ _ _ Hold) as (log & Hs & Ha). exists log.
    pose proof (Hed old Hold Hv) as Hf.
    assert (agrees (rc_data r) log) as Ha'.
    { destruct Ha as [H1' H2' H3']. split; [rewrite (Hf "sequence"%string eq_refl)|rewrite (Hf "response"%string eq_refl)|rewrite (Hf "status"%string eq_refl)]; done. }
    split_and!; [done..|]. intros token c Hc [= Ht Htn Hg].
    assert (is_active (row_data old) = true) as Hact by (eapply (log_capability _ Hd); [exact Hc|]; by rewrite Ht, Htn, Hg).
    revert Hact. unfold is_active, get_str. by rewrite (Hf "status"%string eq_refl).
  - intros u d' r' _ Hd' _ _ _ _. apply txwp_bind, txwp_nothing. by apply txwp_ret.
Qed.
Lemma operation_logged d tenant A (body : string -> tx A) context :
  operation to_lowercase d tenant A body -> logged_db d -> txwp (body context) d (fun _ d' => logged_db d').
Proof.
  intros Hop Hd. assert (stays keeps_logged (body context) -> txwp (body context) d (fun _ d' => logged_db d')) as Hk.
  { intros Hs. eapply txwp_mono; [|apply Hs]. intros a d' Hd'. by apply Hd'. }
  destruct Hop; lazymatch goal with
    | |- txwp (remove _ _ _ _ _) _ _ => apply Hk, remove_logged
    | |- txwp (reserve _ _ _ _ _) _ _ => apply Hk, reserve_logged
    | |- txwp (append _ _ _ _ _) _ _ => apply Hk, append_logged
    | |- txwp (record_evidence _ _ _ _ _) _ _ => apply Hk, evidence_logged
    | |- txwp (save _ CGeneration _ _ _ _) _ _ => by apply save_generation_logged
    | |- _ => apply Hk, still_logged
    end; unfold promote_file, refresh_file_retention, expire_file, purge_file, reserve_file, get_record, list_records,
    list_scoped, save, expire_temporary, events, generation_capability, overdue, expired_objects, expired_rows, check_roles, expire_one.
  all: stays_walk; try still_done.
  - apply stays_execute. intros d1 d2. by apply still_update_rows.
  - apply stays_returning. intros d1 d2. by apply still_update_rows.
Qed.
End still.
