(* ===== verification/RecordStoreFacts.v ===== *)
(** * RecordStoreFacts: the record store is correct

    [step] is everything that changes the tables: the transactions of any gateway
    process in any order and any environment, a crash of PostgreSQL, the IAM
    administration and the indexer.  The theorems hold in every reachable
    database. *)

From S2P Require Import Prelude Text RustStr Json Serde Authoring Proc Authorization AuthorizationFacts Pengolo.
From S2P Require Import Activity Workspace Database RecordStore TxLogic RecordStoreInv RecordStoreLog.

(** ** The system *)

(** Unlogged tables are emptied when PostgreSQL recovers from a crash. *)
Definition crash (d : db) : db :=
  {| durable := durable d; ephemeral := ∅; durable_output := durable_output d; ephemeral_output := ∅; capabilities := ∅;
     retention := retention d; jobs := jobs d; iam_roles := iam_roles d; iam_role_parents := iam_role_parents d;
     iam_user_roles := iam_user_roles d |}.
Definition set_iam (roles : gset (string * string)) (parents assignments : gset (string * string * string)) (d : db) : db :=
  {| durable := durable d; ephemeral := ephemeral d; durable_output := durable_output d; ephemeral_output := ephemeral_output d;
     capabilities := capabilities d; retention := retention d; jobs := jobs d; iam_roles := roles; iam_role_parents := parents;
     iam_user_roles := assignments |}.
Section facts.
Context `{Externals} `{Uuids} `{ActivityExternals} `{Postgres} (to_lowercase : string -> string).
Implicit Types (d : db) (temporary : bool).
(** document_index.rs: [jsonb_set(data,'{retrieval}',..)], one revision later. *)
Definition index_file (tenant id : string) (retrieval : value) (d : db) : result db :=
  match durable d !! (tenant, "file"%string, id) with
  | Some old =>
      put_row false (tenant, "file"%string, id)
        {| row_owner := row_owner old; row_project := row_project old; row_expires := row_expires old;
           row_revision := row_revision old + 1; row_updated := row_updated old;
           row_data := match row_data old with JObject m => JObject (jinsert "retrieval" retrieval m) | v => v end |} d
  | None => Ok d
  end.
Inductive step (d : db) : db -> Prop :=
  | step_transaction tenant A (body : string -> tx A) e :
      operation to_lowercase d tenant A body -> env_ok e -> step d (transaction tenant body e d).1.1
  | step_crash : step d (crash d)
  | step_iam roles parents assignments : step d (set_iam roles parents assignments d)
  | step_jobs m : step d (set_jobs m d)
  | step_index tenant id retrieval d' : index_file tenant id retrieval d = Ok d' -> step d d'.
Definition reachable (d : db) : Prop := rtc step empty_db d.

Lemma index_file_put tenant id retrieval d d' :
  index_file tenant id retrieval d = Ok d' -> d' = d \/ exists old new, durable d !! (tenant, "file"%string, id) = Some old /\
    row_expires new = row_expires old /\ row_revision new = (row_revision old + 1)%Z /\
    put_row false (tenant, "file"%string, id) new d = Ok d'.
Proof.
  unfold index_file. destruct (durable d !! _) as [old|]; [|intros [= <-]; by left]. intros Hp. right. eexists old, _.
  split; [done|]. split; [|split; [|exact Hp]]; done.
Qed.
Lemma sane_empty : sane empty_db.
Proof. split; intros []; intros *; simpl; by rewrite lookup_empty. Qed.
Lemma logged_empty : logged_db empty_db.
Proof.
  split.
  - intros [] tenant id r; simpl; by rewrite lookup_empty.
  - intros [] tenant id n [e He]; simpl in He; by rewrite lookup_empty in He.
  - intros token c r. simpl. by rewrite lookup_empty.
Qed.
Context `{!PostgresLaws}.
Lemma step_sane d d' : step d d' -> sane d -> sane d'.
Proof.
  intros Hs Hd. destruct Hs as [tenant A body e Hop He| | |m|tenant id retrieval d' Hi].
  - apply txwp_transaction; [done..|]. intros context _. eapply txwp_mono; [|by eapply sane_operation]. intros a d' Hd'. by apply Hd'.
  - split.
    + intros [] key r; simpl; [by rewrite lookup_empty|]. apply (sane_rows _ Hd false).
    + intros [] t k i r; simpl; [by rewrite lookup_empty|]. apply (sane_sweep _ Hd false).
  - eapply sane_tables; [exact Hd|by intros []|done].
  - by apply sane_jobs.
  - apply index_file_put in Hi as [->|(old & new & Hold & He & _ & Hp)]; [done|]. eapply sane_put_row; [done| |exact Hp].
    rewrite He. by exists old.
Qed.
Lemma step_logged d d' : step d d' -> logged_db d -> logged_db d'.
Proof.
  intros Hs Hd. destruct Hs as [tenant A body e Hop He| | |m|tenant id retrieval d' Hi].
  - apply txwp_transaction; [done..|]. intros context _. by eapply operation_logged.
  - destruct Hd as [Hl Ho Hc]. split.
    + intros [] tenant id r; simpl; [by rewrite lookup_empty|]. apply (Hl false).
    + intros [] tenant id n; simpl; [by intros [? He]; rewrite lookup_empty in He|]. apply (Ho false).
    + intros token c r. simpl. by rewrite lookup_empty.
  - destruct Hd as [Hl Ho Hc]. split; [intros []; [apply (Hl true)|apply (Hl false)]|intros []; [apply (Ho true)|apply (Ho false)]|].
    intros token c r Ht Hr. eapply Hc; [exact Ht|]. revert Hr. by destruct (cp_temporary c).
  - eapply quiet_logged; [apply still_quiet, still_jobs|done].
  - apply index_file_put in Hi as [->|(old & new & Hold & He & _ & Hp)]; [done|].
    apply (quiet_logged d); [|done]. eapply still_quiet, still_put_row; [|exact Hp]. done.
Qed.
Lemma reachable_invariant d : reachable d -> sane d /\ logged_db d.
Proof.
  apply (rtc_ind_r (fun d => sane d /\ logged_db d)).
  - split; [apply sane_empty|apply logged_empty].
  - intros d1 d2 _ Hstep [Hs Hl]. split; [by eapply step_sane|by eapply step_logged].
Qed.

(** The three ways in which an event is accepted. *)
Inductive accepted (d d' : db) (temporary : bool) (tenant id context : string) (event : OutputEvent) (log : list entry) : Prop :=
  | accepted_early : oe_sequence event = (-2)%Z -> d' = d -> accepted d d' temporary tenant id context event log
  | accepted_replay event' : positioned (Z.of_nat (length log)) event = Ok event' ->
      (0 < oe_sequence event' <= Z.of_nat (length log))%Z -> d' = d -> tenant = context ->
      output_table temporary d !! (tenant, id, oe_sequence event') = Some (event_entry event') ->
      accepted d d' temporary tenant id context event log
  | accepted_new event' : positioned (Z.of_nat (length log)) event = Ok event' -> tenant = context ->
      (0 < oe_sequence event' -> Z.of_nat (length log) < oe_sequence event')%Z ->
      (oe_kind event' <> "heartbeat"%string -> oe_sequence event' = Z.of_nat (length log) + 1)%Z ->
      recorded d' temporary tenant id event' log -> accepted d d' temporary tenant id context event log.
Lemma append_accepts d tenant id temporary event context :
  logged_db d ->
  txwp (append tenant id temporary event context) d (fun _ d' =>
    exists row log, table temporary d !! gen_key context id = Some row /\ stores_log d temporary context id log /\
      agrees (row_data row) log /\ (Z.of_nat (length log) < 2 ^ 63)%Z /\ accepted d d' temporary tenant id context event log).
Proof.
  intros Hd. apply txwp_bind, txwp_read. intros t. apply txwp_bind, txwp_require.
  intros g (row & Hrow & ->)%read_row. destruct (log_generation _ Hd _ _ _ _ Hrow) as (log & Hlog & Hagr).
  apply txwp_bind, txwp_require. cbn [to_record rc_data]. rewrite (agrees_sequence _ _ Hagr). intros sequence Hseq.
  pose proof (as_i64_json _ _ Hseq) as ->. pose proof (as_i64_bound _ _ Hseq) as Hb.
  apply txwp_bind, txwp_now. intros t'.
  case_match eqn:Hearly.
  { apply txwp_nothing. exists row, log. split_and!; [done..|]. apply accepted_early; [|done]. apply andb_prop in Hearly as [Hs _].
    by apply Z.eqb_eq. }
  apply txwp_bind, txwp_lift. intros event' Hpos. case_match eqn:Hrep.
  - apply txwp_bind, txwp_query. intros stored [= <-]. apply txwp_check. intros Hst%bool_decide_eq_true.
    apply andb_prop in Hrep as [Ha%Z.ltb_lt Hc%Z.leb_le]. destruct (String.eqb tenant context) eqn:Htc; [|done]. apply String.eqb_eq in Htc.
    exists row, log. split_and!; [done..|]. by eapply accepted_replay.
  - assert (txwp (record_event tenant id temporary (to_record id row) (Z.of_nat (length log)) event' context) d
      (fun _ d' => oe_kind event' <> "heartbeat"%string -> oe_sequence event' = Z.of_nat (length log) + 1)%Z) as Hord.
    { apply txwp_bind, txwp_check. intros _. apply txwp_bind, txwp_check. intros _. apply txwp_bind, txwp_require. intros m _.
      apply txwp_bind, txwp_now. intros t2. apply txwp_bind. destruct (String.eqb (oe_kind event') "heartbeat") eqn:Hk.
      - apply txwp_ret, txwp_pure. by apply String.eqb_eq in Hk.
      - apply txwp_bind, txwp_check. intros Hn%Z.eqb_eq. eapply txwp_mono; [|by apply (txwp_pure (oe_sequence event' = Z.of_nat (length log) + 1)%Z)].
        intros m' d' Hs. by apply txwp_pure. }
    assert (txwp (record_event tenant id temporary (to_record id row) (Z.of_nat (length log)) event' context) d
      (fun _ d' => tenant = context /\ recorded d' temporary tenant id event' log)) as Hrec by by eapply record_event_logged.
    eapply txwp_mono; [|exact (txwp_and _ _ _ _ Hord Hrec)]. clear Hord Hrec. intros u d' [Hn [Htc Hrec]].
    exists row, log. split_and!; [done..|]. eapply accepted_new; [done..| |done|done]. intros Hp. apply andb_false_iff in Hrep as [Hr|Hr].
    + apply Z.ltb_ge in Hr. lia.
    + by apply Z.leb_gt in Hr.
Qed.

(** ** The properties *)

(** The output of a generation is one log without gaps: in every reachable
    database, the stored rows of a generation are numbered from one to the sequence
    of its record, the answer in its record is the concatenation of its content
    rows, and its status is terminal exactly when its last row is the terminal
    event of that kind, which no other row is. *)
Theorem output_is_a_log d temporary tenant id r :
  reachable d -> table temporary d !! gen_key tenant id = Some r ->
  exists log, stores_log d temporary tenant id log /\ agrees (row_data r) log.
Proof. intros [_ Hl]%reachable_invariant Hr. by eapply log_generation. Qed.



(** Nothing that expires escapes the sweeper: in every reachable database, a
    record with a deadline has a row in the retention table, which is all the
    sweeper reads. *)
Theorem expiring_records_retained d temporary tenant kind id r :
  reachable d -> table temporary d !! (tenant, kind, id) = Some r -> is_Some (row_expires r) ->
  is_Some (retention d !! (tenant, kind, id, temporary)).
Proof. intros [Hs _]%reachable_invariant. by apply sane_sweep. Qed.

Lemma transaction_isolated d tenant A (body : string -> tx A) e :
  operation to_lowercase d tenant A body -> env_ok e -> isolated (trim tenant) d (transaction tenant body e d).1.1.
Proof.
  intros Hop He. apply (txwp_transaction tenant body e d (isolated (trim tenant) d)); [done..|].
  intros context [-> _]%validate_tenant_id_Ok. by eapply operation_isolated.
Qed.

(** Tenants are isolated: whatever a request of one tenant does, committed or
    not, every row of every other tenant stays as it is, in every table. *)
Theorem tenants_isolated d tenant A (body : string -> tx A) e :
  operation to_lowercase d tenant A body -> env_ok e -> isolated (trim tenant) d (transaction tenant body e d).1.1.
Proof. apply transaction_isolated. Qed.

(** *** The log as its readers see it *)
Definition numbered_log (log : list entry) : list OutputEvent :=
  imap (fun n e => {| oe_sequence := Z.of_nat n + 1; oe_kind := e.1; oe_content := e.2 |}) log.
Lemma strictly_sorted_eq {A} (f : A -> Z) (l k : list A) :
  StronglySorted (fun a b => f a < f b)%Z l -> StronglySorted (fun a b => f a < f b)%Z k -> (forall x, x ∈ l <-> x ∈ k) -> l = k.
Proof.
  revert k. induction l as [|a l IH]; intros k Hl Hk Hx.
  - destruct k as [|b k]; [done|]. assert (b ∈ []) as Hb by (apply Hx; by left). by apply elem_of_nil in Hb.
  - destruct k as [|b k]; [assert (a ∈ []) as Ha by (apply Hx; by left); by apply elem_of_nil in Ha|].
    apply StronglySorted_inv in Hl as [Hl Hal]. apply StronglySorted_inv in Hk as [Hk Hbk]. rewrite Forall_forall in Hal, Hbk.
    assert (a = b) as <-.
    { assert (a ∈ b :: k) as Ha by (apply Hx; by left). assert (b ∈ a :: l) as Hb by (apply Hx; by left).
      apply elem_of_cons in Ha as [->|Ha]; [done|]. apply elem_of_cons in Hb as [->|Hb]; [done|].
      specialize (Hal b Hb). specialize (Hbk a Ha). lia. }
    f_equal. apply IH; [done..|]. intros x. split; intros Hin.
    + assert (x ∈ a :: k) as Hx' by (apply Hx; by right). apply elem_of_cons in Hx' as [->|?]; [|done]. specialize (Hal a Hin). lia.
    + assert (x ∈ a :: l) as Hx' by (apply Hx; by right). apply elem_of_cons in Hx' as [->|?]; [|done]. specialize (Hbk a Hin). lia.
Qed.
Lemma insert_event_elem x l y : y ∈ insert_event x l <-> y = x \/ y ∈ l.
Proof.
  induction l as [|e l IH]; simpl; [set_solver|]. destruct (_ <=? _)%Z; rewrite ?elem_of_cons, ?IH; naive_solver.
Qed.
Lemma insert_event_sorted x l :
  StronglySorted (fun a b => oe_sequence a < oe_sequence b)%Z l -> (forall y, y ∈ l -> oe_sequence y <> oe_sequence x) ->
  StronglySorted (fun a b => oe_sequence a < oe_sequence b)%Z (insert_event x l).
Proof.
  induction l as [|e l IH]; intros Hl Hne; simpl; [by repeat constructor|]. apply StronglySorted_inv in Hl as [Hl Hel].
  rewrite Forall_forall in Hel. destruct (_ <=? _)%Z eqn:E.
  - apply Z.leb_le in E. assert (oe_sequence e <> oe_sequence x) by (apply Hne; by left).
    constructor; [constructor; [done|by apply Forall_forall]|]. apply Forall_forall. intros y [->|Hy]%elem_of_cons; [lia|].
    specialize (Hel y Hy). lia.
  - apply Z.leb_gt in E. constructor; [apply IH; [done|]; intros y Hy; apply Hne; by right|]. apply Forall_forall.
    intros y [->|Hy]%insert_event_elem; [lia|by apply Hel].
Qed.
Lemma foldr_insert_event l :
  NoDup (oe_sequence <$> l) ->
  StronglySorted (fun a b => oe_sequence a < oe_sequence b)%Z (foldr insert_event [] l) /\ forall y, y ∈ foldr insert_event [] l <-> y ∈ l.
Proof.
  induction l as [|x l IH]; simpl; intros Hn; [split; [constructor|done]|]. apply NoDup_cons in Hn as [Hx Hn].
  destruct (IH Hn) as [Hs He]. split.
  - apply insert_event_sorted; [done|]. intros y Hy%He Heq. apply Hx. rewrite <-Heq. by apply list_elem_of_fmap_2.
  - intros y. rewrite insert_event_elem, He, elem_of_cons. done.
Qed.
Lemma elem_of_numbered log n x :
  x ∈ drop n (numbered_log log) <-> exists k e, log !! k = Some e /\ (n <= k)%nat /\
    x = {| oe_sequence := Z.of_nat k + 1; oe_kind := e.1; oe_content := e.2 |}.
Proof.
  rewrite list_elem_of_lookup. setoid_rewrite lookup_drop. unfold numbered_log. setoid_rewrite list_lookup_imap. split.
  - intros (k & Hk). destruct (log !! (n + k)) as [e|] eqn:E; [|done]. simplify_eq/=. exists (n + k)%nat, e. split_and!; [done|lia|done].
  - intros (k & e & He & Hle & ->). exists (k - n)%nat. replace (n + (k - n))%nat with k by lia. by rewrite He.
Qed.
Lemma numbered_sorted log n : StronglySorted (fun a b => oe_sequence a < oe_sequence b)%Z (drop n (numbered_log log)).
Proof.
  assert (forall m (f : nat -> Z) (l : list entry), (forall i, f (S i) = f i + 1)%Z ->
    StronglySorted (fun a b => oe_sequence a < oe_sequence b)%Z
      (drop m (imap (fun i e => {| oe_sequence := f i; oe_kind := e.1; oe_content := e.2 |}) l))) as Hs.
  { intros m f l. revert m f. induction l as [|e l IH]; intros m f Hf; [by destruct m; constructor|].
    destruct m as [|m]; simpl; [|apply (IH m (f ∘ S)); intros i; apply Hf]. constructor; [apply (IH 0 (f ∘ S)); intros i; apply Hf|].
    assert (forall i, f i = f 0%nat + Z.of_nat i)%Z as Hi by (induction i as [|i IHi]; [lia|rewrite Hf, IHi; lia]).
    apply Forall_forall. intros x (i & Hx)%list_elem_of_lookup. rewrite list_lookup_imap in Hx.
    destruct (l !! i); simplify_eq/=. rewrite (Hi (S i)). lia. }
  apply (Hs n (fun i => Z.of_nat i + 1)%Z). intros i. lia.
Qed.
Lemma output_of_log d temporary tenant id after log :
  stores_log d temporary tenant id log -> (0 <= after)%Z ->
  output_of tenant tenant id temporary after d = drop (Z.to_nat after) (numbered_log log).
Proof.
  intros Hs Ha. unfold output_of. set (rows := List.filter _ _).
  assert (forall n e, ((tenant, id, n), e) ∈ rows <-> (after < n)%Z /\ output_table temporary d !! (tenant, id, n) = Some e) as Hin.
  { intros n e. unfold rows. rewrite list_elem_of_In, filter_In, <-list_elem_of_In, elem_of_map_to_list. simpl.
    rewrite String.eqb_refl, bool_decide_eq_true_2 by done. simpl. rewrite Z.ltb_lt. naive_solver. }
  assert (forall k, k ∈ rows -> k.1.1 = (tenant, id)) as Hkey.
  { intros k Hk. unfold rows in Hk. rewrite list_elem_of_In, filter_In in Hk. destruct Hk as [_ Hk]. by bool_inv. }
  assert (NoDup (oe_sequence <$> ((fun ko => {| oe_sequence := ko.1.2; oe_kind := ko.2.1; oe_content := ko.2.2 |}) <$> rows))) as Hnd.
  { rewrite <-list_fmap_compose. apply NoDup_fmap_2_strong.
    - intros [[k1 n1] e1] [[k2 n2] e2] H1' H2' Heq. simpl in Heq. pose proof (Hkey _ H1') as E1. pose proof (Hkey _ H2') as E2. simpl in *.
      subst. apply Hin in H1' as [_ H1'], H2' as [_ H2']. by simplify_eq.
    - apply NoDup_ListNoDup, List.NoDup_filter, NoDup_ListNoDup, NoDup_map_to_list. }
  destruct (foldr_insert_event _ Hnd) as [Hsorted Helem].
  apply (strictly_sorted_eq oe_sequence); [done|apply numbered_sorted|]. intros x. rewrite Helem, elem_of_numbered, list_elem_of_fmap. split.
  - intros ([[k n] e] & -> & Hr). pose proof (Hkey _ Hr) as Hk. simpl in Hk. subst k. apply Hin in Hr as [Hn He]. apply Hs in He as [Hp He].
    exists (Z.to_nat (n - 1)), e. split_and!; [done|lia|]. simpl. f_equal. lia.
  - intros (k & e & He & Hle & ->). exists ((tenant, id, Z.of_nat k + 1)%Z, e). split; [done|]. apply Hin. split; [lia|].
    apply Hs. split; [lia|]. replace (Z.to_nat (Z.of_nat k + 1 - 1)) with k by lia. done.
Qed.

(** C20: readers see exactly the log: the events of a stored generation that a
    successful [events] returns are the next 64 entries of its log after the given
    position, in order and without gaps, so that reading on from the last sequence
    received misses nothing. *)
Theorem events_follow_the_log d temporary tenant id r after e d' calls es :
  reachable d -> validate_tenant_id tenant = Ok tenant -> env_ok e -> table temporary d !! gen_key tenant id = Some r ->
  transaction tenant (events tenant id temporary after) e d = (d', calls, Ok es) ->
  exists log, stores_log d temporary tenant id log /\ agrees (row_data r) log /\
    es = take 64 (drop (Z.to_nat after) (numbered_log log)).
Proof.
  intros [_ Hl]%reachable_invariant Ht He Hr Hev. destruct (log_generation _ Hl _ _ _ _ Hr) as (log & Hs & Ha). exists log.
  split_and!; [done..|].
  apply (txwp_transaction_ok tenant _ e d d' calls es
    (fun es _ => es = take 64 (drop (Z.to_nat after) (numbered_log log))) He Hev).
  intros context Hc. rewrite Ht in Hc. injection Hc as <-. apply txwp_query. intros es' [= <-]. f_equal.
  rewrite (output_of_log _ _ _ _ _ log) by (done || lia). f_equal. lia.
Qed.

Lemma append_run d tenant id temporary event e d1 calls :
  logged_db d -> validate_tenant_id tenant = Ok tenant -> env_ok e ->
  transaction tenant (append tenant id temporary event) e d = (d1, calls, Ok tt) ->
  exists row log, table temporary d !! gen_key tenant id = Some row /\ stores_log d temporary tenant id log /\
    agrees (row_data row) log /\ (Z.of_nat (length log) < 2 ^ 63)%Z /\ accepted d d1 temporary tenant id tenant event log.
Proof.
  intros Hl Ht He Hrun. apply (txwp_transaction_ok tenant _ e d d1 calls tt (fun _ d1 =>
    exists row log, table temporary d !! gen_key tenant id = Some row /\ stores_log d temporary tenant id log /\
      agrees (row_data row) log /\ (Z.of_nat (length log) < 2 ^ 63)%Z /\ accepted d d1 temporary tenant id tenant event log) He Hrun).
  intros context Hc. rewrite Ht in Hc. injection Hc as <-. by apply append_accepts.
Qed.
Lemma positioned_positive n event event' : (0 <= oe_sequence event)%Z -> positioned n event = Ok event' -> event' = event.
Proof. intros Hp. unfold positioned. destruct (oe_sequence event <? 0)%Z eqn:E; [apply Z.ltb_lt in E; lia|]. by intros [= <-]. Qed.
Lemma next_log_event event log : oe_kind event <> "heartbeat"%string -> next_log event log = log ++ [event_entry event].
Proof. intros Hk. unfold next_log. by rewrite (proj2 (String.eqb_neq _ _) Hk). Qed.
(** Where an accepted event is. *)
Lemma accepted_stored d d1 temporary tenant id event row log :
  table temporary d !! gen_key tenant id = Some row -> stores_log d temporary tenant id log -> agrees (row_data row) log ->
  (Z.of_nat (length log) < 2 ^ 63)%Z -> (0 < oe_sequence event < 2 ^ 31)%Z -> oe_kind event <> "heartbeat"%string ->
  accepted d d1 temporary tenant id tenant event log ->
  exists r log', table temporary d1 !! gen_key tenant id = Some r /\ agrees (row_data r) log' /\ (Z.of_nat (length log') < 2 ^ 63)%Z /\
    (oe_sequence event <= Z.of_nat (length log'))%Z /\ output_table temporary d1 !! (tenant, id, oe_sequence event) = Some (event_entry event).
Proof.
  intros Hrow Hlog Hag Hlen [Hpos Hmax] Hkind [Hs _|event' Hp Hle -> _ Ho|event' Hp _ _ Hn Hrec].
  - lia.
  - apply positioned_positive in Hp as ->; [|lia]. exists row, log. split_and!; [done..|lia|done].
  - apply positioned_positive in Hp as ->; [|lia]. destruct (rec_row _ _ _ _ _ _ Hrec) as (r & Hr & Ha & _).
    pose proof (rec_log _ _ _ _ _ _ Hrec) as Hs. rewrite next_log_event in * by done.
    exists r, (log ++ [event_entry event]). rewrite length_app. simpl. specialize (Hn Hkind). split_and!; [done..|lia|lia|].
    apply Hs. split; [lia|]. rewrite Hn. replace (Z.to_nat (Z.of_nat (length log) + 1 - 1)) with (length log) by lia.
    by rewrite list_lookup_middle.
Qed.
Lemma append_replays d tenant id temporary event row log e :
  no_faults e -> (forall n, expires_after (ev_clock e n) row = true) ->
  table temporary d !! gen_key tenant id = Some row -> agrees (row_data row) log -> (Z.of_nat (length log) < 2 ^ 63)%Z ->
  (0 < oe_sequence event <= Z.of_nat (length log))%Z ->
  output_table temporary d !! (tenant, id, oe_sequence event) = Some (event_entry event) ->
  exists n, append tenant id temporary event tenant e {| st_db := d; st_tick := 1; st_log := [] |} =
    ({| st_db := d; st_tick := n; st_log := [] |}, Ok tt).
Proof.
  intros He Hx Hr Hag Hlen [Hpos Hle] Hout. unfold append.
  erewrite tx_eval_bind by (apply tx_eval_read; [done|exact Hr|exact Hx]). erewrite tx_eval_bind by done.
  erewrite tx_eval_bind; [|apply tx_eval_require; cbn [to_record rc_data]; rewrite (agrees_sequence _ _ Hag); apply as_json_i64; lia].
  erewrite tx_eval_bind by done. rewrite (proj2 (Z.eqb_neq (oe_sequence event) (-2))) by lia. cbn [andb].
  erewrite tx_eval_bind; [|unfold tx_lift, positioned; rewrite (proj2 (Z.ltb_ge _ _)) by lia; done].
  rewrite (proj2 (Z.ltb_lt _ _)), (proj2 (Z.leb_le _ _)) by done. cbn [andb].
  erewrite tx_eval_bind; [|by apply tx_eval_query]. rewrite String.eqb_refl. cbn [tick st_db]. rewrite Hout.
  eexists. apply tx_eval_check. by apply bool_decide_eq_true_2.
Qed.


(** C15: a terminal event closes its generation: when a completion, failure or
    cancellation is accepted as a new event, the record has that status, the event
    is the last of the log, and no capability of the generation is left; events
    after it are refused, or are replays that change nothing. *)
Theorem terminal_event_closes d tenant id temporary event e d1 calls :
  reachable d -> validate_tenant_id tenant = Ok tenant -> env_ok e ->
  transaction tenant (append tenant id temporary event) e d = (d1, calls, Ok tt) -> d1 <> d ->
  str_in (oe_kind event) TERMINAL_KINDS = true ->
  (exists r log, table temporary d1 !! gen_key tenant id = Some r /\ stores_log d1 temporary tenant id (log ++ [(oe_kind event, oe_content event)]) /\
     get_str (row_data r) "status" = Some (oe_kind event)) /\
  (forall token c, capabilities d1 !! token = Some c -> cp_tenant c = tenant -> cp_generation c <> id) /\
  forall event' e' d2 calls', env_ok e' -> transaction tenant (append tenant id temporary event') e' d1 = (d2, calls', Ok tt) -> d2 = d1.
Proof.
  intros [_ Hl]%reachable_invariant Ht He Hrun Hne Hterm.
  destruct (append_run _ _ _ _ _ _ _ _ Hl Ht He Hrun) as (row & log & Hrow & Hlog & Hag & Hlen & Hacc).
  destruct Hacc as [_ ?|event' _ _ ? _ _|event' Hp _ _ Hn Hrec]; [done..|].
  assert (oe_kind event' = oe_kind event /\ oe_content event' = oe_content event) as [Hk Hc].
  { unfold positioned in Hp. destruct (oe_sequence event <? 0)%Z; [|by simplify_eq]. res_inv. case_match; by simplify_eq. }
  assert (oe_kind event' <> "heartbeat"%string) as Hh by (rewrite Hk; intros E; by rewrite E in Hterm).
  destruct (rec_row _ _ _ _ _ _ Hrec) as (r & Hr & Ha & Hst). pose proof (rec_log _ _ _ _ _ _ Hrec) as Hs.
  rewrite next_log_event in * by done. rewrite Hk, Hterm in Hst. split_and!.
  - exists r, log. split_and!; [done| |done]. by rewrite <-Hk, <-Hc.
  - apply (rec_closed _ _ _ _ _ _ Hrec). by rewrite Hk.
  - intros event2 e' d2 calls' He' Hrun2.
    destruct (append_run _ _ _ _ _ _ _ _ (rec_logged _ _ _ _ _ _ Hrec) Ht He' Hrun2) as (r' & log' & Hr' & Hs' & Ha' & _ & Hacc).
    destruct Hacc as [_ ?|event3 _ _ ? _ _|event3 _ _ _ _ Hrec2]; [done..|]. exfalso.
    assert (r' = r) as -> by congruence. eapply agrees_ended; [exact Ha'|exact Hst|done|]. apply (rec_open _ _ _ _ _ _ Hrec2).
Qed.
End facts.
