(* ===== verification/RecordStoreVersions.v ===== *)
(** * RecordStoreVersions: revisions, files and roles of the record store

    A revision number names one content of a record, so a save against the revision
    that was read cannot overwrite what was not seen; files are deleted only past
    their deadline; the recursive queries on roles compute the roles above a role. *)

From S2P Require Import Prelude Text RustStr Json Serde Authoring Proc Authorization AuthorizationFacts Pengolo.
From S2P Require Import Activity Workspace Database RecordStore TxLogic RecordStoreInv RecordStoreLog RecordStoreFacts.

(** ** Versions *)
Record newer_version (r r' : row) : Prop := {
  newer_revision : (row_revision r <= row_revision r')%Z;
  newer_same : row_revision r = row_revision r' -> row_data r' = row_data r /\ row_owner r' = row_owner r;
}.
#[export] Instance newer_version_preorder : PreOrder newer_version.
Proof.
  split; [intros r; by split|]. intros r1 r2 r3 [H1 H1'] [H2 H2']. split; [lia|]. intros E.
  destruct H1' as [E1 E2]; [lia|]. destruct H2' as [E3 E4]; [lia|]. by rewrite E3, E4.
Qed.
#[local] Hint Extern 1 (newer_version ?r ?r) => reflexivity : core.
(** No record is lost, and none is created. *)
Definition grows (d d' : db) : Prop :=
  forall temporary (key : rkey) r, table temporary d !! key = Some r ->
  exists r', table temporary d' !! key = Some r' /\ newer_version r r'.
Definition shrinks (d d' : db) : Prop :=
  forall temporary (key : rkey) r', table temporary d' !! key = Some r' ->
  exists r, table temporary d !! key = Some r /\ newer_version r r'.
#[export] Instance grows_preorder : PreOrder grows.
Proof.
  split; [intros d t k r Hr; by exists r|]. intros d1 d2 d3 Ha Hb t k r Hr. destruct (Ha _ _ _ Hr) as (r2 & Hr2 & Hn).
  destruct (Hb _ _ _ Hr2) as (r3 & Hr3 & Hn'). exists r3. split; [done|by etrans].
Qed.
#[export] Instance shrinks_preorder : PreOrder shrinks.
Proof.
  split; [intros d t k r Hr; by exists r|]. intros d1 d2 d3 Ha Hb t k r Hr. destruct (Hb _ _ _ Hr) as (r2 & Hr2 & Hn).
  destruct (Ha _ _ _ Hr2) as (r1 & Hr1 & Hn'). exists r1. split; [done|by etrans].
Qed.
Section versions.
Context `{Externals} `{Uuids} `{ActivityExternals} `{Postgres} (to_lowercase : string -> string).
Implicit Types (d : db) (temporary : bool).
Lemma grows_tables d d' : (forall t, table t d' = table t d) -> grows d d'.
Proof. intros Ht t k r Hr. exists r. by rewrite Ht. Qed.
Lemma shrinks_tables d d' : (forall t, table t d' = table t d) -> shrinks d d'.
Proof. intros Ht t k r Hr. exists r. by rewrite <-Ht. Qed.
Lemma grows_set temporary (key : rkey) r d :
  (forall old, table temporary d !! key = Some old -> newer_version old r) ->
  grows d (set_table temporary (<[key := r]> (table temporary d)) d).
Proof.
  intros Hn t k r0 Hr. tables. destruct (Bool.eqb t temporary) eqn:Et; [|eauto]. apply Bool.eqb_prop in Et as ->.
  destruct (decide (key = k)) as [<-|Hne]; [rewrite lookup_insert_eq|rewrite lookup_insert_ne by done]; eauto.
Qed.
Lemma shrinks_set temporary (key : rkey) r d old :
  table temporary d !! key = Some old -> newer_version old r ->
  shrinks d (set_table temporary (<[key := r]> (table temporary d)) d).
Proof.
  intros Ho Hn t k r'. tables. destruct (Bool.eqb t temporary) eqn:Et; [|eauto]. apply Bool.eqb_prop in Et as ->.
  rewrite lookup_insert_Some. intros [[<- <-]|[_ Hk]]; eauto.
Qed.
Lemma shrinks_delete_row context temporary key d : shrinks d (delete_row context temporary key d).
Proof.
  unfold delete_row. destruct (visible context key); [|done].
  assert (shrinks d (set_table temporary (delete key (table temporary d)) d)) as Hs.
  { intros t k r. tables. destruct (Bool.eqb t temporary) eqn:Et; [|eauto]. apply Bool.eqb_prop in Et as ->.
    rewrite lookup_delete_Some. intros [_ Hk]. eauto. }
  case_match; [|done]. etrans; [exact Hs|]. apply shrinks_tables. intros t. by tables.
Qed.
Lemma grows_put_row temporary key r d d' :
  put_row temporary key r d = Ok d' -> (forall old, table temporary d !! key = Some old -> newer_version old r) -> grows d d'.
Proof. intros [_ ->]%put_row_inv. apply grows_set. Qed.
Lemma grows_write context tenant c r temporary expected : stays grows (write context tenant c r temporary expected).
Proof.
  intros d. apply txwp_write. intros updated data revision -> _ Hr _. unfold written. etrans.
  - apply (grows_set temporary (context, as_str_kind c, rc_id r) (new_row r revision updated data)). intros old Ho.
    rewrite Ho in Hr. destruct expected as [v|]; [|by destruct Hr]. destruct Hr as (old' & [= <-] & <- & ->). split; simpl; lia.
  - destruct (rc_expires_at r); [|done]. apply grows_tables. intros t. by tables.
Qed.
Lemma grows_update_rows temporary p f d d' :
  (forall r, newer_version r (f r)) -> update_rows temporary p f d = Ok d' -> grows d d'.
Proof.
  intros Hf. unfold update_rows. case_match; [|done]. intros [= <-] t k r Hr. tables.
  destruct (Bool.eqb t temporary) eqn:Et; [|eauto]. apply Bool.eqb_prop in Et as ->.
  rewrite (lookup_map_imap_all (fun key r => if p key r then f r else r)), Hr. simpl. destruct (p k r); eauto.
Qed.
Lemma tables_retention_expiry context key x d t : table t (set_retention_expiry context key x d).2 = table t d.
Proof. unfold set_retention_expiry. destruct (retention d !! key); [|done]. destruct (String.eqb _ _); [|done]. by tables. Qed.
Lemma tables_forget_staging context key d t : table t (forget_staging context key d) = table t d.
Proof. unfold forget_staging. destruct (retention d !! key); [|done]. destruct (String.eqb _ _); [|done]. by tables. Qed.
(** Statements that write no record. *)
Lemma tables_statement f d d' :
  f d = Ok d' -> (forall t, table t d' = table t d) -> grows d d' /\ shrinks d d'.
Proof. intros _ Ht. split; [by apply grows_tables|by apply shrinks_tables]. Qed.
Ltac same_tables :=
  repeat case_match; intros ?; simplify_eq; intros t;
  unfold delete_retention, delete_capabilities, delete_output;
  rewrite ?tables_retention_expiry, ?tables_forget_staging; by tables.
Ltac plain_done lemma :=
  solve [ apply stays_execute; intros ? ? He; apply lemma; revert He;
          unfold insert_retention, upsert_retention, upsert_job, insert_capability, insert_output; same_tables
        | apply stays_statement; intros d1 ? d2 [= He]; apply lemma; intros t;
          pose proof (tables_retention_expiry) as Hx; match type of He with set_retention_expiry ?c ?k ?x _ = _ =>
            specialize (Hx c k x d1 t) end; by rewrite He in Hx ].
#[local] Hint Resolve grows_write : tx.
Lemma grows_set_expiry context key x d d' : set_expiry context key x d = Ok d' -> grows d d'.
Proof.
  unfold set_expiry. destruct (durable d !! key) as [old|] eqn:Ho; [|by intros [= <-]]. destruct (visible _ _); [|by intros [= <-]].
  intros Hp. eapply grows_put_row; [exact Hp|]. intros old' Ho'. assert (old' = old) as -> by (simpl in *; congruence). by split.
Qed.
Lemma shrinks_unstage context temporary key d d' : unstage context temporary key d = Ok d' -> shrinks d d'.
Proof.
  unfold unstage. destruct (table temporary d !! key) as [old|] eqn:Ho; [|by intros [= <-]]. destruct (visible _ _); [|by intros [= <-]].
  intros [_ ->]%put_row_inv. eapply shrinks_set; [exact Ho|]. split; simpl; lia.
Qed.
Lemma shrinks_purge tenant id temporary staging context : stays shrinks (purge_file tenant id temporary staging context).
Proof.
  unfold purge_file. stays_walk; try plain_done shrinks_tables.
  - apply stays_execute. intros d d'. apply shrinks_unstage.
  - apply stays_execute. intros d d' [= <-]. apply shrinks_delete_row.
Qed.
Lemma shrinks_remove tenant c id temporary context : stays shrinks (remove tenant c id temporary context).
Proof.
  unfold remove, delete_generations, forget_generation. stays_walk; try plain_done shrinks_tables.
  - apply stays_returning. intros d d' [= <-] t k r. tables. destruct (Bool.eqb t temporary) eqn:Et; [|eauto].
    apply Bool.eqb_prop in Et as ->. rewrite map_lookup_filter_Some. intros [Hk _]. eauto.
  - apply stays_execute. intros d d' [= <-]. apply shrinks_delete_row.
Qed.
(** Within one transaction. *)
Definition versioned (d d' : db) : Prop :=
  forall temporary (key : rkey) r r', table temporary d !! key = Some r -> table temporary d' !! key = Some r' -> newer_version r r'.
Lemma grows_versioned d d' : grows d d' -> versioned d d'.
Proof. intros Hg t k r r' Hr Hr'. destruct (Hg _ _ _ Hr) as (r2 & Hr2 & Hn). by simplify_eq. Qed.
Lemma shrinks_versioned d d' : shrinks d d' -> versioned d d'.
Proof. intros Hg t k r r' Hr Hr'. destruct (Hg _ _ _ Hr') as (r2 & Hr2 & Hn). by simplify_eq. Qed.
Lemma operation_versioned d0 tenant A (body : string -> tx A) context d :
  operation to_lowercase d0 tenant A body -> txwp (body context) d (fun _ d' => versioned d d').
Proof.
  assert (forall B (p : tx B), stays grows p -> txwp p d (fun _ d' => versioned d d')) as Hg.
  { intros B p Hp. eapply txwp_mono; [|apply Hp]. intros a d'. apply grows_versioned. }
  assert (forall B (p : tx B), stays shrinks p -> txwp p d (fun _ d' => versioned d d')) as Hs.
  { intros B p Hp. eapply txwp_mono; [|apply Hp]. intros a d'. apply shrinks_versioned. }
  destruct 1; lazymatch goal with
    | |- txwp (remove _ _ _ _ _) _ _ => apply Hs, shrinks_remove
    | |- txwp (purge_file _ _ _ _ _) _ _ => apply Hs, shrinks_purge
    | |- _ => apply Hg
    end; clear Hg Hs; unfold promote_file, refresh_file_retention, expire_file, reserve_file, get_record, list_records, list_scoped, save,
    expire_temporary, reserve, append, events, generation_capability, record_evidence, overdue, expired_objects, expired_rows, check_roles,
    reserved, record_event, advance, close_generation, chat_for, expire_one.
  all: stays_walk; try plain_done grows_tables.
  - apply stays_execute. intros d1 d2. apply grows_set_expiry.
  - apply stays_execute. intros d1 d2. apply grows_update_rows. by split.
  - apply stays_returning. intros d1 d2. apply grows_update_rows. by split.
Qed.
Lemma step_versioned d d' : step to_lowercase d d' -> versioned d d'.
Proof.
  intros [tenant A body e Hop He| |roles parents assignments|m|tenant id retrieval d1 Hi].
  - apply (txwp_transaction tenant body e d (versioned d)); [done| |].
    + intros t k r r' Hr Hr'. by simplify_eq.
    + intros context _. by eapply operation_versioned.
  - intros [] k r r' Hr Hr'; simpl in *; [by rewrite lookup_empty in Hr'|by simplify_eq].
  - apply grows_versioned, grows_tables. by intros [].
  - apply grows_versioned, grows_tables. intros t. by tables.
  - apply index_file_put in Hi as [->|(old & new & Ho & _ & Hv & Hp)]; [by apply grows_versioned|]. apply grows_versioned.
    eapply grows_put_row; [exact Hp|]. intros old' Ho'. assert (old' = old) as -> by (simpl in *; congruence). split; lia.
Qed.
(** Steps in which a record stays stored. *)
Definition storing (temporary : bool) (key : rkey) (d d' : db) : Prop :=
  step to_lowercase d d' /\ is_Some (table temporary d' !! key).
Lemma storing_newer temporary key d d' r r' :
  rtc (storing temporary key) d d' -> table temporary d !! key = Some r -> table temporary d' !! key = Some r' -> newer_version r r'.
Proof.
  intros Hs. revert r. induction Hs as [d|d1 d2 d3 [Hstep [r2 Hr2]] _ IH]; intros r Hr Hr'; [by simplify_eq|].
  trans r2; [by eapply step_versioned|by apply IH].
Qed.

(** C22: a revision names one content: as long as a record stays stored, whatever
    requests, crashes and indexing happen, its revision never decreases, and while it
    is the same its data and its owner are the same. *)
Theorem revision_names_content temporary tenant kind id d d' r r' :
  rtc (storing temporary (tenant, kind, id)) d d' ->
  table temporary d !! (tenant, kind, id) = Some r -> table temporary d' !! (tenant, kind, id) = Some r' ->
  (row_revision r <= row_revision r')%Z /\
  (row_revision r = row_revision r' -> row_data r' = row_data r /\ row_owner r' = row_owner r).
Proof. intros Hs Hr Hr'. by destruct (storing_newer _ _ _ _ _ _ Hs Hr Hr'). Qed.

Lemma save_writes tenant c r temporary v context d :
  txwp (save tenant c r temporary (Some v) context) d (fun _ d' =>
    tenant = context /\ (exists old, table temporary d !! (tenant, as_str_kind c, rc_id r) = Some old /\ row_revision old = v) /\
    exists new, table temporary d' !! (tenant, as_str_kind c, rc_id r) = Some new /\ (v < row_revision new)%Z).
Proof.
  apply txwp_bind. apply (txwp_mono _ _ (fun _ d1 => d1 = d)).
  - intros [] d1 ->. apply txwp_bind, txwp_write. intros updated data revision Htc _ (old & Hold & Hv & ->) _.
    set (d2 := written _ _ _ _ _ _). assert (table temporary d2 !! (tenant, as_str_kind c, rc_id r) = Some (new_row r (v + 1) updated data)) as Hnew.
    { unfold d2. rewrite table_written, Bool.eqb_reflx. apply lookup_insert_eq. }
    apply txwp_bind, (txwp_mono _ _ (fun _ d3 => grows d2 d3)).
    + intros [] d3 Hg. apply txwp_ret. split_and!; [done|by exists old|]. destruct (Hg _ _ _ Hnew) as (r' & Hr' & Hn & _). exists r'.
      split; [done|]. simpl in Hn. lia.
    + case_match; [|by apply txwp_nothing]. apply txwp_execute. intros d3. apply grows_update_rows. by split.
  - case_match; [|by apply txwp_nothing]. apply txwp_bind, txwp_check. intros _. apply txwp_bind, txwp_query. intros _ _. by apply txwp_nothing.
Qed.
(** C13: no update is lost: after a save against a revision, a second save against
    the same revision of the same record never succeeds, however much happens in
    between, as long as the record stays stored. *)
Theorem stale_save_refused tenant c r r2 temporary v e e2 d d1 d2 d3 calls calls2 saved saved2 :
  env_ok e -> env_ok e2 -> rc_id r2 = rc_id r ->
  transaction tenant (save tenant c r temporary (Some v)) e d = (d1, calls, Ok saved) ->
  rtc (storing temporary (tenant, as_str_kind c, rc_id r)) d1 d2 ->
  transaction tenant (save tenant c r2 temporary (Some v)) e2 d2 <> (d3, calls2, Ok saved2).
Proof.
  intros He He2 Hid Hs1 Hsteps Hs2.
  destruct (txwp_transaction_ok tenant _ e d d1 calls saved (fun _ d' => exists new,
    table temporary d' !! (tenant, as_str_kind c, rc_id r) = Some new /\ (v < row_revision new)%Z) He Hs1) as (new & Hnew & Hv).
  { intros context _. eapply txwp_mono; [|apply save_writes]. intros a d' (_ & _ & ?). done. }
  destruct (txwp_transaction_ok tenant _ e2 d2 d3 calls2 saved2 (fun _ _ => exists old,
    table temporary d2 !! (tenant, as_str_kind c, rc_id r2) = Some old /\ row_revision old = v) He2 Hs2) as (old & Hold & Hv2).
  { intros context _. eapply txwp_mono; [|apply save_writes]. intros a d' (_ & ? & _). done. }
  rewrite Hid in Hold. destruct (storing_newer _ _ _ _ _ _ Hsteps Hnew Hold) as [Hle _]. lia.
Qed.
End versions.

(** ** Files *)
Section files.
Context `{Externals} `{Postgres}.
Implicit Types (d : db) (temporary : bool).
(** The object calls that a retention row allows. *)
Definition allowed_call (staging : bool) (pending : Retention) (call : object_call) : Prop :=
  match call with
  | Deleted key => staging = false /\ rt_object pending = Some key
  | DeletedStaging key => rt_staging pending = Some key
  | Finalized _ => False
  end.
Definition purged_kind (staging : bool) : string := if staging then "staging" else "file".
Definition overdue_row (e : env) (d : db) (tenant id : string) (temporary staging : bool) (pending : Retention) : Prop :=
  retention d !! (tenant, purged_kind staging, id, temporary) = Some pending /\ exists n, (rt_expires pending <= ev_clock e n)%Z.
Lemma outcome_final_calls {A} e (p : tx A) s (P : object_call -> Prop) :
  outcome e p s (fun s' _ => st_log s' = st_log s) -> (forall c, c ∈ st_log s -> P c) ->
  outcome e p s (fun s' _ => forall c, c ∈ st_log s' -> P c).
Proof. unfold outcome. destruct (p e s). by intros ->. Qed.
Lemma purge_tail e s context tenant id temporary staging :
  outcome e ((if staging
    then execute (unstage context temporary (tenant, "file"%string, id)) ;;
         execute (fun d => Ok (forget_staging context (tenant, "file"%string, id, temporary) d))
    else execute (fun d => Ok (delete_row context temporary (tenant, "file"%string, id) d))) ;;
    execute (fun d => Ok (delete_retention context (fun k => bool_decide (k = (tenant, purged_kind staging, id, temporary))) d)) ;;
    mret true) s (fun s' _ => st_log s' = st_log s).
Proof.
  apply outcome_bind. assert (forall s1, st_log s1 = st_log s -> outcome e (execute (fun d => Ok (delete_retention context
      (fun k => bool_decide (k = (tenant, purged_kind staging, id, temporary))) d)) ;; mret true : tx bool) s1
      (fun s' _ => st_log s' = st_log s)) as Htail.
  { intros s1 H1'. apply outcome_bind, outcome_execute. intros s2 [[]|] H2'; unfold outcome; simpl; congruence. }
  destruct staging.
  - apply outcome_bind, outcome_execute. intros s1 [[]|] H1'; [|done]. apply outcome_execute. intros s2 [[]|] H2'; [|congruence].
    apply Htail. congruence.
  - apply outcome_execute. intros s1 [[]|] H1'; [|done]. by apply Htail.
Qed.
Lemma purge_calls tenant id temporary staging e s :
  outcome e (purge_file tenant id temporary staging tenant) s (fun s' _ =>
    forall call, call ∈ st_log s' -> call ∈ st_log s \/
      exists pending, overdue_row e (st_db s) tenant id temporary staging pending /\ allowed_call staging pending call).
Proof.
  apply outcome_bind, outcome_query; [intros s' er _ ->; by left|]. intros s1 _ _ Hd1 Hl1. cbn zeta.
  apply outcome_bind, outcome_query; [intros s' er _ ->; rewrite Hl1; by left|]. intros s2 pending. rewrite String.eqb_refl. intros [= Hp] Hd2 Hl2.
  rewrite Hd1 in Hp. destruct pending as [pending|]; [|unfold outcome; simpl; rewrite Hl2, Hl1; by left].
  apply outcome_bind, outcome_now. destruct (ev_clock e (st_tick s2) <? rt_expires pending)%Z eqn:Hlate.
  { unfold outcome. simpl. rewrite Hl2, Hl1. by left. }
  assert (overdue_row e (st_db s) tenant id temporary staging pending) as Hov.
  { split; [by destruct staging|]. exists (st_tick s2). by apply Z.ltb_ge. }
  set (P := fun call => call ∈ st_log s \/ exists pending, overdue_row e (st_db s) tenant id temporary staging pending /\ allowed_call staging pending call).
  assert (forall call, call ∈ st_log (tick s2) -> P call) as HP0 by (simpl; rewrite Hl2, Hl1; by left).
  assert (forall call, allowed_call staging pending call -> P call) as Hal by (intros call Hc; right; by exists pending).
  apply outcome_bind. apply (outcome_mono e _ _ (fun s3 _ => forall call, call ∈ st_log s3 -> P call)).
  - intros s3 [[]|er] H3; [|done]. apply outcome_bind, (outcome_mono e _ _ (fun s4 _ => forall call, call ∈ st_log s4 -> P call)).
    + intros s4 [[]|er] H4; [|done]. apply outcome_final_calls; [|done]. apply purge_tail.
    + destruct (rt_staging pending) as [source|] eqn:Hst; [|done]. unfold outcome, delete_staging. simpl.
      intros call [Hc| ->%list_elem_of_singleton]%elem_of_app; [by apply H3|]. by apply Hal.
  - destruct (rt_object pending) as [key|] eqn:Hob; [|done]. destruct staging; [done|]. unfold outcome, delete_object. simpl.
    intros call [Hc| ->%list_elem_of_singleton]%elem_of_app; [by apply HP0|]. by apply Hal.
Qed.
Lemma transaction_outcome {A} tenant (body : string -> tx A) e d (P : list object_call -> Prop) :
  P [] -> (forall context s, validate_tenant_id tenant = Ok context -> st_db s = d -> st_log s = [] ->
    outcome e (body context) s (fun s' _ => P (st_log s'))) -> P (transaction tenant body e d).1.2.
Proof.
  intros Hnil Hb. unfold transaction. destruct (validate_tenant_id tenant) as [context|]; [|done].
  assert (outcome e (query (fun _ => Ok tt) ;; body context) {| st_db := d; st_tick := 0; st_log := [] |} (fun s' _ => P (st_log s'))) as Ho.
  { apply outcome_bind, outcome_query; [by intros s' er _ ->|]. intros s' [] _ Hd Hl. by apply Hb. }
  unfold outcome in Ho. destruct (@mbind tx _ _ _ _ _ e _) as [s [a|er]]; [|done]. by destruct (ev_commit e) as [| |[]].
Qed.

Lemma purge_overdue d tenant id temporary staging e call :
  validate_tenant_id tenant = Ok tenant ->
  call ∈ (transaction tenant (purge_file tenant id temporary staging) e d).1.2 ->
  exists pending, overdue_row e d tenant id temporary staging pending /\ allowed_call staging pending call.
Proof.
  intros Ht. apply (transaction_outcome tenant (purge_file tenant id temporary staging) e d (fun calls => call ∈ calls -> _)); [by intros ?%elem_of_nil|].
  intros context s Hc Hd Hl. rewrite Ht in Hc. injection Hc as <-. eapply outcome_mono; [|apply purge_calls].
  intros s' r Hcalls Hin. destruct (Hcalls call Hin) as [Hin'|Hp]; [|by rewrite Hd in Hp]. rewrite Hl in Hin'. by apply elem_of_nil in Hin'.
Qed.

(** C21: an object is deleted only past its deadline: whatever happens to the
    transaction, a purge deletes the object, or the staged upload, that the retention
    row of this file or staging area names, and only when the clock reached the
    deadline in that row; a staging sweep never deletes a finished object. *)
Theorem purge_deletes_overdue_only d tenant id temporary staging e call :
  validate_tenant_id tenant = Ok tenant ->
  call ∈ (transaction tenant (purge_file tenant id temporary staging) e d).1.2 ->
  exists pending, overdue_row e d tenant id temporary staging pending /\ allowed_call staging pending call.
Proof. apply purge_overdue. Qed.

Lemma refresh_retains tenant r context d :
  txwp (refresh_file_retention tenant r false context) d (fun saved d' =>
    option_is_none (get (rc_data saved) "artifactTtlMs") = true ->
    rc_id saved = rc_id r /\ exists ret x, retention d' !! (tenant, "file"%string, rc_id r, false) = Some ret /\
      rc_expires_at saved = Some x /\ rt_expires ret = x).
Proof.
  apply txwp_bind, txwp_read. intros t. apply txwp_bind, txwp_require. intros current (row & _ & ->)%read_row.
  apply txwp_bind, txwp_check. intros _. apply txwp_bind, txwp_now. intros at_. apply txwp_bind, txwp_check. intros _.
  cbn [negb andb]. case_match eqn:Hart.
  - apply txwp_bind, txwp_require. intros expiry _. apply txwp_bind, txwp_execute. intros d1 _.
    apply txwp_bind, txwp_statement. intros n d2 [= Hset]. apply txwp_bind, txwp_check. intros ->%Z.eqb_eq. apply txwp_ret. intros _.
    unfold set_retention_expiry in Hset. destruct (retention d1 !! _) as [old|]; [|done]. destruct (String.eqb _ _) eqn:Htc; [|done].
    apply String.eqb_eq in Htc. simplify_eq/=. split_and!; [done..|]. eexists _, _. split_and!; [apply lookup_insert_eq|done|done].
  - apply txwp_ret. rewrite Hart. done.
Qed.
(** Reading a file keeps it: after an authorized read of a library file that is
    not a generated artifact renewed its retention, a cleanup deletes no object of
    the file before the deadline that the read returned. *)
Theorem read_protects_file d tenant r e d1 calls saved e' call :
  validate_tenant_id tenant = Ok tenant -> env_ok e ->
  transaction tenant (refresh_file_retention tenant r false) e d = (d1, calls, Ok saved) ->
  option_is_none (get (rc_data saved) "artifactTtlMs") = true ->
  (forall n x, rc_expires_at saved = Some x -> ev_clock e' n < x)%Z ->
  call ∉ (transaction tenant (purge_file tenant (rc_id saved) false false) e' d1).1.2.
Proof.
  intros Ht He Hrun Hart Hclock Hin.
  destruct (txwp_transaction_ok tenant _ e d d1 calls saved (fun saved d' =>
    option_is_none (get (rc_data saved) "artifactTtlMs") = true -> rc_id saved = rc_id r /\
    exists ret x, retention d' !! (tenant, "file"%string, rc_id r, false) = Some ret /\ rc_expires_at saved = Some x /\ rt_expires ret = x) He Hrun)
    as (Hid & ret & x & Hret & Hx & Heq); [intros context _; apply refresh_retains|done|].
  destruct (purge_overdue d1 tenant (rc_id saved) false false e' call Ht Hin) as (pending & [Hp [n Hn]] & _).
  rewrite Hid in Hp. simpl in Hp. simplify_eq. specialize (Hclock n _ Hx). lia.
Qed.
End files.

(** ** Roles *)
Section roles.
Implicit Types (d : db) (tenant : string).
Definition parent_of (tenant : string) (d : db) (role parent : string) : Prop := (tenant, role, parent) ∈ iam_role_parents d.
Lemma elem_of_parents tenant edges roles x :
  x ∈ parents_of tenant edges roles <-> exists y, y ∈ roles /\ (tenant, y, x) ∈ edges.
Proof.
  unfold parents_of. rewrite elem_of_list_to_set, list_elem_of_fmap. split.
  - intros ([[t y] z] & -> & Hin). rewrite list_elem_of_In, filter_In, <-list_elem_of_In, elem_of_elements in Hin. simpl in *.
    destruct Hin as [Hin Hb]. bool_inv. match goal with H : String.eqb t tenant = true |- _ => apply String.eqb_eq in H as -> end. eauto.
  - intros (y & Hy & He). exists (tenant, y, x). split; [done|]. rewrite list_elem_of_In, filter_In, <-list_elem_of_In, elem_of_elements.
    simpl. by rewrite String.eqb_refl, bool_decide_eq_true_2.
Qed.
Definition closed (tenant : string) (edges : gset (string * string * string)) (roles : gset string) : Prop :=
  parents_of tenant edges roles ⊆ roles.
Lemma close_roles_extends n tenant edges roles : roles ⊆ close_roles n tenant edges roles.
Proof. revert roles. induction n as [|n IH]; intros roles; simpl; [done|]. etrans; [|apply IH]. set_solver. Qed.
Lemma close_roles_closed n tenant edges roles :
  (size (set_map (C := gset (string * string * string)) (D := gset string) snd edges ∖ roles) <= n)%nat ->
  closed tenant edges (close_roles n tenant edges roles).
Proof.
  assert (forall roles, parents_of tenant edges roles ⊆ set_map (C := gset (string * string * string)) (D := gset string) snd edges) as Htargets.
  { intros roles' x (y & _ & He)%elem_of_parents. apply elem_of_map. exists (tenant, y, x). done. }
  revert roles. induction n as [|n IH]; intros roles Hn; simpl.
  - assert (size (set_map (D := gset string) snd edges ∖ roles) = 0) as Hz by lia. apply size_empty_inv in Hz.
    intros x Hx. specialize (Htargets roles x Hx). apply dec_stable. intros Hnot. set_solver.
  - destruct (decide (parents_of tenant edges roles ⊆ roles)) as [Hc|Hc].
    + replace (roles ∪ parents_of tenant edges roles) with roles by set_solver.
      assert (forall m, close_roles m tenant edges roles = roles) as ->; [|done].
      induction m as [|m IHm]; simpl; [done|]. replace (roles ∪ parents_of tenant edges roles) with roles by set_solver. done.
    + apply IH. assert (exists x, x ∈ parents_of tenant edges roles /\ x ∉ roles) as (x & Hx & Hnx).
      { destruct (set_choose_or_empty (parents_of tenant edges roles ∖ roles)) as [[x Hx]|He]; [exists x; set_solver|].
        destruct Hc. intros x Hx. apply dec_stable. intros Hn'. set_solver. }
      assert (set_map (C := gset (string * string * string)) (D := gset string) snd edges ∖ (roles ∪ parents_of tenant edges roles) ⊂ set_map (D := gset string) snd edges ∖ roles) as Hsub.
      { specialize (Htargets roles x Hx). set_solver. }
      apply subset_size in Hsub. lia.
Qed.
Lemma close_roles_sound n tenant d roles x :
  x ∈ close_roles n tenant (iam_role_parents d) roles -> exists y, y ∈ roles /\ rtc (parent_of tenant d) y x.
Proof.
  revert roles. induction n as [|n IH]; intros roles; simpl; [intros Hx; by exists x|]. intros (y & [Hy|Hy]%elem_of_union & Hr)%IH; [by exists y|].
  apply elem_of_parents in Hy as (z & Hz & He). exists z. split; [done|]. by eapply rtc_l.
Qed.
Lemma size_targets (edges : gset (string * string * string)) : (size (set_map (D := gset string) snd edges) <= size edges)%nat.
Proof.
  unfold set_map. assert (forall l : list string, size (list_to_set l : gset string) <= length l)%nat as Hl.
  { induction l as [|a l IH]; simpl; [vm_compute; lia|]. rewrite size_union_alt, size_singleton.
    assert (size ((list_to_set l : gset string) ∖ {[a]}) <= size (list_to_set l : gset string))%nat by (apply subseteq_size; set_solver). lia. }
  etrans; [apply Hl|]. by rewrite length_fmap.
Qed.
Lemma recipients_spec tenant d roles x :
  x ∈ recipients tenant d roles <-> exists y, y ∈ roles /\ rtc (parent_of tenant d) y x.
Proof.
  split; [apply close_roles_sound|]. intros (y & Hy & Hr). unfold recipients.
  assert (closed tenant (iam_role_parents d) (close_roles (size (iam_role_parents d)) tenant (iam_role_parents d) roles)) as Hc.
  { apply close_roles_closed. etrans; [|apply size_targets]. apply subseteq_size. set_solver. }
  assert (y ∈ close_roles (size (iam_role_parents d)) tenant (iam_role_parents d) roles) as Hy' by by apply close_roles_extends.
  clear Hy. induction Hr as [y|y z x He _ IH]; [done|]. apply IH, Hc, elem_of_parents. by exists y.
Qed.
(** Roles strictly above those of a user. *)
Definition superior_of (tenant user : string) (d : db) (x : string) : Prop :=
  exists own y, (tenant, user, own) ∈ iam_user_roles d /\ parent_of tenant d own y /\ rtc (parent_of tenant d) y x.
Definition granted (tenant : string) (d : db) (roles : list string) (x : string) : Prop :=
  exists y, y ∈ roles /\ rtc (parent_of tenant d) y x.
Lemma superiors_spec tenant user d x : x ∈ superiors tenant user d <-> superior_of tenant user d x.
Proof.
  unfold superiors. rewrite recipients_spec. unfold superior_of. setoid_rewrite elem_of_parents.
  setoid_rewrite elem_of_list_to_set. setoid_rewrite list_elem_of_fmap. split.
  - intros (y & (own & ([[t u] o] & -> & Hin) & He) & Hr). rewrite list_elem_of_In, filter_In, <-list_elem_of_In, elem_of_elements in Hin.
    simpl in *. destruct Hin as [Hin Hb]. bool_inv. repeat match goal with H : String.eqb _ _ = true |- _ => apply String.eqb_eq in H end. subst.
    by exists o, y.
  - intros (own & y & Ha & He & Hr). exists y. split; [|done]. exists own. split; [|done]. exists (tenant, user, own). split; [done|].
    rewrite list_elem_of_In, filter_In, <-list_elem_of_In, elem_of_elements. simpl. by rewrite !String.eqb_refl.
Qed.

(** C23: the recursive queries decide inheritance: an edit of a project's roles is
    refused as taking access from a superior exactly when some role above a role of
    the owner inherits access from the old roles and not from the new ones, however
    long the chains of parent roles and whatever cycles they have. *)
Theorem revokes_superior_decides tenant user old_roles new_roles d :
  revokes_superior tenant tenant user old_roles new_roles d = true <->
  ~ forall x, superior_of tenant user d x -> granted tenant d old_roles x -> granted tenant d new_roles x.
Proof.
  unfold revokes_superior. rewrite String.eqb_refl. cbn [andb]. rewrite negb_true_iff, bool_decide_eq_false.
  assert (superiors tenant user d ∩ recipients tenant d (list_to_set old_roles) ⊆ recipients tenant d (list_to_set new_roles) <->
    forall x, superior_of tenant user d x -> granted tenant d old_roles x -> granted tenant d new_roles x) as ->; [|done].
  unfold granted. split.
  - intros Hs x Hx (y & Hy & Hr). assert (x ∈ recipients tenant d (list_to_set new_roles)) as (z & Hz & Hr')%recipients_spec.
    { apply Hs, elem_of_intersection. split; [by apply superiors_spec|]. apply recipients_spec. exists y. by rewrite elem_of_list_to_set. }
    exists z. by rewrite <-(elem_of_list_to_set (C := gset string)).
  - intros Hs x [Hx (y & Hy & Hr)%recipients_spec]%elem_of_intersection. apply recipients_spec.
    destruct (Hs x) as (z & Hz & Hr'); [by apply superiors_spec|exists y; by rewrite <-(elem_of_list_to_set (C := gset string))|].
    exists z. by rewrite elem_of_list_to_set.
Qed.
End roles.

(** ** Leases *)
Section leases.
Context `{Externals} `{Uuids} `{ActivityExternals} `{Postgres}.
(** A generation that still reports is not failed: when the lease in its record
    ends after every clock reading, the command of the sweeper leaves the database
    as it is, even if the generation was overdue when the sweeper listed it. *)
Theorem lease_expiry_rechecked d tenant id temporary r deadline e :
  validate_tenant_id tenant = Ok tenant -> table temporary d !! gen_key tenant id = Some r ->
  get (row_data r) "leaseExpires" ≫= as_i64 = Some deadline -> (forall n, ev_clock e n < deadline)%Z ->
  (transaction tenant (append tenant id temporary LEASE_EXPIRED) e d).1.1 = d.
Proof.
  unfold gen_key. intros Ht Hr Hl Hc. unfold transaction. rewrite Ht.
  assert (outcome e (query (fun _ => Ok tt) ;; append tenant id temporary LEASE_EXPIRED tenant) {| st_db := d; st_tick := 0; st_log := [] |}
    (fun s' r => match r with Ok _ => st_db s' = d | Err _ => True end)) as Ho.
  { apply outcome_bind, outcome_query; [done|]. intros s1 [] _ Hd1 _. apply outcome_bind, outcome_bind, outcome_now.
    apply outcome_query; [done|]. intros s2 found [= <-] Hd2 _. simpl in Hd2. apply outcome_bind. simpl. rewrite Hd1. simpl in *. rewrite Hr.
    unfold option_filter. destruct (expires_after _ r); [|done]. unfold outcome at 1, tx_require. simpl.
    apply outcome_bind. destruct (get (row_data r) "sequence" ≫= as_i64) as [sequence|]; [|done]. unfold outcome at 1. simpl.
    apply outcome_bind, outcome_now. rewrite Hl. simpl. rewrite (proj2 (Z.ltb_lt _ _) (Hc _)). unfold outcome. simpl. congruence. }
  unfold outcome in Ho. destruct (@mbind tx _ _ _ _ _ e _) as [s [a|er]]; [|done]. by destruct (ev_commit e) as [| |[]].
Qed.
End leases.
