(* ===== verification/RecordStoreDemo.v ===== *)
(** * RecordStoreDemo: the record store on a small database

    A chat whose generation is answered and completed, an upload that is promoted,
    read and finally purged, and a role hierarchy: the theorems of RecordStoreFacts
    and RecordStoreVersions at the databases these requests lead to. *)

From S2P Require Import Prelude Text RustStr Json Serde Authoring Proc Authorization Pengolo.
From S2P Require Import Activity Workspace Database RecordStore TxLogic RecordStoreInv RecordStoreLog RecordStoreFacts RecordStoreVersions.

Definition store_externals : Externals := {| json_to_vec := fun _ => Ok "{}"%string; sha256_hex := fun s => s |}.
Definition store_uuids : Uuids := {| uuid_parse := Some |}.
Definition store_activity : ActivityExternals := {| activity_from_str := fun _ => serde_error; url_parse := fun _ => None |}.
Definition store_postgres : Postgres :=
  {| jsonb := Ok; jsonb_text := fun _ => "{}"%string; bigint_of_text := fun _ => None;
     text_lt := fun a b => match String.compare a b with Lt => true | _ => false end; filename_matches := fun _ _ => true |}.
#[local] Existing Instances store_externals store_uuids store_activity store_postgres.
Lemma store_postgres_laws : PostgresLaws.
Proof.
  split; simpl.
  - intros m w [= <-]. exists m. split; [done|]. intros k. destruct (jget k m); by constructor.
  - intros l w [= <-]. exists l. split; [done|]. induction l; by constructor.
  - by intros s w [= <-].
  - by intros w [= <-].
  - by intros b w [= <-].
  - by intros z w [= <-].
Qed.
#[local] Existing Instance store_postgres_laws.
Definition lower_id (s : string) : string := s.
Definition env_at (t : Z) : env :=
  {| ev_clock := fun _ => t; ev_uuid := fun _ => "0123456789abcdef0123456789abcdef"%string; ev_fault := fun _ => false;
     ev_commit := Committed; ev_scan := fun l => l; ev_finalize := fun _ => Ok t; ev_delete := fun _ => Ok tt;
     ev_delete_staging := fun _ => Ok tt |}.
Lemma env_at_ok t : env_ok (env_at t).
Proof. intros l. reflexivity. Qed.
Lemma run_parts {A B C} (p : A * B * C) calls r : p.1.2 = calls -> p.2 = r -> p = (p.1.1, calls, r).
Proof. by destruct p as [[? ?] ?]; intros <- <-. Qed.
Lemma tenant_acme : validate_tenant_id "acme" = Ok "acme"%string.
Proof. vm_compute. reflexivity. Qed.

(** ** A generation *)
Definition gen_id : string := "11111111111111111111111111111111".
Definition gen_token : string := "00000000000000000000000000000000aaaaaaaaaaaaaaaaaaaaaaaaaaaaaaaa".
Definition gen_input : SendInput :=
  {| si_idempotency_key := gen_id; si_chat_id := None; si_project_id := None; si_prompt := "hello"; si_model_alias := "m";
     si_agent_ids := []; si_file_ids := []; si_graph_context := None; si_web_query := None; si_web_search := false;
     si_temporary := false; si_with_library := false |}.
Definition gen_content : OutputEvent := {| oe_sequence := 1; oe_kind := "content"; oe_content := "hi" |}.
Definition gen_completed : OutputEvent := {| oe_sequence := 2; oe_kind := "completed"; oe_content := EmptyString |}.
Definition gen_reserved : db := (transaction "acme" (reserve "acme" "ann" gen_input gen_token) (env_at 1000) empty_db).1.1.
Definition gen_answering := transaction "acme" (append "acme" gen_id false gen_content) (env_at 1000) gen_reserved.
Definition gen_answered : db := gen_answering.1.1.
Definition gen_closing := transaction "acme" (append "acme" gen_id false gen_completed) (env_at 1000) gen_answered.
Definition gen_closed : db := gen_closing.1.1.
Definition gen_reading := transaction "acme" (events "acme" gen_id false 1) (env_at 1000) gen_closed.
Lemma answering_ok : gen_answering = (gen_answered, [], Ok tt).
Proof. apply (run_parts gen_answering); vm_compute; reflexivity. Qed.
Lemma closing_ok : gen_closing = (gen_closed, [], Ok tt).
Proof. apply (run_parts gen_closing); vm_compute; reflexivity. Qed.
Lemma reading_ok : gen_reading = (gen_reading.1.1, [], Ok [gen_completed]).
Proof. apply (run_parts gen_reading); vm_compute; reflexivity. Qed.
Definition no_row : row :=
  {| row_owner := EmptyString; row_project := None; row_expires := None; row_revision := 0; row_updated := 0; row_data := JNull |}.
Definition the_row (d : db) (kind id : string) : row := default no_row (durable d !! ("acme", kind, id)%string).
Lemma reserved_reachable : reachable lower_id gen_reserved.
Proof. apply rtc_once. apply (step_transaction _ _ "acme"); [apply op_reserve|apply env_at_ok]. Qed.
Lemma answered_reachable : reachable lower_id gen_answered.
Proof.
  eapply rtc_r; [apply reserved_reachable|]. apply (step_transaction _ _ "acme"); [apply op_append|apply env_at_ok].
Qed.
Lemma closed_reachable : reachable lower_id gen_closed.
Proof.
  eapply rtc_r; [apply answered_reachable|]. apply (step_transaction _ _ "acme"); [apply op_append|apply env_at_ok].
Qed.

Lemma output_is_a_log_witness :
  durable_output gen_closed !! ("acme", gen_id, 2%Z)%string = Some ("completed"%string, EmptyString) /\
  exists log, stores_log gen_closed false "acme" gen_id log /\ agrees (row_data (the_row gen_closed "generation" gen_id)) log.
Proof.
  split; [vm_compute; reflexivity|].
  apply (output_is_a_log lower_id); [apply closed_reachable|vm_compute; reflexivity].
Defined.
Lemma tenants_isolated_witness :
  isolated (trim "globex") gen_closed (transaction "globex" (remove "globex" CGeneration gen_id false) (env_at 1000) gen_closed).1.1.
Proof. apply (tenants_isolated lower_id); [apply op_remove|apply env_at_ok]. Defined.
Lemma events_follow_the_log_witness :
  exists log, stores_log gen_closed false "acme" gen_id log /\ agrees (row_data (the_row gen_closed "generation" gen_id)) log /\
    [gen_completed] = take 64 (drop (Z.to_nat 1) (numbered_log log)).
Proof.
  apply (events_follow_the_log lower_id gen_closed false "acme" gen_id (the_row gen_closed "generation" gen_id) 1 (env_at 1000) gen_reading.1.1 []);
    [apply closed_reachable|vm_compute; reflexivity|apply env_at_ok|vm_compute; reflexivity|apply reading_ok].
Defined.
Lemma terminal_event_closes_witness :
  exists r log, table false gen_closed !! gen_key "acme" gen_id = Some r /\
    stores_log gen_closed false "acme" gen_id (log ++ [("completed"%string, EmptyString)]) /\
    get_str (row_data r) "status" = Some "completed"%string.
Proof.
  apply (terminal_event_closes lower_id gen_answered "acme" gen_id false gen_completed (env_at 1000) gen_closed []);
    [apply answered_reachable|vm_compute; reflexivity|apply env_at_ok|apply closing_ok| |vm_compute; reflexivity].
  intros E. apply (f_equal (fun d => durable_output d !! ("acme", gen_id, 2%Z)%string)) in E. vm_compute in E. discriminate E.
Defined.
Lemma lease_expiry_rechecked_witness :
  get (row_data (the_row gen_answered "generation" gen_id)) "leaseExpires" ≫= as_i64 = Some 46000%Z /\
  (transaction "acme" (append "acme" gen_id false LEASE_EXPIRED) (env_at 45999) gen_answered).1.1 = gen_answered.
Proof.
  split; [vm_compute; reflexivity|].
  apply (lease_expiry_rechecked gen_answered "acme" gen_id false (the_row gen_answered "generation" gen_id) 46000);
    [vm_compute; reflexivity..|]. intros n. simpl. lia.
Defined.

(** ** A file *)
Definition file_id : string := "22222222222222222222222222222222".
Definition file_record : PengoloRecord :=
  {| rc_id := file_id; rc_owner_id := "ann"; rc_project_id := None; rc_expires_at := Some 5000%Z; rc_revision := 1;
     rc_updated_at := 0;
     rc_data := JObject [("name", JString "a.pdf"); ("key", JString "acme/ann/a.pdf"); ("stagingKey", JString "acme/ann/a");
                         ("status", JString "uploading"); ("checksum", JString "c"); ("stagingExpiresAt", json_i64 9000)] |}.
Definition file_upload : StagedFile :=
  {| sf_generated := false; sf_tenant := "acme"; sf_owner := "ann"; sf_source := "acme/ann/a"; sf_destination := "acme/ann/a.pdf";
     sf_mime := "application/pdf"; sf_size := 8; sf_name := "a.pdf"; sf_checksum := "c" |}.
Definition file_reserved : db := (transaction "acme" (reserve_file lower_id "acme" file_record false) (env_at 1000) empty_db).1.1.
Definition file_ready : db := (transaction "acme" (promote_file "acme" file_record false file_upload) (env_at 2000) file_reserved).1.1.
Definition file_read : db * list object_call * result PengoloRecord :=
  transaction "acme" (refresh_file_retention "acme" file_record false) (env_at 3000) file_ready.
Lemma file_reserved_reachable : reachable lower_id file_reserved.
Proof. apply rtc_once, (step_transaction _ _ "acme"); [apply op_reserve_file|apply env_at_ok]. Qed.
Lemma file_ready_reachable : reachable lower_id file_ready.
Proof. eapply rtc_r; [apply file_reserved_reachable|]. apply (step_transaction _ _ "acme"); [apply op_promote|apply env_at_ok]. Qed.
Lemma expiring_records_retained_witness : is_Some (retention file_ready !! ("acme", "file", file_id, false)%string).
Proof.
  apply (expiring_records_retained lower_id file_ready false "acme" "file" file_id (the_row file_ready "file" file_id));
    [apply file_ready_reachable|vm_compute; reflexivity|]. vm_compute. by eexists.
Defined.
Lemma purge_deletes_overdue_only_witness :
  exists pending, overdue_row (env_at 3000000000) file_ready "acme" file_id false false pending /\
    allowed_call false pending (Deleted "acme/ann/a.pdf").
Proof.
  apply purge_deletes_overdue_only; [vm_compute; reflexivity|].
  assert ((transaction "acme" (purge_file "acme" file_id false false) (env_at 3000000000) file_ready).1.2 =
    [Deleted "acme/ann/a.pdf"; DeletedStaging "acme/ann/a"]) as -> by (vm_compute; reflexivity).
  apply list_elem_of_here.
Defined.
Definition file_seen : PengoloRecord := match file_read.2 with Ok r => r | Err _ => file_record end.
Lemma read_ok : file_read = (file_read.1.1, [], Ok file_seen).
Proof. apply (run_parts file_read); vm_compute; reflexivity. Qed.
Lemma read_protects_file_witness :
  rc_expires_at file_seen = Some (3000 + NORMAL_TTL_MS)%Z /\
  Deleted "acme/ann/a.pdf" ∉ (transaction "acme" (purge_file "acme" file_id false false) (env_at 2592002500) file_read.1.1).1.2.
Proof.
  assert (rc_expires_at file_seen = Some (3000 + NORMAL_TTL_MS)%Z) as Hx by (vm_compute; reflexivity).
  split; [exact Hx|].
  apply (read_protects_file file_ready "acme" file_record (env_at 3000) file_read.1.1 [] file_seen (env_at 2592002500));
    [vm_compute; reflexivity|apply env_at_ok|apply read_ok|vm_compute; reflexivity|].
  intros n x. rewrite Hx. intros [= <-]. vm_compute. reflexivity.
Defined.

(** ** Revisions *)
Definition chat_id : string := "33333333333333333333333333333333".
Definition chat_titled (title : string) : PengoloRecord :=
  {| rc_id := chat_id; rc_owner_id := "ann"; rc_project_id := None; rc_expires_at := None; rc_revision := 1; rc_updated_at := 0;
     rc_data := JObject [("title", JString title)] |}.
Definition chat_created : db := (transaction "acme" (save "acme" CChat (chat_titled "a") false None) (env_at 1000) empty_db).1.1.
Definition chat_renamed : db * list object_call * result PengoloRecord :=
  transaction "acme" (save "acme" CChat (chat_titled "b") false (Some 1%Z)) (env_at 2000) chat_created.
Lemma chat_storing : storing lower_id false ("acme", "chat", chat_id)%string chat_created chat_renamed.1.1.
Proof.
  split; [|vm_compute; by eexists]. apply (step_transaction _ _ "acme"); [by apply op_save|apply env_at_ok].
Qed.
Lemma revision_names_content_witness :
  row_revision (the_row chat_renamed.1.1 "chat" chat_id) = 2%Z /\
  (row_revision (the_row chat_created "chat" chat_id) <= row_revision (the_row chat_renamed.1.1 "chat" chat_id))%Z.
Proof.
  split; [vm_compute; reflexivity|].
  apply (revision_names_content lower_id false "acme" "chat" chat_id chat_created chat_renamed.1.1);
    [apply rtc_once, chat_storing|vm_compute; reflexivity..].
Defined.
Definition chat_saved : PengoloRecord := match chat_renamed.2 with Ok r => r | Err _ => chat_titled "a" end.
Lemma renamed_ok : chat_renamed = (chat_renamed.1.1, [], Ok chat_saved).
Proof. apply (run_parts chat_renamed); vm_compute; reflexivity. Qed.
Lemma stale_save_refused_witness :
  chat_renamed.2 = Ok chat_saved /\
  transaction "acme" (save "acme" CChat (chat_titled "c") false (Some 1%Z)) (env_at 3000) chat_renamed.1.1 <>
    (chat_renamed.1.1, [], Ok chat_saved).
Proof.
  split; [vm_compute; reflexivity|].
  apply (stale_save_refused lower_id "acme" CChat (chat_titled "b") (chat_titled "c") false 1 (env_at 2000) (env_at 3000)
    chat_created chat_renamed.1.1 chat_renamed.1.1 chat_renamed.1.1 [] [] chat_saved);
    [apply env_at_ok|apply env_at_ok|reflexivity|apply renamed_ok|reflexivity].
Defined.

(** ** Roles: ann's role inherits to the leads, the leads to the board. *)
Definition roles_db : db :=
  set_iam ∅ {[("acme", "member", "lead"); ("acme", "lead", "board"); ("acme", "board", "lead")]}
    {[("acme", "ann", "member")]} empty_db.
Example board_keeps_access : revokes_superior "acme" "acme" "ann" ["member"] ["lead"] roles_db = false.
Proof. vm_compute. reflexivity. Qed.
Example board_loses_access : revokes_superior "acme" "acme" "ann" ["member"] ["guest"] roles_db = true.
Proof. vm_compute. reflexivity. Qed.
