(* ===== verification/Delegation.v ===== *)
(** * Delegation: the authority of the document compiler (usecases/pengolo/compiler.rs)

    The compiler works for a generation of the workspace: it holds the generation's
    capability and asks the gateway what it may do.  [authorize_compiler] resolves
    the capability, checks again that the user may see the generation, and decides
    on the template; [save_compiled_artifact] publishes a finished document in the
    library of the conversation.  Programs over the ports of Workspace.v. *)

From S2P Require Import Prelude Text RustStr Json Serde Authoring Template CompilerTools Proc Compiler.
From S2P Require Import Authorization Pengolo Agents Activity Workspace.
From Stdlib Require Import Ascii.

(** SHA-256 and base64 on bytes. *)
Class Digests := {
  sha256 : string -> string;
  base64_encode : string -> string;
}.

(** Personal and project content stays in its library. *)
Definition validate_scope (grant : Grant) (policy : TemplatePolicy) : result unit :=
  match tp_scope policy with
  | Personal => ensure (String.eqb (tp_owner policy) (gr_actor grant) && option_is_none (gr_project grant))
      "Personal template unavailable in this library"
  | Project => ensure (option_is_some (tp_project policy) && opt_eqb (tp_project policy) (gr_project grant))
      "Project template is outside the generation library"
  | Tenant | Plugin => Ok tt
  end.
(** The permission on a template that an action needs. *)
Definition action_permission (action : Action) : option Permission :=
  match action with
  | Compiler.View => Some View
  | Use => Some UseIt
  | Compiler.Edit => Some Edit
  | Compiler.Publish => Some Publish
  | Delete => Some DeleteIt
  | Resolve | Create | PublishPdf => None
  end.
Definition template_tuple (policy : TemplatePolicy) (relation subject_type subject_id : string) : AccessTuple :=
  {| at_resource_type := "document_template"; at_resource_id := tp_id policy; at_relation := relation;
     at_subject_type := subject_type; at_subject_id := subject_id; at_subject_relation := EmptyString |}.
(** The relationships of a new template. *)
Definition creation_tuples (grant : Grant) (policy : TemplatePolicy) : list AccessTuple :=
  [template_tuple policy "parent" "tenant" (gr_tenant grant)] ++
  (if bool_decide (tp_scope policy = Plugin) then [] else [template_tuple policy "owner" "user" (gr_actor grant)]) ++
  (if tp_project policy is Some p then [template_tuple policy "library" "project" p] else []) ++
  (if bool_decide (tp_scope policy = Tenant) then [template_tuple policy "tenant_access" "tenant" (gr_tenant grant)]
   else []) ++
  (if tp_plugin policy is Some plugin then [template_tuple policy "plugin_source" "document_plugin" plugin] else []).

Section delegation.
Context `{Externals} `{WorkspaceExternals} `{Digests}.
Implicit Type a : Principal.

(** ** Authorization *)
Definition admit_scope a (policy : TemplatePolicy) : prog unit :=
  match tp_scope policy with
  | Personal => check (option_is_none (tp_project policy) && option_is_none (tp_plugin policy)) "Invalid personal template"
  | Project =>
      id ← require "Project required" (tp_project policy);
      p ← project a id;
      check (String.eqb (rc_owner_id p) (pn_user a)) "Project template editing requires ownership"
  | Tenant =>
      b ← allowed a Manage "tenant" (pn_tenant a);
      check b "Tenant template administration denied"
  | Plugin =>
      plugin ← require "Plugin required" (tp_plugin policy);
      b ← allowed a UseIt "document_plugin" plugin;
      check b "Plugin is not enabled for this tenant" ;;
      catalog ← await DocumentTemplates;
      check (existsb (fun entry => String.eqb (pt_plugin_id entry) plugin &&
               String.eqb (plugin_template_id (pn_tenant a) plugin (pt_key entry)) (tp_id policy)) catalog)
        "Plugin template is not installed"
  end.
Definition admit_creation a (temporary : bool) (grant : Grant) (policy : TemplatePolicy) : prog unit :=
  check (negb temporary && (String.eqb (tp_owner policy) (pn_user a) || bool_decide (tp_scope policy = Plugin)))
    "Template creation unavailable" ;;
  admit_scope a policy ;;
  await (SetAccess (gr_tenant grant) (creation_tuples grant policy) true).
Definition admit_action a (grant : Grant) (action : Action) (policy : TemplatePolicy) : prog unit :=
  permission ← require "Unsupported template action" (action_permission action);
  b ← allowed a permission "document_template" (tp_id policy);
  check b "Template permission denied" ;;
  if is_empty (tp_owner policy) then ok tt else
  lift (validate_scope grant policy) ;;
  (if tp_project policy is Some p then project a p ;; ok tt else ok tt) ;;
  (if tp_plugin policy is Some plugin then
     b ← allowed a UseIt "document_plugin" plugin;
     check b "Plugin no longer enabled" ;;
     catalog ← await DocumentTemplates;
     check (existsb (fun entry => String.eqb (pt_plugin_id entry) plugin) catalog) "Plugin no longer installed"
   else ok tt).
(** The project whose library a generation works in. *)
Definition generation_project a (generation : PengoloRecord) : prog (option string) :=
  match rc_project_id generation with
  | Some id => p ← project a id; ok (if is_personal p then None else Some id)
  | None => ok None
  end.
Definition generation_grant (tenant : string) (generation : PengoloRecord) (temporary : bool)
    (project_id : option string) (chat : PengoloRecord) : Grant :=
  {| gr_tenant := tenant; gr_actor := rc_owner_id generation; gr_generation := rc_id generation;
     gr_project := project_id; gr_temporary_session := if temporary then Some (rc_id chat) else None |}.
Definition admit_request a (temporary : bool) (grant : Grant) (request : AuthorizationRequest) : prog unit :=
  match ar_template request with
  | None =>
      check (match ar_action request with Resolve | PublishPdf => true | _ => false end) "Template policy required"
  | Some policy =>
      lift (validate_id (tp_id policy) 32) ;;
      if bool_decide (ar_action request = Create) then admit_creation a temporary grant policy
      else admit_action a grant (ar_action request) policy
  end.
Definition stored_context (generation : PengoloRecord) : result QueryContext :=
  v ← with_context "Missing authorization context" (get (rc_data generation) "authorization");
  de_context v.
Definition authorize_compiler (capability : string) (request : AuthorizationRequest) : prog Grant :=
  check (String.length capability =? 64) "Invalid compiler delegation" ;;
  resolved ← await (ResolveCapability capability);
  let '(tenant, generation, temporary) := resolved in
  context ← lift (stored_context generation);
  hour ← await Hour;
  let a := {| pn_tenant := tenant; pn_user := rc_owner_id generation; pn_context := at_hour context hour |} in
  chat ← authorize_generation a generation temporary;
  project_id ← generation_project a generation;
  let grant := generation_grant tenant generation temporary project_id chat in
  admit_request a temporary grant request ;;
  ok grant.

(** ** Publication *)
Record CompiledArtifact : Type := {
  ca_id : string;
  ca_name : string;
  ca_mime : string;
  ca_bytes : string;
}.
Definition publish_pdf : AuthorizationRequest := {| ar_action := PublishPdf; ar_template := None |}.
Definition is_temporary (generation : PengoloRecord) : bool :=
  default false (get (rc_data generation) "input" ≫= fun input => get_bool input "temporary").
Definition artifact_digest a (job : string) : string :=
  sha256_hex ("document-compiler/" +:+ pn_tenant a +:+ "/" +:+ pn_user a +:+ "/" +:+ job).
Definition artifact_id a (job : string) : result string :=
  let digest := artifact_digest a job in
  with_context "Invalid generated file ID" (if len_ge digest 32 then Some (take_bytes 32 digest) else None).
Definition artifact_record a (artifact : CompiledArtifact) (id extension : string) (project_id session : option string)
    (expires updated staging_expires : Z) : PengoloRecord :=
  {| rc_id := id; rc_owner_id := pn_user a; rc_project_id := project_id;
     rc_expires_at := Some (expires + STAGING_TTL_MS)%Z; rc_revision := 1; rc_updated_at := updated;
     rc_data := JObject [("name", JString (ca_name artifact)); ("originalName", JString (ca_name artifact));
       ("mime", JString (ca_mime artifact)); ("size", json_i64 (Z.of_N (byte_len (ca_bytes artifact))));
       ("key", JString (upload_key a session project_id id extension)); ("stagingKey", JString (staging_key a id));
       ("stagingExpiresAt", json_i64 (staging_expires + STAGING_TTL_MS));
       ("checksum", JString (base64_encode (sha256 (ca_bytes artifact)))); ("status", JString "uploading");
       ("temporarySession", json_opt JString session); ("compilationJob", JString (ca_id artifact));
       ("artifactTtlMs", json_i64 (7 * 24 * 60 * 60 * 1000))] |}.
Definition published (file : PengoloRecord) (session : option string) : value :=
  JObject [("file", json_record (file_projection file)); ("download", download_projection file session)].
Definition save_compiled_artifact a (generation : PengoloRecord) (capability : string) (artifact : CompiledArtifact)
    : prog value :=
  lift (validate_id (ca_id artifact) 64) ;;
  check (byte_len (ca_bytes artifact) <=? MAX_PDF_BYTES)%N "Artifact exceeds limit" ;;
  lift (validate_file_prefix (ca_mime artifact) (ca_bytes artifact)) ;;
  extension ← lift (validate_upload (ca_name artifact) (ca_mime artifact) (Z.of_N (byte_len (ca_bytes artifact))));
  authorize_compiler capability publish_pdf ;;
  let temporary := is_temporary generation in
  chat ← authorize_generation a generation temporary;
  project_id ← generation_project a generation;
  let session := if temporary then Some (rc_id chat) else None in
  id ← lift (artifact_id a (ca_id artifact));
  expires ← await NowMs;
  updated ← await NowMs;
  staging_expires ← await NowMs;
  let record := artifact_record a artifact id extension project_id session expires updated staging_expires in
  f ← await (ReserveFile (pn_tenant a) record temporary);
  check (String.eqb (rc_owner_id f) (pn_user a) &&
         opt_value_eqb (get (rc_data f) "checksum") (get (rc_data record) "checksum") &&
         opt_value_eqb (get (rc_data f) "originalName") (get (rc_data record) "originalName"))
    "Compilation publication conflict" ;;
  if opt_eqb (get_str (rc_data f) "status") (Some "ready"%string) then
    authorize_record a f ;;
    ok (published f session)
  else
  staged ← lift (staged_file (pn_tenant a) f);
  await (WriteStaging staged (ca_bytes artifact)) ;;
  authorize_compiler capability publish_pdf ;;
  authorize_generation a generation temporary ;;
  staged ← lift (staged_file (pn_tenant a) f);
  f ← await (PromoteFile (pn_tenant a) f temporary staged);
  authorize_record a f ;;
  await (RecordEvidence (pn_tenant a) (rc_id generation) temporary
    [{| ev_resource_type := if temporary then "pengolo_temporary_file" else "pengolo_file"; ev_resource_id := rc_id f;
        ev_manage := false; ev_entity_id := session; ev_modality := None; ev_state_type := None |}]) ;;
  ok (published f session).

(** ** Template tools *)
Definition compiler_actor (token : string) : prog (Principal * PengoloRecord * bool) :=
  resolved ← await (ResolveCapability token);
  let '(tenant, generation, temporary) := resolved in
  context ← lift (stored_context generation);
  ok ({| pn_tenant := tenant; pn_user := rc_owner_id generation; pn_context := context |}, generation, temporary).
Fixpoint plugin_catalog a (entries : list PluginTemplate) : prog (list value) :=
  match entries with
  | [] => ok []
  | item :: entries =>
      enabled ← allowed a UseIt "document_plugin" (pt_plugin_id item);
      rest ← plugin_catalog a entries;
      ok (JObject [("plugin_id", JString (pt_plugin_id item)); ("plugin_version", JString (pt_plugin_version item));
                   ("key", JString (pt_key item)); ("name", JString (td_name (pt_template item)));
                   ("enabled", JBool enabled)] :: rest)
  end.
(** The packaged template as the tenant stores it. *)
Definition plugin_draft a (item : PluginTemplate) : TemplateDraft :=
  let t := pt_template item in
  {| td_id := Some (plugin_template_id (pn_tenant a) (pt_plugin_id item) (pt_key item)); td_name := td_name t;
     td_description := td_description t; td_scope := Plugin; td_project := None;
     td_plugin := Some (pt_plugin_id item); td_entrypoint := td_entrypoint t; td_assets := td_assets t;
     td_variables := td_variables t |}.
Fixpoint install_plugins a (token : string) (entries : list PluginTemplate) : prog unit :=
  match entries with
  | [] => ok tt
  | item :: entries =>
      enabled ← allowed a UseIt "document_plugin" (pt_plugin_id item);
      if negb enabled then install_plugins a token entries else
      put ← attempt (await (CompilerTemplates token (OpPut (plugin_draft a item))));
      (if put is Some reference then
         id ← require "Invalid plugin template" (get_str reference "template_id");
         version ← require "Invalid plugin revision" (get_str reference "version");
         await (CompilerTemplates token (OpPublish id version)) ;; ok tt
       else ok tt) ;;
      install_plugins a token entries
  end.
Definition plugin_tuple a (plugin_id relation : string) : AccessTuple :=
  {| at_resource_type := "document_plugin"; at_resource_id := plugin_id; at_relation := relation;
     at_subject_type := "tenant"; at_subject_id := pn_tenant a; at_subject_relation := EmptyString |}.
Context `{Zip}.
Fixpoint add_assets (archive : Archive) (assets : list Asset) (paths : list string) : result Archive :=
  match paths with
  | [] => Ok archive
  | path :: paths =>
      asset ← with_context "Export file unavailable" (List.find (fun asset => String.eqb (as_path asset) path) assets);
      archive ← archive_add archive path (as_data asset);
      add_assets archive assets paths
  end.
(** An export and a batch hold one of two permits while they run; waiting for one
    has no effect on what they do. *)
Definition compiler_templates (token : string) (operation : TemplateOperation) : prog value :=
  '(a, generation, temporary) ← compiler_actor token;
  authorize_generation a generation temporary ;;
  match operation with
  | OpPluginCatalog =>
      entries ← await DocumentTemplates;
      items ← plugin_catalog a entries;
      ok (JObject [("items", JArray items)])
  | OpEnablePlugin plugin_id enabled =>
      b ← allowed a Manage "tenant" (pn_tenant a);
      check b "Plugin administration denied" ;;
      entries ← await DocumentTemplates;
      check (existsb (fun item => String.eqb (pt_plugin_id item) plugin_id) entries)
        "Plugin template inventory unavailable" ;;
      await (SetAccess (pn_tenant a) [plugin_tuple a plugin_id "parent"] true) ;;
      await (SetAccess (pn_tenant a) [plugin_tuple a plugin_id "enabled"] enabled) ;;
      ok (JObject [("enabled", JBool enabled)])
  | OpList after =>
      entries ← await DocumentTemplates;
      install_plugins a token entries ;;
      await (CompilerTemplates token (OpList after))
  | OpPut template =>
      check (negb (bool_decide (td_scope template = Plugin)) && option_is_none (td_plugin template))
        "Plugin templates must come from the installed package" ;;
      await (CompilerTemplates token (OpPut template))
  | OpExport template_id version paths name =>
      check ((0 <? length paths) && (length paths <=? 64)) "Invalid export selection" ;;
      template ← await (CompilerTemplate token template_id version);
      archive ← lift (add_assets archive_new (tm_assets template) paths);
      identity ← lift (sha256_hex <$> json_to_vec (JArray [JString template_id; JString version; json_strings paths]));
      bytes ← lift (archive_finish archive);
      save_compiled_artifact a generation token
        {| ca_id := identity; ca_name := name; ca_mime := "application/zip"; ca_bytes := bytes |}
  | operation => await (CompilerTemplates token operation)
  end.
Fixpoint add_documents (token : string) (archive : Archive) (index : nat) (jobs : list string) : prog Archive :=
  match jobs with
  | [] => ok archive
  | job :: jobs =>
      pdf ← await (CompilerPdf token job);
      archive ← lift (archive_add archive ("document-" +:+ pretty (index + 1)%nat +:+ ".pdf") pdf);
      add_documents token archive (index + 1) jobs
  end.
Definition save_compiled_batch (token : string) (jobs : list string) (name : string) : prog value :=
  check ((2 <=? length jobs) && (length jobs <=? 8)) "Batch archives require two to eight documents" ;;
  check (bool_decide (NoDup jobs)) "Duplicate compilation job" ;;
  '(a, generation, temporary) ← compiler_actor token;
  authorize_generation a generation temporary ;;
  archive ← add_documents token archive_new 0 jobs;
  identity ← lift (sha256_hex <$> json_to_vec (json_strings jobs));
  bytes ← lift (archive_finish archive);
  save_compiled_artifact a generation token
    {| ca_id := identity; ca_name := name; ca_mime := "application/zip"; ca_bytes := bytes |}.
End delegation.
