(* ===== verification/DelegationFacts.v ===== *)
(** * DelegationFacts: what the document compiler is allowed to do

    Theorems about every run of the gateway's delegation methods: what was checked
    before a grant is given, a relationship is written or a document is published. *)

From S2P Require Import Prelude Text RustStr Json Serde Authoring Template CompilerTools Proc Compiler.
From S2P Require Import Authorization Pengolo Agents Activity Workspace WorkspaceFacts Delegation.

Section delegation.
Context `{Externals} `{WorkspaceExternals} `{Digests}.
Implicit Types (a : Principal) (es : list event).

(** ** Authorization *)

(** The user behind a capability, at the time of the request. *)
Definition acting (capability : string) es a : Prop :=
  exists tenant generation temporary context hour,
    Event (ResolveCapability capability) (Ok (tenant, generation, temporary)) ∈ es /\
    stored_context generation = Ok context /\ Event Hour (Ok hour) ∈ es /\
    a = {| pn_tenant := tenant; pn_user := rc_owner_id generation; pn_context := at_hour context hour |}.
Definition permits a es (permission : Permission) (resource_type resource_id : string) : Prop :=
  Event (IsAuthorized (pn_user a) (pn_tenant a) permission resource_type resource_id (Some (pn_context a))) (Ok true) ∈ es.
(** The user may create templates of this scope. *)
Definition may_create a es (policy : TemplatePolicy) : Prop :=
  match tp_scope policy with
  | Personal => tp_owner policy = pn_user a /\ tp_project policy = None /\ tp_plugin policy = None
  | Project => tp_owner policy = pn_user a /\ exists id p, tp_project policy = Some id /\ sees_project a es id /\
      stored_at a es CProject id false p /\ own a p
  | Tenant => tp_owner policy = pn_user a /\ permits a es Manage "tenant" (pn_tenant a)
  | Plugin => exists plugin entries entry, tp_plugin policy = Some plugin /\ permits a es UseIt "document_plugin" plugin /\
      Event DocumentTemplates (Ok entries) ∈ es /\ entry ∈ entries /\ pt_plugin_id entry = plugin /\
      tp_id policy = plugin_template_id (pn_tenant a) plugin (pt_key entry)
  end.
Definition admit_guard a (grant : Grant) (request : AuthorizationRequest) es (e : event) : Prop :=
  let '@Event _ B c _ := e in
  match c with
  | DocumentTemplates => True
  | SetAccess tenant tuples enabled => exists policy,
      ar_action request = Create /\ ar_template request = Some policy /\ may_create a es policy /\
      tenant = pn_tenant a /\ tuples = creation_tuples grant policy /\ enabled = true
  | c => looking a c
  end.
#[export] Instance admit_looks a grant request : Looks a (admit_guard a grant request).
Proof. intros pre B c answer. by destruct c. Qed.
(** What a granted request on a template has established. *)
Definition admitted a (temporary : bool) (grant : Grant) (request : AuthorizationRequest) es : Prop :=
  match ar_template request with
  | None => ar_action request = Resolve \/ ar_action request = PublishPdf
  | Some policy =>
      if decide (ar_action request = Create) then
        temporary = false /\ may_create a es policy /\
        Event (SetAccess (gr_tenant grant) (creation_tuples grant policy) true) (Ok tt) ∈ es
      else exists permission, action_permission (ar_action request) = Some permission /\
        permits a es permission "document_template" (tp_id policy) /\
        (tp_owner policy <> EmptyString -> validate_scope grant policy = Ok tt /\
           (forall p, tp_project policy = Some p -> sees_project a es p) /\
           (forall plugin, tp_plugin policy = Some plugin -> permits a es UseIt "document_plugin" plugin))
  end.
Lemma permits_app a es k permission t id : permits a es permission t id -> permits a (es ++ k) permission t id.
Proof. apply elem_of_before. Qed.
Lemma may_create_app a es k policy : may_create a es policy -> may_create a (es ++ k) policy.
Proof.
  unfold may_create. destruct (tp_scope policy).
  - done.
  - intros (? & id & p & ? & ? & ? & ?). split; [done|]. exists id, p.
    split_and!; [done|by apply sees_project_app|by apply stored_app|done].
  - intros []. split; [done|by apply permits_app].
  - intros (plugin & entries & entry & ? & ? & ? & ?). exists plugin, entries, entry.
    split; [done|]. split; [by apply permits_app|]. split; [by apply elem_of_before|done].
Qed.
Ltac allow := apply safe_await; [by intros; apply looks|].
Ltac listed := apply elem_of_app; right; left.

Lemma admit_scope_safe a grant request policy pre :
  (tp_owner policy = pn_user a \/ tp_scope policy = Plugin) ->
  safe (admit_guard a grant request) pre (admit_scope a policy) (succeeds (fun es _ => may_create a es policy)).
Proof.
  intros Ho. unfold admit_scope, may_create, allowed. destruct (tp_scope policy).
  - destruct Ho; [|done]. apply safe_pure. intros [] [? ?]%ensure_Ok_inv%andb_prop.
    split; [done|]. by destruct (tp_project policy), (tp_plugin policy).
  - destruct Ho; [|done]. apply safe_require. intros id Hid. apply safe_seq.
    eapply safe_mono; [|apply project_safe; exact _]. intros es p (_ & Hs & Hp).
    apply safe_pure. intros [] Hown%ensure_Ok_inv%String.eqb_eq. split; [done|]. by exists id, p.
  - destruct Ho; [|done]. allow. intros b. apply safe_pure. intros [] ->%ensure_Ok_inv. split; [done|listed].
  - apply safe_require. intros plugin Hp. allow. intros b. apply safe_check. intros ->.
    apply safe_await; [done|]. intros entries. apply safe_pure.
    intros [] (entry & Hin & [Hpl%String.eqb_eq Hid%String.eqb_eq]%andb_prop)%ensure_Ok_inv%existsb_exists.
    exists plugin, entries, entry. split_and!; [done|apply permits_app; listed|listed|by apply list_elem_of_In|done..].
Qed.
Lemma admit_creation_safe a temporary grant request policy pre :
  ar_action request = Create -> ar_template request = Some policy -> gr_tenant grant = pn_tenant a ->
  safe (admit_guard a grant request) pre (admit_creation a temporary grant policy) (succeeds (fun es _ =>
    temporary = false /\ may_create a es policy /\
    Event (SetAccess (gr_tenant grant) (creation_tuples grant policy) true) (Ok tt) ∈ es)).
Proof.
  intros Hc Ht Hg. unfold admit_creation. apply safe_check.
  intros [Htemp%negb_true_iff [Ho%String.eqb_eq|Ho%bool_decide_eq_true]%orb_prop]%andb_prop.
  all: apply safe_seq; eapply safe_mono; [|apply admit_scope_safe; tauto]; intros es u Hm; cbv beta in Hm.
  all: apply safe_call; [intros; by exists policy|]; intros []; split_and!; [done| |listed].
  all: by apply may_create_app.
Qed.
Lemma admit_action_safe a grant request action policy pre :
  safe (admit_guard a grant request) pre (admit_action a grant action policy) (succeeds (fun es _ =>
    exists permission, action_permission action = Some permission /\
      permits a es permission "document_template" (tp_id policy) /\
      (tp_owner policy <> EmptyString -> validate_scope grant policy = Ok tt /\
         (forall p, tp_project policy = Some p -> sees_project a es p) /\
         (forall plugin, tp_plugin policy = Some plugin -> permits a es UseIt "document_plugin" plugin)))).
Proof.
  unfold admit_action, allowed. apply safe_require. intros permission Hp. allow. intros b. apply safe_check. intros ->.
  set (es0 := pre ++ _).
  assert (permits a es0 permission "document_template" (tp_id policy)) as Hbase by (unfold es0; listed). clearbody es0.
  destruct (is_empty (tp_owner policy)) eqn:Eo.
  { exists permission. split_and!; [done..|]. by destruct (tp_owner policy). }
  apply safe_lift. intros [] Hv. apply safe_seq.
  eapply (safe_mono _ _ (fun es _ => permits a es permission "document_template" (tp_id policy) /\
    forall p, tp_project policy = Some p -> sees_project a es p)).
  2: { destruct (tp_project policy) as [p|]; [|done]. apply safe_seq. eapply safe_mono; [|apply project_safe; exact _].
       intros es p' (_ & Hs & _). split; [by apply permits_app|]. by intros ? [= <-]. }
  intros es1 _ [Hmine Hproj]. destruct (tp_plugin policy) as [plugin|].
  - allow. intros b. apply safe_check. intros ->. apply safe_await; [done|]. intros entries.
    apply safe_pure. intros [] _. exists permission. split_and!; [done|by do 2 apply permits_app|]. intros _.
    split; [done|]. split.
    + intros p Hpr. do 2 apply sees_project_app. by apply Hproj.
    + intros ? [= <-]. apply permits_app. listed.
  - exists permission. by split_and!.
Qed.
Lemma admit_safe a temporary grant request pre : gr_tenant grant = pn_tenant a ->
  safe (admit_guard a grant request) pre (admit_request a temporary grant request)
    (succeeds (fun es _ => admitted a temporary grant request es)).
Proof.
  intros Hg. unfold admit_request, admitted. destruct (ar_template request) as [policy|] eqn:Et.
  - apply safe_lift. intros [] _. destruct (decide (ar_action request = Create)) as [Hc|Hc].
    + rewrite bool_decide_eq_true_2 by done. by apply admit_creation_safe.
    + rewrite bool_decide_eq_false_2 by done. apply admit_action_safe.
  - apply safe_pure. intros [] Ha%ensure_Ok_inv. destruct (ar_action request); auto; done.
Qed.

Lemma library_of_app a es k project_id p : library_of a es project_id p -> library_of a (es ++ k) project_id p.
Proof.
  unfold library_of. destruct project_id; [|done]. intros (r & ? & ? & ?). exists r.
  split_and!; [by apply stored_app|by apply sees_project_app|done].
Qed.
Lemma admitted_app a temporary grant request es k :
  admitted a temporary grant request es -> admitted a temporary grant request (es ++ k).
Proof.
  unfold admitted. destruct (ar_template request) as [policy|]; [|done]. destruct (decide _).
  - intros (? & ? & ?). split_and!; [done|by apply may_create_app|by apply elem_of_before].
  - intros (permission & ? & ? & Hrest). exists permission. split_and!; [done|by apply permits_app|].
    intros (? & Hp & Hpl)%Hrest. split_and!; [done| |].
    + intros p. auto using sees_project_app.
    + intros plugin. auto using permits_app.
Qed.
(** What the gateway checked when it gave a grant. *)
Record delegated (capability : string) (request : AuthorizationRequest) es (grant : Grant) : Prop := {
  delegated_by : exists tenant generation temporary context hour chat,
    let a := {| pn_tenant := tenant; pn_user := rc_owner_id generation; pn_context := at_hour context hour |} in
    Event (ResolveCapability capability) (Ok (tenant, generation, temporary)) ∈ es /\
    stored_context generation = Ok context /\ Event Hour (Ok hour) ∈ es /\
    generation_ok a es generation temporary chat /\
    library_of a es (rc_project_id generation) (gr_project grant) /\
    grant = generation_grant tenant generation temporary (gr_project grant) chat /\
    admitted a temporary grant request es;
}.
Lemma delegated_app capability request es k grant :
  delegated capability request es grant -> delegated capability request (es ++ k) grant.
Proof.
  intros [(t & g & b & c & h & chat & ? & ? & ? & ? & ? & ? & ?)]. constructor. exists t, g, b, c, h, chat. cbv zeta.
  split_and!; [by apply elem_of_before|done|by apply elem_of_before|by apply generation_ok_app|
    by apply library_of_app|done|by apply admitted_app].
Qed.
Definition delegation_guard (capability : string) (request : AuthorizationRequest) es (e : event) : Prop :=
  let '@Event _ B c _ := e in
  match c with
  | ResolveCapability used => used = capability
  | Hour => True
  | _ => exists a grant, acting capability es a /\ gr_tenant grant = pn_tenant a /\ gr_actor grant = pn_user a /\
      admit_guard a grant request es e
  end.
Lemma acting_app capability es k a : acting capability es a -> acting capability (es ++ k) a.
Proof.
  intros (t & g & b & c & h & ? & ? & ? & ?). exists t, g, b, c, h. split_and!; try done; by apply elem_of_before.
Qed.
Lemma generation_project_safe G a generation `{!Looks a G} pre :
  safe G pre (generation_project a generation)
    (succeeds (fun es project_id => library_of a es (rc_project_id generation) project_id)).
Proof.
  unfold generation_project, library_of. destruct (rc_project_id generation) as [id|]; [|done].
  apply safe_seq. eapply safe_mono; [|apply project_safe; exact _]. intros es p (_ & Hs & Hp). by exists p.
Qed.
(** A step that only looks things up, within the guard of a request. *)
Lemma delegation_weaken {A} capability request a grant (p : prog A) pre Q :
  acting capability pre a -> gr_tenant grant = pn_tenant a -> gr_actor grant = pn_user a ->
  safe (admit_guard a grant request) pre p Q -> safe (delegation_guard capability request) pre p Q.
Proof.
  intros Ha Ht Hu. apply safe_weaken. intros es [B c answer] Hg. unfold delegation_guard.
  assert (exists a grant, acting capability (pre ++ es) a /\ gr_tenant grant = pn_tenant a /\ gr_actor grant = pn_user a /\
    admit_guard a grant request (pre ++ es) (Event c answer)) as Hex.
  { exists a, grant. split_and!; try done. by apply acting_app. }
  destruct c; try exact Hex; simpl in Hg; done.
Qed.
Lemma authorize_compiler_safe capability request pre :
  safe (delegation_guard capability request) pre (authorize_compiler capability request)
    (succeeds (fun es grant => delegated capability request es grant)).
Proof.
  unfold authorize_compiler. apply safe_check. intros _. apply safe_await; [done|]. intros [[tenant generation] temporary].
  apply safe_lift. intros context Hc. apply safe_await; [done|]. intros hour.
  set (a := {| pn_tenant := tenant |}). set (es0 := _ ++ [Event Hour _]).
  assert (Event (ResolveCapability capability) (Ok (tenant, generation, temporary)) ∈ es0 /\ Event Hour (Ok hour) ∈ es0)
    as [Hres Hhour] by (unfold es0; set_solver).
  assert (acting capability es0 a) as Ha by by exists tenant, generation, temporary, context, hour.
  clearbody es0. set (some := {| gr_tenant := tenant; gr_actor := rc_owner_id generation; gr_generation := EmptyString;
    gr_project := None; gr_temporary_session := None |}).
  apply safe_seq, (delegation_weaken _ _ a some); [done..|].
  eapply safe_mono; [|apply authorize_generation_ok; exact _]. intros es1 c Hg.
  apply safe_seq, (delegation_weaken _ _ a some); [by apply acting_app|done..|].
  eapply safe_mono; [|apply generation_project_safe; exact _]. intros es2 project_id Hl.
  set (grant := generation_grant _ _ _ _ _).
  apply safe_seq, (delegation_weaken _ _ a grant); [by do 2 apply acting_app|done..|].
  eapply safe_mono; [|by apply admit_safe]. intros es3 u Had; cbv beta in Had. constructor.
  exists tenant, generation, temporary, context, hour, c. cbv zeta.
  split_and!; try done; try by do 3 apply elem_of_before.
  - by do 2 apply generation_ok_app.
  - by apply library_of_app.
Qed.
Lemma authorize_compiler_run capability request es grant :
  runs (authorize_compiler capability request) es (Ok grant) -> delegated capability request es grant.
Proof. intros Hr. by destruct (safe_runs _ _ _ _ _ (authorize_compiler_safe capability request []) Hr). Qed.


(** ** Publication *)
Section publication.
Context (a : Principal) (generation : PengoloRecord) (capability : string) (artifact : CompiledArtifact).

(** The record a publication reserved: the user's, with the checksum and the name
    of this document. *)
Definition reserved es (f : PengoloRecord) : Prop :=
  own a f /\ get (rc_data f) "checksum" = Some (JString (base64_encode (sha256 (ca_bytes artifact)))) /\
  get (rc_data f) "originalName" = Some (JString (ca_name artifact)) /\
  exists record project_id, Event (ReserveFile (pn_tenant a) record (is_temporary generation)) (Ok f) ∈ es /\
    rc_project_id record = project_id /\ library_of a es (rc_project_id generation) project_id.
(** The compiler and the user may publish, as far as these events tell. *)
Definition may_publish es : Prop :=
  (exists grant, delegated capability publish_pdf es grant) /\
  exists c, generation_ok a es generation (is_temporary generation) c.
Definition publication_guard es (e : event) : Prop :=
  let '@Event _ B c _ := e in
  match c with
  | ReserveFile t record _ => t = pn_tenant a /\ own a record /\ may_publish es
  | WriteStaging staged data => data = ca_bytes artifact /\ may_publish es /\
      exists f, reserved es f /\ staged_file (pn_tenant a) f = Ok staged
  | PromoteFile t f _ staged => t = pn_tenant a /\ reserved es f /\ staged_file (pn_tenant a) f = Ok staged /\
      exists earlier later, es = earlier ++ later /\
        Event (WriteStaging staged (ca_bytes artifact)) (Ok tt) ∈ earlier /\ may_publish later
  | RecordEvidence t id _ sources => t = pn_tenant a /\ id = rc_id generation /\
      exists f f' staged, Event (PromoteFile t f (is_temporary generation) staged) (Ok f') ∈ es /\ in_scope a es f' /\
        ev_resource_id <$> sources = [rc_id f']
  | Hour | NowMs => True
  | c => looking a c \/ delegation_guard capability publish_pdf es e
  end.
#[local] Instance publication_looks : Looks a publication_guard.
Proof. intros pre B c answer. destruct c; simpl; try done; by left. Qed.
Lemma publication_weaken {A} (p : prog A) pre Q :
  safe (delegation_guard capability publish_pdf) pre p Q -> safe publication_guard pre p Q.
Proof.
  apply safe_weaken. intros es [B c answer] Hg. destruct c; try (by right); try done.
  all: destruct Hg as (? & ? & _ & _ & _ & Hg); simpl in Hg; try done.
Qed.
Lemma delegated_again pre :
  safe publication_guard pre (authorize_compiler capability publish_pdf)
    (succeeds (fun es grant => exists es', es = pre ++ es' /\ delegated capability publish_pdf es' grant)).
Proof.
  apply publication_weaken. eapply safe_conseq; [|apply safe_run_of, authorize_compiler_safe].
  intros es [grant|e] (_ & es' & -> & Hr); [|done]. exists es'. split; [done|by apply authorize_compiler_run].
Qed.
Lemma generation_again pre :
  safe publication_guard pre (authorize_generation a generation (is_temporary generation))
    (succeeds (fun es c => exists es', es = pre ++ es' /\
       forall k, generation_ok a (k ++ es') generation (is_temporary generation) c)).
Proof.
  eapply safe_conseq; [|apply safe_run_of, authorize_generation_ok; exact _].
  intros es [c|e] (_ & es' & -> & Hr); [|done]. exists es'. split; [done|]. intros k.
  by destruct (safe_runs _ _ _ _ _ (authorize_generation_ok (confined a) a generation (is_temporary generation) k) Hr).
Qed.
Lemma may_publish_app es k : may_publish es -> may_publish (es ++ k).
Proof. intros [[g Hg] [c Hc]]. split; [exists g; by apply delegated_app|exists c; by apply generation_ok_app]. Qed.
Lemma reserved_app es k f : reserved es f -> reserved (es ++ k) f.
Proof.
  intros (? & ? & ? & record & p & ? & ? & ?). split_and!; try done. exists record, p.
  split_and!; [by apply elem_of_before|done|by apply library_of_app].
Qed.
Lemma string_value_eqb (v : option value) s : opt_value_eqb v (Some (JString s)) = true -> v = Some (JString s).
Proof. destruct v as [[]|]; simpl; try done. by intros ->%String.eqb_eq. Qed.
Lemma finish_publication_safe f session pre :
  may_publish pre -> reserved pre f ->
  safe publication_guard pre (
    staged ← lift (staged_file (pn_tenant a) f);
    await (WriteStaging staged (ca_bytes artifact)) ;;
    authorize_compiler capability publish_pdf ;;
    authorize_generation a generation (is_temporary generation) ;;
    staged ← lift (staged_file (pn_tenant a) f);
    f ← await (PromoteFile (pn_tenant a) f (is_temporary generation) staged);
    authorize_record a f ;;
    await (RecordEvidence (pn_tenant a) (rc_id generation) (is_temporary generation)
      [{| ev_resource_type := if is_temporary generation then "pengolo_temporary_file" else "pengolo_file";
          ev_resource_id := rc_id f; ev_manage := false; ev_entity_id := session; ev_modality := None;
          ev_state_type := None |}]) ;;
    ok (published f session)) (succeeds (fun es _ => True)).
Proof.
  intros Hmay Hres. apply safe_lift. intros staged Hst. apply safe_await; [intros; split_and!; [done..|]; by exists f|].
  intros []. apply safe_seq. eapply safe_mono; [|apply delegated_again]. intros es1 grant (k1 & Hk1 & Hd).
  apply safe_seq. eapply safe_mono; [|apply generation_again]. intros es2 c (k2 & Hk2 & Hg).
  apply safe_lift. intros staged' Hst'. rewrite Hst in Hst'. injection Hst' as <-.
  apply safe_await.
  { intros answer. split; [done|]. split; [by do 3 apply reserved_app|]. split; [done|].
    exists (pre ++ [Event (WriteStaging staged (ca_bytes artifact)) (Ok tt)]), (k1 ++ k2).
    split_and!; [by rewrite Hk2, Hk1, <-!app_assoc|set_solver|].
    split; [exists grant; by apply delegated_app|by exists c]. }
  intros f'. apply safe_seq. eapply safe_mono; [|apply authorize_record_safe; exact _]. intros es3 u [_ Hs].
  apply safe_await; [|done]. intros answer. split_and!; [done..|]. exists f, f', staged.
  split_and!; [|done..]. set_solver.
Qed.
Lemma publication_safe :
  safe publication_guard [] (save_compiled_artifact a generation capability artifact) (succeeds (fun es _ => True)).
Proof.
  unfold save_compiled_artifact. apply safe_lift. intros [] _. apply safe_check. intros _. apply safe_lift. intros [] _.
  apply safe_lift. intros extension _. apply safe_seq. eapply safe_mono; [|apply delegated_again].
  intros es1 grant (k1 & -> & Hd). apply safe_seq. eapply safe_mono; [|apply generation_again].
  intros es2 c (k2 & -> & Hg). apply safe_seq. eapply safe_mono; [|apply generation_project_safe; exact _].
  intros es3 project_id Hl. cbn [app] in *. set (es := (k1 ++ k2) ++ es3) in *.
  assert (may_publish es) as Hmay.
  { apply may_publish_app. split; [exists grant; by apply delegated_app|by exists c]. }
  clearbody es. clear es2 Hd Hg. apply safe_lift. intros id _. do 3 (apply safe_await; [done|]; intros ?).
  apply safe_await; [intros; split_and!; [done..|]; by do 3 apply may_publish_app|]. intros f.
  apply safe_check. intros [[Ho%String.eqb_eq Hc%string_value_eqb]%andb_prop Hn%string_value_eqb]%andb_prop.
  set (es' := _ ++ [Event (ReserveFile _ _ _) _]).
  assert (may_publish es') as Hmay' by by do 4 apply may_publish_app.
  assert (reserved es' f) as Hres.
  { split_and!; [done..|]. eexists _, project_id. split_and!; [unfold es'; apply elem_of_app; right; left|done|].
    by do 4 apply library_of_app. }
  clearbody es'. destruct (opt_eqb _ _).
  - apply safe_seq. eapply safe_mono; [|apply authorize_record_safe; exact _]. done.
  - by apply finish_publication_safe.
Qed.
End publication.

(** C19: a compiled document is published under live authority: in every run, a file
    is reserved only after the gateway found, for this capability and this user,
    that the generation may still be followed; the bytes that are staged are those
    of the document, at the place of a reserved record of the user with the
    document's checksum and name, in the library of the generation; the staged file
    is promoted only if capability and generation were found good again after the
    bytes were staged; and only a promoted file the user may see becomes a source
    of the answer. *)
Theorem publication_authorized a generation capability artifact es r :
  runs (save_compiled_artifact a generation capability artifact) es r ->
  forall before e after, es = before ++ e :: after -> publication_guard a generation capability artifact before e.
Proof.
  intros Hr before e after Hes.
  destruct (safe_runs _ _ _ _ _ (publication_safe a generation capability artifact) Hr) as [_ HG]. exact (HG _ _ _ Hes).
Qed.
End delegation.
