(* ===== verification/Linked.v ===== *)
(** * Linked: the document compiler together with the gateway

    The authorizer port of the document compiler is an HTTP call to the gateway
    (adapters/gateway.rs of the compiler, adapters/inbound/document_compiler.rs of
    the gateway), and the authorization port of the gateway is its own
    [AuthService].  Here the three are composed into one program, whose runs
    interleave the calls of all of them in the order they happen. *)

From S2P Require Import Prelude Text RustStr Json Serde Authoring Template CompilerTools Proc Compiler.
From S2P Require Import Authorization Pengolo Agents Activity Workspace Delegation.

(** The remaining ports of the composed system; [Http] is one trip over the network. *)
Inductive platform `{Cedar} : Type -> Type :=
  | OfCompiler {B} (c : Compiler.call B) : platform B
  | OfGateway {B} (c : Workspace.call B) : platform B
  | OfAuth {B} (c : Authorization.call B) : platform B
  | Http : platform unit.

(** Decoding of the derived format of [Grant]. *)
Class GrantFormat := { grant_from_slice : string -> result Grant }.

Section linked.
Context `{Cedar} `{Externals} `{CompilerExternals} `{WorkspaceExternals} `{Digests} `{GrantFormat}.

(** ** The gateway's endpoint

    [authorization] lists the values of that header, [None] when one is not text. *)
Definition authorize_endpoint (authorization : list (option string)) (enabled : bool) (request : AuthorizationRequest)
    : proc Workspace.call Grant :=
  token ← require "Delegation required" (head authorization ≫= fun v => v ≫= strip_prefix "Bearer ");
  check ((length authorization <=? 1) && enabled) "Compiler unavailable" ;;
  proc_then (authorize_compiler token request) (fun r => lift (or_message "Delegation denied" r)).

(** ** The compiler's client *)
Definition accept_grant (bytes : string) : result Grant :=
  ensure (byte_len bytes <=? 4096)%N "Delegation response exceeds limit" ;;
  grant ← grant_from_slice bytes;
  validate_tenant (gr_tenant grant) ;;
  ensure (negb (is_empty (gr_actor grant)) && len_le (gr_actor grant) 256 &&
          negb (is_empty (gr_generation grant)) && len_le (gr_generation grant) 64) "Invalid delegation" ;;
  Ok grant.

(** ** Composition *)
Definition as_auth {B} (c : Authorization.call B) : proc platform B := await (OfAuth c).
Definition gateway_port {B} (c : Workspace.call B) : proc platform B :=
  match c in Workspace.call B return proc platform B with
  | IsAuthorized user tenant permission resource_type resource_id context =>
      interp (@as_auth) (is_authorized user tenant permission resource_type resource_id context)
  | c => await (OfGateway c)
  end.
(** The request may be lost on its way, and the reply on its way back. *)
Definition gateway_authorize (enabled : bool) (capability : string) (request : AuthorizationRequest)
    : proc platform Grant :=
  await Http ;;
  grant ← proc_then (interp (@gateway_port) (authorize_endpoint [Some ("Bearer " +:+ capability)] enabled request))
    (fun r => lift (or_message "Delegation denied" r));
  bytes ← lift (json_to_vec (json_grant grant));
  await Http ;;
  lift (accept_grant bytes).
Definition compiler_port (enabled : bool) {B} (c : Compiler.call B) : proc platform B :=
  match c in Compiler.call B return proc platform B with
  | Authorize capability request => gateway_authorize enabled capability request
  | c => await (OfCompiler c)
  end.
(** One job of the worker, in the composed system. *)
Definition linked_work (enabled : bool) : proc platform unit := interp (@compiler_port enabled) Compiler.work.
End linked.
