(* ===== verification/LinkedFacts.v ===== *)
(** * LinkedFacts: a document is compiled only with the user's permission

    The theorems of the worker, of the delegation and of the authorization service
    put together: about every run of the composed system. *)

From S2P Require Import Prelude Text RustStr Json Serde Authoring Template CompilerTools Proc JobQueue Compiler CompilerFacts.
From S2P Require Import Authorization AuthorizationFacts Pengolo Agents Activity Workspace WorkspaceFacts.
From S2P Require Import Delegation DelegationFacts Linked.

(** The derived format of grants round trips. *)
Class GrantLaws `{Externals} `{GrantFormat} : Prop := {
  grant_round_trip grant bytes : json_to_vec (json_grant grant) = Ok bytes -> grant_from_slice bytes = Ok grant;
}.

Section linked.
Context `{Cedar} `{Externals} `{CompilerExternals} `{WorkspaceExternals} `{Digests} `{GrantFormat} `{!GrantLaws}.
Notation happened := (Proc.event platform).
Implicit Type es : list happened.

(** ** Calls of the services in a run of the whole *)
Lemma segment_of {E F} (h : forall B, E B -> proc F B) (segments : list (Proc.event E * list (Proc.event F)))
    {B} (c : E B) answer :
  Forall (served h) segments -> Event c answer ∈ segments.*1 ->
  exists k, runs (h B c) k answer /\ k ⊆ concat segments.*2.
Proof.
  intros Hs ([e k] & He & Hin)%list_elem_of_fmap. simpl in He. subst e. exists k.
  rewrite Forall_forall in Hs. split; [exact (Hs _ Hin)|].
  intros x Hx. apply list_elem_of_In, in_concat. exists k. rewrite <-!list_elem_of_In. split; [|done].
  apply list_elem_of_fmap. by exists (Event c answer, k).
Qed.
(** A check of the gateway is a run of its authorization service, in which SpiceDB
    answered that the user has the permission on the tenant's object, and which
    Cedar did not overrule. *)
Definition auth_checked es (user tenant : string) (permission : Permission) (resource_type resource_id : string) : Prop :=
  exists context checks rid,
    tenant_qualified_resource_id tenant resource_type resource_id = Ok rid /\
    Event (OfAuth (Check user (permission_str permission) resource_type (canonical_spicedb_object_id rid)))
      (Ok (Decision true)) ∈ es /\
    runs (is_authorized user tenant permission resource_type resource_id context) checks (Ok true) /\
    forall B (c : Authorization.call B) answer, Event c answer ∈ checks -> Event (OfAuth c) answer ∈ es.
Lemma is_authorized_structural user tenant permission resource_type resource_id context checks :
  runs (is_authorized user tenant permission resource_type resource_id context) checks (Ok true) -> exists rid,
    tenant_qualified_resource_id tenant resource_type resource_id = Ok rid /\
    Event (Check user (permission_str permission) resource_type (canonical_spicedb_object_id rid)) (Ok (Decision true)) ∈ checks.
Proof.
  intros (rid & Hrid & Hr)%runs_lift. apply runs_bind in Hr as (k1 & k2 & answer & -> & Hs & Hr).
  apply runs_lift in Hr as ([] & Hd & Hr); [|by apply runs_inv in Hr as [_ ?]]. exists rid. split; [done|].
  apply elem_of_before. destruct (safe_runs _ _ _ _ _ (structural_seen 3 0 _ []) Hs) as [HQ _].
  destruct answer as [b|b|]; simpl in Hd; [injection Hd as ->|done..]. exact (HQ true eq_refl).
Qed.
Lemma auth_event (p : proc Authorization.call bool) k r :
  runs (interp (@as_auth _) p) k r ->
  exists checks, runs p checks r /\
    forall B (c : Authorization.call B) answer, Event c answer ∈ checks -> Event (OfAuth c) answer ∈ k.
Proof.
  intros (segments & Hr & -> & Hs)%runs_interp. exists segments.*1. split; [done|]. intros B c answer Hin.
  destruct (segment_of _ _ _ _ Hs Hin) as (k & ->%runs_await & Hsub). apply Hsub. by left.
Qed.

(** ** Delegation over the network *)

(** The gateway resolved the capability of a job to the job's generation, of an
    active user, and its authorization service allowed a permission on a template. *)
Definition permitted_job es (tenant actor generation_id capability : string) (permission : Permission) (template_id : string)
    : Prop :=
  (exists generation temporary, Event (OfGateway (ResolveCapability capability)) (Ok (tenant, generation, temporary)) ∈ es /\
     rc_owner_id generation = actor /\ rc_id generation = generation_id) /\
  Event (OfGateway (GetUserStatus tenant actor)) (Ok Active) ∈ es /\
  auth_checked es actor tenant permission "document_template" template_id.
Lemma delegated_permitted (segments : list (Proc.event Workspace.call * list happened)) capability action policy permission grant :
  action_permission action = Some permission -> Forall (served (@gateway_port _)) segments ->
  delegated capability {| ar_action := action; ar_template := Some policy |} segments.*1 grant ->
  permitted_job (concat segments.*2) (gr_tenant grant) (gr_actor grant) (gr_generation grant) capability permission (tp_id policy).
Proof.
  intros Hp Hs [(t & g & b & ctx & h & c & Hres & _ & _ & [[Hactive _] _ _ _ _ _] & _ & -> & Had)]. simpl.
  unfold admitted in Had. cbn [ar_template ar_action] in Had. rewrite decide_False in Had by (intros ->; done).
  destruct Had as (permission' & Hp' & Hauth & _). rewrite Hp in Hp'. injection Hp' as <-. unfold permits in Hauth.
  split_and!.
  - exists g, b. split_and!; [|done..].
    destruct (segment_of _ _ _ _ Hs Hres) as (k & ->%runs_await & Hsub). apply Hsub. by left.
  - destruct (segment_of _ _ _ _ Hs Hactive) as (k & ->%runs_await & Hsub). apply Hsub. by left.
  - destruct (segment_of _ _ _ _ Hs Hauth) as (k & (checks & Hr & Hc)%auth_event & Hsub).
    destruct (is_authorized_structural _ _ _ _ _ _ _ Hr) as (rid & Hrid & Hcheck).
    eexists _, checks, rid. split_and!; [exact Hrid|by apply Hsub, Hc|exact Hr|].
    intros B q answer Hin. by apply Hsub, Hc.
Qed.
Lemma endpoint_delegated enabled capability request k grant :
  runs (authorize_endpoint [Some ("Bearer " +:+ capability)] enabled request) k (Ok grant) ->
  delegated capability request k grant.
Proof.
  unfold authorize_endpoint. intros (token & Ht & Hr)%runs_lift. apply runs_lift in Hr as ([] & _ & Hr).
  apply context_Ok_inv, strip_prefix_Some, (inj (String.append "Bearer ")) in Ht as <-.
  apply runs_then in Hr as (k1 & k2 & [g|e] & -> & Hr & Hd); apply runs_inv in Hd as [-> Hd]; [|done].
  simpl in Hd. injection Hd as <-. rewrite app_nil_r. by apply authorize_compiler_run.
Qed.
Lemma permitted_job_mono es es' tenant actor generation_id capability permission template_id :
  es ⊆ es' -> permitted_job es tenant actor generation_id capability permission template_id ->
  permitted_job es' tenant actor generation_id capability permission template_id.
Proof.
  intros Hsub ((g & b & ? & ? & ?) & ? & context & checks & rid & ? & ? & ? & Hc).
  split_and!; [exists g, b; auto|auto|]. exists context, checks, rid. auto 10.
Qed.
Lemma authorized_permitted enabled capability action policy permission es grant :
  action_permission action = Some permission ->
  runs (gateway_authorize enabled capability {| ar_action := action; ar_template := Some policy |}) es (Ok grant) ->
  permitted_job es (gr_tenant grant) (gr_actor grant) (gr_generation grant) capability permission (tp_id policy).
Proof.
  intros Hp (es1 & es2 & [] & -> & _ & Hr)%runs_bind. apply runs_bind in Hr as (es3 & es4 & g & -> & Hg & Hr).
  apply runs_lift in Hr as (bytes & Hb & Hr). apply runs_bind in Hr as (es5 & es6 & [] & -> & _ & Hr).
  apply runs_inv in Hr as [-> Hacc]. symmetry in Hacc. unfold accept_grant in Hacc.
  apply bind_Ok_inv in Hacc as ([] & _ & (g' & Hg' & ([] & _ & ([] & _ & [= <-])%bind_Ok_inv)%bind_Ok_inv)%bind_Ok_inv).
  rewrite (grant_round_trip _ _ Hb) in Hg'. injection Hg' as <-.
  apply runs_then in Hg as (k1 & k2 & [g'|e] & -> & Hg & Hr); apply runs_inv in Hr as [-> Hr]; [|done].
  simpl in Hr. injection Hr as <-. apply runs_interp in Hg as (segments & Hg & -> & Hs).
  apply endpoint_delegated in Hg. eapply permitted_job_mono; [|by eapply delegated_permitted]. set_solver.
Qed.

(** ** The worker *)

(** The project that an event hands to the sandbox. *)
Definition compiled_project (e : happened) : option Rendered :=
  match e with
  | Event c _ =>
      match c with
      | OfCompiler c => match c with Compile project => Some project | _ => None end
      | _ => None
      end
  end.
Definition foreign es (e : happened) : Prop := compiled_project e = None.
Definition compiles_nothing {A} (p : proc platform A) : Prop := forall pre, safe foreign pre p (fun _ _ => True).
Lemma nothing_then {A C} (p : proc platform A) (f : result A -> proc platform C) :
  compiles_nothing p -> (forall r, compiles_nothing (f r)) -> compiles_nothing (proc_then p f).
Proof. intros Hp Hf pre. apply safe_then. eapply safe_conseq; [|apply Hp]. intros es r _. apply Hf. Qed.
Lemma nothing_bind {A C} (p : proc platform A) (f : A -> proc platform C) :
  compiles_nothing p -> (forall a, compiles_nothing (f a)) -> compiles_nothing (p ≫= f).
Proof. intros Hp Hf. apply nothing_then; [done|]. intros [a|e]; [apply Hf|done]. Qed.
Lemma nothing_await {B} (c : platform B) : (forall answer, compiled_project (Event c answer) = None) -> compiles_nothing (await c).
Proof. intros Hc pre answer. split; [apply Hc|done]. Qed.
Lemma nothing_interp {E A} (h : forall B, E B -> proc platform B) (p : proc E A) :
  (forall B c, compiles_nothing (h B c)) -> compiles_nothing (interp h p).
Proof. intros Hh. induction p as [r|B c k IH]; [done|]. by apply nothing_then. Qed.
Lemma authorize_compiles_nothing enabled capability request : compiles_nothing (gateway_authorize enabled capability request).
Proof.
  apply nothing_bind; [by apply nothing_await|]. intros []. apply nothing_bind.
  - apply nothing_then; [|done]. apply nothing_interp. intros B c. destruct c; try by apply nothing_await.
    apply nothing_interp. intros B q. by apply nothing_await.
  - intros grant. apply nothing_bind; [done|]. intros bytes. apply nothing_bind; [by apply nothing_await|done].
Qed.
Lemma compiled_by_worker enabled (segment : Proc.event Compiler.call * list happened) s1 project answer s2 :
  served (@compiler_port _ _ _ enabled) segment -> segment.2 = s1 ++ Event (OfCompiler (Compile project)) answer :: s2 ->
  s1 = [] /\ exists answer', segment.1 = Event (Compile project) answer'.
Proof.
  destruct segment as [[B c r] k]. unfold served. simpl. intros Hr ->.
  destruct c; cbn [compiler_port] in Hr;
    try (apply runs_await in Hr; destruct s1 as [|e s1]; [|by destruct s1]; apply (f_equal (fmap compiled_project)) in Hr;
         simplify_eq/=; eauto).
  pose proof (authorize_compiles_nothing enabled capability request) as Hn.
  destruct (safe_runs _ _ _ _ _ (Hn []) Hr) as [_ HG]. by specialize (HG s1 _ s2 eq_refl).
Qed.

(** C3: a document is compiled only with the user's permission: in every run of a
    worker linked to the gateway over a network that may lose requests and replies,
    before a project reaches the sandbox a job was claimed, the gateway resolved the
    job's capability to a generation of the job's tenant, user and generation, found
    the user active, and its authorization service had SpiceDB confirm, and the
    tenant's policy not deny, that this user may use the job's template; and the
    project is the rendering of the sealed template of the job's version. *)
Theorem compiled_with_permission enabled es r :
  runs (linked_work enabled) es r ->
  forall before project answer after, es = before ++ Event (OfCompiler (Compile project)) answer :: after ->
  exists job now t document, Event (OfCompiler (QueueClaim now)) (Ok (Some job)) ∈ before /\
    permitted_job before (jb_tenant job) (jb_actor job) (jb_generation job) (jb_capability job) UseIt (jb_template_id job) /\
    tm_id t = jb_template_id job /\ tm_version t = jb_template_version job /\ seal t = Ok t /\
    render t document = Ok project.
Proof.
  intros (segments & Hw & -> & Hs)%runs_interp before project answer after Hes.
  apply concat_split in Hes as (earlier & segment & later & s1 & s2 & -> & Hseg & ->).
  apply Forall_app in Hs as [Hearlier Hs]. apply Forall_cons in Hs as [Hmine _].
  destruct (compiled_by_worker _ _ _ _ _ _ Hmine Hseg) as [-> [answer' He]]. rewrite app_nil_r.
  rewrite fmap_app, fmap_cons, He in Hw.
  destruct (safe_runs _ _ _ _ _ work_safe Hw) as [_ HG].
  destruct (HG _ _ _ eq_refl) as (job & [now Hclaim] & g & t & bytes & submission & Hsame & Ht & _ & _ & _ & _ & _ & _ & _ & Hr).
  apply andb_prop in Hsame as [[Htn%String.eqb_eq Hac%String.eqb_eq]%andb_prop Hgn%String.eqb_eq].
  exists job, now, t, (sb_document submission). split; [|split].
  - destruct (segment_of _ _ _ _ Hearlier Hclaim) as (k & ->%runs_await & Hsub). apply Hsub. by left.
  - destruct (segment_of _ _ _ _ Hearlier (seen_policy _ _ _ _ _ _ _ Ht)) as (k & Hk & Hsub).
    eapply permitted_job_mono; [exact Hsub|]. rewrite <-Htn, <-Hac, <-Hgn, <-(seen_id _ _ _ _ _ _ _ Ht).
    exact (authorized_permitted _ _ Use (policy_of t) _ _ _ eq_refl Hk).
  - split_and!; [by apply Ht..|done].
Qed.
End linked.
