(* ===== verification/LinkedDemo.v ===== *)
(** * LinkedDemo: a worker, a gateway and an authorization service that run together

    The toy formats of CompilerDemo.v and AuthorizationFacts.v, and ports that hold
    one generation of one user: the theorems of DelegationFacts.v and LinkedFacts.v
    apply to the runs they produce. *)

From S2P Require Import Prelude Text RustStr Json Serde StateJson Authoring Template TemplateFacts CompilerTools Proc JobQueue.
From S2P Require Import JobQueueFacts Compiler CompilerFacts MemServices CompilerDemo.
From S2P Require Import Authorization AuthorizationFacts Pengolo Agents Activity Workspace WorkspaceFacts.
From S2P Require Import Delegation DelegationFacts Linked LinkedFacts.

#[local] Existing Instance CompilerDemo.demo_formats.
#[local] Existing Instance CompilerDemo.demo_decoders.
#[local] Instance link_encodings : WorkspaceExternals :=
  {| url_encode s := s; base64_decode := Some; default_hash _ := EmptyString |}.
#[local] Instance link_digests : Digests := {| sha256 s := s; base64_encode s := s |}.

Definition grant_of (v : value) : Grant :=
  {| gr_tenant := default EmptyString (get_str v "tenant"); gr_actor := default EmptyString (get_str v "actor");
     gr_generation := default EmptyString (get_str v "generation"); gr_project := get_str v "project";
     gr_temporary_session := get_str v "temporary_session" |}.
#[local] Instance link_grants : GrantFormat := {| grant_from_slice bytes := grant_of <$> text_document bytes |}.
#[local] Instance link_laws : GrantLaws.
Proof.
  constructor. intros [t a g p s] bytes [= <-]. unfold grant_from_slice, link_grants. rewrite text_document_text.
  by destruct p, s.
Qed.

Definition link_capability : string := demo_digest.
Definition link_job : Job := leased (new_row
  {| nj_id := demo_digest; nj_tenant := "acme"; nj_actor := "ann"; nj_generation := "g";
     nj_fingerprint := demo_digest; nj_capability := link_capability; nj_template_id := demo_id;
     nj_template_version := demo_digest |} 5) "lease" 10.
Definition link_record (id : string) (data : value) : PengoloRecord :=
  {| rc_id := id; rc_owner_id := "ann"; rc_project_id := None; rc_expires_at := None; rc_revision := 1;
     rc_updated_at := 0; rc_data := data |}.
Definition link_generation : PengoloRecord :=
  link_record "g" (JObject [("authorization", json_context default_context); ("chatId", JString "c1");
    ("evidence", JArray [])]).
Definition link_gateway (B : Type) (c : Workspace.call B) : result B :=
  match c in Workspace.call B return result B with
  | ResolveCapability _ => Ok ("acme"%string, link_generation, false)
  | Hour => Ok 9%Z
  | NowMs => Ok 1000%Z
  | GetUserStatus _ _ => Ok Active
  | IsAuthorized _ _ _ _ _ _ => Ok true
  | StoreGet _ CChat _ _ => Ok (Some (link_record "c1" (JObject [])))
  | ReserveFile _ r _ => Ok r
  | PromoteFile _ r _ _ => Ok r
  | WriteStaging _ _ | RecordEvidence _ _ _ _ => Ok tt
  | _ => Err (Foreign "unavailable")
  end.
Definition link_auth (B : Type) (c : Authorization.call B) : result B :=
  match c in Authorization.call B return result B with
  | Check _ _ _ _ => Ok (Decision true)
  | ActivePolicies _ => Ok None
  | CacheRemove _ => Ok tt
  | _ => Err (Foreign "unavailable")
  end.
Definition link_platform (B : Type) (c : platform B) : result B :=
  match c in platform B return result B with
  | OfCompiler c =>
      match c in Compiler.call B return result B with
      | QueueClaim _ => Ok (Some link_job)
      | c => demo_answers _ c
      end
  | OfGateway c => link_gateway _ c
  | OfAuth c => link_auth _ c
  | Http => Ok tt
  end.
Definition link_run : list (Proc.event platform) := trace link_platform (linked_work true).
Definition link_project : Rendered :=
  match render demo_sealed demo_document with Ok p => p | Err _ => {| rd_entrypoint := EmptyString; rd_assets := [] |} end.
Lemma compiled_with_permission_witness :
  eval link_platform (linked_work true) = Ok tt /\
  exists job now t document, Event (OfCompiler (QueueClaim now)) (Ok (Some job)) ∈ take 63 link_run /\
    permitted_job (take 63 link_run) (jb_tenant job) (jb_actor job) (jb_generation job) (jb_capability job) UseIt
      (jb_template_id job) /\
    tm_id t = jb_template_id job /\ tm_version t = jb_template_version job /\ seal t = Ok t /\
    render t document = Ok link_project.
Proof.
  split; [vm_compute; reflexivity|].
  assert (link_run !! 63 = Some (Event (OfCompiler (Compile link_project)) (Ok tt))) as He by (vm_compute; reflexivity).
  exact (compiled_with_permission true link_run _ (trace_runs link_platform _) _ _ _ _ (run_split _ _ _ He)).
Defined.

Definition link_request : AuthorizationRequest := {| ar_action := Use; ar_template := Some (structural demo_id) |}.

Definition link_actor : Principal :=
  {| pn_tenant := "acme"; pn_user := "ann"; pn_context := default_context |}.
Definition link_artifact : CompiledArtifact :=
  {| ca_id := demo_digest; ca_name := "letter.pdf"; ca_mime := "application/pdf"; ca_bytes := "%PDF-1.7" |}.
Definition link_publication : prog value := save_compiled_artifact link_actor link_generation link_capability link_artifact.
Definition link_file : PengoloRecord :=
  artifact_record link_actor link_artifact "00000000000000000000000000000000" "pdf" None None 1000 1000 1000.
Definition link_staged : StagedFile :=
  {| sf_generated := true; sf_tenant := "acme"; sf_owner := "ann";
     sf_source := "acme/ann/pengolo/00000000000000000000000000000000";
     sf_destination := "acme/ann/pengolo/00000000000000000000000000000000.pdf"; sf_mime := "application/pdf"; sf_size := 8;
     sf_name := "letter.pdf"; sf_checksum := "%PDF-1.7" |}.
Lemma publication_authorized_witness :
  is_Ok (eval link_gateway link_publication) = true /\
  publication_guard link_actor link_generation link_capability link_artifact (take 29 (trace link_gateway link_publication))
    (Event (PromoteFile "acme" link_file false link_staged) (Ok link_file)).
Proof.
  split; [vm_compute; reflexivity|].
  assert (trace link_gateway link_publication !! 29 = Some (Event (PromoteFile "acme" link_file false link_staged) (Ok link_file)))
    as He by (vm_compute; reflexivity).
  exact (publication_authorized _ _ _ _ _ _ (trace_runs link_gateway link_publication) _ _ _ (run_split _ _ _ He)).
Defined.
