(* ===== verification/Backend.v ===== *)
(** * Backend: the workspace service on its record store

    [PengoloService] (Workspace.v) calls the port [PengoloStore], which
    [PgPengoloStore] (RecordStore.v) implements.  Here the two run together: any
    number of requests of users, callbacks of agents, calls of the document compiler
    and sweeps of the maintenance task run at once on one database.  The other ports
    answer anything.  A request can be dropped at any time, as a disconnected client
    drops its future. *)

From S2P Require Import Prelude Text RustStr Json Serde Authoring Template CompilerTools Proc Authorization Pengolo.
From S2P Require Import Agents Activity Workspace WorkspaceFacts Database RecordStore TxLogic RecordStoreInv RecordStoreFacts.
From S2P Require Import Delegation.

Section backend.
Context `{Externals} `{Uuids} `{ActivityExternals} `{WorkspaceExternals} `{Digests} `{Zip} `{Postgres}.
Context (to_lowercase : string -> string) (chatgpt_callback : option string).

(** ** The port

    What the adapter runs for a call: one transaction, or a method of several. *)
Inductive service (B : Type) : Type :=
  | Once (tenant : string) (body : string -> tx B)
  | Many (method : sprog B)
  | Elsewhere.
#[local] Arguments Once {_} _ _.
#[local] Arguments Many {_} _.
#[local] Arguments Elsewhere {_}.
Definition store_port {B} (c : call B) : service B :=
  match c in call B return service B with
  | StoreGet tenant c id temporary => Once tenant (get_record c id temporary)
  | StoreList tenant c after limit => Once tenant (list_records tenant c after limit)
  | ListScoped q => Once (rq_tenant q) (list_scoped q)
  | StoreSave tenant c r temporary expected => Once tenant (save tenant c r temporary expected)
  | SaveProject tenant r expected => Many (RecordStore.save_project tenant r expected)
  | StoreRemove tenant c id temporary => Once tenant (remove tenant c id temporary)
  | ReserveFile tenant r temporary => Once tenant (reserve_file to_lowercase tenant r temporary)
  | PromoteFile tenant r temporary file => Once tenant (promote_file tenant r temporary file)
  | RefreshRetention tenant r temporary => Once tenant (refresh_file_retention tenant r temporary)
  | ExpireFile tenant r temporary => Once tenant (expire_file tenant r temporary)
  | PurgeFile tenant id temporary staging => Once tenant (purge_file tenant id temporary staging)
  | ExpireTemporary tenant owner session => Once tenant (expire_temporary tenant owner session)
  | Reserve tenant actor input capability => Once tenant (reserve tenant actor input capability)
  | Append tenant generation temporary event => Once tenant (append tenant generation temporary event)
  | StoreEvents tenant generation temporary after => Once tenant (RecordStore.events tenant generation temporary after)
  | ResolveCapability capability => Many (resolve_capability capability)
  | GenerationCapability tenant id => Once tenant (generation_capability tenant id)
  | RecordEvidence tenant generation temporary sources => Once tenant (record_evidence tenant generation temporary sources)
  | ExpireLeases tenant => Many (expire_leases tenant)
  | CleanupTenants => Many cleanup_tenants
  | ExpiredObjects tenant => Once tenant (expired_objects tenant)
  | ExpiredRecords tenant => Many (RecordStore.expired tenant)
  | _ => Elsewhere
  end.

(** ** Tasks

    A program with its user, if it is a user's request, and the calls it made so
    far; it may wait for a method of several transactions. *)
Inductive task : Type :=
  | Running {A} (user : option Principal) (p : prog A) (before : list event)
  | Waiting {A B} (user : option Principal) (c : call B) (method : sprog B) (k : result B -> prog A) (before : list event).
(** What the gateway starts. *)
Inductive entry_point : option Principal -> forall A, prog A -> Prop :=
  | enter_request a A p : user_request chatgpt_callback a A p -> entry_point (Some a) A p
  | enter_output capability id event : entry_point None _ (accept_output capability id event)
  | enter_cleanup : entry_point None _ workspace_cleanup
  | enter_delegation capability request : entry_point None _ (authorize_compiler capability request)
  | enter_templates token operation : entry_point None _ (compiler_templates token operation)
  | enter_artifact a generation token artifact : entry_point None _ (save_compiled_artifact a generation token artifact)
  | enter_batch token jobs name : entry_point None _ (save_compiled_batch token jobs name).
(** The answers of the database to the calls that are not transactions of a tenant. *)
Definition store_answer {B} (c : store_call B) (d : db) (answer : result B) : Prop :=
  match c in store_call B return result B -> Prop with
  | CapabilityScope token => fun answer => exists t, answer = pengolo_capability token t d \/ answer = sql_error
  | TenantsDue => fun answer => exists t, answer = Ok (pengolo_cleanup_tenants t d) \/ answer = sql_error
  | Transact _ _ => fun _ => False
  | _ => fun _ => True
  end answer.

(** ** The system

    [gone] are the generations that were removed. *)
Record system : Type := { sy_db : db; sy_gone : gset (bool * string * string); sy_tasks : list task }.
Definition has_generation (d : db) (key : bool * string * string) : Prop :=
  is_Some (table key.1.1 d !! (key.1.2, "generation"%string, key.2)).
(** A change of the database: a generation that was removed is not created again,
    that is, its idempotency key is not used again. *)
Record changes (d : db) (gone : gset (bool * string * string)) (d' : db) (gone' : gset (bool * string * string)) : Prop := {
  changes_fresh key : has_generation d' key -> key ∉ gone;
  changes_gone key : key ∈ gone' <-> key ∈ gone \/ (has_generation d key /\ ~ has_generation d' key);
}.
(** A crash of PostgreSQL, the IAM administration and the indexer. *)
Inductive environment (d : db) : db -> Prop :=
  | env_crash : environment d (crash d)
  | env_iam roles parents assignments : environment d (set_iam roles parents assignments d)
  | env_jobs m : environment d (set_jobs m d)
  | env_index tenant id retrieval d' : index_file tenant id retrieval d = Ok d' -> environment d d'.
(** One step of a task on the database. *)
Inductive task_step (d : db) : task -> db -> task -> Prop :=
  | step_port user A B (c : call B) (k : result B -> prog A) es answer : store_port c = Elsewhere ->
      task_step d (Running user (Do c k) es) d (Running user (k answer) (es ++ [Event c answer]))
  | step_once user A B (c : call B) (k : result B -> prog A) es tenant body e d' calls answer :
      store_port c = Once tenant body -> env_ok e -> transaction tenant body e d = (d', calls, answer) ->
      task_step d (Running user (Do c k) es) d' (Running user (k answer) (es ++ [Event c answer]))
  | step_call user A B (c : call B) (k : result B -> prog A) es method : store_port c = Many method ->
      task_step d (Running user (Do c k) es) d (Waiting user c method k es)
  | step_transact user A B C (c : call B) (k : result B -> prog A) es tenant (body : string -> tx C) next e d' calls answer :
      env_ok e -> transaction tenant body e d = (d', calls, answer) ->
      task_step d (Waiting user c (Do (Transact tenant body) next) k es) d' (Waiting user c (next answer) k es)
  | step_answer user A B C (c : call B) (k : result B -> prog A) es (s : store_call C) next answer : store_answer s d answer ->
      task_step d (Waiting user c (Do s next) k es) d (Waiting user c (next answer) k es)
  | step_return user A B (c : call B) (k : result B -> prog A) es answer :
      task_step d (Waiting user c (Done answer) k es) d (Running user (k answer) (es ++ [Event c answer])).
Inductive moves : system -> system -> Prop :=
  | move_start d gone ts user A (p : prog A) : entry_point user A p ->
      moves {| sy_db := d; sy_gone := gone; sy_tasks := ts |}
            {| sy_db := d; sy_gone := gone; sy_tasks := Running user p [] :: ts |}
  | move_drop d gone ts1 t ts2 :
      moves {| sy_db := d; sy_gone := gone; sy_tasks := ts1 ++ t :: ts2 |}
            {| sy_db := d; sy_gone := gone; sy_tasks := ts1 ++ ts2 |}
  | move_task d gone d' gone' ts1 t t' ts2 : task_step d t d' t' -> changes d gone d' gone' ->
      moves {| sy_db := d; sy_gone := gone; sy_tasks := ts1 ++ t :: ts2 |}
            {| sy_db := d'; sy_gone := gone'; sy_tasks := ts1 ++ t' :: ts2 |}
  | move_environment d gone d' gone' ts : environment d d' -> changes d gone d' gone' ->
      moves {| sy_db := d; sy_gone := gone; sy_tasks := ts |} {| sy_db := d'; sy_gone := gone'; sy_tasks := ts |}.
Definition user_of (t : task) : option Principal :=
  match t with Running user _ _ | Waiting user _ _ _ _ => user end.
Definition initial : system := {| sy_db := empty_db; sy_gone := ∅; sy_tasks := [] |}.
Definition running (s : system) : Prop := rtc moves initial s.
End backend.
