(* ===== verification/BackendFacts.v ===== *)
(** * BackendFacts: the service uses its store as the store expects

    However requests, callbacks and sweeps interleave, the database they share is
    one that the theorems of RecordStoreFacts speak of.  What has to be shown is that
    the one place where the service saves the record of a generation itself, at the
    start of the generation, edits the version it read. *)

From S2P Require Import Prelude Text RustStr Json Serde Authoring Template CompilerTools Proc Authorization Pengolo.
From S2P Require Import Agents Activity Workspace WorkspaceFacts Database RecordStore TxLogic RecordStoreInv RecordStoreLog.
From S2P Require Import RecordStoreFacts RecordStoreVersions Delegation Backend.

Section facts.
Context `{Externals} `{Uuids} `{ActivityExternals} `{WorkspaceExternals} `{Digests} `{Zip} `{Postgres}.
Context (to_lowercase : string -> string) (chatgpt_callback : option string).
Implicit Types (d : db) (gone : gset (bool * string * string)) (es : list event).

(** ** Programs that save generations only as edits *)
Definition edit_guard es (e : event) : Prop :=
  let '@Event _ B c _ := e in
  match c with StoreSave t CGeneration r temporary expected => edits_generation es t r temporary expected | _ => True end.
Definition careful {A} es (p : prog A) : Prop := safe edit_guard es p (fun _ _ => True).
Lemma confined_careful a es e : confined a es e -> edit_guard es e.
Proof. destruct e as [B c answer]. destruct c; simpl; try done. intros (_ & _ & Hm). by destruct c. Qed.
(** Programs that save no generation. *)
Fixpoint calm {A} (p : prog A) : Prop :=
  match p with
  | Done _ => True
  | Do c k => match c with StoreSave _ CGeneration _ _ _ => False | _ => True end /\ forall answer, calm (k answer)
  end.
Lemma calm_careful {A} (p : prog A) es : calm p -> careful es p.
Proof.
  unfold careful. revert es. induction p as [r|B c k IH]; intros es; simpl; [done|]. intros [Hc Hk] answer. split; [|by apply IH].
  destruct c; try done. by destruct c.
Qed.
Lemma calm_then {A B} (p : prog A) (f : result A -> prog B) : calm p -> (forall r, calm (f r)) -> calm (proc_then p f).
Proof. induction p as [r|C c k IH]; simpl; [auto|]. intros [Hc Hk] Hf. split; [done|]. intros answer. by apply IH. Qed.
Lemma calm_bind {A B} (p : prog A) (f : A -> prog B) : calm p -> (forall a, calm (f a)) -> calm (p ≫= f).
Proof. intros Hp Hf. apply calm_then; [done|]. by intros [a|]. Qed.
Lemma calm_attempt {A} (p : prog A) : calm p -> calm (attempt p).
Proof. intros Hp. by apply calm_then. Qed.
Lemma calm_call {B} (c : call B) :
  match c with StoreSave _ CGeneration _ _ _ => False | _ => True end -> calm (await c).
Proof. by split. Qed.
Create HintDb calm.
#[local] Hint Extern 0 (calm (Done _)) => exact I : calm.
#[local] Hint Extern 0 (calm (ok _)) => exact I : calm.
#[local] Hint Extern 0 (calm (lift _)) => exact I : calm.
#[local] Hint Extern 0 (calm (check _ _)) => exact I : calm.
#[local] Hint Extern 0 (calm (require _ _)) => exact I : calm.
#[local] Hint Extern 0 (calm (await _)) => apply calm_call; exact I : calm.
#[local] Hint Extern 0 (calm (allowed _ _ _ _)) => apply calm_call; exact I : calm.
Ltac calm_ := repeat first
  [ solve [auto with calm]
  | match goal with
    | |- calm (_ ≫= _) => apply calm_bind; [|intros ?]
    | |- calm (attempt _) => apply calm_attempt
    | |- calm (proc_then _ _) => apply calm_then; [|intros ?]
    | |- calm (match ?x with _ => _ end) => destruct x
    | |- calm (let _ := _ in _) => cbv zeta
    end ].
Lemma verify_user_calm tenant user : calm (verify_user tenant user).
Proof. unfold verify_user. calm_. Qed.
#[local] Hint Resolve verify_user_calm : calm.
Lemma verify_calm a : calm (verify a).
Proof. unfold verify. calm_. Qed.
#[local] Hint Resolve verify_calm : calm.
Lemma project_calm a id : calm (project a id).
Proof. unfold project. calm_. Qed.
#[local] Hint Resolve project_calm : calm.
Lemma authorize_record_calm a r : calm (authorize_record a r).
Proof. unfold authorize_record. calm_. Qed.
#[local] Hint Resolve authorize_record_calm : calm.
Lemma file_calm a id session ready : calm (file a id session ready).
Proof. unfold file. calm_. Qed.
#[local] Hint Resolve file_calm : calm.
Lemma evidence_visible_calm a sources : calm (evidence_visible a sources).
Proof. induction sources as [|s sources IH]; simpl; [calm_|]. unfold source_visible. calm_. Qed.
#[local] Hint Resolve evidence_visible_calm : calm.
Lemma authorize_generation_calm a g temporary : calm (authorize_generation a g temporary).
Proof. unfold authorize_generation. calm_. Qed.
#[local] Hint Resolve authorize_generation_calm : calm.
Lemma accept_output_calm capability id event : calm (accept_output capability id event).
Proof. unfold accept_output, within. calm_. Qed.
Lemma cleanup_calm : calm workspace_cleanup.
Proof.
  assert (forall tenant expired, calm (purge_objects tenant expired)) as Hpurge by (induction expired; cbn [purge_objects]; calm_).
  assert (forall tenant expired, calm (remove_records tenant expired)) as Hremove
    by (induction expired as [|[[c r] temporary] expired IH]; cbn [remove_records]; calm_).
  unfold workspace_cleanup. calm_. match goal with |- calm (cleanup_workspaces ?ts) => induction ts; cbn [cleanup_workspaces]; calm_ end.
Qed.
Lemma authorize_compiler_calm capability request : calm (authorize_compiler capability request).
Proof.
  unfold authorize_compiler, generation_project, admit_request, admit_creation, admit_scope, admit_action. calm_.
Qed.
#[local] Hint Resolve authorize_compiler_calm : calm.
Lemma save_compiled_artifact_calm a g token artifact : calm (save_compiled_artifact a g token artifact).
Proof. unfold save_compiled_artifact, generation_project. calm_. Qed.
#[local] Hint Resolve save_compiled_artifact_calm : calm.
Lemma compiler_templates_calm token operation : calm (compiler_templates token operation).
Proof.
  assert (forall a entries, calm (plugin_catalog a entries)) as Hcatalog by (induction entries; cbn [plugin_catalog]; calm_).
  assert (forall a entries, calm (install_plugins a token entries)) as Hinstall by (induction entries; cbn [install_plugins]; calm_).
  unfold compiler_templates, compiler_actor. calm_.
Qed.
Lemma save_compiled_batch_calm token jobs name : calm (save_compiled_batch token jobs name).
Proof.
  assert (forall archive index jobs, calm (add_documents token archive index jobs)) as Hadd.
  { intros archive index jobs'. revert archive index. induction jobs'; intros archive index; cbn [add_documents]; calm_. }
  unfold save_compiled_batch, compiler_actor. calm_.
Qed.
Lemma request_careful a A (p : prog A) : user_request chatgpt_callback a A p -> careful [] p.
Proof.
  intros Hp%request_safe. eapply safe_conseq; [|eapply safe_weaken; [|exact Hp]]; [done|]. intros es e. apply confined_careful.
Qed.
Lemma entry_careful user A (p : prog A) : entry_point chatgpt_callback user A p -> careful [] p.
Proof.
  destruct 1 as [a A p Hp| | | | | |]; [by eapply request_careful|apply calm_careful..];
    auto using accept_output_calm, cleanup_calm, authorize_compiler_calm, compiler_templates_calm,
    save_compiled_artifact_calm, save_compiled_batch_calm.
Qed.

(** ** Methods of several transactions *)
Fixpoint expected {A} (tenant : option string) (method : sprog A) : Prop :=
  match method with
  | Done _ => True
  | Do c k =>
      match c with
      | Transact t body => (forall d, operation to_lowercase d t _ body) /\ is_none_or (fun u => String.eqb t u) tenant = true
      | _ => True
      end /\ forall answer, expected tenant (k answer)
  end.
Lemma expected_then {A B} tenant (p : sprog A) (f : result A -> sprog B) :
  expected tenant p -> (forall r, expected tenant (f r)) -> expected tenant (proc_then p f).
Proof. induction p as [r|C c k IH]; simpl; [auto|]. intros [Hc Hk] Hf. split; [done|]. intros answer. by apply IH. Qed.
Lemma expected_bind {A B} tenant (p : sprog A) (f : A -> sprog B) :
  expected tenant p -> (forall a, expected tenant (f a)) -> expected tenant (p ≫= f).
Proof. intros Hp Hf. apply expected_then; [done|]. by intros [a|]. Qed.
Ltac operation_ := lazymatch goal with
  | |- operation _ _ _ _ (get_record _ _ _) => apply op_get
  | |- operation _ _ _ _ (append _ _ _ _) => apply op_append
  | |- operation _ _ _ _ (save _ CProject _ _ _) => apply op_save; discriminate
  | |- operation _ _ _ _ (RecordStore.check_roles _ _ _) => apply op_check_roles
  | |- operation _ _ _ _ (overdue _) => apply op_overdue
  | |- operation _ _ _ _ (expired_rows _) => apply op_expired_rows
  | |- operation _ _ _ _ (promote_file _ _ _ _) => apply op_promote
  | |- operation _ _ _ _ (refresh_file_retention _ _ _) => apply op_refresh
  | |- operation _ _ _ _ (expire_file _ _ _) => apply op_expire_file
  | |- operation _ _ _ _ (purge_file _ _ _ _) => apply op_purge
  | |- operation _ _ _ _ (reserve_file _ _ _ _) => apply op_reserve_file
  | |- operation _ _ _ _ (list_records _ _ _ _) => apply op_list
  | |- operation _ _ _ _ (list_scoped _) => by apply op_list_scoped
  | |- operation _ _ _ _ (remove _ _ _ _) => apply op_remove
  | |- operation _ _ _ _ (expire_temporary _ _ _) => apply op_expire_temporary
  | |- operation _ _ _ _ (reserve _ _ _ _) => apply op_reserve
  | |- operation _ _ _ _ (RecordStore.events _ _ _ _) => apply op_events
  | |- operation _ _ _ _ (generation_capability _ _) => apply op_generation_capability
  | |- operation _ _ _ _ (record_evidence _ _ _ _) => apply op_record_evidence
  | |- operation _ _ _ _ (expired_objects _) => apply op_expired_objects
  end.
Lemma expected_weaken {A} tenant (p : sprog A) : expected tenant p -> expected None p.
Proof. induction p as [r|B c k IH]; simpl; [done|]. intros [Hc Hk]. split; [|auto]. by destruct c; naive_solver. Qed.
Ltac expected_ := repeat match goal with
  | |- expected _ (_ ≫= _) => apply expected_bind; [|intros ?]
  | |- expected _ (attempt _) => apply expected_then; [|done]
  | |- expected _ (ok _) => exact I
  | |- expected _ (lift _) => exact I
  | |- expected _ (check _ _) => exact I
  | |- expected _ (require _ _) => exact I
  | |- expected _ (match ?x with _ => _ end) => destruct x
  | |- expected _ (await (Transact _ _)) => split; [split; [intros ?; operation_|first [apply String.eqb_refl|reflexivity]]|done]
  | |- expected _ (await _) => by split
  end.
Lemma expire_each_expected tenant temporary ids : expected (Some tenant) (expire_each tenant temporary ids).
Proof. induction ids as [|id ids IH]; cbn [expire_each]; expected_; done. Qed.
Lemma set_readers_expected tenant tenant' project roles enabled : expected tenant (set_readers tenant' project roles enabled).
Proof. induction roles as [|role roles IH]; cbn [set_readers]; expected_; done. Qed.
Lemma save_project_expected tenant r revision : expected (Some tenant) (RecordStore.save_project tenant r revision).
Proof.
  unfold RecordStore.save_project, project_roles. expected_; apply set_readers_expected.
Qed.
Lemma expire_leases_expected tenant : expected (Some tenant) (expire_leases tenant).
Proof. unfold expire_leases. expected_; apply expire_each_expected. Qed.
Lemma expired_expected tenant : expected (Some tenant) (RecordStore.expired tenant).
Proof. unfold RecordStore.expired. expected_. Qed.
Lemma resolve_expected capability : expected None (resolve_capability capability).
Proof. unfold resolve_capability. expected_. Qed.

(** ** What a task saw of a generation

    Unless the generation was removed, its record has moved on from the version
    the task read, or is still that version. *)
Definition seen d gone (tenant id : string) (temporary : bool) (g : PengoloRecord) : Prop :=
  rc_id g = id /\
  (validate_tenant_id tenant = Ok tenant -> (temporary, tenant, id) ∈ gone \/
   exists r, table temporary d !! gen_key tenant id = Some r /\ (rc_revision g <= row_revision r)%Z /\
     (rc_revision g = row_revision r -> row_data r = rc_data g)).
Definition seen_answer d gone {B} (c : call B) (answer : result B) : Prop :=
  match c in call B return result B -> Prop with
  | StoreGet tenant CGeneration id temporary => fun answer =>
      match answer with Ok (Some g) => seen d gone tenant id temporary g | _ => True end
  | _ => fun _ => True
  end answer.
Definition seen_event d gone (e : event) : Prop := let '@Event _ B c answer := e in seen_answer d gone c answer.
Definition absent d gone : Prop := forall key, key ∈ gone -> ~ has_generation d key.
Definition advances d d' : Prop := d' = d \/ step to_lowercase d d'.

Lemma advances_newer d d' temporary key r r' :
  advances d d' -> table temporary d !! key = Some r -> table temporary d' !! key = Some r' -> newer_version r r'.
Proof.
  intros [->|Hs] Hr Hr'; [by simplify_eq|]. eapply storing_newer; [|exact Hr|exact Hr']. apply rtc_once. split; [exact Hs|by eexists].
Qed.
Lemma changes_absent d gone d' gone' : changes d gone d' gone' -> absent d' gone'.
Proof.
  intros [Hfresh Hgone] key [Hk|[_ Hk]]%Hgone; [|done]. intros Hd. by eapply Hfresh.
Qed.
Lemma seen_stable d gone d' gone' tenant id temporary g :
  advances d d' -> changes d gone d' gone' -> seen d gone tenant id temporary g -> seen d' gone' tenant id temporary g.
Proof.
  intros Hadv [_ Hgone] [Hid Hs]. split; [done|]. intros Ht. destruct (Hs Ht) as [Hg|(r & Hr & Hle & Heq)].
  { left. apply Hgone. by left. }
  destruct (table temporary d' !! gen_key tenant id) as [r'|] eqn:Hr'.
  - right. exists r'. destruct (advances_newer _ _ _ _ _ _ Hadv Hr Hr') as [Hv Hsame]. split_and!; [done|lia|]. intros Hrev.
    destruct Hsame as [Hdata _]; [lia|]. rewrite Hdata. apply Heq. lia.
  - left. apply Hgone. right. split; [by eexists|]. intros [r' Hr'']. unfold gen_key in Hr'. simpl in Hr''. congruence.
Qed.
Lemma seen_event_stable d gone d' gone' e :
  advances d d' -> changes d gone d' gone' -> seen_event d gone e -> seen_event d' gone' e.
Proof.
  intros Hadv Hch. destruct e as [B c answer]. unfold seen_event, seen_answer. destruct c; try done. destruct c; try done.
  destruct answer as [[g|]|]; try done. by eapply seen_stable.
Qed.
Lemma get_seen d gone tenant id temporary e d' calls answer :
  env_ok e -> transaction tenant (get_record CGeneration id temporary) e d = (d', calls, answer) ->
  seen_answer d' gone (StoreGet tenant CGeneration id temporary) answer.
Proof.
  intros He Hrun. destruct answer as [[g|]|]; simpl; try done.
  assert (exists context r, validate_tenant_id tenant = Ok context /\ table temporary d' !! gen_key context id = Some r /\ g = to_record id r)
    as (context & r & Ht & Hr & ->).
  { eapply (txwp_transaction_ok _ _ _ _ _ _ _ (fun o d' => forall g, o = Some g -> exists context r, validate_tenant_id tenant = Ok context /\
      table temporary d' !! gen_key context id = Some r /\ g = to_record id r) He Hrun); [|done].
    intros context Ht. apply txwp_read. intros t g' (r & Hr & ->)%read_row. by exists context, r. }
  split; [done|]. intros Ht'. right. exists r. rewrite Ht in Ht'. injection Ht' as ->. split_and!; [done|simpl; lia|done].
Qed.

(** ** Saving a generation *)
Lemma insert_member_other message key v data data' k :
  insert_member message key v data = Ok data' -> k <> key -> get data' k = get data k.
Proof.
  unfold insert_member. destruct data; try done. intros [= <-] Hk. simpl. rewrite jget_jinsert. by rewrite decide_False by congruence.
Qed.
Lemma save_refused tenant c r temporary expected e d :
  env_ok e -> c <> CAgent -> (forall context, validate_tenant_id tenant = Ok context -> tenant <> context) ->
  (transaction tenant (save tenant c r temporary expected) e d).1.1 = d.
Proof.
  intros He Hc Ht. apply (txwp_transaction _ _ _ _ (fun d' => d' = d)); [done..|]. intros context Hctx.
  apply txwp_bind. rewrite bool_decide_eq_false_2 by done. apply txwp_nothing. apply txwp_bind, txwp_write.
  intros updated data revision Heq. by destruct (Ht context Hctx).
Qed.
Lemma save_operation es d gone tenant r temporary expected e :
  env_ok e -> absent d gone -> Forall (seen_event d gone) es -> edits_generation es tenant r temporary expected ->
  (transaction tenant (save tenant CGeneration r temporary expected) e d).1.1 = d \/
  operation to_lowercase d tenant _ (save tenant CGeneration r temporary expected).
Proof.
  intros He Habs Hseen (id & g & authority & data & Hin & Hdata & -> & ->).
  pose proof (proj1 (Forall_forall _ _) Hseen _ Hin) as [Hid Hs]. subst id.
  destruct (decide (validate_tenant_id tenant = Ok tenant)) as [Ht|Ht].
  - right. apply op_save_generation. intros old Hold Hv k Hk. simpl in *.
    destruct (Hs Ht) as [Hg|(row & Hrow & _ & Heq)]; [destruct (Habs _ Hg); by eexists|]. unfold gen_key in Hrow. simplify_eq.
    rewrite Heq by done. eapply insert_member_other; [exact Hdata|]. by intros ->.
  - left. apply save_refused; [done..|]. intros context Hc <-. done.
Qed.

(** ** Steps of the service are steps of the store *)
Lemma once_operation {B} (c : call B) : forall es d gone tenant body e answer,
  store_port to_lowercase c = Once _ tenant body -> env_ok e ->
  edit_guard es (Event c answer) -> Forall (seen_event d gone) es -> absent d gone ->
  (transaction tenant body e d).1.1 = d \/ operation to_lowercase d tenant B body.
Proof.
  intros es d gone tenant body e answer Hport He Hg Hseen Habs.
  destruct c; simpl in Hport; try discriminate Hport; injection Hport as <- <-; try (right; solve [operation_]).
  destruct (decide (c = CGeneration)) as [->|Hc]; [by eapply save_operation|]. right. by apply op_save.
Qed.
Lemma once_seen {B} (c : call B) : forall d gone tenant body e d' calls answer,
  store_port to_lowercase c = Once _ tenant body -> env_ok e -> transaction tenant body e d = (d', calls, answer) ->
  seen_answer d' gone c answer.
Proof.
  destruct c; intros d gone t body e d' calls a' Hport He Hrun; simpl in Hport; try discriminate Hport; try exact I.
  injection Hport as <- <-. destruct c; try exact I. by eapply get_seen.
Qed.
Lemma port_seen {B} (c : call B) d gone answer : store_port to_lowercase c = Elsewhere _ -> seen_answer d gone c answer.
Proof. by destruct c. Qed.
Lemma many_seen {B} (c : call B) method d gone answer : store_port to_lowercase c = Many _ method -> seen_answer d gone c answer.
Proof. by destruct c. Qed.
Lemma many_expected {B} (c : call B) : forall method, store_port to_lowercase c = Many _ method -> expected None method.
Proof.
  destruct c; intros method Hport; simpl in Hport; try discriminate Hport; injection Hport as <-;
    eauto using expected_weaken, save_project_expected, expire_leases_expected, expired_expected, resolve_expected.
  by split.
Qed.
Lemma environment_step d d' : environment d d' -> step to_lowercase d d'.
Proof. destruct 1; by econstructor. Qed.

(** ** The invariant of the system *)
Definition user_confined (user : option Principal) es {A} (p : prog A) : Prop :=
  if user is Some a then safe (confined a) es p (fun _ _ => True) else True.
Definition task_ok d gone (t : task) : Prop :=
  match t with
  | Running user p es => careful es p /\ user_confined user es p /\ Forall (seen_event d gone) es
  | Waiting user c method k es =>
      expected (pn_tenant <$> user) method /\ (forall d gone answer, seen_answer d gone c answer) /\
      (forall answer, careful (es ++ [Event c answer]) (k answer) /\ user_confined user (es ++ [Event c answer]) (k answer)) /\
      Forall (seen_event d gone) es
  end.
Record system_ok (s : system) : Prop := {
  system_reachable : reachable to_lowercase (sy_db s);
  system_absent : absent (sy_db s) (sy_gone s);
  system_tasks : Forall (task_ok (sy_db s) (sy_gone s)) (sy_tasks s);
}.
Lemma entry_confined user A (p : prog A) : entry_point chatgpt_callback user A p -> user_confined user [] p.
Proof. destruct 1 as [a A p Hp| | | | | |]; try done. apply request_safe in Hp. by eapply safe_conseq; [|exact Hp]. Qed.
Lemma task_ok_stable d gone d' gone' t :
  advances d d' -> changes d gone d' gone' -> task_ok d gone t -> task_ok d' gone' t.
Proof.
  intros Hadv Hch. assert (forall es, Forall (seen_event d gone) es -> Forall (seen_event d' gone') es) as Hes.
  { intros es Hes. eapply Forall_impl; [exact Hes|]. intros e. by apply seen_event_stable. }
  destruct t as [A user p es|A B user c method k es]; simpl; naive_solver.
Qed.
Lemma once_tenant {B} (c : call B) a es tenant body :
  store_port to_lowercase c = Once _ tenant body -> permitted a es c -> tenant = pn_tenant a.
Proof. destruct c; simpl; try discriminate; intros [= <- _]; naive_solver. Qed.
Lemma many_tenant {B} (c : call B) a es : forall method,
  store_port to_lowercase c = Many _ method -> permitted a es c -> expected (Some (pn_tenant a)) method.
Proof.
  destruct c; simpl; intros method Hport; try discriminate Hport; injection Hport as <-; try done.
  - intros (-> & _). apply save_project_expected.
  - intros ->. apply expire_leases_expected.
Qed.
Lemma transaction_effect d B tenant (body : string -> tx B) e d' calls answer :
  env_ok e -> transaction tenant body e d = (d', calls, answer) ->
  (transaction tenant body e d).1.1 = d \/ operation to_lowercase d tenant B body ->
  advances d d' /\ isolated (trim tenant) d d'.
Proof.
  intros He Ht. assert (d' = (transaction tenant body e d).1.1) as -> by by rewrite Ht.
  intros [->|Hop]; [split; [by left|done]|]. split; [right; by eapply step_transaction|by eapply transaction_isolated].
Qed.
(** What a step of a task does to the database. *)
Lemma step_effect d gone t d' t' :
  task_step to_lowercase d t d' t' -> absent d gone -> task_ok d gone t ->
  advances d d' /\ (forall a, user_of t = Some a -> isolated (trim (pn_tenant a)) d d').
Proof.
  intros Hstep Habs Hok. assert (advances d d /\ forall context, isolated context d d) as [Hsame Hrefl] by (split; [by left|done]).
  destruct Hstep as [| user A B c k es tenant body e d' calls answer Hport He Ht| |user A B C c k es tenant body next e d' calls answer He Ht| |];
    [by split| |by split| |by split..].
  - destruct Hok as (Hc & Hu & Hes). destruct (Hc answer) as [Hg _].
    destruct (transaction_effect _ _ _ _ _ _ _ _ He Ht) as [Hadv Hiso]; [by eapply once_operation|]. split; [done|].
    intros a [= ->]. destruct (Hu answer) as [Hp _]. by rewrite <-(once_tenant _ _ _ _ _ Hport Hp).
  - destruct Hok as ([[Hop Htn] _] & _). destruct (transaction_effect _ _ _ _ _ _ _ _ He Ht) as [Hadv Hiso]; [by right|]. split; [done|].
    intros a [= ->]. simpl in Htn. by apply String.eqb_eq in Htn as <-.
Qed.
(** What it knows afterwards. *)
Lemma step_ok d gone t d' gone' t' :
  task_step to_lowercase d t d' t' -> advances d d' -> changes d gone d' gone' -> task_ok d gone t -> task_ok d' gone' t'.
Proof.
  intros Hstep Hadv Hch Hok. assert (task_ok d' gone' t) as Hstable by by eapply task_ok_stable.
  destruct Hstep as [user A B c k es answer Hport|user A B c k es tenant body e d' calls answer Hport He Ht
    |user A B c k es method Hport|user A B C c k es tenant body next e d' calls answer He Ht
    |user A B C c k es s next answer Hs|user A B c k es answer].
  - destruct Hok as (Hc & Hu & _), Hstable as (_ & _ & Hes). destruct (Hc answer) as [_ Hc']. split_and!; [done| |].
    + destruct user as [a|]; [by destruct (Hu answer)|done].
    + apply Forall_app. split; [done|]. apply Forall_singleton. by apply port_seen.
  - destruct Hok as (Hc & Hu & _), Hstable as (_ & _ & Hes). destruct (Hc answer) as [_ Hc']. split_and!; [done| |].
    + destruct user as [a|]; [by destruct (Hu answer)|done].
    + apply Forall_app. split; [done|]. apply Forall_singleton. by eapply once_seen.
  - destruct Hok as (Hc & Hu & _), Hstable as (_ & _ & Hes). split_and!; [| |intros answer|done].
    + destruct user as [a|]; [|by eapply many_expected]. destruct (Hu (Err (Msg EmptyString))) as [Hp _]. by eapply many_tenant.
    + intros. by eapply many_seen.
    + split; [by destruct (Hc answer)|]. destruct user as [a|]; [by destruct (Hu answer)|done].
  - destruct Hok as ([_ Hm] & Hseen & Hk & _), Hstable as (_ & _ & _ & Hes). done.
  - destruct Hok as ([_ Hm] & Hseen & Hk & _), Hstable as (_ & _ & _ & Hes). done.
  - destruct Hok as (_ & Hseen & Hk & _), Hstable as (_ & _ & _ & Hes). destruct (Hk answer) as [Hc Hu].
    split_and!; [done..|]. apply Forall_app. split; [done|]. apply Forall_singleton. apply Hseen.
Qed.
Lemma moves_ok s s' : moves to_lowercase chatgpt_callback s s' -> system_ok s -> system_ok s'.
Proof.
  intros Hmove [Hr Habs Hts].
  assert (forall d gone d' gone' ts, changes d gone d' gone' -> advances d d' -> reachable to_lowercase d -> Forall (task_ok d gone) ts ->
    reachable to_lowercase d' /\ absent d' gone' /\ Forall (task_ok d' gone') ts) as Hchange.
  { intros d gone d' gone' ts Hch Hadv Hd Hall. split_and!; [|by eapply changes_absent|].
    - destruct Hadv as [->|Hs]; [done|]. by eapply rtc_r.
    - eapply Forall_impl; [exact Hall|]. intros t. by apply task_ok_stable. }
  destruct Hmove as [d gone ts user A p Hp|d gone ts1 t ts2|d gone d' gone' ts1 t t' ts2 Hstep Hch|d gone d' gone' ts Henv Hch]; simpl in *.
  - split; [done..|]. constructor; [|done]. split_and!; [by eapply entry_careful|by eapply entry_confined|constructor].
  - split; [done..|]. simpl. apply Forall_app in Hts as [H1' [_ H2']%Forall_cons]. by apply Forall_app.
  - apply Forall_app in Hts as [H1' [Ht H2']%Forall_cons]. destruct (step_effect _ _ _ _ _ Hstep Habs Ht) as [Hadv _].
    pose proof (step_ok _ _ _ _ _ _ Hstep Hadv Hch Ht) as Ht'.
    destruct (Hchange d gone d' gone' (ts1 ++ ts2) Hch Hadv Hr) as (Hr' & Ha' & [H1'' H2'']%Forall_app); [by apply Forall_app|].
    split; [done..|]. simpl. apply Forall_app. split; [done|]. by constructor.
  - destruct (Hchange d gone d' gone' ts Hch) as (Hr' & Ha' & Hts'); [right; by apply environment_step|done..|]. by split.
Qed.
Lemma running_ok s : running to_lowercase chatgpt_callback s -> system_ok s.
Proof.
  revert s. apply (rtc_ind_r system_ok); [|intros s s' _ Hm Hok; by eapply moves_ok].
  split; [apply rtc_refl| |constructor]. intros key Hk. by apply elem_of_empty in Hk.
Qed.

(** ** The properties *)

(** C4: a request changes only the tenant of its user: in every state of the running
    service, whatever a user's request does next, every row of every other tenant
    stays as it is, in every table of the database. *)
Theorem request_isolated s t a d' t' :
  running to_lowercase chatgpt_callback s -> t ∈ sy_tasks s -> user_of t = Some a ->
  task_step to_lowercase (sy_db s) t d' t' -> isolated (trim (pn_tenant a)) (sy_db s) d'.
Proof.
  intros [_ Habs Hts]%running_ok Hin Hu Hstep. pose proof (proj1 (Forall_forall _ _) Hts _ Hin) as Ht.
  by destruct (step_effect _ _ _ _ _ Hstep Habs Ht) as [_ Hiso]; apply Hiso.
Qed.

Context `{!PostgresLaws}.
(** C2: the service keeps its database consistent: however the requests of users,
    the callbacks of agents, the document compiler and the sweeper interleave on one
    database, with failing statements, lost commits, dropped requests and crashes of
    PostgreSQL, the database is one that the record store allows, and the output of
    every generation is a log without gaps that agrees with its record; provided that
    the idempotency key of a removed generation is not used again. *)
Theorem service_keeps_the_log s :
  running to_lowercase chatgpt_callback s ->
  reachable to_lowercase (sy_db s) /\
  forall temporary tenant id r, table temporary (sy_db s) !! gen_key tenant id = Some r ->
    exists log, stores_log (sy_db s) temporary tenant id log /\ agrees (row_data r) log.
Proof.
  intros [Hr _ _]%running_ok. split; [done|]. intros temporary tenant id r Hrow.
  destruct (reachable_invariant _ _ Hr) as [_ Hl]. by eapply log_generation.
Qed.
End facts.
