(* ===== verification/BackendDemo.v ===== *)
(** * BackendDemo: a prompt from the service to the database

    A driver that runs one task step by step, and the request of a user who sends a
    prompt, through every call of the service and every transaction of the store.
    [reused_key_overwrites] is what happens when the key of a removed generation is
    used again. *)

From S2P Require Import Prelude Text RustStr Json Serde Authoring Template CompilerTools Proc Authorization Pengolo.
From S2P Require Import Agents Activity Workspace WorkspaceFacts Database RecordStore TxLogic RecordStoreInv RecordStoreLog.
From S2P Require Import RecordStoreFacts RecordStoreVersions RecordStoreDemo Delegation Backend BackendFacts.

#[local] Existing Instances store_externals store_uuids store_activity store_postgres store_postgres_laws.
#[local] Instance host_encodings : WorkspaceExternals :=
  {| url_encode s := s; base64_decode := Some; default_hash _ := EmptyString |}.
#[local] Instance host_digests : Digests := {| sha256 s := s; base64_encode s := s |}.
#[local] Instance host_zip : Zip :=
  {| ZipWriter := string; zip_new := EmptyString; zip_start_file w _ := Ok w; zip_write_all w s := Ok (w +:+ s); zip_finish := Ok |}.

(** ** Running a task *)
Section driver.
Context (port : forall B, call B -> result B) (e : env).
Definition drive1 (d : db) (t : task) : option (db * task) :=
  match t with
  | Running user (Done _) _ => None
  | Running user (Do c k) es =>
      match store_port lower_id c with
      | Elsewhere _ => Some (d, Running user (k (port _ c)) (es ++ [Event c (port _ c)]))
      | Once _ tenant body =>
          let run := transaction tenant body e d in Some (run.1.1, Running user (k run.2) (es ++ [Event c run.2]))
      | Many _ method => Some (d, Waiting user c method k es)
      end
  | Waiting user c (Done answer) k es => Some (d, Running user (k answer) (es ++ [Event c answer]))
  | Waiting user c (Do s next) k es =>
      match s in store_call C return (result C -> _) -> _ with
      | Transact tenant body => fun next =>
          let run := transaction tenant body e d in Some (run.1.1, Waiting user c (next run.2) k es)
      | CapabilityScope token => fun next => Some (d, Waiting user c (next (pengolo_capability token (ev_clock e 0) d)) k es)
      | TenantsDue => fun next => Some (d, Waiting user c (next (Ok (pengolo_cleanup_tenants (ev_clock e 0) d))) k es)
      | LockLifecycle _ | ReleaseLifecycle _ | WriteTuples _ _ _ => fun next => Some (d, Waiting user c (next (Ok tt)) k es)
      end next
  end.
Lemma transaction_parts {A} tenant (body : string -> tx A) d :
  transaction tenant body e d = ((transaction tenant body e d).1.1, (transaction tenant body e d).1.2, (transaction tenant body e d).2).
Proof. by destruct (transaction tenant body e d) as [[? ?] ?]. Qed.
Lemma drive1_step d t d' t' : env_ok e -> drive1 d t = Some (d', t') -> task_step lower_id d t d' t'.
Proof.
  intros He. destruct t as [A user [r|B c k] es|A B user c [r|C s next] k es]; simpl; [done| | |].
  - destruct (store_port lower_id c) as [tenant body|method|] eqn:Hport; intros [= <- <-].
    + eapply step_once; [exact Hport|exact He|apply transaction_parts].
    + by apply step_call.
    + by apply step_port.
  - intros [= <- <-]. apply step_return.
  - destruct s; intros [= <- <-]; try (by apply step_answer).
    + eapply step_transact; [exact He|apply transaction_parts].
    + apply step_answer. eexists. by left.
    + apply step_answer. eexists. by left.
Qed.
(** No generation is removed. *)
Definition keeps_generations (d d' : db) : bool :=
  forallb (fun temporary => forallb (fun kr => negb (String.eqb kr.1.1.2 "generation") || option_is_some (table temporary d' !! kr.1))
    (map_to_list (table temporary d))) [false; true].
Lemma keeps_changes d d' : keeps_generations d d' = true -> changes d ∅ d' ∅.
Proof.
  intros Hk. split; [set_solver|]. intros [[temporary tenant] id]. split; [by left|]. intros [Hin|[[r Hr] Hn]]; [done|]. exfalso. apply Hn.
  unfold keeps_generations in Hk. rewrite forallb_forall in Hk. specialize (Hk temporary). rewrite forallb_forall in Hk.
  simpl in Hr. assert (In temporary [false; true]) as Ht by (destruct temporary; simpl; auto). specialize (Hk Ht ((tenant, "generation"%string, id), r)).
  rewrite <-list_elem_of_In, elem_of_map_to_list in Hk. specialize (Hk Hr). simpl in Hk.
  unfold has_generation. simpl. by destruct (table temporary d' !! _).
Qed.
Fixpoint drive (n : nat) (d : db) (t : task) : db * task :=
  match n with
  | 0 => (d, t)
  | S n =>
      match drive1 d t with
      | Some (d', t') => if keeps_generations d d' then drive n d' t' else (d, t)
      | None => (d, t)
      end
  end.
Lemma drive_moves n d t : env_ok e ->
  rtc (moves lower_id None) {| sy_db := d; sy_gone := ∅; sy_tasks := [t] |}
    {| sy_db := (drive n d t).1; sy_gone := ∅; sy_tasks := [(drive n d t).2] |}.
Proof.
  intros He. revert d t. induction n as [|n IH]; intros d t; simpl; [apply rtc_refl|].
  destruct (drive1 d t) as [[d' t']|] eqn:Hd; [|apply rtc_refl]. destruct (keeps_generations d d') eqn:Hk; [|apply rtc_refl].
  eapply rtc_l; [|apply IH]. apply (move_task lower_id None d ∅ d' ∅ [] t t' []); [by apply drive1_step|by apply keeps_changes].
Qed.
End driver.

(** ** A prompt *)
Definition host_user : Principal := {| pn_tenant := "acme"; pn_user := "ann"; pn_context := default_context |}.
Definition host_world (B : Type) (c : call B) : result B :=
  match c in call B return result B with
  | GetUserStatus _ _ => Ok Active
  | IsAuthorized _ _ _ _ _ _ => Ok true
  | Models => Ok {| mc_models := [{| am_alias := "m"; am_provider := "p"; am_model := "m"; am_reasoning_efforts := ["medium"%string];
                      am_default_reasoning_effort := None |}]; mc_default_model := None |}
  | SubmitGeneration _ => Ok tt
  | NewUuid => Ok "aaaaaaaaaaaaaaaaaaaaaaaaaaaaaaaa"%string
  | NowMs => Ok 1000%Z
  | _ => Err (Foreign "unavailable")
  end.
Definition host_send : prog value := send None host_user (json_send gen_input).
Definition host_task : task := Running (Some host_user) host_send [].
Definition host_after (n : nat) : db * task := drive host_world (env_at 1000) n empty_db host_task.
Definition host_system (n : nat) : system :=
  {| sy_db := (host_after n).1; sy_gone := ∅; sy_tasks := [(host_after n).2] |}.
Lemma host_running n : running lower_id None (host_system n).
Proof.
  eapply rtc_l; [|apply drive_moves, env_at_ok]. apply (move_start lower_id None empty_db ∅ [] (Some host_user)).
  apply enter_request, ask_send.
Qed.
Definition finished (t : task) : bool := match t with Running _ (Done r) _ => is_Ok r | _ => false end.
(** The request succeeds, and leaves a running generation. *)
Lemma service_keeps_the_log_witness :
  finished (host_after 60).2 = true /\
  exists log, stores_log (host_after 60).1 false "acme" gen_id log /\
    agrees (row_data (the_row (host_after 60).1 "generation" gen_id)) log.
Proof.
  split; [vm_compute; reflexivity|].
  apply (proj2 (service_keeps_the_log lower_id None (host_system 60) (host_running 60))). vm_compute. reflexivity.
Defined.
(** The fourteenth step reserves the generation. *)
Definition host_reserving : option (db * task) := drive1 host_world (env_at 1000) (host_after 13).1 (host_after 13).2.
Definition host_reserved : db := from_option fst empty_db host_reserving.
Lemma request_isolated_witness :
  option_is_some (durable (host_after 13).1 !! ("acme", "generation", gen_id)%string) = false /\
  option_is_some (durable host_reserved !! ("acme", "generation", gen_id)%string) = true /\
  isolated (trim "acme") (host_after 13).1 host_reserved.
Proof.
  split; [vm_compute; reflexivity|]. split; [vm_compute; reflexivity|].
  assert (option_is_some host_reserving = true) as Hsome by (vm_compute; reflexivity).
  destruct host_reserving as [[d' t']|] eqn:Hr; [|discriminate Hsome].
  assert (host_reserved = d') as -> by (unfold host_reserved; rewrite Hr; reflexivity).
  apply (request_isolated lower_id None (host_system 13) (host_after 13).2 host_user d' t');
    [apply host_running|apply list_elem_of_here|vm_compute; reflexivity|].
  apply (drive1_step host_world (env_at 1000)); [apply env_at_ok|exact Hr].
Defined.

(** ** A key that is used again

    The transactions of [send], interrupted between the read and the save of
    [start_generation], while its user cancels the generation, deletes the chat and
    sends the prompt again. *)
Definition reuse_run {A} (body : string -> tx A) (d : db) : db * list object_call * result A := transaction "acme" body (env_at 1000) d.
Definition other_token : string := "00000000000000000000000000000000bbbbbbbbbbbbbbbbbbbbbbbbbbbbbbbb".
Definition cancelled : OutputEvent := {| oe_sequence := -1; oe_kind := "cancelled"; oe_content := EmptyString |}.
Definition authorized (r : result (option PengoloRecord)) : PengoloRecord :=
  match r with
  | Ok (Some g) =>
      match insert_member "Invalid generation" "authorization" (json_context default_context) (rc_data g) with
      | Ok data => with_data g data
      | Err _ => g
      end
  | _ => chat_titled EmptyString
  end.
Definition reuse_cancelled : db :=
  (reuse_run (append "acme" gen_id false cancelled)
    (reuse_run (record_evidence "acme" gen_id false [])
      (reuse_run (reserve "acme" "ann" gen_input gen_token) empty_db).1.1).1.1).1.1.
Definition reuse_read : result (option PengoloRecord) := (reuse_run (get_record CGeneration gen_id false) reuse_cancelled).2.
Definition reuse_sent_again : db :=
  (reuse_run (record_evidence "acme" gen_id false [])
    (reuse_run (reserve "acme" "ann" gen_input other_token)
      (reuse_run (remove "acme" CChat "0123456789abcdef0123456789abcdef" false) reuse_cancelled).1.1).1.1).1.1.
Definition reuse_started : db :=
  (reuse_run (save "acme" CGeneration (authorized (reuse_run (get_record CGeneration gen_id false) reuse_sent_again).2) false (Some 2%Z))
    reuse_sent_again).1.1.
Definition reuse_saved : db * list object_call * result PengoloRecord :=
  reuse_run (save "acme" CGeneration (authorized reuse_read) false (Some 3%Z)) reuse_started.
(** A record that is created again starts at revision one, so the revision that was
    read before its removal can name another content: the old save succeeds, and the
    new generation is cancelled although its log is empty and its capability is live. *)
Theorem reused_key_overwrites :
  get_str (row_data (the_row reuse_started "generation" gen_id)) "status" = Some "pending"%string /\
  is_Ok reuse_saved.2 = true /\
  get_str (row_data (the_row reuse_saved.1.1 "generation" gen_id)) "status" = Some "cancelled"%string /\
  durable_output reuse_saved.1.1 = ∅ /\
  pengolo_capability other_token 1000 reuse_saved.1.1 = Ok ("acme"%string, gen_id, false).
Proof. vm_compute. repeat split. Qed.
